(** * CodeVibes backend: the priority-tiered streaming analysis orchestrator

    A shallow embedding of the backend's core:
    - [utils/fileFilter.ts]   the file classifier,
    - [utils/tokenCounter.ts] the token and cost estimator,
    - [services/githubService.ts] the repository content gateway,
    - [services/deepseekService.ts] the analysis engine,
    - [services/analysisService.ts] the orchestrator,
    followed by the properties of the specification, each settled against
    these definitions. *)

From Stdlib Require Import ZArith Lia List Ascii String.
From Stdlib Require Import Floats.
From Stdlib Require Import Rbase Rbasic_fun Rfunctions Lra.
From stdpp Require Import base option list strings gmap pretty.

Local Open Scope Z_scope.
Local Open Scope string_scope.

(* The decimal rates 0.14 and 0.28 denote, as in JavaScript, the nearest doubles. *)
#[local] Set Warnings "-inexact-float,-register-all".

(** ** JavaScript strings

    A JS string is modelled as a Rocq [string], a character standing for
    the UTF-16 code unit of the same number (0 to 255); [String.length]
    plays the part of [.length]. *)

Module JsString.

Definition chars (s : string) : list ascii := list_ascii_of_string s.
Definition of_chars (l : list ascii) : string := string_of_list_ascii l.

(** [s.startsWith(p)] on character lists. *)
Fixpoint starts_with (p s : list ascii) : bool :=
  match p, s with
  | [], _ => true
  | _ :: _, [] => false
  | a :: p', b :: s' => Ascii.eqb a b && starts_with p' s'
  end.

(** Position of the first occurrence of [p] in [s], as [indexOf]. *)
Fixpoint index_of (p s : list ascii) : option nat :=
  if starts_with p s then Some 0%nat
  else match s with
       | [] => None
       | _ :: s' => S <$> index_of p s'
       end.

Definition startsWith (s p : string) : bool := starts_with (chars p) (chars s).

(** [s.includes(p)]. *)
Definition includes (s p : string) : bool := bool_decide (is_Some (index_of (chars p) (chars s))).

(** [p] is a suffix of [s]. *)
Definition ends_with (p s : list ascii) : bool := starts_with (rev p) (rev s).

(** The white space [\s] and [trim] recognise.  A character of a Rocq
    [string] stands for the UTF-16 code unit of the same number (0 to
    255); of the code units JS counts as white space or as a line
    terminator (U+0009 to U+000D, U+0020, U+00A0, U+1680, U+2000 to
    U+200A, U+2028, U+2029, U+202F, U+205F, U+3000 and U+FEFF), those in
    this range are tab, line feed, vertical tab, form feed, carriage
    return, space and the no-break space. *)
Definition is_space (c : ascii) : bool :=
  let n := nat_of_ascii c in
  ((9 <=? n)%nat && (n <=? 13)%nat) || (n =? 32)%nat || (n =? 160)%nat.

Fixpoint skip_space (s : list ascii) : list ascii :=
  match s with
  | c :: s' => if is_space c then skip_space s' else s
  | [] => []
  end.

Definition trim_chars (s : list ascii) : list ascii :=
  rev (skip_space (rev (skip_space s))).

Definition trim (s : string) : string := of_chars (trim_chars (chars s)).

(** [s.split(sep)[0]] for a one-character separator: the text before its
    first occurrence, the whole string when there is none. *)
Fixpoint before_char (sep : ascii) (s : list ascii) : list ascii :=
  match s with
  | [] => []
  | c :: s' => if Ascii.eqb c sep then [] else c :: before_char sep s'
  end.

(** [s.split('\n')]. *)
Fixpoint split_on (sep : ascii) (s : list ascii) : list (list ascii) :=
  match s with
  | [] => [[]]
  | c :: s' =>
      if Ascii.eqb c sep then [] :: split_on sep s'
      else match split_on sep s' with
           | [] => [[c]]
           | l :: ls => (c :: l) :: ls
           end
  end.

(** [s.replace(p, '')] with a string pattern: the first occurrence only. *)
Fixpoint remove_first (p s : list ascii) : list ascii :=
  if starts_with p s then drop (length p) s
  else match s with
       | [] => []
       | c :: s' => c :: remove_first p s'
       end.

(** [`${n}`] for an integer-valued number. *)
Definition of_Z (n : Z) : string := pretty n.

End JsString.

(** ** File filter ([utils/fileFilter.ts]) *)

Inductive PriorityLevel := P1 | P2 | P3.

#[global] Instance PriorityLevel_eq_dec : EqDecision PriorityLevel.
Proof. solve_decision. Defined.

Definition priority_number (p : PriorityLevel) : Z :=
  match p with P1 => 1 | P2 => 2 | P3 => 3 end.

Module FileFilter.

Definition IGNORE_PATTERNS : list string :=
  [ "node_modules/**"; "vendor/**"; "__pycache__/**"; ".venv/**"; "venv/**";
    "dist/**"; "build/**"; "out/**"; ".next/**"; ".nuxt/**"; ".output/**"; "target/**";
    ".git/**"; ".github/**"; ".gitlab/**"; ".svn/**";
    "coverage/**"; "test-results/**"; ".nyc_output/**";
    ".idea/**"; ".vscode/**"; "*.swp"; "*.swo"; ".DS_Store";
    "package-lock.json"; "yarn.lock"; "pnpm-lock.yaml"; "Gemfile.lock"; "poetry.lock";
    "composer.lock";
    "*.min.js"; "*.min.css"; "*.bundle.js";
    "*.png"; "*.jpg"; "*.jpeg"; "*.gif"; "*.ico"; "*.svg"; "*.webp"; "*.mp4"; "*.mp3";
    "*.wav"; "*.pdf"; "*.zip"; "*.tar"; "*.gz"; "*.woff"; "*.woff2"; "*.ttf"; "*.eot";
    "*.map"; "*.d.ts"; "generated/**"; "auto-generated/**" ].

Definition PRIORITY_1_PATTERNS : list string :=
  [ ".env"; ".env.local"; ".env.production"; ".env.development"; ".env.test"; "**/.env";
    "**/auth/**"; "**/authentication/**"; "**/authorization/**"; "**/security/**";
    "**/crypto/**"; "**/secrets/**";
    "**/config/**"; "**/configs/**"; "**/configuration/**"; "*.config.js"; "*.config.ts";
    "**/*secret*"; "**/*password*"; "**/*token*"; "**/*key*"; "**/*credential*";
    "**/*private*";
    "**/middleware/**"; "**/middlewares/**";
    "**/database/**"; "**/db/**"; "**/repositories/**"; "**/*.sql"; "**/queries/**";
    "**/migrations/**";
    "**/*cors*"; "**/access-control/**" ].

Definition PRIORITY_2_PATTERNS : list string :=
  [ "**/api/**"; "**/routes/**"; "**/router/**"; "**/endpoints/**";
    "**/controllers/**"; "**/services/**"; "**/handlers/**"; "**/use-cases/**";
    "**/usecases/**";
    "**/models/**"; "**/entities/**"; "**/schemas/**";
    "index.js"; "index.ts"; "main.js"; "main.ts"; "app.js"; "app.ts"; "server.js";
    "server.ts"; "main.py"; "app.py"; "__main__.py";
    "src/index.*"; "src/main.*"; "src/app.*"; "lib/**" ].

Definition PRIORITY_3_PATTERNS : list string :=
  [ "**/utils/**"; "**/utilities/**"; "**/helpers/**"; "**/common/**"; "**/shared/**";
    "**/lib/**";
    "**/components/**"; "**/views/**"; "**/pages/**"; "**/layouts/**"; "**/templates/**";
    "**/*.test.*"; "**/*.spec.*"; "**/test/**"; "**/tests/**"; "**/__tests__/**";
    "*.md"; "**/docs/**";
    "**/*.css"; "**/*.scss"; "**/*.less";
    "**/*.js"; "**/*.ts"; "**/*.jsx"; "**/*.tsx"; "**/*.py"; "**/*.java"; "**/*.go";
    "**/*.rb"; "**/*.php"; "**/*.rs" ].

Section Classifier.

(** [minimatch(filePath, pattern, { dot: true, matchBase: true })], the
    glob matcher of the [minimatch] package. *)
Variable minimatch : string -> string -> bool.

(** [patterns.some(pattern => minimatch(filePath, pattern, ...))] *)
Definition matchesAnyPattern (filePath : string) (patterns : list string) : bool :=
  existsb (fun pattern => minimatch filePath pattern) patterns.

Definition shouldIgnoreFile (filePath : string) : bool :=
  matchesAnyPattern filePath IGNORE_PATTERNS.

(** [null] (ignored) is [None]. *)
Definition getFilePriority (filePath : string) : option PriorityLevel :=
  if shouldIgnoreFile filePath then None
  else if matchesAnyPattern filePath PRIORITY_1_PATTERNS then Some P1
  else if matchesAnyPattern filePath PRIORITY_2_PATTERNS then Some P2
  else if matchesAnyPattern filePath PRIORITY_3_PATTERNS then Some P3
  else None.

Definition filterFilesByPriority (files : list string) (priority : PriorityLevel)
  : list string :=
  filter (fun file => getFilePriority file = Some priority) files.

Record Categorized := {
  priority1 : list string;
  priority2 : list string;
  priority3 : list string;
  ignored : list string;
}.

Definition categorizeFiles (files : list string) : Categorized :=
  foldl (fun result file =>
           match getFilePriority file with
           | Some P1 => {| priority1 := priority1 result ++ [file];
                           priority2 := priority2 result;
                           priority3 := priority3 result;
                           ignored := ignored result |}
           | Some P2 => {| priority1 := priority1 result;
                           priority2 := priority2 result ++ [file];
                           priority3 := priority3 result;
                           ignored := ignored result |}
           | Some P3 => {| priority1 := priority1 result;
                           priority2 := priority2 result;
                           priority3 := priority3 result ++ [file];
                           ignored := ignored result |}
           | None => {| priority1 := priority1 result;
                        priority2 := priority2 result;
                        priority3 := priority3 result;
                        ignored := ignored result ++ [file] |}
           end)
        {| priority1 := []; priority2 := []; priority3 := []; ignored := [] |}
        files.

(** The result of [categorizeLazy]: a field that was never set is [None]. *)
Record LazyCategorized := {
  lazy_priority1 : option (list string);
  lazy_priority2 : option (list string);
  lazy_priority3 : option (list string);
  lazy_ignored : option (list string);
}.

(** [field!.push(file)] *)
Definition push (file : string) (field : option (list string)) : option (list string) :=
  (fun l => (l ++ [file])%list) <$> field.

Definition categorizeLazy (files : list string) (priorities : list PriorityLevel)
  : LazyCategorized :=
  let shouldProcess1 := bool_decide (P1 ∈ priorities) in
  let shouldProcess2 := bool_decide (P2 ∈ priorities) in
  let shouldProcess3 := bool_decide (P3 ∈ priorities) in
  foldl (fun result file =>
           let priority := getFilePriority file in
           if bool_decide (priority = Some P1) && shouldProcess1 then
             {| lazy_priority1 := push file (lazy_priority1 result);
                lazy_priority2 := lazy_priority2 result;
                lazy_priority3 := lazy_priority3 result;
                lazy_ignored := lazy_ignored result |}
           else if bool_decide (priority = Some P2) && shouldProcess2 then
             {| lazy_priority1 := lazy_priority1 result;
                lazy_priority2 := push file (lazy_priority2 result);
                lazy_priority3 := lazy_priority3 result;
                lazy_ignored := lazy_ignored result |}
           else if bool_decide (priority = Some P3) && shouldProcess3 then
             {| lazy_priority1 := lazy_priority1 result;
                lazy_priority2 := lazy_priority2 result;
                lazy_priority3 := push file (lazy_priority3 result);
                lazy_ignored := lazy_ignored result |}
           else result)
        {| lazy_priority1 := if shouldProcess1 then Some [] else None;
           lazy_priority2 := if shouldProcess2 then Some [] else None;
           lazy_priority3 := if shouldProcess3 then Some [] else None;
           lazy_ignored := None |}
        files.

End Classifier.

Definition getPriorityName (priority : PriorityLevel) : string :=
  match priority with
  | P1 => "Security & Secrets"
  | P2 => "Core Business Logic"
  | P3 => "Supporting Code"
  end.

Definition getPriorityDescription (priority : PriorityLevel) : string :=
  match priority with
  | P1 => "Environment files, authentication, configuration, and security-related code"
  | P2 => "API endpoints, controllers, services, models, and database logic"
  | P3 => "Utilities, components, tests, and documentation"
  end.

End FileFilter.

(** ** Token counter ([utils/tokenCounter.ts])

    Token counts are integers ([Z]); costs are IEEE-754 doubles, as JS
    numbers are. *)

Module TokenCounter.

Definition CHARS_PER_TOKEN : Z := 4.

Definition INPUT_COST_PER_MILLION : float := 0.14%float.
Definition OUTPUT_COST_PER_MILLION : float := 0.28%float.

(** [Math.ceil(text.length / 4)], zero for the empty string. *)
Definition estimateTokens (text : string) : Z :=
  if bool_decide (text = "") then 0
  else (Z.of_nat (String.length text) + CHARS_PER_TOKEN - 1) / CHARS_PER_TOKEN.

(** [contents.reduce((total, content) => total + estimateTokens(content), 0)] *)
Definition estimateTokensForFiles (contents : list string) : Z :=
  foldl (fun total content => total + estimateTokens content) 0 contents.

(** [calculateCost] on doubles, operation for operation. *)
Definition calculateCost (inputTokens outputTokens : float) : float :=
  let inputCost := ((inputTokens / 1000000) * INPUT_COST_PER_MILLION)%float in
  let outputCost := ((outputTokens / 1000000) * OUTPUT_COST_PER_MILLION)%float in
  (inputCost + outputCost)%float.

(** The same formula over the real numbers: the rates are 14/100 and
    28/100 dollars per million tokens. *)
Definition calculateCost_exact (inputTokens outputTokens : R) : R :=
  (inputTokens / 1000000 * (14 / 100) + outputTokens / 1000000 * (28 / 100))%R.

End TokenCounter.

(** ** JavaScript numbers

    Counts (lengths, token counts) are integers and modelled in [Z];
    wherever the source divides or multiplies by a fraction the value is a
    double. *)

Module JsNumber.

(** The double of a non-negative integer below [2^63] (exact below [2^53]). *)
Definition of_Z (n : Z) : float := PrimFloat.of_uint63 (Uint63.of_Z n).

(** [Math.ceil]. *)
Definition Math_ceil (x : float) : float :=
  match Prim2SF x with
  | S754_finite s m e =>
      if (0 <=? e)%Z then x
      else
        let d := (2 ^ (- e))%Z in
        let q := (Z.pos m / d)%Z in
        if s then (if (q =? 0)%Z then (- 0)%float else (- of_Z q)%float)
        else if (Z.pos m mod d =? 0)%Z then of_Z q else of_Z (q + 1)
  | _ => x
  end.

(** A number is falsy when it is [0], [-0] or [NaN]. *)
Definition truthy (x : float) : bool := negb (PrimFloat.is_zero x || PrimFloat.is_nan x).

End JsNumber.

(** ** The real number a double stands for *)

Module Double.

(** [2^e] for an integer exponent of either sign. *)
Definition pow2 (e : Z) : R := powerRZ 2 e.

(** The number [m * 2^e]. *)
Definition F2R (m e : Z) : R := (IZR m * pow2 e)%R.

(** The value of a finite double; [0] for [NaN] and the infinities. *)
Definition value (x : float) : R :=
  match Prim2SF x with
  | S754_finite s m e => F2R (if s then Z.neg m else Z.pos m) e
  | _ => 0%R
  end.

(** The double is a number: neither [NaN] nor an infinity. *)
Definition finite (x : float) : bool :=
  match Prim2SF x with
  | S754_zero _ | S754_finite _ _ _ => true
  | _ => false
  end.

(** Where [t] lies between the integers [m] and [m + 1], as a
    [location] tells it: at [m], below, at or above the midpoint. *)
Definition located (m : Z) (l : location) (t : R) : Prop :=
  match l with
  | loc_Exact => t = IZR m
  | loc_Inexact Lt => (IZR m < t < IZR m + 1 / 2)%R
  | loc_Inexact Eq => t = (IZR m + 1 / 2)%R
  | loc_Inexact Gt => (IZR m + 1 / 2 < t < IZR m + 1)%R
  end.

(** Where [x] lies between [m * 2^e] and [(m + 1) * 2^e]. *)
Definition inbetween (m e : Z) (l : location) (x : R) : Prop :=
  located m l (x * pow2 (- e))%R.

(** [f] is [+0] or a positive normal double, of value [x]. *)
Definition represents (f : spec_float) (x : R) : Prop :=
  match f with
  | S754_zero false => x = 0%R
  | S754_finite false m e => 2 ^ 52 <= Z.pos m < 2 ^ 53 /\ x = F2R (Z.pos m) e
  | _ => False
  end.

(** The range of the positive normal doubles. *)
Definition normal_range (x : R) : Prop := (pow2 (-1022) <= x < pow2 1023)%R.

(** [v] is [x] rounded to a double: within a relative error of [2^-53],
    and [x] itself when [x] is the value of a double. *)
Definition rounds (x v : R) : Prop :=
  (Rabs (v - x) <= pow2 (-53) * x)%R
  /\ forall K e0 : Z, x = F2R K e0 -> (x < pow2 (e0 + 53))%R -> v = x.

(** [v] is [x] up to a relative error of [k * 2^-53]. *)
Definition near (k x v : R) : Prop :=
  (x * (1 - k * pow2 (-53)) <= v <= x * (1 + k * pow2 (-53)))%R.

End Double.

(** ** JSON values *)

Inductive json :=
| JNull
| JBool (b : bool)
| JNumber (x : float)
| JString (s : string)
| JArray (items : list json)
| JObject (fields : list (string * json)).

(** A JS value read out of parsed JSON: [None] is [undefined]. *)
Definition jsval := option json.

Module Js.

Definition truthy (v : jsval) : bool :=
  match v with
  | None | Some JNull => false
  | Some (JBool b) => b
  | Some (JNumber x) => JsNumber.truthy x
  | Some (JString s) => negb (bool_decide (s = ""))
  | Some (JArray _) | Some (JObject _) => true
  end.

(** [a || b] *)
Definition or (a b : jsval) : jsval := if truthy a then a else b.

(** The binding of key [k] an object literal ends up with: the last one. *)
Fixpoint lookup_field (k : string) (fields : list (string * json)) : jsval :=
  match fields with
  | [] => None
  | (k', v) :: rest =>
      match lookup_field k rest with
      | Some v' => Some v'
      | None => if bool_decide (k' = k) then Some v else None
      end
  end.

(** [v.k] for one of the property names the backend reads (none of them
    is defined on arrays, strings, numbers or booleans).  The outer
    [None] is the [TypeError] of reading a property of [null] or
    [undefined]. *)
Definition get (v : jsval) (k : string) : option jsval :=
  match v with
  | None | Some JNull => None
  | Some (JObject fields) => Some (lookup_field k fields)
  | Some _ => Some None
  end.

(** [v?.k] *)
Definition get_opt (v : jsval) (k : string) : jsval :=
  match get v k with Some r => r | None => None end.

(** [v?.[0]] *)
Definition at0_opt (v : jsval) : jsval :=
  match v with
  | Some (JArray items) => head items
  | Some (JObject fields) => lookup_field "0" fields
  | Some (JString (String c _)) => Some (JString (String c ""))
  | _ => None
  end.

(** The string a value parsed from JSON is converted to when it is
    appended to a string ([text += v]); [number_to_string] is the
    runtime's [Number.prototype.toString].  An array is joined with
    commas, its [null] entries giving the empty text.  An object gives
    [[object Object]], unless it has a property [toString] of its own:
    parsed from JSON this is no function and hides the inherited method,
    and the conversion throws a [TypeError], which is [None] here. *)
Fixpoint to_string (number_to_string : float -> string) (v : json) : option string :=
  match v with
  | JNull => Some "null"
  | JBool b => Some (if b then "true" else "false")
  | JNumber x => Some (number_to_string x)
  | JString s => Some s
  | JArray items =>
      String.concat ","
        <$> (fix join (items : list json) : option (list string) :=
               match items with
               | [] => Some []
               | item :: rest =>
                   match (match item with
                          | JNull => Some ""
                          | _ => to_string number_to_string item
                          end), join rest with
                   | Some text, Some texts => Some (text :: texts)
                   | _, _ => None
                   end
               end) items
  | JObject fields =>
      match lookup_field "toString" fields with
      | Some _ => None
      | None => Some "[object Object]"
      end
  end.

End Js.

(** ** Type definitions ([types/index.ts]) *)

Record RepoInfo := {
  ri_owner : string;
  ri_name : string;
  fullName : string;
  ri_description : option string;
  stars : Z;
  ri_language : option string;
  lastUpdate : string;
  defaultBranch : string;
  isPrivate : bool;
}.

Record FileEntry := {
  fe_path : string;
  fe_size : Z;
  fe_sha : string;
}.

Record FileContent := {
  fc_path : string;
  fc_content : string;
  fc_size : Z;
}.

Inductive Severity := CRITICAL | HIGH | MEDIUM | LOW.
Inductive IssueCategory := security | bug | performance | quality.

(** [AnalysisIssue].  The fields copied from the AI output keep whatever
    JSON value the output holds: nothing checks that they are strings.
    ([id_] and [fix_] are the fields [id] and [fix].) *)
Record AnalysisIssue := {
  id_ : string;
  severity : Severity;
  category : IssueCategory;
  file : jsval;
  line : option float;
  title : jsval;
  description : jsval;
  impact : jsval;
  fix_ : jsval;
  codeExample : jsval;
}.

Record PriorityEstimate := {
  pe_files : Z;
  estimatedTokens : float;
  estimatedCost : float;
}.

Inductive FileStatus := scanning | complete.

Record CompleteEventData := {
  ce_priority : PriorityLevel;
  filesScanned : Z;
  issuesFound : Z;
  tokensUsed : Z;
  cost : float;
  nextPriorityEstimate : option PriorityEstimate;
}.

(** [SSEEvent]: the [type] tag and its payload. *)
Inductive SSEEvent :=
| StatusEvent (text : string) (filesScanned totalFiles : Z) (currentFile : option string)
| FileEvent (path : string) (priority : PriorityLevel) (status : FileStatus)
| IssueEvent (issue : AnalysisIssue)
| CompleteEvent (data : CompleteEventData)
| ErrorEvent (text code : string) (retryable : bool).

Definition is_status (e : SSEEvent) : bool :=
  match e with StatusEvent _ _ _ _ => true | _ => false end.
Definition is_file (e : SSEEvent) : bool :=
  match e with FileEvent _ _ _ => true | _ => false end.
Definition is_issue (e : SSEEvent) : bool :=
  match e with IssueEvent _ => true | _ => false end.
Definition is_complete (e : SSEEvent) : bool :=
  match e with CompleteEvent _ => true | _ => false end.
Definition is_error (e : SSEEvent) : bool :=
  match e with ErrorEvent _ _ _ => true | _ => false end.

(** ** The outside world

    Requests that leave the process, in the order they are issued. *)

Inductive NetCall :=
| ReposGet (auth : option string) (owner repo : string)
| GitGetTree (auth : option string) (owner repo tree_sha : string)
| ReposGetContent (auth : option string) (owner repo path : string)
| ChatCompletions (apiKey systemPrompt userMessage : string) (stream : bool).

Definition is_tree_listing (c : NetCall) : bool :=
  match c with GitGetTree _ _ _ _ => true | _ => false end.
Definition is_content_request (c : NetCall) : bool :=
  match c with ReposGetContent _ _ _ _ => true | _ => false end.
Definition is_ai_call (c : NetCall) : bool :=
  match c with ChatCompletions _ _ _ _ => true | _ => false end.

(** A thrown error: its [message] and, on the errors Octokit rejects
    with, the HTTP [status]. *)
Record JsError := {
  status : option Z;
  message : string;
}.

(** [new Error(message)] *)
Definition Error (message : string) : JsError := {| status := None; message := message |}.

(** The fields of [repos.get]'s [data] the gateway reads. *)
Record RepoData := {
  full_name : string;
  rd_description : option string;
  stargazers_count : Z;
  rd_language : option string;
  updated_at : string;
  default_branch : string;
  private : bool;
}.

(** An entry of [git.getTree]'s [data.tree]. *)
Record TreeItem := {
  ti_type : string;
  ti_path : option string;
  ti_sha : option string;
  ti_size : option Z;
}.

(** [repos.getContent]'s [data]: an array (a directory), something that is
    not a file with content, or a file, here with its content already
    decoded from base64. *)
Inductive ContentData :=
| ContentDirectory
| ContentNotFile
| ContentOfFile (content : string) (size : Z).

(** The AI service's answer to [fetch]: the call itself fails, the response
    is not [ok], it has no body, or it streams [chunks] (already decoded to
    text), possibly ending in a read failure. *)
Inductive AiResponse :=
| AiFetchError (error : JsError)
| AiNotOk (status : Z) (errorText : string)
| AiNoBody
| AiBody (chunks : list string) (readError : option JsError).

(** Everything the backend takes from outside: two library functions, the
    process environment, the three prompt texts, and the remote services,
    each answering a request in view of the requests made before it. *)
Record Environment := {
  minimatch : string -> string -> bool;
  JSON_parse : string -> option json;
  (* Number.prototype.toString, of the runtime *)
  Number_toString : float -> string;
  GITHUB_TOKEN : option string;
  (* parseInt(process.env.MAX_FILES_PER_PRIORITY || '20', 10), taken as the
     integer it parses to *)
  MAX_FILES_PER_PRIORITY : Z;
  getPromptForPriority : PriorityLevel -> string;
  repos_get : list NetCall -> option string -> string -> string -> JsError + RepoData;
  git_getTree : list NetCall -> option string -> string -> string -> string
                -> JsError + list TreeItem;
  repos_getContent : list NetCall -> option string -> string -> string -> string
                     -> JsError + ContentData;
  chat_completions : list NetCall -> string -> string -> string -> bool -> AiResponse;
  elapsed : list NetCall -> NetCall -> N;
}.

(** The state a run reads and writes: the requests issued so far (oldest
    first), the clock [Date.now()] reads, the module-level file-tree cache
    and the HTTP response [res] the events are written to. *)
Record World := {
  calls : list NetCall;
  now : Z;
  fileTreeCache : gmap string (list FileEntry * Z);
  written : list SSEEvent;
  writableEnded : bool;
}.

(** ** Computations: state passing with exceptions *)

Inductive outcome (A : Type) :=
| Returned (a : A)
| Thrown (error : JsError).
Arguments Returned {A} a.
Arguments Thrown {A} error.

Definition M (A : Type) : Type := World -> outcome A * World.

Definition ret {A} (a : A) : M A := fun w => (Returned a, w).

Definition bind {A B} (m : M A) (k : A -> M B) : M B :=
  fun w => match m w with
           | (Returned a, w') => k a w'
           | (Thrown e, w') => (Thrown e, w')
           end.

Definition throw {A} (error : JsError) : M A := fun w => (Thrown error, w).

(** [try { m } catch (error) { handler(error) }] *)
Definition try_catch {A} (m : M A) (handler : JsError -> M A) : M A :=
  fun w => match m w with
           | (Returned a, w') => (Returned a, w')
           | (Thrown e, w') => handler e w'
           end.

(** [try { m } finally { f }] *)
Definition try_finally {A} (m : M A) (f : M unit) : M A :=
  fun w => match m w with
           | (r, w') => match f w' with
                        | (Returned _, w'') => (r, w'')
                        | (Thrown e, w'') => (Thrown e, w'')
                        end
           end.

Declare Scope comp_scope.
Delimit Scope comp_scope with comp.
Notation "'let*' p ':=' m 'in' k" := (bind m (fun p => k))
  (at level 10, p pattern, m at level 100, k at level 200) : comp_scope.
Notation "m ;; k" := (bind m (fun _ => k))
  (at level 100, k at level 200, right associativity) : comp_scope.
Local Open Scope comp_scope.

(** [for (const x of l) body(x)] *)
Fixpoint for_each {A} (l : list A) (body : A -> M unit) : M unit :=
  match l with
  | [] => ret tt
  | x :: l' => body x ;; for_each l' body
  end.

(** [await Promise.all(l.map(f))] for an [f] that settles without
    rejecting: the requests are issued in the order of [l]. *)
Fixpoint map_all {A B} (f : A -> M B) (l : list A) : M (list B) :=
  match l with
  | [] => ret []
  | x :: l' => let* y := f x in let* ys := map_all f l' in ret (y :: ys)
  end.

(** ** Primitive steps *)

Definition Date_now : M Z := fun w => (Returned (now w), w).

(** [await new Promise(resolve => setTimeout(resolve, ms))] *)
Definition sleep (ms : Z) : M unit :=
  fun w => (Returned tt,
            {| calls := calls w; now := now w + ms; fileTreeCache := fileTreeCache w;
               written := written w; writableEnded := writableEnded w |}).

(** The world once request [c] has been answered, [dt] milliseconds later. *)
Definition after_request (c : NetCall) (dt : N) (w : World) : World :=
  {| calls := calls w ++ [c]; now := now w + Z.of_N dt; fileTreeCache := fileTreeCache w;
     written := written w; writableEnded := writableEnded w |}.

Definition cache_set (key : string) (data : list FileEntry) (timestamp : Z) : M unit :=
  fun w => (Returned tt,
            {| calls := calls w; now := now w;
               fileTreeCache := <[key := (data, timestamp)]> (fileTreeCache w);
               written := written w; writableEnded := writableEnded w |}).

Definition cache_get (key : string) : M (option (list FileEntry * Z)) :=
  fun w => (Returned (fileTreeCache w !! key), w).

(** [res.write] of one event and [res.end()]. *)
Definition res_write (event : SSEEvent) : M unit :=
  fun w => (Returned tt,
            {| calls := calls w; now := now w; fileTreeCache := fileTreeCache w;
               written := written w ++ [event]; writableEnded := writableEnded w |}).

Definition res_end : M unit :=
  fun w => (Returned tt,
            {| calls := calls w; now := now w; fileTreeCache := fileTreeCache w;
               written := written w; writableEnded := true |}).

Definition res_writableEnded : M bool := fun w => (Returned (writableEnded w), w).

(** Truthiness of an optional string argument: [undefined] and [''] are falsy. *)
Definition truthy_string (s : option string) : bool :=
  match s with
  | Some s => negb (bool_decide (s = ""))
  | None => false
  end.

Definition nl : string := String (ascii_of_nat 10) "".

(** ** GitHub service ([services/githubService.ts]) *)

Module GithubService.
Section WithEnvironment.

Variable env : Environment.

(** The three Octokit endpoints: the request is logged, time passes, and
    the promise resolves with the data or rejects with the error. *)
Definition octokit_request {R} (c : NetCall) (answer : list NetCall -> JsError + R) : M R :=
  fun w => let w' := after_request c (elapsed env (calls w) c) w in
           match answer (calls w) with
           | inl e => (Thrown e, w')
           | inr r => (Returned r, w')
           end.

(** [createOctokit(token)]: the credential the client sends. *)
Definition createOctokit (token : option string) : option string :=
  if truthy_string token then token else GITHUB_TOKEN env.

Definition octokit_repos_get (octokit : option string) (owner repo : string) : M RepoData :=
  octokit_request (ReposGet octokit owner repo)
                  (fun h => repos_get env h octokit owner repo).

Definition octokit_git_getTree (octokit : option string) (owner repo tree_sha : string)
  : M (list TreeItem) :=
  octokit_request (GitGetTree octokit owner repo tree_sha)
                  (fun h => git_getTree env h octokit owner repo tree_sha).

Definition octokit_repos_getContent (octokit : option string) (owner repo path : string)
  : M ContentData :=
  octokit_request (ReposGetContent octokit owner repo path)
                  (fun h => repos_getContent env h octokit owner repo path).

(** *** [parseGitHubUrl]

    [url.match(/github\.com\/([^\/]+)\/([^\/]+)/)]: the two groups are
    maximal runs of characters other than a slash. *)
Fixpoint span_nonslash (s : list ascii) : list ascii * list ascii :=
  match s with
  | [] => ([], [])
  | c :: s' =>
      if Ascii.eqb c "/" then ([], s)
      else let '(run, rest) := span_nonslash s' in (c :: run, rest)
  end.

Definition match_github_at (s : list ascii) : option (list ascii * list ascii) :=
  if JsString.starts_with (JsString.chars "github.com/") s then
    let '(owner, rest) := span_nonslash (drop 11 s) in
    match owner, rest with
    | _ :: _, _ :: rest' =>
        let '(repo, _) := span_nonslash rest' in
        match repo with
        | _ :: _ => Some (owner, repo)
        | [] => None
        end
    | _, _ => None
    end
  else None.

Fixpoint match_github (s : list ascii) : option (list ascii * list ascii) :=
  match match_github_at s with
  | Some r => Some r
  | None => match s with
            | [] => None
            | _ :: s' => match_github s'
            end
  end.

Definition parseGitHubUrl (url : string) : option (string * string) :=
  match match_github (JsString.chars url) with
  | None => None
  | Some (owner, repo) =>
      let repo :=
        if JsString.ends_with (JsString.chars ".git") repo
        then take (length repo - 4) repo else repo in
      let repo := JsString.before_char "#"
                    (JsString.before_char "?" (JsString.before_char "/" repo)) in
      Some (JsString.of_chars owner, JsString.of_chars repo)
  end.

(** *** [validateRepo] *)
Definition validateRepo (owner repo : string) (token : option string) : M RepoInfo :=
  let octokit := createOctokit token in
  try_catch
    (let* data := octokit_repos_get octokit owner repo in
     ret {| ri_owner := owner;
            ri_name := repo;
            fullName := full_name data;
            ri_description := rd_description data;
            stars := stargazers_count data;
            ri_language := rd_language data;
            lastUpdate := updated_at data;
            defaultBranch := default_branch data;
            isPrivate := private data |})
    (fun error =>
       if bool_decide (status error = Some 404) then
         throw (Error ("Repository not found: " +:+ owner +:+ "/" +:+ repo))
       else if bool_decide (status error = Some 403) then
         throw (Error "GitHub API rate limit exceeded. Try again later or add a GITHUB_TOKEN.")
       else
         throw (Error ("Failed to fetch repository: " +:+ message error))).

(** *** [getFileTree] and its cache *)
Definition CACHE_TTL : Z := 5 * 60 * 1000.

Definition cacheKey (owner repo : string) (branch : option string) : string :=
  owner +:+ "/" +:+ repo +:+ "/" +:+ (if truthy_string branch then default "" branch else "default").

(** [data.tree.filter(item => item.type === 'blob' && item.path && item.sha).map(...)] *)
Definition tree_files (tree : list TreeItem) : list FileEntry :=
  omap (fun item =>
          if bool_decide (ti_type item = "blob")
             && truthy_string (ti_path item) && truthy_string (ti_sha item)
          then Some {| fe_path := default "" (ti_path item);
                       fe_size := default 0 (ti_size item);
                       fe_sha := default "" (ti_sha item) |}
          else None)
       tree.

(** [clearFileTreeCache]: [fileTreeCache.clear()]. *)
Definition clearFileTreeCache : M unit :=
  fun w => (Returned tt,
            {| calls := calls w; now := now w; fileTreeCache := ∅;
               written := written w; writableEnded := writableEnded w |}).

(** The cache-miss path of [getFileTree]: everything below the cache check. *)
Definition fetchFileTree (owner repo : string) (branch token : option string)
  : M (list FileEntry) :=
  let octokit := createOctokit token in
  try_catch
    (let* targetBranch :=
       (if truthy_string branch then ret (default "" branch)
        else let* info := validateRepo owner repo token in ret (defaultBranch info)) in
     let* tree := octokit_git_getTree octokit owner repo targetBranch in
     let files := tree_files tree in
     let* t := Date_now in
     cache_set (cacheKey owner repo branch) files t ;;
     ret files)
    (fun error =>
       if bool_decide (status error = Some 404) then
         throw (Error ("Repository or branch not found: " +:+ owner +:+ "/" +:+ repo))
       else if bool_decide (status error = Some 409) then
         throw (Error "Repository is empty")
       else
         throw (Error ("Failed to get file tree: " +:+ message error))).

Definition getFileTree (owner repo : string) (branch token : option string)
  : M (list FileEntry) :=
  let* cached := cache_get (cacheKey owner repo branch) in
  match cached with
  | Some (data, timestamp) =>
      let* t := Date_now in
      if bool_decide (t - timestamp < CACHE_TTL) then ret data
      else fetchFileTree owner repo branch token
  | None => fetchFileTree owner repo branch token
  end.

(** *** [getFileContent] *)
Definition getFileContent (owner repo path : string) (token : option string)
  : M FileContent :=
  let octokit := createOctokit token in
  try_catch
    (let* data := octokit_repos_getContent octokit owner repo path in
     match data with
     | ContentDirectory => throw (Error ("Path is a directory: " +:+ path))
     | ContentNotFile => throw (Error ("Not a file: " +:+ path))
     | ContentOfFile content size =>
         ret {| fc_path := path; fc_content := content; fc_size := size |}
     end)
    (fun error =>
       if bool_decide (status error = Some 404) then
         throw (Error ("File not found: " +:+ path))
       else
         throw (Error ("Failed to get file content: " +:+ message error))).

(** *** [getFilesContents] *)

(** [paths.slice(0, maxFiles)]: a negative end counts from the end. *)
Definition slice_to {A} (maxFiles : Z) (paths : list A) : list A :=
  if bool_decide (0 <= maxFiles) then take (Z.to_nat maxFiles) paths
  else take (length paths - Z.to_nat (- maxFiles)) paths.

Definition BATCH_SIZE : nat := 5.

(** What one element of [batchPromises] resolves to. *)
Record BatchResult := {
  success : bool;
  br_content : option FileContent;
  br_path : string;
}.

Definition ProgressCallback : Type := Z -> Z -> string -> M unit.

(** The [async (path) => { try ... catch ... }] mapped over a batch. *)
Definition fetch_one (owner repo : string) (token : option string) (path : string)
  : M BatchResult :=
  try_catch
    (let* content := getFileContent owner repo path token in
     ret {| success := true; br_content := Some content; br_path := path |})
    (fun error => ret {| success := false; br_content := None; br_path := path |}).

(** The loop over [batchResults]; it returns the updated [contents] and
    [processedCount]. *)
Fixpoint process_results (results : list BatchResult) (total : Z)
    (onProgress : option ProgressCallback)
    (contents : list FileContent) (processedCount : Z)
  : M (list FileContent * Z) :=
  match results with
  | [] => ret (contents, processedCount)
  | result :: results' =>
      let processedCount := processedCount + 1 in
      let contents :=
        match success result, br_content result with
        | true, Some content => (contents ++ [content])%list
        | _, _ => contents
        end in
      (match onProgress with
       | Some callback => callback processedCount total (br_path result)
       | None => ret tt
       end) ;;
      process_results results' total onProgress contents processedCount
  end.

(** The [for (let i = 0; i < filesToFetch.length; i += BATCH_SIZE)] loop;
    [rest] is [filesToFetch.slice(i)], and [fuel] bounds the number of
    iterations left. *)
Fixpoint batch_loop (fuel : nat) (owner repo : string) (token : option string)
    (total : Z) (onProgress : option ProgressCallback)
    (rest : list string) (contents : list FileContent) (processedCount : Z)
  : M (list FileContent) :=
  match fuel, rest with
  | _, [] | O, _ => ret contents
  | S fuel', _ :: _ =>
      let batch := take BATCH_SIZE rest in
      let* batchResults := map_all (fetch_one owner repo token) batch in
      let* (contents, processedCount) :=
        process_results batchResults total onProgress contents processedCount in
      (match drop BATCH_SIZE rest with
       | _ :: _ => sleep 200
       | [] => ret tt
       end) ;;
      batch_loop fuel' owner repo token total onProgress
                 (drop BATCH_SIZE rest) contents processedCount
  end.

Definition getFilesContents (owner repo : string) (paths : list string) (maxFiles : Z)
    (onProgress : option ProgressCallback) (token : option string)
  : M (list FileContent) :=
  let filesToFetch := slice_to maxFiles paths in
  batch_loop (length filesToFetch) owner repo token
             (Z.of_nat (length filesToFetch)) onProgress filesToFetch [] 0.

(** *** [getFilesForPriority] *)
Definition getFilesForPriority (owner repo : string) (priority : PriorityLevel)
    (maxFiles : Z) (onProgress : option ProgressCallback) (token : option string)
  : M (list FileContent * Z) :=
  let* allFiles := getFileTree owner repo None token in
  let allPaths := map fe_path allFiles in
  let priorityFiles := FileFilter.filterFilesByPriority (minimatch env) allPaths priority in
  let* files := getFilesContents owner repo priorityFiles maxFiles onProgress token in
  ret (files, Z.of_nat (length priorityFiles)).

(** *** [getCategorizedFileCounts] *)
Record FileCounts := {
  count_priority1 : Z;
  count_priority2 : Z;
  count_priority3 : Z;
  count_ignored : Z;
  count_total : Z;
}.

Definition getCategorizedFileCounts (owner repo : string) (token : option string)
  : M FileCounts :=
  let* allFiles := getFileTree owner repo None token in
  let allPaths := map fe_path allFiles in
  let categorized := FileFilter.categorizeFiles (minimatch env) allPaths in
  ret {| count_priority1 := Z.of_nat (length (FileFilter.priority1 categorized));
         count_priority2 := Z.of_nat (length (FileFilter.priority2 categorized));
         count_priority3 := Z.of_nat (length (FileFilter.priority3 categorized));
         count_ignored := Z.of_nat (length (FileFilter.ignored categorized));
         count_total := Z.of_nat (length allFiles) |}.

End WithEnvironment.
End GithubService.

(** ** DeepSeek service ([services/deepseekService.ts]) *)

(** What the async generator [streamAnalysis] yields. *)
Inductive StreamEvent :=
| ChunkEvent (content : json)
| StreamComplete (issues : list AnalysisIssue) (inputTokens outputTokens : Z) (cost : float).

(** An async generator run to its end: the values it yielded and the error
    it ended with, if it threw. *)
Definition Generator (A : Type) : Type := World -> (list A * option JsError) * World.

(** [for (const x of l) body(x)] with the variables the body assigns
    carried along in [s]. *)
Fixpoint for_each_with {A S} (l : list A) (body : S -> A -> M S) (s : S) : M S :=
  match l with
  | [] => ret s
  | x :: l' => let* s' := body s x in for_each_with l' body s'
  end.

(** [for await (const event of stream) body(event)].  The generators of
    this backend touch the request log and the clock, the loop bodies the
    response, so running the generator first and the bodies after it
    reaches the same world as their interleaving. *)
Definition for_await {A S} (stream : Generator A) (body : S -> A -> M S) (s : S) : M S :=
  fun w => match stream w with
           | ((events, failure), w1) =>
               match for_each_with events body s w1 with
               | (Returned s', w2) =>
                   match failure with
                   | None => (Returned s', w2)
                   | Some e => (Thrown e, w2)
                   end
               | (Thrown e, w2) => (Thrown e, w2)
               end
           end.

Module DeepseekService.
Section WithEnvironment.

Variable env : Environment.

(** [files.map(f => `=== FILE: ${f.path} ===\n${f.content}\n`).join('\n')] *)
Definition formatFilesForPrompt (files : list FileContent) : string :=
  String.concat nl
    (map (fun f => "=== FILE: " +:+ fc_path f +:+ " ===" +:+ nl +:+ fc_content f +:+ nl) files).

Definition backticks : list ascii := JsString.chars "```".

(** [response.match(/```(?:json)?\s*([\s\S]*?)```/)], the captured group:
    the text between the first fence (with its [json] tag and the white
    space after it) and the next fence. *)
Definition fenced_block (response : list ascii) : option (list ascii) :=
  match JsString.index_of backticks response with
  | None => None
  | Some i =>
      let after := drop (i + 3) response in
      let after := if JsString.starts_with (JsString.chars "json") after
                   then drop 4 after else after in
      let body := JsString.skip_space after in
      match JsString.index_of backticks body with
      | Some j => Some (take j body)
      | None => None
      end
  end.

(** [jsonMatch ? jsonMatch[1].trim() : response.trim()] *)
Definition jsonStr (response : string) : string :=
  match fenced_block (JsString.chars response) with
  | Some block => JsString.of_chars (JsString.trim_chars block)
  | None => JsString.trim response
  end.

(** [['CRITICAL', 'HIGH', 'MEDIUM', 'LOW'].includes(v) ? v : 'MEDIUM'] *)
Definition normalizeSeverity (v : jsval) : Severity :=
  match v with
  | Some (JString s) =>
      if bool_decide (s = "CRITICAL") then CRITICAL
      else if bool_decide (s = "HIGH") then HIGH
      else if bool_decide (s = "MEDIUM") then MEDIUM
      else if bool_decide (s = "LOW") then LOW
      else MEDIUM
  | _ => MEDIUM
  end.

(** [['security', 'bug', 'performance', 'quality'].includes(v) ? v : 'quality'] *)
Definition normalizeCategory (v : jsval) : IssueCategory :=
  match v with
  | Some (JString s) =>
      if bool_decide (s = "security") then security
      else if bool_decide (s = "bug") then bug
      else if bool_decide (s = "performance") then performance
      else if bool_decide (s = "quality") then quality
      else quality
  | _ => quality
  end.

(** The callback of [parsed.issues.map]; [None] is the [TypeError] of
    reading a property of a [null] entry. *)
Definition normalizeIssue (timestamp : Z) (index : nat) (issue : json)
  : option AnalysisIssue :=
  match issue with
  | JNull => None
  | _ =>
      let prop k := Js.get_opt (Some issue) k in
      Some {| id_ := "issue-" +:+ JsString.of_Z timestamp +:+ "-"
                    +:+ JsString.of_Z (Z.of_nat index);
              severity := normalizeSeverity (prop "severity");
              category := normalizeCategory (prop "category");
              file := Js.or (prop "file") (Some (JString "unknown"));
              line := match prop "line" with
                      | Some (JNumber x) => Some x
                      | _ => None
                      end;
              title := Js.or (prop "title") (Some (JString "Issue found"));
              description := Js.or (prop "description") (Some (JString ""));
              impact := prop "impact";
              fix_ := Js.or (prop "fix") (prop "suggestedFix");
              codeExample := Js.or (prop "codeExample") (prop "code_example") |}
  end.

(** [parseIssuesFromResponse]; [timestamp] is what [Date.now()] reads
    during the call.  Every failure inside the [try] (the [SyntaxError]
    of [JSON.parse], a [TypeError]) ends in the [catch], which returns
    [[]]. *)
Definition parseIssuesFromResponse (timestamp : Z) (response : string)
  : list AnalysisIssue :=
  match JSON_parse env (jsonStr response) with
  | None => []
  | Some parsed =>
      match Js.get (Some parsed) "issues" with
      | None => []
      | Some (Some (JArray issues)) =>
          match mapM (M := option) id (imap (normalizeIssue timestamp) issues) with
          | Some normalized => normalized
          | None => []
          end
      | Some _ => []
      end
  end.

(** One [data:] line of the stream: the [content] it yields as a chunk
    and the text [fullContent += content] adds, if any.  The declared
    type [DeepSeekStreamChunk] is not checked at run time: whatever
    truthy value the line carries as [delta.content] is appended, as the
    string it converts to; when that conversion throws, the [catch]
    skips the line. *)
Definition decode_line (line : list ascii) : option (json * string) :=
  let data := JsString.of_chars
                (JsString.trim_chars (JsString.remove_first (JsString.chars "data:") line)) in
  if bool_decide (data = "[DONE]") then None
  else
    match JSON_parse env data with
    | None => None
    | Some parsed =>
        match Js.get (Some parsed) "choices" with
        | None => None
        | Some choices =>
            let delta := Js.get_opt (Js.at0_opt choices) "delta" in
            let content := Js.get_opt delta "content" in
            let reasoningContent := Js.get_opt delta "reasoning_content" in
            (* [reasoningContent.substring] on a truthy value that is not
               a string throws, and the line is skipped. *)
            let logging_throws :=
              match reasoningContent with
              | Some (JString _) => false
              | r => Js.truthy r
              end in
            if logging_throws then None
            else match content with
                 | Some value =>
                     if Js.truthy content then
                       match Js.to_string (Number_toString env) value with
                       | Some text => Some (value, text)
                       | None => None
                       end
                     else None
                 | None => None
                 end
        end
    end.

(** [chunk.split('\n').filter(line => line.trim().startsWith('data:'))]
    and the loop over the lines. *)
Definition decode_chunk (chunk : string) : list (json * string) :=
  omap decode_line
    (filter (fun line => JsString.starts_with (JsString.chars "data:")
                           (JsString.trim_chars line) = true)
            (JsString.split_on (ascii_of_nat 10) (JsString.chars chunk))).

(** [fetch(DEEPSEEK_API_URL, ...)] with [stream: true]. *)
Definition fetch_chat (apiKey systemPrompt userMessage : string) : M AiResponse :=
  fun w =>
    let c := ChatCompletions apiKey systemPrompt userMessage true in
    let w' := after_request c (elapsed env (calls w) c) w in
    match chat_completions env (calls w) apiKey systemPrompt userMessage true with
    | AiFetchError e => (Thrown e, w')
    | r => (Returned r, w')
    end.

(** [`Analyze the following ${files.length} files:\n\n${filesContent}`] *)
Definition userMessageFor (files : list FileContent) : string :=
  "Analyze the following " +:+ JsString.of_Z (Z.of_nat (length files))
  +:+ " files:" +:+ nl +:+ nl +:+ formatFilesForPrompt files.

Definition streamAnalysis (files : list FileContent) (apiKey : string)
    (priority : PriorityLevel) : Generator StreamEvent :=
  fun w =>
    let systemPrompt := getPromptForPriority env priority in
    let userMessage := userMessageFor files in
    let inputTokens :=
      TokenCounter.estimateTokens systemPrompt + TokenCounter.estimateTokens userMessage in
    match fetch_chat apiKey systemPrompt userMessage w with
    | (Thrown e, w1) => (([], Some e), w1)
    | (Returned response, w1) =>
        match response with
        | AiFetchError e => (([], Some e), w1)
        | AiNotOk status errorText =>
            if bool_decide (status = 401) then
              (([], Some (Error "Invalid DeepSeek API key")), w1)
            else if bool_decide (status = 429) then
              (([], Some (Error "DeepSeek rate limit exceeded. Please wait and try again.")), w1)
            else
              (([], Some (Error ("DeepSeek API error: " +:+ JsString.of_Z status
                                 +:+ " - " +:+ errorText))), w1)
        | AiNoBody => (([], Some (Error "Failed to get response stream")), w1)
        | AiBody chunks readError =>
            let deltas := concat (map decode_chunk chunks) in
            match readError with
            | Some e => ((map (fun delta => ChunkEvent (fst delta)) deltas, Some e), w1)
            | None =>
                let fullContent := String.concat "" (map snd deltas) in
                let issues := parseIssuesFromResponse (now w1) fullContent in
                let outputTokens := TokenCounter.estimateTokens fullContent in
                let cost := TokenCounter.calculateCost (JsNumber.of_Z inputTokens)
                                                       (JsNumber.of_Z outputTokens) in
                ((map (fun delta => ChunkEvent (fst delta)) deltas
                    ++ [StreamComplete issues inputTokens outputTokens cost])%list,
                  None, w1)
            end
        end
    end.

End WithEnvironment.
End DeepseekService.

(** ** Analysis service ([services/analysisService.ts]) *)

Record AnalysisEstimate := {
  ae_repoInfo : RepoInfo;
  ae_priority1 : PriorityEstimate;
  ae_priority2 : PriorityEstimate;
  ae_priority3 : PriorityEstimate;
  totalFiles : Z;
  totalEstimatedTokens : Z;
  totalEstimatedCost : float;
}.

Module AnalysisService.
Section WithEnvironment.

Variable env : Environment.

(** *** SSE helpers *)
Definition sendSSE (event : SSEEvent) : M unit :=
  let* ended := res_writableEnded in
  if ended then ret tt else res_write event.

Definition sendStatus (text : string) (filesScanned totalFiles : Z)
    (currentFile : option string) : M unit :=
  sendSSE (StatusEvent text filesScanned totalFiles currentFile).

Definition sendFileEvent (path : string) (priority : PriorityLevel) (status : FileStatus)
  : M unit :=
  sendSSE (FileEvent path priority status).

Definition sendIssue (issue : AnalysisIssue) : M unit := sendSSE (IssueEvent issue).

Definition sendComplete (data : CompleteEventData) : M unit := sendSSE (CompleteEvent data).

Definition sendError (text code : string) (retryable : bool) : M unit :=
  sendSSE (ErrorEvent text code retryable).

(** *** [analyzeRepository] *)

(** The progress callback handed to [getFilesForPriority]. *)
Definition report_progress (priority : PriorityLevel) : GithubService.ProgressCallback :=
  fun current total path =>
    sendStatus ("Fetching files... (" +:+ JsString.of_Z current +:+ "/"
                +:+ JsString.of_Z total +:+ ")")
               current total (Some path) ;;
    sendFileEvent path priority scanning.

(** [(priority + 1) as PriorityLevel], for [priority < 3]. *)
Definition next_priority (priority : PriorityLevel) : option PriorityLevel :=
  match priority with
  | P1 => Some P2
  | P2 => Some P3
  | P3 => None
  end.

(** The body of the [for await] loop; the state is
    [(totalInputTokens, totalOutputTokens, allIssues)]. *)
Definition on_stream_event (state : Z * Z * list AnalysisIssue) (event : StreamEvent)
  : M (Z * Z * list AnalysisIssue) :=
  match event with
  | ChunkEvent _ => ret state
  | StreamComplete issues inputTokens outputTokens _ =>
      for_each issues sendIssue ;;
      ret (inputTokens, outputTokens, issues)
  end.

(** The run once the tier's files are fetched and there is at least one,
    in its three steps: the files are marked as fetched and analysed by
    the AI ("Mark files as fetched", "Analyze with DeepSeek"); the next
    tier is estimated ("Calculate next priority estimate if not at P3");
    the completion event is sent. *)
Definition analyze_with_ai (apiKey : string) (priority : PriorityLevel)
    (files : list FileContent) : M (Z * Z * list AnalysisIssue) :=
  let count := Z.of_nat (length files) in
  for_each files (fun file => sendFileEvent (fc_path file) priority complete) ;;
  sendStatus ("Analyzing " +:+ JsString.of_Z count +:+ " files with AI...")
             count count None ;;
  let stream := DeepseekService.streamAnalysis env files apiKey priority in
  for_await stream on_stream_event (0, 0, []).

Definition estimate_next (owner repo : string) (priority : PriorityLevel)
    (githubToken : option string) (count totalInputTokens : Z)
  : M (option PriorityEstimate) :=
  match next_priority priority with
  | Some nextPriority =>
      let* (nextFiles, nextTotalMatching) :=
        GithubService.getFilesForPriority env owner repo nextPriority
          (MAX_FILES_PER_PRIORITY env) None githubToken in
      let average := (JsNumber.of_Z totalInputTokens / JsNumber.of_Z count)%float in
      let avgTokensPerFile := if JsNumber.truthy average then average else 500%float in
      let estimatedTokens :=
        JsNumber.Math_ceil
          (JsNumber.of_Z (Z.of_nat (length nextFiles)) * avgTokensPerFile)%float in
      ret (Some {| pe_files := nextTotalMatching;
                   estimatedTokens := estimatedTokens;
                   estimatedCost :=
                     TokenCounter.calculateCost estimatedTokens
                                                (estimatedTokens * 0.2)%float |})
  | None => ret None
  end.

Definition analyze_files (owner repo apiKey : string) (priority : PriorityLevel)
    (githubToken : option string) (files : list FileContent) : M unit :=
  let count := Z.of_nat (length files) in
  let* (totalInputTokens, totalOutputTokens, allIssues) :=
    analyze_with_ai apiKey priority files in
  let totalCost :=
    TokenCounter.calculateCost (JsNumber.of_Z totalInputTokens)
                               (JsNumber.of_Z totalOutputTokens) in
  let totalTokens := totalInputTokens + totalOutputTokens in
  let* nextPriorityEstimate :=
    estimate_next owner repo priority githubToken count totalInputTokens in
  sendComplete {| ce_priority := priority;
                  filesScanned := count;
                  issuesFound := Z.of_nat (length allIssues);
                  tokensUsed := totalTokens;
                  cost := totalCost;
                  nextPriorityEstimate := nextPriorityEstimate |}.

(** The outer [catch (error)]. *)
Definition report_failure (error : JsError) : M unit :=
  if JsString.includes (message error) "API key" then
    sendError (message error) "INVALID_API_KEY" false
  else if JsString.includes (message error) "rate limit" then
    sendError (message error) "RATE_LIMITED" true
  else
    sendError ("Analysis failed: " +:+ message error) "ANALYSIS_ERROR" false.

(** The [complete] event of a tier without files. *)
Definition nothing_scanned (priority : PriorityLevel) : CompleteEventData :=
  {| ce_priority := priority;
     filesScanned := 0;
     issuesFound := 0;
     tokensUsed := 0;
     cost := 0%float;
     nextPriorityEstimate := None |}.

(** The [try] block of [analyzeRepository]. *)
Definition try_block (repoUrl apiKey : string) (priority : PriorityLevel)
    (githubToken : option string) : M unit :=
  match GithubService.parseGitHubUrl repoUrl with
  | None =>
      sendError "Invalid GitHub URL format" "INVALID_URL" false ;;
      res_end
  | Some (owner, repo) =>
      sendStatus "Validating repository..." 0 0 None ;;
      let* validated :=
        try_catch
          (let* repoInfo := GithubService.validateRepo env owner repo githubToken in
           ret (Some repoInfo))
          (fun error =>
             sendError (message error) "REPO_NOT_FOUND" false ;;
             res_end ;;
             ret None) in
      match validated with
      | None => ret tt
      | Some repoInfo =>
          if isPrivate repoInfo && negb (truthy_string githubToken) then
            sendError "Private repositories require login" "PRIVATE_REPO" false ;;
            res_end
          else
            sendStatus ("Scanning " +:+ FileFilter.getPriorityName priority
                        +:+ " files...") 0 0 None ;;
            let* (files, totalMatching) :=
              GithubService.getFilesForPriority env owner repo priority
                (MAX_FILES_PER_PRIORITY env) (Some (report_progress priority))
                githubToken in
            match files with
            | [] =>
                sendStatus ("No files found for Priority "
                            +:+ JsString.of_Z (priority_number priority)) 0 0 None ;;
                sendComplete (nothing_scanned priority) ;;
                res_end
            | _ :: _ =>
                analyze_files owner repo apiKey priority githubToken files
            end
      end
  end.

Definition analyzeRepository (repoUrl apiKey : string) (priority : PriorityLevel)
    (githubToken : option string) : M unit :=
  try_finally
    (try_catch (try_block repoUrl apiKey priority githubToken) report_failure)
    res_end.

(** *** [getEstimate] *)
Definition getEstimate (repoUrl : string) (githubToken : option string)
  : M AnalysisEstimate :=
  match GithubService.parseGitHubUrl repoUrl with
  | None => throw (Error "Invalid GitHub URL format")
  | Some (owner, repo) =>
      let* repoInfo := GithubService.validateRepo env owner repo githubToken in
      if isPrivate repoInfo && negb (truthy_string githubToken) then
        throw (Error "Private repositories require login")
      else
        let* counts := GithubService.getCategorizedFileCounts env owner repo githubToken in
        let AVG_TOKENS_PER_FILE := 500 in
        let OUTPUT_RATIO := 0.2%float in
        let p1Files := Z.min (GithubService.count_priority1 counts) (MAX_FILES_PER_PRIORITY env) in
        let p2Files := Z.min (GithubService.count_priority2 counts) (MAX_FILES_PER_PRIORITY env) in
        let p3Files := Z.min (GithubService.count_priority3 counts) (MAX_FILES_PER_PRIORITY env) in
        let p1Tokens := p1Files * AVG_TOKENS_PER_FILE in
        let p2Tokens := p2Files * AVG_TOKENS_PER_FILE in
        let p3Tokens := p3Files * AVG_TOKENS_PER_FILE in
        let estimate files tokens :=
          {| pe_files := files;
             estimatedTokens := JsNumber.of_Z tokens;
             estimatedCost :=
               TokenCounter.calculateCost (JsNumber.of_Z tokens)
                                          (JsNumber.of_Z tokens * OUTPUT_RATIO)%float |} in
        let priority1 := estimate p1Files p1Tokens in
        let priority2 := estimate p2Files p2Tokens in
        let priority3 := estimate p3Files p3Tokens in
        ret {| ae_repoInfo := repoInfo;
               ae_priority1 := priority1;
               ae_priority2 := priority2;
               ae_priority3 := priority3;
               totalFiles := p1Files + p2Files + p3Files;
               totalEstimatedTokens := p1Tokens + p2Tokens + p3Tokens;
               totalEstimatedCost :=
                 (estimatedCost priority1 + estimatedCost priority2
                  + estimatedCost priority3)%float |}
  end.

(** *** [validateRepository] *)
Definition validateRepository (repoUrl : string) (githubToken : option string)
  : M RepoInfo :=
  match GithubService.parseGitHubUrl repoUrl with
  | None => throw (Error "Invalid GitHub URL format")
  | Some (owner, repo) => GithubService.validateRepo env owner repo githubToken
  end.

End WithEnvironment.
End AnalysisService.

(** ** Request handlers ([controllers/analysisController.ts])

    A handler answers with [res.status(code).json(body)], once on every
    path; the answer is what the computation returns.  [res.json(body)]
    alone answers with status 200. *)

Inductive ReplyBody :=
| ErrorBody (error : string)
| InvalidRepoBody (error : string)
| ValidRepoBody (info : RepoInfo)
| EstimateBody (estimate : AnalysisEstimate).

Record Reply := {
  http_status : Z;
  body : ReplyBody;
}.

Module AnalysisController.
Section WithEnvironment.

Variable env : Environment.

(** [GET /api/estimate]; [repoUrl] is [req.query.repoUrl] and
    [githubToken] is [req.user?.github_token]. *)
Definition estimate (repoUrl githubToken : option string) : M Reply :=
  if negb (truthy_string repoUrl) then
    ret {| http_status := 400; body := ErrorBody "repoUrl query parameter is required" |}
  else
    try_catch
      (let* estimateResult :=
         AnalysisService.getEstimate env (default "" repoUrl) githubToken in
       ret {| http_status := 200; body := EstimateBody estimateResult |})
      (fun error =>
         if JsString.includes (message error) "not found" then
           ret {| http_status := 404; body := ErrorBody (message error) |}
         else if JsString.includes (message error) "Invalid" then
           ret {| http_status := 400; body := ErrorBody (message error) |}
         else
           ret {| http_status := 500; body := ErrorBody "Failed to estimate analysis" |}).

(** [POST /api/validate-repo]; [repoUrl] is [req.body.repoUrl], any JSON
    value or [undefined]. *)
Definition validateRepo (repoUrl : jsval) (githubToken : option string) : M Reply :=
  match repoUrl with
  | Some (JString url) =>
      if bool_decide (url = "") then
        ret {| http_status := 400; body := InvalidRepoBody "repoUrl is required" |}
      else
        try_catch
          (let* repoInfo := AnalysisService.validateRepository env url githubToken in
           ret {| http_status := 200; body := ValidRepoBody repoInfo |})
          (fun error =>
             ret {| http_status :=
                      if JsString.includes (message error) "not found" then 404 else 400;
                    body := InvalidRepoBody (message error) |})
  | _ => ret {| http_status := 400; body := InvalidRepoBody "repoUrl is required" |}
  end.

End WithEnvironment.
End AnalysisController.

(** ** The browser's API client ([lib/api.ts])

    [analyzeRepository] reads the event stream of [POST /api/analyze]
    with a line buffer.  What is modelled is its loop over the chunks of
    a response body that is read to its end; the callbacks are optional
    and what they throw is swallowed by the loop's [catch], so a run is
    described by the callbacks it invokes, in order. *)

Module ApiClient.
Section WithParser.

Variable JSON_parse : string -> option json.

(** An invocation of [onStatus], [onIssue], [onComplete] or [onError]
    with an event's [data]. *)
Inductive Callback :=
| OnStatus (data : jsval)
| OnIssue (data : jsval)
| OnComplete (data : jsval)
| OnError (data : jsval).

(** The body of [for (const line of lines)]. *)
Definition dispatch_line (line : list ascii) : option Callback :=
  if JsString.starts_with (JsString.chars "data:") line then
    let data := JsString.of_chars (JsString.trim_chars (drop 5 line)) in
    if bool_decide (data = "") || bool_decide (data = ":heartbeat") then None
    else
      match JSON_parse data with
      | None => None
      | Some event =>
          match Js.get (Some event) "type" with
          | None => None
          | Some (Some (JString type)) =>
              let data := Js.get_opt (Some event) "data" in
              if bool_decide (type = "status") then Some (OnStatus data)
              else if bool_decide (type = "issue") then Some (OnIssue data)
              else if bool_decide (type = "complete") then Some (OnComplete data)
              else if bool_decide (type = "error") then Some (OnError data)
              else None
          | Some _ => None
          end
      end
  else None.

(** The [while (true)] loop; [buffer] is what the last chunk left. *)
Fixpoint read_stream (chunks : list string) (buffer : list ascii) : list Callback :=
  match chunks with
  | [] => []
  | chunk :: chunks' =>
      let lines := JsString.split_on "010" (buffer ++ JsString.chars chunk) in
      (* buffer = lines.pop() || '' *)
      let buffer := default [] (last lines) in
      (omap dispatch_line (removelast lines) ++ read_stream chunks' buffer)%list
  end.

End WithParser.
End ApiClient.

(** ** Stand-ins for the library functions

    [minimatch], [JSON.parse] and [Number.prototype.toString] are
    parameters of the development.  To run the backend on sample inputs,
    this module gives each a stand-in: a glob matcher for the pattern
    forms the classifier's tables use, a parser for JSON texts without
    [\u] escapes and with integer number literals only (it rejects the
    others), and the decimal digits of the numbers this parser reads. *)

Module Reference.

(** A path segment against a pattern segment; [*] matches any run of
    characters. *)
Fixpoint wildcard (p s : list ascii) : bool :=
  match p with
  | [] => match s with [] => true | _ => false end
  | c :: p' =>
      if Ascii.eqb c "*" then
        (fix star (s : list ascii) : bool :=
           wildcard p' s || match s with
                            | [] => false
                            | _ :: s' => star s'
                            end) s
      else match s with
           | [] => false
           | d :: s' => Ascii.eqb c d && wildcard p' s'
           end
  end.

Definition is_globstar (p : list ascii) : bool :=
  match p with
  | [a; b] => Ascii.eqb a "*" && Ascii.eqb b "*"
  | _ => false
  end.

(** Segment lists; [**] matches any number of segments, and at least one
    when it ends the pattern. *)
Fixpoint glob_segments (ps ss : list (list ascii)) : bool :=
  match ps with
  | [] => match ss with [] => true | _ => false end
  | p :: ps' =>
      if is_globstar p then
        match ps' with
        | [] => match ss with [] => false | _ => true end
        | _ =>
            (fix star (ss : list (list ascii)) : bool :=
               glob_segments ps' ss || match ss with
                                       | [] => false
                                       | _ :: ss' => star ss'
                                       end) ss
        end
      else match ss with
           | [] => false
           | s :: ss' => wildcard p s && glob_segments ps' ss'
           end
  end.

(** With [matchBase], a pattern without a slash is matched against the
    last segment of the path. *)
Definition glob_match (filePath pattern : string) : bool :=
  let ps := JsString.split_on "/" (JsString.chars pattern) in
  let ss := JsString.split_on "/" (JsString.chars filePath) in
  match ps with
  | [p] => match last ss with
           | Some base => wildcard p base
           | None => false
           end
  | _ => glob_segments ps ss
  end.

(** *** A JSON parser *)

Definition json_space (c : ascii) : bool :=
  let n := nat_of_ascii c in
  (n =? 32)%nat || (n =? 9)%nat || (n =? 10)%nat || (n =? 13)%nat.

Fixpoint skip (s : list ascii) : list ascii :=
  match s with
  | c :: s' => if json_space c then skip s' else s
  | [] => []
  end.

Definition digit (c : ascii) : option Z :=
  let n := nat_of_ascii c in
  if ((48 <=? n)%nat && (n <=? 57)%nat) then Some (Z.of_nat n - 48) else None.

Fixpoint digits (s : list ascii) (acc : Z) : Z * list ascii :=
  match s with
  | c :: s' => match digit c with
               | Some d => digits s' (10 * acc + d)
               | None => (acc, s)
               end
  | [] => (acc, [])
  end.

Definition starts_fraction (s : list ascii) : bool :=
  match s with
  | c :: _ => Ascii.eqb c "." || Ascii.eqb c "e" || Ascii.eqb c "E"
  | [] => false
  end.

(** An integer literal. *)
Definition number (s : list ascii) : option (json * list ascii) :=
  let '(negative, body) :=
    match s with
    | c :: s' => if Ascii.eqb c "-" then (true, s') else (false, s)
    | [] => (false, s)
    end in
  match body with
  | c :: _ =>
      match digit c with
      | Some _ =>
          let '(n, rest) := digits body 0 in
          if starts_fraction rest then None
          else Some (JNumber (if negative then (- JsNumber.of_Z n)%float
                              else JsNumber.of_Z n), rest)
      | None => None
      end
  | [] => None
  end.

Definition unescape (c : ascii) : option ascii :=
  let n := nat_of_ascii c in
  if (n =? 34)%nat then Some c            (* quote *)
  else if (n =? 92)%nat then Some c       (* backslash *)
  else if (n =? 47)%nat then Some c       (* slash *)
  else if (n =? 110)%nat then Some (ascii_of_nat 10)
  else if (n =? 116)%nat then Some (ascii_of_nat 9)
  else if (n =? 114)%nat then Some (ascii_of_nat 13)
  else if (n =? 98)%nat then Some (ascii_of_nat 8)
  else if (n =? 102)%nat then Some (ascii_of_nat 12)
  else None.

(** The rest of a string literal, after its opening quote. *)
Fixpoint string_body (s : list ascii) : option (list ascii * list ascii) :=
  match s with
  | [] => None
  | c :: s' =>
      let n := nat_of_ascii c in
      if (n =? 34)%nat then Some ([], s')
      else if (n =? 92)%nat then
        match s' with
        | e :: s'' =>
            match unescape e, string_body s'' with
            | Some d, Some (body, rest) => Some (d :: body, rest)
            | _, _ => None
            end
        | [] => None
        end
      else if (n <? 32)%nat then None
      else match string_body s' with
           | Some (body, rest) => Some (c :: body, rest)
           | None => None
           end
  end.

Definition literal (word : string) (v : json) (s : list ascii) : option (json * list ascii) :=
  if JsString.starts_with (JsString.chars word) s
  then Some (v, drop (String.length word) s) else None.

Fixpoint value (fuel : nat) (s : list ascii) : option (json * list ascii) :=
  match fuel with
  | O => None
  | S fuel' =>
      match skip s with
      | [] => None
      | c :: rest =>
          let n := nat_of_ascii c in
          if (n =? 110)%nat then literal "null" JNull (c :: rest)
          else if (n =? 116)%nat then literal "true" (JBool true) (c :: rest)
          else if (n =? 102)%nat then literal "false" (JBool false) (c :: rest)
          else if (n =? 34)%nat then
            match string_body rest with
            | Some (body, rest') => Some (JString (JsString.of_chars body), rest')
            | None => None
            end
          else if (n =? 91)%nat then
            match skip rest with
            | d :: rest' =>
                if (nat_of_ascii d =? 93)%nat then Some (JArray [], rest')
                else match elements fuel' rest with
                     | Some (items, rest'') => Some (JArray items, rest'')
                     | None => None
                     end
            | [] => None
            end
          else if (n =? 123)%nat then
            match skip rest with
            | d :: rest' =>
                if (nat_of_ascii d =? 125)%nat then Some (JObject [], rest')
                else match members fuel' rest with
                     | Some (fields, rest'') => Some (JObject fields, rest'')
                     | None => None
                     end
            | [] => None
            end
          else number (c :: rest)
      end
  end
with elements (fuel : nat) (s : list ascii) : option (list json * list ascii) :=
  match fuel with
  | O => None
  | S fuel' =>
      match value fuel' s with
      | Some (v, rest) =>
          match skip rest with
          | c :: rest' =>
              if (nat_of_ascii c =? 44)%nat then
                match elements fuel' rest' with
                | Some (vs, rest'') => Some (v :: vs, rest'')
                | None => None
                end
              else if (nat_of_ascii c =? 93)%nat then Some ([v], rest')
              else None
          | [] => None
          end
      | None => None
      end
  end
with members (fuel : nat) (s : list ascii) : option (list (string * json) * list ascii) :=
  match fuel with
  | O => None
  | S fuel' =>
      match skip s with
      | q :: rest =>
          if (nat_of_ascii q =? 34)%nat then
            match string_body rest with
            | Some (key, rest1) =>
                match skip rest1 with
                | colon :: rest2 =>
                    if (nat_of_ascii colon =? 58)%nat then
                      match value fuel' rest2 with
                      | Some (v, rest3) =>
                          match skip rest3 with
                          | c :: rest4 =>
                              if (nat_of_ascii c =? 44)%nat then
                                match members fuel' rest4 with
                                | Some (fs, rest5) =>
                                    Some ((JsString.of_chars key, v) :: fs, rest5)
                                | None => None
                                end
                              else if (nat_of_ascii c =? 125)%nat then
                                Some ([(JsString.of_chars key, v)], rest4)
                              else None
                          | [] => None
                          end
                      | None => None
                      end
                    else None
                | [] => None
                end
            | None => None
            end
          else None
      | [] => None
      end
  end.

Definition parse (text : string) : option json :=
  let s := JsString.chars text in
  match value (2 * length s + 2) s with
  | Some (v, rest) => match skip rest with
                      | [] => Some v
                      | _ => None
                      end
  | None => None
  end.

(** The decimal digits of an integer-valued double below [10^21] in
    magnitude, as [Number.prototype.toString] gives them, and the names
    of [NaN] and of the infinities.  The other doubles, which [parse]
    never produces, are outside this stand-in: it gives them the empty
    text. *)
Definition number_to_string (x : float) : string :=
  match Prim2SF x with
  | S754_zero _ => "0"
  | S754_nan => "NaN"
  | S754_infinity s => if s then "-Infinity" else "Infinity"
  | S754_finite s m e =>
      let signed (n : Z) := (if s then "-" else "") +:+ JsString.of_Z n in
      if (0 <=? e)%Z then
        let n := (Z.pos m * 2 ^ e)%Z in
        if (n <? 10 ^ 21)%Z then signed n else ""
      else
        let d := (2 ^ (- e))%Z in
        if (Z.pos m mod d =? 0)%Z then signed (Z.pos m / d)%Z else ""
  end.

End Reference.

(** ** Sample repositories and services

    Concrete environments to run the backend on: a small repository
    [acme/shop], a hosting provider that answers from it, and an AI
    service with a fixed reply. *)

Module Samples.

Definition quote : string := String "034" "".

(** The text of a JSON string literal for [text]. *)
Fixpoint escape (text : list ascii) : list ascii :=
  match text with
  | [] => []
  | c :: rest =>
      let n := nat_of_ascii c in
      if ((n =? 34)%nat || (n =? 92)%nat) then "092"%char :: c :: escape rest
      else if (n =? 10)%nat then "092"%char :: "n"%char :: escape rest
      else c :: escape rest
  end.

(** One line of the AI service's event stream carrying [content]. *)
Definition delta_line (content : string) : string :=
  "data: {" +:+ quote +:+ "choices" +:+ quote +:+ ":[{" +:+ quote +:+ "delta" +:+ quote
  +:+ ":{" +:+ quote +:+ "content" +:+ quote +:+ ":" +:+ quote
  +:+ JsString.of_chars (escape (JsString.chars content)) +:+ quote +:+ "}}]}" +:+ nl.

(** A reply with one finding, and the same reply cut short. *)
Definition finding_json : string :=
  "{" +:+ quote +:+ "issues" +:+ quote +:+ ":[{" +:+ quote +:+ "severity" +:+ quote +:+ ":"
  +:+ quote +:+ "HIGH" +:+ quote +:+ "," +:+ quote +:+ "title" +:+ quote +:+ ":" +:+ quote
  +:+ "Hardcoded secret" +:+ quote +:+ "," +:+ quote +:+ "line" +:+ quote +:+ ":1}]}".

Definition truncated_json : string :=
  "{" +:+ quote +:+ "issues" +:+ quote +:+ ":[{" +:+ quote +:+ "severity" +:+ quote +:+ ":"
  +:+ quote +:+ "HIGH" +:+ quote +:+ "," +:+ quote +:+ "title" +:+ quote +:+ ":" +:+ quote
  +:+ "Hardcoded sec".

(** The reply with a [null] entry after the finding. *)
Definition finding_and_null_json : string :=
  "{" +:+ quote +:+ "issues" +:+ quote +:+ ":[{" +:+ quote +:+ "severity" +:+ quote +:+ ":"
  +:+ quote +:+ "HIGH" +:+ quote +:+ "," +:+ quote +:+ "title" +:+ quote +:+ ":" +:+ quote
  +:+ "Hardcoded secret" +:+ quote +:+ "," +:+ quote +:+ "line" +:+ quote +:+ ":1},null]}".

(** Well-formed replies of the wrong shape. *)
Definition summary_only_json : string :=
  "{" +:+ quote +:+ "summary" +:+ quote +:+ ":" +:+ quote +:+ "all good" +:+ quote +:+ "}".

Definition issues_not_array_json : string :=
  "{" +:+ quote +:+ "issues" +:+ quote +:+ ":" +:+ quote +:+ "none" +:+ quote +:+ "}".

(** One line of the stream whose [content] is the JSON text [value], a
    string literal or not. *)
Definition raw_delta_line (value : string) : string :=
  "data: {" +:+ quote +:+ "choices" +:+ quote +:+ ":[{" +:+ quote +:+ "delta" +:+ quote
  +:+ ":{" +:+ quote +:+ "content" +:+ quote +:+ ":" +:+ value +:+ "}}]}" +:+ nl.

(** A reply that arrives in three pieces, the second of which is the
    number [12] instead of the string of its digits. *)
Definition number_chunks : list string :=
  [ delta_line ("{" +:+ quote +:+ "issues" +:+ quote +:+ ":[{" +:+ quote +:+ "line" +:+ quote
                +:+ ":");
    raw_delta_line "12";
    delta_line "}]}" ].

(** The reply streamed in two chunks and closed by [[DONE]]. *)
Definition chunks_of (reply : string) : list string :=
  let half := Nat.div2 (String.length reply) in
  [ delta_line (JsString.of_chars (take half (JsString.chars reply)));
    delta_line (JsString.of_chars (drop half (JsString.chars reply)))
    +:+ "data: [DONE]" +:+ nl ].

Definition streamed (reply : string) : AiResponse := AiBody (chunks_of reply) None.

Definition blob (path : string) : TreeItem :=
  {| ti_type := "blob"; ti_path := Some path; ti_sha := Some "0a1b2c"; ti_size := Some 64 |}.

Definition directory (path : string) : TreeItem :=
  {| ti_type := "tree"; ti_path := Some path; ti_sha := Some "0d0d0d"; ti_size := None |}.

Definition shop_tree : list TreeItem :=
  [ blob ".env"; directory "src"; blob "src/services/cart.ts"; blob "README.md";
    blob "assets/logo.png" ].

Definition images_tree : list TreeItem :=
  [ blob "logo.png"; blob "assets/banner.png"; blob "assets/icons/cart.png" ].

Definition shop_data : RepoData :=
  {| full_name := "acme/shop";
     rd_description := None;
     stargazers_count := 7;
     rd_language := Some "TypeScript";
     updated_at := "2025-01-01T00:00:00Z";
     default_branch := "main";
     private := false |}.

Definition rate_limited : JsError :=
  {| status := Some 403; message := "API rate limit exceeded for 203.0.113.7." |}.

Definition not_found : JsError :=
  {| status := Some 404; message := "Not Found" |}.

(** Every path has content except those whose name starts with [missing]. *)
Definition content_of (path : string) : JsError + ContentData :=
  if JsString.startsWith path "missing" then inl not_found
  else inr (ContentOfFile ("content of " +:+ path) 64).

(** An environment whose services answer the same whatever was asked
    before. *)
Definition service (repository : JsError + RepoData) (tree : JsError + list TreeItem)
    (reply : AiResponse) : Environment :=
  {| minimatch := Reference.glob_match;
     JSON_parse := Reference.parse;
     Number_toString := Reference.number_to_string;
     GITHUB_TOKEN := None;
     MAX_FILES_PER_PRIORITY := 20;
     getPromptForPriority := fun priority =>
       "You are a code auditor (tier " +:+ JsString.of_Z (priority_number priority) +:+ ").";
     repos_get := fun _ _ _ _ => repository;
     git_getTree := fun _ _ _ _ _ => tree;
     repos_getContent := fun _ _ _ _ path => content_of path;
     chat_completions := fun _ _ _ _ _ => reply;
     elapsed := fun _ _ => 120%N |}.

Definition shop : Environment := service (inr shop_data) (inr shop_tree) (streamed finding_json).

Definition shop_truncated : Environment :=
  service (inr shop_data) (inr shop_tree) (streamed truncated_json).

Definition images_only : Environment :=
  service (inr shop_data) (inr images_tree) (streamed finding_json).

Definition throttled : Environment :=
  service (inl rate_limited) (inr shop_tree) (streamed finding_json).

(** The provider answers the first request and is rate limited from the
    second on. *)
Definition throttled_later : Environment :=
  {| minimatch := Reference.glob_match;
     JSON_parse := Reference.parse;
     Number_toString := Reference.number_to_string;
     GITHUB_TOKEN := None;
     MAX_FILES_PER_PRIORITY := 20;
     getPromptForPriority := getPromptForPriority shop;
     repos_get := fun history _ _ _ =>
       match history with
       | [] => inr shop_data
       | _ :: _ => inl rate_limited
       end;
     git_getTree := fun _ _ _ _ _ => inl rate_limited;
     repos_getContent := fun _ _ _ _ _ => inl rate_limited;
     chat_completions := chat_completions shop;
     elapsed := fun _ _ => 120%N |}.

(** The provider answers the first repository lookup and rejects the
    later ones (rate limited); listings and contents are served; the AI
    service's reply is cut short. *)
Definition flaky_lookup : Environment :=
  {| minimatch := Reference.glob_match;
     JSON_parse := Reference.parse;
     Number_toString := Reference.number_to_string;
     GITHUB_TOKEN := None;
     MAX_FILES_PER_PRIORITY := 20;
     getPromptForPriority := getPromptForPriority shop;
     repos_get := fun history _ _ _ =>
       if existsb (fun c => match c with ReposGet _ _ _ => true | _ => false end) history
       then inl rate_limited else inr shop_data;
     git_getTree := fun _ _ _ _ _ => inr shop_tree;
     repos_getContent := fun _ _ _ _ path => content_of path;
     chat_completions := fun _ _ _ _ _ => streamed truncated_json;
     elapsed := fun _ _ => 120%N |}.

(** The provider knows no repository [acme/shop]. *)
Definition unknown_repository : Environment :=
  service (inl not_found) (inl not_found) (streamed finding_json).

(** The AI service does not accept the caller's key. *)
Definition bad_key : Environment :=
  service (inr shop_data) (inr shop_tree) (AiNotOk 401 "Authentication Fails").

(** A private repository [acme/vault] on a server that has a token of
    its own. *)
Definition vault_data : RepoData :=
  {| full_name := "acme/vault";
     rd_description := None;
     stargazers_count := 0;
     rd_language := None;
     updated_at := "2025-01-01T00:00:00Z";
     default_branch := "main";
     private := true |}.

Definition vault : Environment :=
  {| minimatch := Reference.glob_match;
     JSON_parse := Reference.parse;
     Number_toString := Reference.number_to_string;
     GITHUB_TOKEN := Some "ghp_server";
     MAX_FILES_PER_PRIORITY := 20;
     getPromptForPriority := getPromptForPriority shop;
     repos_get := fun _ _ _ _ => inr vault_data;
     git_getTree := fun _ _ _ _ _ => inr shop_tree;
     repos_getContent := fun _ _ _ _ path => content_of path;
     chat_completions := chat_completions shop;
     elapsed := fun _ _ => 120%N |}.

(** A request arriving on a new connection, with an empty cache. *)
Definition fresh : World :=
  {| calls := []; now := 1700000000000; fileTreeCache := ∅; written := [];
     writableEnded := false |}.

(** A request arriving when the tree of [acme/shop] has been in the cache
    for 4 minutes 59.8 seconds. *)
Definition warm : World :=
  {| calls := [];
     now := 1700000000000;
     fileTreeCache :=
       <[ "acme/shop/default" :=
            ([ {| fe_path := ".env"; fe_size := 64; fe_sha := "0a1b2c" |};
               {| fe_path := "src/services/cart.ts"; fe_size := 64; fe_sha := "0a1b2c" |};
               {| fe_path := "README.md"; fe_size := 64; fe_sha := "0a1b2c" |};
               {| fe_path := "assets/logo.png"; fe_size := 64; fe_sha := "0a1b2c" |} ],
             1700000000000 - 299800) ]> ∅;
     written := [];
     writableEnded := false |}.

Definition shop_url : string := "https://github.com/acme/shop".

(** What a run leaves behind: the events written and the requests made. *)
Definition run (env : Environment) (priority : PriorityLevel) : list SSEEvent * list NetCall :=
  let w := snd (AnalysisService.analyzeRepository env shop_url "sk-sample" priority None fresh) in
  (written w, calls w).

End Samples.

(** ** Notions the properties are stated with *)

(** The [issues] field of a parsed top-level value, when it is an object
    that has one. *)
Definition top_level_issues (parsed : json) : jsval :=
  match parsed with
  | JObject fields => Js.lookup_field "issues" fields
  | _ => None
  end.

Definition is_array (v : json) : bool :=
  match v with JArray _ => true | _ => false end.

(** [w'] is [w] some steps later: the requests issued in between satisfy
    [okCall], the events written in between satisfy [okEvent], and the
    response was not ended. *)
Definition advances (okCall : NetCall -> bool) (okEvent : SSEEvent -> bool)
    (w w' : World) : Prop :=
  (exists cs, calls w' = (calls w ++ cs)%list /\ forallb okCall cs = true)
  /\ (exists es, written w' = (written w ++ es)%list /\ forallb okEvent es = true)
  /\ writableEnded w' = writableEnded w.

(** Every run of [m] relates the world before to the world after by [R],
    whether it returns or throws. *)
Definition keeps {A} (R : World -> World -> Prop) (m : M A) : Prop :=
  forall w r w', m w = (r, w') -> R w w'.

Definition not_ai_call (c : NetCall) : bool := negb (is_ai_call c).
Definition no_event (e : SSEEvent) : bool := false.
Definition fetch_phase_event (e : SSEEvent) : bool := is_status e || is_file e.
Definition closing_event (e : SSEEvent) : bool := is_complete e || is_error e.

(** A progress callback, when there is one, issues no AI request and
    writes only events satisfying [okEvent]. *)
Definition callback_keeps (okEvent : SSEEvent -> bool)
    (onProgress : option GithubService.ProgressCallback) : Prop :=
  forall callback, onProgress = Some callback ->
  forall current total path, keeps (advances not_ai_call okEvent) (callback current total path).

(** The world with one more event written. *)
Definition emit (event : SSEEvent) (w : World) : World :=
  {| calls := calls w; now := now w; fileTreeCache := fileTreeCache w;
     written := written w ++ [event]; writableEnded := writableEnded w |}.

(** The world once the response is ended. *)
Definition ended (w : World) : World :=
  {| calls := calls w; now := now w; fileTreeCache := fileTreeCache w;
     written := written w; writableEnded := true |}.

(** What the content request for [path] delivers when it is issued after
    the requests [history]: the file, or nothing when the fetch fails (the
    request is rejected, or the path is not a file). *)
Definition delivered (env : Environment) (auth : option string) (owner repo : string)
    (history : list NetCall) (path : string) : option FileContent :=
  match repos_getContent env history auth owner repo path with
  | inr (ContentOfFile content size) =>
      Some {| fc_path := path; fc_content := content; fc_size := size |}
  | _ => None
  end.

(** The outcomes of fetching [paths] one after the other. *)
Fixpoint fetch_outcomes (env : Environment) (auth : option string) (owner repo : string)
    (history : list NetCall) (paths : list string) : list (option FileContent) :=
  match paths with
  | [] => []
  | path :: paths' =>
      delivered env auth owner repo history path
      :: fetch_outcomes env auth owner repo
           (history ++ [ReposGetContent auth owner repo path]) paths'
  end.

Definition failed (outcome : option FileContent) : bool :=
  match outcome with Some _ => false | None => true end.

(** The number of fetches that failed. *)
Definition count_failed (outcomes : list (option FileContent)) : nat :=
  length (filter (fun o => failed o = true) outcomes).

(** [observe] counts the invocations of [callback]: on worlds satisfying
    [Inv] the callback returns, issues no request and raises the count by
    one, while requests and pauses leave the count alone. *)
Record counted_callback (Inv : World -> Prop) (observe : World -> nat)
    (callback : GithubService.ProgressCallback) : Prop := {
  callback_counted :
    forall current total path w, Inv w ->
    exists w', callback current total path w = (Returned tt, w')
               /\ Inv w' /\ calls w' = calls w /\ observe w' = S (observe w);
  request_uncounted :
    forall c dt w, Inv w ->
    Inv (after_request c dt w) /\ observe (after_request c dt w) = observe w;
  pause_uncounted :
    forall ms w, Inv w ->
    Inv (snd (sleep ms w)) /\ observe (snd (sleep ms w)) = observe w;
}.

(** The number of [scanning] file events written so far. *)
Definition scanning_events (w : World) : nat :=
  length (filter (fun e => match e with
                           | FileEvent _ _ scanning => true
                           | _ => false
                           end = true) (written w)).

Definition response_open (w : World) : Prop := writableEnded w = false.

(** The fetch phase of the run started in [w0] goes through: the URL names
    [owner/repo], the repository is validated and may be read, and the
    tier's [files] are fetched, which leaves the world [w2]. *)
Definition fetch_phase_yields (env : Environment) (repoUrl : string)
    (priority : PriorityLevel) (githubToken : option string) (w0 : World)
    (owner repo : string) (files : list FileContent) (w2 : World) : Prop :=
  GithubService.parseGitHubUrl repoUrl = Some (owner, repo)
  /\ exists repoInfo w1 totalMatching,
       GithubService.validateRepo env owner repo githubToken
         (emit (StatusEvent "Validating repository..." 0 0 None) w0)
       = (Returned repoInfo, w1)
       /\ isPrivate repoInfo && negb (truthy_string githubToken) = false
       /\ GithubService.getFilesForPriority env owner repo priority
            (MAX_FILES_PER_PRIORITY env)
            (Some (AnalysisService.report_progress priority)) githubToken
            (emit (StatusEvent ("Scanning " +:+ FileFilter.getPriorityName priority
                                +:+ " files...") 0 0 None) w1)
          = (Returned (files, totalMatching), w2).

(** The text the engine has accumulated at the end of the stream. *)
Definition accumulated (env : Environment) (chunks : list string) : string :=
  String.concat "" (map snd (concat (map (DeepseekService.decode_chunk env) chunks))).

(** The chunk events the engine yields while it reads the stream. *)
Definition chunk_events (env : Environment) (chunks : list string) : list StreamEvent :=
  map (fun delta => ChunkEvent (fst delta))
      (concat (map (DeepseekService.decode_chunk env) chunks)).

(** The request the engine sends for [files]. *)
Definition analysis_request (env : Environment) (files : list FileContent)
    (apiKey : string) (priority : PriorityLevel) : NetCall :=
  ChatCompletions apiKey (getPromptForPriority env priority)
                  (DeepseekService.userMessageFor files) true.

(** The events written after those of [w]. *)
Definition events_since (w w' : World) : list SSEEvent :=
  drop (length (written w)) (written w').

(** The cache holds no entry for [key] that may still be served at the
    time of [w]. *)
Definition stale (key : string) (w : World) : Prop :=
  match fileTreeCache w !! key with
  | Some (_, timestamp) => GithubService.CACHE_TTL <= now w - timestamp
  | None => True
  end.

(** The number of tree-listing requests among [requests]. *)
Definition tree_listings (requests : list NetCall) : nat :=
  length (List.filter is_tree_listing requests).

(** The world with the events [events] written, in this order. *)
Definition emit_all (events : list SSEEvent) (w : World) : World :=
  {| calls := calls w; now := now w; fileTreeCache := fileTreeCache w;
     written := written w ++ events; writableEnded := writableEnded w |}.

Definition not_error (e : SSEEvent) : bool := negb (is_error e).

(** The [complete] file events of a tier's files. *)
Definition fetched_marks (priority : PriorityLevel) (files : list FileContent)
  : list SSEEvent :=
  map (fun file => FileEvent (fc_path file) priority complete) files.

(** The status event that announces the AI analysis of [files]. *)
Definition analysing_status (files : list FileContent) : SSEEvent :=
  StatusEvent ("Analyzing " +:+ JsString.of_Z (Z.of_nat (length files))
               +:+ " files with AI...")
              (Z.of_nat (length files)) (Z.of_nat (length files)) None.

(** The world [ms] milliseconds later, nothing else having happened. *)
Definition later (ms : Z) (w : World) : World := snd (sleep ms w).

(** The stage of a tier an event belongs to: fetching (status and file
    events), findings (issue events), closing (complete and error
    events). *)
Definition stage (e : SSEEvent) : nat :=
  match e with
  | StatusEvent _ _ _ _ | FileEvent _ _ _ => 0
  | IssueEvent _ => 1
  | CompleteEvent _ | ErrorEvent _ _ _ => 2
  end.

(** The stages of [events] never go down, starting at [lo] or above and
    ending at [hi] or below. *)
Fixpoint climbs (lo hi : nat) (events : list SSEEvent) : bool :=
  match events with
  | [] => (lo <=? hi)%nat
  | e :: events' => (lo <=? stage e)%nat && climbs (stage e) hi events'
  end.

(** From [w] to [w'] events were written whose stages climb from [lo] to
    [hi]. *)
Definition reaches (lo hi : nat) (w w' : World) : Prop :=
  exists events, written w' = (written w ++ events)%list /\ climbs lo hi events = true.

(** What [sendSSE] does to the world. *)
Definition send (event : SSEEvent) (w : World) : World :=
  if writableEnded w then w else emit event w.

Definition not_content_request (c : NetCall) : bool := negb (is_content_request c).

(** The worlds the sample runs pass through. *)
Module SampleRuns.

(** After the repository is validated. *)
Definition validated (env : Environment) : World :=
  snd (GithubService.validateRepo env "acme" "shop" None
         (emit (StatusEvent "Validating repository..." 0 0 None) Samples.fresh)).

(** After the fetch phase of [priority]. *)
Definition fetched (env : Environment) (priority : PriorityLevel) : World :=
  snd (GithubService.getFilesForPriority env "acme" "shop" priority
         (MAX_FILES_PER_PRIORITY env) (Some (AnalysisService.report_progress priority)) None
         (emit (StatusEvent ("Scanning " +:+ FileFilter.getPriorityName priority
                             +:+ " files...") 0 0 None)
               (validated env))).

(** The file tree of [acme/shop] and the world after it is first listed. *)
Definition shop_files : list FileEntry :=
  [ {| fe_path := ".env"; fe_size := 64; fe_sha := "0a1b2c" |};
    {| fe_path := "src/services/cart.ts"; fe_size := 64; fe_sha := "0a1b2c" |};
    {| fe_path := "README.md"; fe_size := 64; fe_sha := "0a1b2c" |};
    {| fe_path := "assets/logo.png"; fe_size := 64; fe_sha := "0a1b2c" |} ].

Definition listed : World :=
  snd (GithubService.getFileTree Samples.shop "acme" "shop" None None Samples.fresh).

(** What [validateRepo] returns for [acme/shop]. *)
Definition shop_info : RepoInfo :=
  {| ri_owner := "acme";
     ri_name := "shop";
     fullName := "acme/shop";
     ri_description := None;
     stars := 7;
     ri_language := Some "TypeScript";
     lastUpdate := "2025-01-01T00:00:00Z";
     defaultBranch := "main";
     isPrivate := false |}.

(** The one tier-3 file of [acme/shop]. *)
Definition tier3_files : list FileContent :=
  [ {| fc_path := "README.md"; fc_content := "content of README.md"; fc_size := 64 |} ].

(** The one tier-1 file of [acme/shop]. *)
Definition tier1_files : list FileContent :=
  [ {| fc_path := ".env"; fc_content := "content of .env"; fc_size := 64 |} ].

End SampleRuns.

(** The characters [l] (the string [s]) hold no [c]. *)
Definition lacks_chars (c : ascii) (l : list ascii) : bool :=
  forallb (fun d => negb (Ascii.eqb d c)) l.

Definition lacks (c : ascii) (s : string) : bool := lacks_chars c (JsString.chars s).

(** The string is empty or starts with one of the characters [cs]. *)
Definition empty_or_starts_with (cs : list ascii) (s : string) : bool :=
  match s with
  | EmptyString => true
  | String c _ => existsb (Ascii.eqb c) cs
  end.

(** Events written while a run goes on: all but [complete] and [error]. *)
Definition running_event (e : SSEEvent) : bool := negb (closing_event e).

Definition any_call (c : NetCall) : bool := true.

(** What a run reports when the AI service answers the analysis request
    with the HTTP status [status] and the text [errorText]. *)
Definition rejection_report (status : Z) (errorText : string) : SSEEvent :=
  if bool_decide (status = 401) then
    ErrorEvent "Invalid DeepSeek API key" "INVALID_API_KEY" false
  else if bool_decide (status = 429) then
    ErrorEvent "DeepSeek rate limit exceeded. Please wait and try again." "RATE_LIMITED" true
  else
    let text := "DeepSeek API error: " +:+ JsString.of_Z status +:+ " - " +:+ errorText in
    if JsString.includes text "API key" then ErrorEvent text "INVALID_API_KEY" false
    else if JsString.includes text "rate limit" then ErrorEvent text "RATE_LIMITED" true
    else ErrorEvent ("Analysis failed: " +:+ text) "ANALYSIS_ERROR" false.

(** The events the orchestrator's progress callback writes for [paths],
    the first of which is the file number [done + 1] of [total]. *)
Fixpoint progress_events (priority : PriorityLevel) (total done : Z) (paths : list string)
  : list SSEEvent :=
  match paths with
  | [] => []
  | path :: paths' =>
      StatusEvent ("Fetching files... (" +:+ JsString.of_Z (done + 1) +:+ "/"
                   +:+ JsString.of_Z total +:+ ")")
                  (done + 1) total (Some path)
      :: FileEvent path priority scanning
      :: progress_events priority total (done + 1) paths'
  end.

Definition any_event (e : SSEEvent) : bool := true.

(** The requests a run may issue: requests to the hosting provider for
    the repository [owner/repo] with the credential [auth], and streamed
    requests to the AI service with the key [apiKey]. *)
Definition run_request (auth : option string) (owner repo apiKey : string) (c : NetCall)
  : bool :=
  match c with
  | ReposGet a o r | GitGetTree a o r _ | ReposGetContent a o r _ =>
      bool_decide (a = auth) && bool_decide (o = owner) && bool_decide (r = repo)
  | ChatCompletions key _ _ stream => bool_decide (key = apiKey) && stream
  end.

(** * Properties *)

(** ** The classifier *)

Section ClassifierFacts.

Variable minimatch : string -> string -> bool.

Lemma getFilePriority_ignored (filePath : string) :
  FileFilter.matchesAnyPattern minimatch filePath FileFilter.IGNORE_PATTERNS = true ->
  FileFilter.getFilePriority minimatch filePath = None.
Proof.
  intros Hmatch. unfold FileFilter.getFilePriority, FileFilter.shouldIgnoreFile.
  now rewrite Hmatch.
Qed.

Lemma getFilePriority_kept (filePath : string) :
  FileFilter.matchesAnyPattern minimatch filePath FileFilter.IGNORE_PATTERNS = false ->
  FileFilter.getFilePriority minimatch filePath =
    if FileFilter.matchesAnyPattern minimatch filePath FileFilter.PRIORITY_1_PATTERNS
    then Some P1
    else if FileFilter.matchesAnyPattern minimatch filePath FileFilter.PRIORITY_2_PATTERNS
    then Some P2
    else if FileFilter.matchesAnyPattern minimatch filePath FileFilter.PRIORITY_3_PATTERNS
    then Some P3
    else None.
Proof.
  intros Hmatch. unfold FileFilter.getFilePriority, FileFilter.shouldIgnoreFile.
  now rewrite Hmatch.
Qed.

End ClassifierFacts.

(** C1. The classifier tries the Ignore, Tier-1, Tier-2 and Tier-3 lists
    in this order and the first list with a matching pattern decides: an
    Ignore match gives Ignored whatever else matches; otherwise a Tier-1
    match gives tier 1 even when Tier-2 or Tier-3 patterns match too;
    then Tier 2, then Tier 3; a path matching no list is Ignored. *)
Theorem getFilePriority_first_match_wins
    (minimatch : string -> string -> bool) (filePath : string) :
  (FileFilter.matchesAnyPattern minimatch filePath FileFilter.IGNORE_PATTERNS = true ->
   FileFilter.getFilePriority minimatch filePath = None)
  /\ (FileFilter.matchesAnyPattern minimatch filePath FileFilter.IGNORE_PATTERNS = false ->
      FileFilter.matchesAnyPattern minimatch filePath FileFilter.PRIORITY_1_PATTERNS = true ->
      FileFilter.getFilePriority minimatch filePath = Some P1)
  /\ (FileFilter.matchesAnyPattern minimatch filePath FileFilter.IGNORE_PATTERNS = false ->
      FileFilter.matchesAnyPattern minimatch filePath FileFilter.PRIORITY_1_PATTERNS = false ->
      FileFilter.matchesAnyPattern minimatch filePath FileFilter.PRIORITY_2_PATTERNS = true ->
      FileFilter.getFilePriority minimatch filePath = Some P2)
  /\ (FileFilter.matchesAnyPattern minimatch filePath FileFilter.IGNORE_PATTERNS = false ->
      FileFilter.matchesAnyPattern minimatch filePath FileFilter.PRIORITY_1_PATTERNS = false ->
      FileFilter.matchesAnyPattern minimatch filePath FileFilter.PRIORITY_2_PATTERNS = false ->
      FileFilter.matchesAnyPattern minimatch filePath FileFilter.PRIORITY_3_PATTERNS = true ->
      FileFilter.getFilePriority minimatch filePath = Some P3)
  /\ (FileFilter.matchesAnyPattern minimatch filePath FileFilter.IGNORE_PATTERNS = false ->
      FileFilter.matchesAnyPattern minimatch filePath FileFilter.PRIORITY_1_PATTERNS = false ->
      FileFilter.matchesAnyPattern minimatch filePath FileFilter.PRIORITY_2_PATTERNS = false ->
      FileFilter.matchesAnyPattern minimatch filePath FileFilter.PRIORITY_3_PATTERNS = false ->
      FileFilter.getFilePriority minimatch filePath = None).
Proof.
  split; [apply getFilePriority_ignored |].
  repeat split; intros Hignore; rewrite (getFilePriority_kept _ _ Hignore);
    intros; repeat match goal with H : _ = _ |- _ => rewrite H; clear H end; reflexivity.
Qed.

(** A path under [auth/] with a [.ts] suffix matches Tier-1 and Tier-3
    patterns, and an ignored image under [auth/] matches Ignore and Tier-1
    patterns: tier 1 and Ignored. *)
Lemma getFilePriority_first_match_wins_sample :
  FileFilter.matchesAnyPattern Reference.glob_match "src/auth/login.ts"
    FileFilter.PRIORITY_3_PATTERNS = true
  /\ FileFilter.getFilePriority Reference.glob_match "src/auth/login.ts" = Some P1
  /\ FileFilter.matchesAnyPattern Reference.glob_match "src/auth/logo.png"
       FileFilter.PRIORITY_1_PATTERNS = true
  /\ FileFilter.getFilePriority Reference.glob_match "src/auth/logo.png" = None
  /\ FileFilter.getFilePriority Reference.glob_match "Makefile" = None.
Proof.
  split; [vm_compute; reflexivity |].
  split.
  { apply (proj1 (proj2 (getFilePriority_first_match_wins
                           Reference.glob_match "src/auth/login.ts")));
      vm_compute; reflexivity. }
  split; [vm_compute; reflexivity |].
  split.
  { apply (proj1 (getFilePriority_first_match_wins Reference.glob_match "src/auth/logo.png"));
      vm_compute; reflexivity. }
  apply (proj2 (proj2 (proj2 (proj2 (getFilePriority_first_match_wins
                                       Reference.glob_match "Makefile")))));
    vm_compute; reflexivity.
Defined.

(** ** Doubles as real numbers

    The operations of [Floats.SpecFloat] on positive numbers in the
    range of the normal doubles: each returns a double within a relative
    error of [2^-53] of the exact result. *)

Section Pow2.

Import Double.

Lemma pow2_pos (e : Z) : (0 < pow2 e)%R.
Proof. apply powerRZ_lt. lra. Qed.

Lemma pow2_add (a b : Z) : pow2 (a + b) = (pow2 a * pow2 b)%R.
Proof. apply powerRZ_add. lra. Qed.

Lemma pow2_0 : pow2 0 = 1%R.
Proof. reflexivity. Qed.

Lemma pow2_1 : pow2 1 = 2%R.
Proof. apply (powerRZ_1 2). Qed.

Lemma pow2_opp (e : Z) : pow2 (- e) = (/ pow2 e)%R.
Proof. apply powerRZ_neg'. Qed.

Lemma pow2_m1 : pow2 (-1) = (/ 2)%R.
Proof. change (-1) with (- (1)). now rewrite pow2_opp, pow2_1. Qed.

Lemma pow2_cancel (e : Z) : (pow2 e * pow2 (- e))%R = 1%R.
Proof. rewrite <- pow2_add. replace (e + - e) with 0 by lia. apply pow2_0. Qed.

Lemma pow2_succ (e : Z) : pow2 (e + 1) = (2 * pow2 e)%R.
Proof. rewrite pow2_add, pow2_1. lra. Qed.

Lemma pow2_IZR (e : Z) : 0 <= e -> pow2 e = IZR (2 ^ e).
Proof.
  intros He. unfold pow2. rewrite <- (Z2Nat.id e He), <- pow_powerRZ, pow_IZR. reflexivity.
Qed.

Lemma pow2_le (a b : Z) : a <= b -> (pow2 a <= pow2 b)%R.
Proof.
  intros Hab. replace b with (a + (b - a)) by lia. rewrite pow2_add.
  rewrite (pow2_IZR (b - a)) by lia.
  assert (1 <= 2 ^ (b - a)) by (apply (Z.pow_le_mono_r 2 0); lia).
  apply IZR_le in H. pose proof (pow2_pos a). nra.
Qed.

Lemma pow2_lt (a b : Z) : a < b -> (pow2 a < pow2 b)%R.
Proof.
  intros Hab. replace b with (a + (b - a)) by lia. rewrite pow2_add.
  rewrite (pow2_IZR (b - a)) by lia.
  assert (2 <= 2 ^ (b - a)) by (apply (Z.pow_le_mono_r 2 1); lia).
  apply IZR_le in H. pose proof (pow2_pos a). nra.
Qed.

Lemma pow2_lt_inv (a b : Z) : (pow2 a < pow2 b)%R -> a < b.
Proof.
  intros H. destruct (Z_lt_le_dec a b) as [Hlt | Hle]; [exact Hlt |].
  apply pow2_le in Hle. lra.
Qed.

Lemma F2R_shift (m e k : Z) : 0 <= k -> F2R (m * 2 ^ k) e = F2R m (e + k).
Proof.
  intros Hk. unfold F2R. rewrite mult_IZR, pow2_add, <- (pow2_IZR k Hk). lra.
Qed.

End Pow2.

Section Shifting.

Import Double.

Lemma digits2_pos_size (p : positive) : digits2_pos p = Pos.size p.
Proof. induction p as [p IH | p IH |]; simpl; congruence. Qed.

(** A positive integer of [d] binary digits lies in [[2^(d-1), 2^d)]. *)
Lemma Zdigits2_bounds (p : positive) :
  2 ^ (Zdigits2 (Z.pos p) - 1) <= Z.pos p < 2 ^ Zdigits2 (Z.pos p).
Proof.
  cbn [Zdigits2]. rewrite digits2_pos_size.
  pose proof (Pos.size_gt p) as Hgt. pose proof (Pos.size_le p) as Hle.
  apply Pos2Z.pos_lt_pos in Hgt. apply Pos2Z.pos_le_pos in Hle.
  rewrite Pos2Z.inj_pow in Hgt, Hle. change (Z.pos p~0) with (2 * Z.pos p) in Hle.
  set (size := Z.pos (Pos.size p)) in *.
  assert (Hsize : 2 ^ size = 2 * 2 ^ (size - 1)).
  { replace size with (size - 1 + 1) at 1 by lia. rewrite Z.pow_add_r by lia. lia. }
  lia.
Qed.

Lemma Zdigits2_unique (p : positive) (d : Z) :
  2 ^ (d - 1) <= Z.pos p < 2 ^ d -> Zdigits2 (Z.pos p) = d.
Proof.
  intros [Hlow Hhigh]. pose proof (Zdigits2_bounds p) as [Hlow' Hhigh'].
  assert (Hpos : 0 < Zdigits2 (Z.pos p)) by (cbn; lia).
  assert (Hd : 0 < d).
  { destruct (Z.lt_trichotomy d 0) as [H | [-> | H]]; [| cbn in Hhigh; lia | exact H].
    rewrite (Z.pow_neg_r 2 d) in Hhigh by lia. lia. }
  destruct (Z.lt_trichotomy (Zdigits2 (Z.pos p)) d) as [Hlt | [Heq | Hgt]]; [| exact Heq |].
  - assert (2 ^ Zdigits2 (Z.pos p) <= 2 ^ (d - 1)) by (apply Z.pow_le_mono_r; lia). lia.
  - assert (2 ^ d <= 2 ^ (Zdigits2 (Z.pos p) - 1)) by (apply Z.pow_le_mono_r; lia). lia.
Qed.

Lemma shr_record_of_loc_m (m : Z) (l : location) : shr_m (shr_record_of_loc m l) = m.
Proof. now destruct l as [| []]. Qed.

Lemma loc_of_shr_record_of_loc (m : Z) (l : location) :
  loc_of_shr_record (shr_record_of_loc m l) = l.
Proof. now destruct l as [| []]. Qed.

(** One step to the right halves the position and keeps the location. *)
Lemma shr_1_located (mrs : shr_record) (t : R) :
  0 <= shr_m mrs ->
  located (shr_m mrs) (loc_of_shr_record mrs) t ->
  0 <= shr_m (shr_1 mrs)
  /\ located (shr_m (shr_1 mrs)) (loc_of_shr_record (shr_1 mrs)) (t / 2).
Proof.
  destruct mrs as [m r s]. cbn [shr_m]. intros Hm Hloc.
  destruct m as [| [p | p |] | p]; [| | | | lia].
  - destruct r, s; cbn in *; split; try lia; lra.
  - change (Z.pos p~1) with (2 * Z.pos p + 1) in Hloc.
    destruct r, s; cbn [shr_1 shr_m loc_of_shr_record orb located] in *;
      rewrite plus_IZR, mult_IZR in Hloc; split; try lia; lra.
  - change (Z.pos p~0) with (2 * Z.pos p) in Hloc.
    destruct r, s; cbn [shr_1 shr_m loc_of_shr_record orb located] in *;
      rewrite mult_IZR in Hloc; split; try lia; lra.
  - destruct r, s; cbn in *; split; try lia; lra.
Qed.

Lemma iter_pos_shr_1 (p : positive) (mrs : shr_record) (t : R) :
  0 <= shr_m mrs ->
  located (shr_m mrs) (loc_of_shr_record mrs) t ->
  0 <= shr_m (SpecFloat.iter_pos shr_1 p mrs)
  /\ located (shr_m (SpecFloat.iter_pos shr_1 p mrs))
       (loc_of_shr_record (SpecFloat.iter_pos shr_1 p mrs))
       (t * pow2 (- Z.pos p)).
Proof.
  revert mrs t. induction p as [p IH | p IH |]; intros mrs t Hm Hloc; cbn [SpecFloat.iter_pos].
  - destruct (shr_1_located mrs t Hm Hloc) as [Hm1 Hloc1].
    destruct (IH _ _ Hm1 Hloc1) as [Hm2 Hloc2].
    destruct (IH _ _ Hm2 Hloc2) as [Hm3 Hloc3].
    split; [exact Hm3 |].
    replace (t * pow2 (- Z.pos p~1))%R with (t / 2 * pow2 (- Z.pos p) * pow2 (- Z.pos p))%R;
      [exact Hloc3 |].
    replace (- Z.pos p~1) with (-1 + (- Z.pos p + - Z.pos p)) by lia.
    rewrite !pow2_add, pow2_m1. lra.
  - destruct (IH _ _ Hm Hloc) as [Hm2 Hloc2].
    destruct (IH _ _ Hm2 Hloc2) as [Hm3 Hloc3].
    split; [exact Hm3 |].
    replace (t * pow2 (- Z.pos p~0))%R with (t * pow2 (- Z.pos p) * pow2 (- Z.pos p))%R;
      [exact Hloc3 |].
    replace (- Z.pos p~0) with (- Z.pos p + - Z.pos p) by lia.
    rewrite !pow2_add. lra.
  - destruct (shr_1_located mrs t Hm Hloc) as [Hm1 Hloc1]. split; [exact Hm1 |].
    replace (t * pow2 (- (1)))%R with (t / 2)%R; [exact Hloc1 |].
    rewrite pow2_opp, pow2_1. lra.
Qed.

(** Shifting right keeps the number located. *)
Lemma shr_inbetween (m : Z) (l : location) (e n : Z) (x : R) :
  0 <= m -> inbetween m e l x ->
  0 <= shr_m (fst (shr (shr_record_of_loc m l) e n))
  /\ snd (shr (shr_record_of_loc m l) e n) = e + Z.max 0 n
  /\ inbetween (shr_m (fst (shr (shr_record_of_loc m l) e n)))
       (snd (shr (shr_record_of_loc m l) e n))
       (loc_of_shr_record (fst (shr (shr_record_of_loc m l) e n))) x.
Proof.
  intros Hm Hin. unfold inbetween in *.
  destruct n as [| p | p]; cbn [shr fst snd].
  - rewrite shr_record_of_loc_m, loc_of_shr_record_of_loc.
    split; [| split]; [lia | lia | exact Hin].
  - destruct (iter_pos_shr_1 p (shr_record_of_loc m l) (x * pow2 (- e))%R) as [Hm' Hloc'].
    + now rewrite shr_record_of_loc_m.
    + now rewrite shr_record_of_loc_m, loc_of_shr_record_of_loc.
    + split; [| split]; [exact Hm' | lia |].
      replace (x * pow2 (- (e + Z.pos p)))%R with (x * pow2 (- e) * pow2 (- Z.pos p))%R;
        [exact Hloc' |].
      replace (- (e + Z.pos p)) with (- e + - Z.pos p) by lia. rewrite pow2_add. lra.
  - rewrite shr_record_of_loc_m, loc_of_shr_record_of_loc.
    split; [| split]; [lia | lia | exact Hin].
Qed.

End Shifting.

Section Rounding.

Import Double.

Lemma located_floor (m : Z) (l : location) (t : R) :
  located m l t -> (IZR m <= t < IZR m + 1)%R.
Proof. destruct l as [| []]; cbn; lra. Qed.

Lemma round_nearest_even_near (m : Z) (l : location) (t : R) :
  located m l t ->
  (round_nearest_even m l = m \/ round_nearest_even m l = m + 1)
  /\ (Rabs (IZR (round_nearest_even m l) - t) <= 1 / 2)%R.
Proof.
  destruct l as [| []]; cbn [located round_nearest_even]; intros Hloc.
  - split; [now left |]. apply Rabs_le. lra.
  - destruct (Z.even m); (split; [auto |]); rewrite ?plus_IZR; apply Rabs_le; lra.
  - split; [now left |]. apply Rabs_le. lra.
  - split; [now right |]. rewrite plus_IZR. apply Rabs_le. lra.
Qed.

(** A number that is an integer is located at this integer, and is
    rounded to it. *)
Lemma located_integer (m : Z) (l : location) (K : Z) :
  located m l (IZR K) -> round_nearest_even m l = K.
Proof.
  intros Hloc. pose proof (located_floor _ _ _ Hloc) as [Hlow Hhigh].
  apply le_IZR in Hlow. rewrite <- (plus_IZR m 1) in Hhigh. apply lt_IZR in Hhigh.
  assert (m = K) as <- by lia.
  destruct l as [| []]; cbn in *; try reflexivity; lra.
Qed.

Lemma fexp_normal (e : Z) : -1021 <= e -> fexp prec emax e = e - 53.
Proof. unfold fexp, emin, prec, emax. lia. Qed.

(** The last step of [binary_round_aux] on a mantissa of 53 bits, or
    of 54 after a carry. *)
Lemma round_aux_finish (sx : bool) (m2 e1 : Z) :
  2 ^ 52 <= m2 <= 2 ^ 53 -> -1074 <= e1 <= 970 ->
  exists (m : positive) (e : Z),
    (let '(mrs, e') := shr_fexp prec emax m2 e1 loc_Exact in
     match shr_m mrs with
     | 0 => S754_zero sx
     | Z.pos m => if (e' <=? emax - prec)%Z then S754_finite sx m e' else S754_infinity sx
     | Z.neg _ => S754_nan
     end) = S754_finite sx m e
    /\ 2 ^ 52 <= Z.pos m < 2 ^ 53
    /\ F2R (Z.pos m) e = F2R m2 e1.
Proof.
  intros [Hlow Hhigh] He.
  destruct m2 as [| p |]; [lia | | lia].
  destruct (Z.eq_dec (Z.pos p) (2 ^ 53)) as [Hcarry | Hnormal].
  - assert (p = 9007199254740992%positive) as -> by lia.
    exists 4503599627370496%positive, (e1 + 1).
    unfold shr_fexp.
    change (Zdigits2 (Z.pos 9007199254740992)) with 54.
    rewrite fexp_normal by lia.
    replace (54 + e1 - 53 - e1) with 1 by lia.
    cbn [shr shr_record_of_loc SpecFloat.iter_pos shr_1 shr_m orb].
    replace (e1 + 1 <=? emax - prec)%Z with true
      by (symmetry; apply Z.leb_le; unfold emax, prec; lia).
    split; [reflexivity |]. split; [lia |].
    change (Z.pos 9007199254740992) with (Z.pos 4503599627370496 * 2 ^ 1).
    now rewrite F2R_shift by lia.
  - exists p, e1.
    assert (Hdigits : Zdigits2 (Z.pos p) = 53) by (apply Zdigits2_unique; lia).
    unfold shr_fexp. rewrite Hdigits, fexp_normal by lia.
    replace (53 + e1 - 53 - e1) with 0 by lia.
    cbn [shr shr_record_of_loc shr_m].
    replace (e1 <=? emax - prec)%Z with true
      by (symmetry; apply Z.leb_le; unfold emax, prec; lia).
    split; [reflexivity |]. split; [lia | reflexivity].
Qed.

(** [binary_round_aux] on a positive number located by a mantissa of at
    least 53 bits, when the number is in the range of the normal
    doubles: the result is a normal double that rounds the number. *)
Lemma round_aux_pos (sx : bool) (mx ex : Z) (lx : location) (x : R) :
  2 ^ 52 <= mx -> inbetween mx ex lx x ->
  normal_range x ->
  exists (m : positive) (e : Z),
    binary_round_aux prec emax sx mx ex lx = S754_finite sx m e
    /\ 2 ^ 52 <= Z.pos m < 2 ^ 53
    /\ rounds x (F2R (Z.pos m) e).
Proof.
  intros Hmx Hin [Hxlow Hxhigh].
  destruct mx as [| p |]; [lia | | lia].
  set (d := Zdigits2 (Z.pos p)).
  pose proof (Zdigits2_bounds p) as [Hplow Hphigh]. fold d in Hplow, Hphigh.
  assert (Hd : 53 <= d).
  { destruct (Z_lt_le_dec d 53) as [Hlt | Hle]; [| exact Hle].
    assert (2 ^ d <= 2 ^ 52) by (apply Z.pow_le_mono_r; lia). lia. }
  (* the magnitude of [x] *)
  pose proof (located_floor _ _ _ Hin) as [Htlow Hthigh].
  assert (Hx : x = (x * pow2 (- ex) * pow2 ex)%R).
  { rewrite Rmult_assoc, (Rmult_comm (pow2 (- ex))), pow2_cancel. lra. }
  assert (Hmaglow : (pow2 (d - 1 + ex) <= x)%R).
  { rewrite pow2_add, pow2_IZR by lia. apply IZR_le in Hplow.
    pose proof (pow2_pos ex). rewrite Hx. nra. }
  assert (Hmaghigh : (x < pow2 (d + ex))%R).
  { rewrite pow2_add, pow2_IZR by lia.
    assert (Hnext : Z.pos p + 1 <= 2 ^ d) by lia. apply IZR_le in Hnext.
    rewrite plus_IZR in Hnext. pose proof (pow2_pos ex). rewrite Hx. nra. }
  assert (Hmag : -1022 < d + ex) by (apply pow2_lt_inv; lra).
  assert (Hmag' : d - 1 + ex < 1023) by (apply pow2_lt_inv; lra).
  set (ef := d + ex - 53).
  (* the first shift *)
  unfold binary_round_aux, shr_fexp. fold d. rewrite fexp_normal by lia.
  pose proof (shr_inbetween (Z.pos p) lx ex (d + ex - 53 - ex) x ltac:(lia) Hin)
    as (Hm1 & He1 & Hin1).
  destruct (shr (shr_record_of_loc (Z.pos p) lx) ex (d + ex - 53 - ex)) as [mrs1 e1].
  cbn [fst snd] in Hm1, He1, Hin1.
  assert (e1 = ef) as -> by (unfold ef; lia). clear He1.
  set (m1 := shr_m mrs1) in *. set (l1 := loc_of_shr_record mrs1) in *.
  pose proof (located_floor _ _ _ Hin1) as [Ht1low Ht1high].
  assert (Hx1 : x = (x * pow2 (- ef) * pow2 ef)%R).
  { rewrite Rmult_assoc, (Rmult_comm (pow2 (- ef))), pow2_cancel. lra. }
  set (t1 := (x * pow2 (- ef))%R) in *.
  assert (Ht1 : (IZR (2 ^ 52) <= t1 < IZR (2 ^ 53))%R).
  { rewrite <- !pow2_IZR by lia. pose proof (pow2_pos ef) as Hef.
    replace (d - 1 + ex) with (52 + ef) in Hmaglow by (unfold ef; lia).
    replace (d + ex) with (53 + ef) in Hmaghigh by (unfold ef; lia).
    rewrite pow2_add in Hmaglow, Hmaghigh.
    split.
    - apply (Rmult_le_reg_r (pow2 ef)); [exact Hef | lra].
    - apply (Rmult_lt_reg_r (pow2 ef)); [exact Hef | lra]. }
  assert (Hm1range : 2 ^ 52 <= m1 < 2 ^ 53).
  { split.
    - assert (2 ^ 52 < m1 + 1); [| lia]. apply lt_IZR. rewrite plus_IZR. lra.
    - apply lt_IZR. lra. }
  destruct (round_nearest_even_near _ _ _ Hin1) as [Hm2 Hnear].
  fold t1 in Hnear.
  set (m2 := round_nearest_even m1 l1) in *.
  destruct (round_aux_finish sx m2 ef ltac:(lia) ltac:(unfold ef; lia))
    as (m & e & Hresult & Hrange & Hvalue).
  exists m, e. split; [exact Hresult |]. split; [exact Hrange |].
  rewrite Hvalue. unfold F2R. pose proof (pow2_pos ef) as Hef.
  split.
  - (* the error *)
    replace (IZR m2 * pow2 ef - x)%R with ((IZR m2 - t1) * pow2 ef)%R by lra.
    rewrite Rabs_mult, (Rabs_pos_eq (pow2 ef)) by lra.
    replace (-53) with (- (52 + 1)) by lia.
    rewrite pow2_opp, pow2_add, pow2_1, (pow2_IZR 52) by lia.
    assert (H52 : (0 < IZR (2 ^ 52))%R) by (apply IZR_lt; lia).
    assert (Hhalf : (/ (IZR (2 ^ 52) * 2) * x >= / 2 * pow2 ef)%R).
    { rewrite Rinv_mult. rewrite Hx1.
      assert (/ IZR (2 ^ 52) * t1 >= 1)%R; [| nra].
      apply Rle_ge. apply (Rmult_le_reg_l (IZR (2 ^ 52))); [exact H52 |].
      rewrite <- Rmult_assoc, Rinv_r by lra. lra. }
    nra.
  - (* a double is rounded to itself *)
    intros K e0 HK Hbelow.
    assert (He0 : ef <= e0).
    { assert (ef + 52 < e0 + 53); [| lia]. apply pow2_lt_inv.
      replace (d - 1 + ex) with (ef + 52) in Hmaglow by (unfold ef; lia). lra. }
    assert (Hint : t1 = IZR (K * 2 ^ (e0 - ef))).
    { unfold t1. rewrite HK. unfold F2R. rewrite mult_IZR, <- pow2_IZR by lia.
      rewrite Rmult_assoc, <- pow2_add. now replace (e0 + - ef) with (e0 - ef) by lia. }
    unfold inbetween in Hin1. fold t1 in Hin1. rewrite Hint in Hin1.
    apply located_integer in Hin1. fold m2 in Hin1. rewrite Hin1, <- Hint.
    symmetry. exact Hx1.
Qed.

End Rounding.

Section Operations.

Import Double.

Lemma represents_nonneg (f : spec_float) (x : R) : represents f x -> (0 <= x)%R.
Proof.
  destruct f as [[] | | | [] m e]; cbn; try tauto; [lra |].
  intros [_ ->]. unfold F2R. pose proof (pow2_pos e).
  assert (0 < IZR (Z.pos m))%R by (apply IZR_lt; lia). nra.
Qed.

Lemma rounds_refl (x : R) : (0 <= x)%R -> rounds x x.
Proof.
  intros Hx. split; [| auto].
  replace (x - x)%R with 0%R by lra. rewrite Rabs_R0. pose proof (pow2_pos (-53)). nra.
Qed.

(** What [round_aux_pos] gives, as a double that represents the rounded
    number. *)
Lemma round_aux_represents (mx ex : Z) (lx : location) (x : R) :
  2 ^ 52 <= mx -> inbetween mx ex lx x -> normal_range x ->
  exists z, represents (binary_round_aux prec emax false mx ex lx) z /\ rounds x z.
Proof.
  intros Hmx Hin Hrange.
  destruct (round_aux_pos false mx ex lx x Hmx Hin Hrange) as (m & e & -> & Hm & Hrounds).
  exists (F2R (Z.pos m) e). cbn. auto.
Qed.

Lemma F2R_located (m e : Z) : inbetween m e loc_Exact (F2R m e).
Proof.
  unfold inbetween, located, F2R. rewrite Rmult_assoc, pow2_cancel. lra.
Qed.

(** ** Multiplication *)

Lemma SFmul_rounds (f g : spec_float) (x y : R) :
  represents f x -> represents g y ->
  ((0 < x * y)%R -> normal_range (x * y)) ->
  exists z, represents (SFmul prec emax f g) z /\ rounds (x * y) z.
Proof.
  intros Hf Hg Hrange.
  destruct f as [[] | | | [] mx ex]; cbn in Hf; try tauto;
    destruct g as [[] | | | [] my ey]; cbn in Hg; try tauto.
  - subst. exists 0%R. cbn. rewrite Rmult_0_l. split; [reflexivity | apply rounds_refl; lra].
  - destruct Hg as [_ ->]. subst. exists 0%R. cbn. rewrite Rmult_0_l.
    split; [reflexivity | apply rounds_refl; lra].
  - destruct Hf as [_ ->]. subst. exists 0%R. cbn. rewrite Rmult_0_r.
    split; [reflexivity | apply rounds_refl; lra].
  - destruct Hf as [Hmx ->], Hg as [Hmy ->].
    cbn [SFmul xorb].
    assert (Hproduct : (F2R (Z.pos mx) ex * F2R (Z.pos my) ey)%R
                       = F2R (Z.pos (mx * my)) (ex + ey)).
    { unfold F2R. rewrite Pos2Z.inj_mul, mult_IZR, pow2_add. lra. }
    rewrite Hproduct in *.
    apply round_aux_represents.
    + rewrite Pos2Z.inj_mul. nia.
    + apply F2R_located.
    + apply Hrange. unfold F2R. pose proof (pow2_pos (ex + ey)).
      assert (0 < IZR (Z.pos (mx * my)))%R by (apply IZR_lt; lia). nra.
Qed.

(** ** Division *)

Lemma new_location_located (divisor q r : Z) :
  0 < divisor -> 0 <= r < divisor ->
  located q (new_location divisor r) (IZR q + IZR r / IZR divisor).
Proof.
  intros Hdivisor [Hr0 Hr].
  assert (Hd : (0 < IZR divisor)%R) by (apply IZR_lt; lia).
  set (u := (IZR r / IZR divisor)%R).
  assert (Hu : IZR r = (u * IZR divisor)%R) by (unfold u; field; lra).
  assert (Hcompare : forall k, (IZR (2 * r) < IZR k -> IZR k <= IZR divisor -> u < 1 / 2)%R).
  { intros k. rewrite mult_IZR, Hu. intros. nra. }
  unfold new_location.
  destruct (Z.even divisor) eqn:Heven.
  - unfold new_location_even. destruct (Z.eqb_spec r 0) as [-> | Hnonzero].
    + cbn. unfold u. rewrite Rdiv_0_l. lra.
    + assert (0 < IZR r)%R by (apply IZR_lt; lia).
      destruct (Z.compare_spec (2 * r) divisor) as [Heq | Hlt | Hgt]; cbn.
      * apply (f_equal IZR) in Heq. rewrite mult_IZR, Hu in Heq. nra.
      * apply IZR_lt in Hlt. rewrite mult_IZR, Hu in Hlt. nra.
      * apply IZR_lt in Hgt, Hr. rewrite mult_IZR, Hu in Hgt. rewrite Hu in Hr. nra.
  - unfold new_location_odd. destruct (Z.eqb_spec r 0) as [-> | Hnonzero].
    + cbn. unfold u. rewrite Rdiv_0_l. lra.
    + assert (0 < IZR r)%R by (apply IZR_lt; lia).
      assert (Hodd : 2 * r <> divisor).
      { intros <-. rewrite Z.even_mul in Heven. discriminate Heven. }
      apply IZR_lt in Hr. rewrite Hu in Hr.
      destruct (Z.compare_spec (2 * r + 1) divisor) as [Heq | Hlt | Hgt]; cbn.
      * assert (Hlt : 2 * r < divisor) by lia.
        apply IZR_lt in Hlt. rewrite mult_IZR, Hu in Hlt. nra.
      * assert (Hlt' : 2 * r < divisor) by lia.
        apply IZR_lt in Hlt'. rewrite mult_IZR, Hu in Hlt'. nra.
      * assert (Hgt' : divisor < 2 * r) by lia.
        apply IZR_lt in Hgt'. rewrite mult_IZR, Hu in Hgt'. nra.
Qed.

Lemma SFdiv_rounds (f g : spec_float) (x y : R) :
  represents f x -> represents g y -> (0 < y)%R ->
  ((0 < x)%R -> normal_range (x / y)) ->
  exists z, represents (SFdiv prec emax f g) z /\ rounds (x / y) z.
Proof.
  intros Hf Hg Hy Hrange.
  destruct g as [[] | | | [] my ey]; cbn in Hg; try tauto; [lra |].
  destruct Hg as [Hmy ->].
  destruct f as [[] | | | [] mx ex]; cbn in Hf; try tauto.
  - subst. exists 0%R. cbn. unfold Rdiv. rewrite Rmult_0_l.
    split; [reflexivity | apply rounds_refl; lra].
  - destruct Hf as [Hmx ->].
    assert (Hx : (0 < F2R (Z.pos mx) ex)%R).
    { unfold F2R. pose proof (pow2_pos ex).
      assert (0 < IZR (Z.pos mx))%R by (apply IZR_lt; lia). nra. }
    specialize (Hrange Hx). destruct Hrange as [Hlow Hhigh].
    cbn [SFdiv xorb]. unfold SFdiv_core_binary.
    rewrite (Zdigits2_unique mx 53), (Zdigits2_unique my 53) by lia.
    set (e' := Z.min (fexp prec emax (53 + ex - (53 + ey))) (ex - ey)).
    set (s := ex - ey - e').
    assert (Hs : 0 <= s) by (unfold s, e'; lia).
    assert (Hshift : match s with
                     | 0 => Z.pos mx
                     | Z.pos _ => Z.shiftl (Z.pos mx) s
                     | Z.neg _ => 0
                     end = Z.pos mx * 2 ^ s).
    { destruct s as [| p | p]; [lia | | lia]. now rewrite Z.shiftl_mul_pow2. }
    rewrite Hshift.
    pose proof (Z_div_mod (Z.pos mx * 2 ^ s) (Z.pos my) ltac:(lia)) as Hdivmod.
    destruct (Z.div_eucl (Z.pos mx * 2 ^ s) (Z.pos my)) as [q r].
    destruct Hdivmod as [Hsplit Hr].
    (* the quotient as a real number *)
    assert (Hmy' : (0 < IZR (Z.pos my))%R) by (apply IZR_lt; lia).
    assert (Hquotient : (F2R (Z.pos mx) ex / F2R (Z.pos my) ey * pow2 (- e'))%R
                        = (IZR q + IZR r / IZR (Z.pos my))%R).
    { assert (Hreal : (IZR (Z.pos mx) * pow2 s)%R = (IZR (Z.pos my) * IZR q + IZR r)%R)
        by now rewrite (pow2_IZR s Hs), <- mult_IZR, Hsplit, plus_IZR, mult_IZR.
      unfold F2R. replace ex with (s + e' + ey) at 1 by (unfold s; lia).
      rewrite !pow2_add, pow2_opp. pose proof (pow2_pos e'). pose proof (pow2_pos ey).
      replace (IZR (Z.pos mx) * (pow2 s * pow2 e' * pow2 ey) / (IZR (Z.pos my) * pow2 ey)
               * / pow2 e')%R
        with (IZR (Z.pos mx) * pow2 s / IZR (Z.pos my))%R by (field; lra).
      rewrite Hreal. field. lra. }
    assert (Hin : inbetween q e' (new_location (Z.pos my) r)
                    (F2R (Z.pos mx) ex / F2R (Z.pos my) ey)).
    { unfold inbetween. rewrite Hquotient. apply new_location_located; lia. }
    (* the quotient has at least 53 bits *)
    assert (Hq : 2 ^ 52 <= q).
    { pose proof (located_floor _ _ _ Hin) as [_ Hbelow].
      assert (2 ^ 52 < q + 1); [| lia]. apply lt_IZR. rewrite plus_IZR.
      eapply Rle_lt_trans; [| exact Hbelow].
      rewrite <- pow2_IZR by lia.
      apply (Rmult_le_reg_r (pow2 e')); [apply pow2_pos |].
      rewrite Rmult_assoc, (Rmult_comm (pow2 (- e'))), pow2_cancel, Rmult_1_r, <- pow2_add.
      assert (Hcases : e' <= ex - ey - 53 \/ e' <= -1074)
        by (unfold e', fexp, emin, prec, emax; lia).
      destruct Hcases as [Hcase | Hcase].
      - (* [mx / my] is above one half *)
        apply Rle_trans with (pow2 (ex - ey - 1)); [apply pow2_le; lia |].
        unfold F2R. replace ex with (ex - ey - 1 + 1 + ey) at 2 by lia.
        rewrite !pow2_add, pow2_1.
        pose proof (pow2_pos (ex - ey - 1)). pose proof (pow2_pos ey).
        assert (Hratio : (IZR (Z.pos my) <= 2 * IZR (Z.pos mx))%R).
        { rewrite <- mult_IZR. apply IZR_le. lia. }
        apply (Rmult_le_reg_r (IZR (Z.pos my) * pow2 ey)); [nra |].
        replace (IZR (Z.pos mx) * (pow2 (ex - ey - 1) * 2 * pow2 ey)
                 / (IZR (Z.pos my) * pow2 ey) * (IZR (Z.pos my) * pow2 ey))%R
          with (IZR (Z.pos mx) * (pow2 (ex - ey - 1) * 2 * pow2 ey))%R by (field; lra).
        assert (Hscale : (0 <= pow2 (ex - ey - 1) * pow2 ey)%R) by nra.
        pose proof (Rmult_le_compat_l _ _ _ Hscale Hratio). lra.
      - apply Rle_trans with (pow2 (-1022)); [apply pow2_le; lia | exact Hlow]. }
    apply round_aux_represents; [exact Hq | exact Hin | split; assumption].
Qed.

End Operations.

Section Addition.

Import Double.

Lemma Pos_iter_xO (m d : positive) : Z.pos (Pos.iter xO m d) = Z.pos m * 2 ^ Z.pos d.
Proof.
  induction d as [| d IH] using Pos.peano_ind.
  - cbn [Pos.iter]. change (Z.pos m~0) with (2 * Z.pos m). lia.
  - rewrite Pos.iter_succ, Pos2Z.inj_succ, Z.pow_succ_r by lia.
    change (Z.pos (Pos.iter xO m d)~0) with (2 * Z.pos (Pos.iter xO m d)). lia.
Qed.

(** [shl_align] lowers the exponent to [e'] when [e'] is below [e], and
    keeps the number. *)
Lemma shl_align_spec (m : positive) (e e' : Z) :
  snd (shl_align m e e') = Z.min e e'
  /\ Z.pos (fst (shl_align m e e')) = Z.pos m * 2 ^ (e - Z.min e e').
Proof.
  unfold shl_align. destruct (e' - e) as [| d | d] eqn:Hd; cbn [fst snd].
  - split; [lia |]. replace (e - Z.min e e') with 0 by lia. lia.
  - split; [lia |]. replace (e - Z.min e e') with 0 by lia. lia.
  - split; [lia |]. rewrite Pos_iter_xO. f_equal. f_equal. lia.
Qed.

Lemma F2R_pos (m : positive) (e : Z) : (0 < F2R (Z.pos m) e)%R.
Proof.
  unfold F2R. pose proof (pow2_pos e).
  assert (0 < IZR (Z.pos m))%R by (apply IZR_lt; lia). nra.
Qed.

(** The magnitude of a number from the number of bits of its
    mantissa. *)
Lemma F2R_magnitude (m : positive) (e : Z) :
  (pow2 (Zdigits2 (Z.pos m) - 1 + e) <= F2R (Z.pos m) e < pow2 (Zdigits2 (Z.pos m) + e))%R.
Proof.
  pose proof (Zdigits2_bounds m) as [Hlow Hhigh].
  assert (Hd : 0 < Zdigits2 (Z.pos m)) by (cbn; lia).
  set (d := Zdigits2 (Z.pos m)) in *.
  unfold F2R. rewrite !pow2_add, (pow2_IZR (d - 1)), (pow2_IZR d) by lia.
  apply IZR_le in Hlow. apply IZR_lt in Hhigh. pose proof (pow2_pos e). nra.
Qed.

(** [binary_round] on a number in the range of the normal doubles. *)
Lemma binary_round_represents (m : positive) (e : Z) :
  normal_range (F2R (Z.pos m) e) ->
  exists z, represents (binary_round prec emax false m e) z /\ rounds (F2R (Z.pos m) e) z.
Proof.
  intros Hrange. pose proof (F2R_magnitude m e) as [Hmaglow Hmaghigh].
  pose proof (Zdigits2_bounds m) as [Hlow Hhigh].
  set (d := Zdigits2 (Z.pos m)) in *.
  assert (Hd : 0 < d) by (unfold d; cbn; lia).
  assert (Hmag : -1022 < d + e) by (apply pow2_lt_inv; destruct Hrange; lra).
  unfold binary_round. change (Z.pos (digits2_pos m)) with d.
  rewrite fexp_normal by lia.
  pose proof (shl_align_spec m e (d + e - 53)) as [Hez Hmz].
  destruct (shl_align m e (d + e - 53)) as [mz ez]. cbn [fst snd] in Hez, Hmz.
  rewrite <- Hez in Hmz.
  assert (Hvalue : F2R (Z.pos m) e = F2R (Z.pos mz) ez).
  { rewrite Hmz, F2R_shift by lia. f_equal. lia. }
  rewrite Hvalue in *.
  apply round_aux_represents; [| apply F2R_located | exact Hrange].
  rewrite Hmz. destruct (Z_lt_le_dec d 53) as [Hsmall | Hlarge].
  - replace (e - ez) with (53 - d) by lia.
    replace 52 with (d - 1 + (53 - d)) by lia. rewrite Z.pow_add_r by lia.
    apply Z.mul_le_mono_nonneg_r; [apply Z.pow_nonneg; lia | exact Hlow].
  - replace (e - ez) with 0 by lia.
    assert (2 ^ 52 <= 2 ^ (d - 1)) by (apply Z.pow_le_mono_r; lia). lia.
Qed.

Lemma SFadd_rounds (f g : spec_float) (x y : R) :
  represents f x -> represents g y ->
  ((0 < x + y)%R -> normal_range (x + y)) ->
  exists z, represents (SFadd prec emax f g) z /\ rounds (x + y) z.
Proof.
  intros Hf Hg Hrange.
  pose proof (represents_nonneg _ _ Hf) as Hx. pose proof (represents_nonneg _ _ Hg) as Hy.
  destruct f as [[] | | | [] mx ex]; cbn in Hf; try tauto;
    destruct g as [[] | | | [] my ey]; cbn in Hg; try tauto.
  - subst. exists 0%R. cbn. rewrite Rplus_0_l. split; [reflexivity | apply rounds_refl; lra].
  - subst x. rewrite Rplus_0_l. exists y. cbn. split; [exact Hg | apply rounds_refl; lra].
  - subst y. rewrite Rplus_0_r. exists x. cbn. split; [exact Hf | apply rounds_refl; lra].
  - destruct Hf as [Hmx ->], Hg as [Hmy ->]. cbn [SFadd cond_Zopp].
    set (ez := Z.min ex ey).
    pose proof (shl_align_spec mx ex ez) as [_ Hax].
    pose proof (shl_align_spec my ey ez) as [_ Hay].
    replace (Z.min ex ez) with ez in Hax by lia. replace (Z.min ey ez) with ez in Hay by lia.
    set (ax := fst (shl_align mx ex ez)) in *. set (ay := fst (shl_align my ey ez)) in *.
    change (Z.pos ax + Z.pos ay) with (Z.pos (ax + ay)). cbn [binary_normalize].
    assert (Hsum : (F2R (Z.pos mx) ex + F2R (Z.pos my) ey)%R = F2R (Z.pos (ax + ay)) ez).
    { rewrite Pos2Z.inj_add, Hax, Hay. unfold F2R at 3. rewrite plus_IZR, Rmult_plus_distr_r.
      fold (F2R (Z.pos mx * 2 ^ (ex - ez)) ez). fold (F2R (Z.pos my * 2 ^ (ey - ez)) ez).
      rewrite !F2R_shift by lia. f_equal; f_equal; lia. }
    rewrite Hsum in *. apply binary_round_represents. apply Hrange. apply F2R_pos.
Qed.

End Addition.

Section Doubles.

Import Double.

Lemma value_of_represents (f : float) (x : R) :
  represents (Prim2SF f) x -> value f = x /\ finite f = true.
Proof.
  unfold value, finite. destruct (Prim2SF f) as [[] | | | [] m e]; cbn; try tauto.
  - intros ->. auto.
  - intros [_ ->]. auto.
Qed.

(** The double of an integer below [2^53] is this integer. *)
Lemma of_Z_represents (n : Z) :
  0 <= n < 2 ^ 53 -> represents (Prim2SF (JsNumber.of_Z n)) (IZR n).
Proof.
  intros Hn. unfold JsNumber.of_Z. rewrite of_uint63_spec, Uint63.of_Z_spec.
  change Uint63.wB with (2 ^ 63). rewrite Z.mod_small by lia.
  destruct n as [| p |]; [reflexivity | | lia]. cbn [binary_normalize].
  assert (Hvalue : F2R (Z.pos p) 0 = IZR (Z.pos p)) by (unfold F2R; rewrite pow2_0; lra).
  assert (Hp : (1 <= IZR (Z.pos p) < IZR (2 ^ 53))%R)
    by (split; [apply IZR_le | apply IZR_lt]; lia).
  rewrite <- (pow2_IZR 53) in Hp by lia.
  destruct (binary_round_represents p 0) as (z & Hz & _ & Hexact).
  - rewrite Hvalue. split.
    + apply Rle_trans with (pow2 0); [apply pow2_le; lia | rewrite pow2_0; lra].
    + apply Rlt_trans with (pow2 53); [lra | apply pow2_lt; lia].
  - rewrite (Hexact (Z.pos p) 0 eq_refl) in Hz by (rewrite Hvalue; change (0 + 53) with 53; lra).
    now rewrite <- Hvalue.
Qed.

End Doubles.

Section RelativeError.

Import Double.

Lemma unit_roundoff : (0 < pow2 (-53) <= / 1000000000)%R.
Proof.
  split; [apply pow2_pos |].
  change (-53) with (- (53)). rewrite pow2_opp, pow2_IZR by lia.
  change (2 ^ 53) with 9007199254740992. apply Rinv_le_contravar; lra.
Qed.

Lemma rounds_near (x v : R) : (0 <= x)%R -> rounds x v -> near 1 x v.
Proof.
  intros Hx [Herror _]. unfold near.
  assert (Hbounds : (- (pow2 (-53) * x) <= v - x <= pow2 (-53) * x)%R).
  { split.
    - pose proof (Rle_abs (- (v - x))) as H. rewrite Rabs_Ropp in H. lra.
    - pose proof (Rle_abs (v - x)). lra. }
  lra.
Qed.

Lemma near_nonneg (k x v : R) :
  (0 <= x)%R -> (0 <= k <= 1000)%R -> near k x v -> (0 <= v)%R.
Proof.
  intros Hx Hk [Hlow _]. pose proof unit_roundoff as [Hu0 Hu].
  assert (0 <= 1 - k * pow2 (-53))%R by nra.
  pose proof (Rmult_le_pos _ _ Hx H). lra.
Qed.

Lemma near_zero (k v : R) : near k 0 v -> v = 0%R.
Proof. unfold near. lra. Qed.

Lemma near_weaken (j k x v : R) : (0 <= x)%R -> (j <= k)%R -> near j x v -> near k x v.
Proof.
  intros Hx Hjk [Hlow Hhigh]. pose proof unit_roundoff as [Hu0 _].
  assert (Hgap : (0 <= x * ((k - j) * pow2 (-53)))%R).
  { apply Rmult_le_pos; [exact Hx |]. apply Rmult_le_pos; lra. }
  unfold near. lra.
Qed.

Lemma near_add (k x y v w : R) : near k x v -> near k y w -> near k (x + y) (v + w).
Proof. unfold near. lra. Qed.

(** Two relative errors compose to their sum, and one more unit for the
    product of the two. *)
Lemma near_mul (j k x y v w : R) :
  (0 <= x)%R -> (0 <= y)%R -> (0 <= j <= 10)%R -> (0 <= k <= 10)%R ->
  near j x v -> near k y w -> near (j + k + 1) (x * y) (v * w).
Proof.
  intros Hx Hy Hj Hk Hv Hw. pose proof unit_roundoff as [Hu0 Hu].
  pose proof (near_nonneg j x v Hx ltac:(lra) Hv) as Hv0.
  pose proof (near_nonneg k y w Hy ltac:(lra) Hw) as Hw0.
  destruct Hv as [Hvlow Hvhigh], Hw as [Hwlow Hwhigh].
  set (u := pow2 (-53)) in *.
  assert (Hju : (0 <= 1 - j * u)%R) by nra.
  assert (Hku : (0 <= 1 - k * u)%R) by nra.
  assert (Hxy : (0 <= x * y)%R) by (apply Rmult_le_pos; assumption).
  assert (Hjk : (0 <= j * k)%R) by (apply Rmult_le_pos; lra).
  assert (Hjku : (j * k * (u * u) <= u)%R).
  { assert (j * k <= 100)%R by nra. assert (u * u <= u / 1000000000)%R by nra. nra. }
  unfold near. fold u. split.
  - apply Rle_trans with (x * (1 - j * u) * (y * (1 - k * u)))%R.
    + replace (x * (1 - j * u) * (y * (1 - k * u)))%R
        with (x * y * (1 - (j + k) * u + j * k * (u * u)))%R by ring.
      apply Rmult_le_compat_l; [exact Hxy |].
      assert (0 <= j * k * (u * u))%R by (apply Rmult_le_pos; nra). lra.
    + apply Rmult_le_compat; try assumption; apply Rmult_le_pos; assumption.
  - apply Rle_trans with (x * (1 + j * u) * (y * (1 + k * u)))%R.
    + apply Rmult_le_compat; assumption.
    + replace (x * (1 + j * u) * (y * (1 + k * u)))%R
        with (x * y * (1 + (j + k) * u + j * k * (u * u)))%R by ring.
      apply Rmult_le_compat_l; [exact Hxy |]. lra.
Qed.

(** Rounding a number that is near [x]. *)
Lemma near_rounds (j x v w : R) :
  (0 <= x)%R -> (0 <= j <= 10)%R -> near j x v -> rounds v w -> near (j + 2) x w.
Proof.
  intros Hx Hj Hv Hw.
  pose proof (near_nonneg j x v Hx ltac:(lra) Hv) as Hv0.
  pose proof (rounds_near v w Hv0 Hw) as Hvw.
  pose proof (near_mul j 1 x 1 v (w / v) Hx ltac:(lra) Hj ltac:(lra) Hv) as Hmul.
  destruct (Req_dec v 0) as [-> | Hnonzero].
  - apply near_zero in Hvw. subst w.
    destruct Hv as [Hlow Hhigh]. pose proof unit_roundoff as [Hu0 Hu].
    assert (H1 : (0 <= 1 - j * pow2 (-53))%R) by nra.
    pose proof (Rmult_le_pos _ _ Hx H1).
    assert (Hx0 : (x * (1 - j * pow2 (-53)) = 0)%R) by lra.
    apply Rmult_integral in Hx0. destruct Hx0 as [-> | Hcontra]; [| nra].
    unfold near. lra.
  - assert (Hratio : near 1 1 (w / v)).
    { destruct Hvw as [Hlow Hhigh]. unfold near. rewrite !Rmult_1_l.
      assert (0 < v)%R by lra. split.
      - apply (Rmult_le_reg_r v); [assumption |]. unfold Rdiv.
        rewrite Rmult_assoc, Rinv_l by lra. lra.
      - apply (Rmult_le_reg_r v); [assumption |]. unfold Rdiv.
        rewrite Rmult_assoc, Rinv_l by lra. lra. }
    specialize (Hmul Hratio). rewrite Rmult_1_r in Hmul.
    replace (v * (w / v))%R with w in Hmul by (field; exact Hnonzero).
    replace (j + 1 + 1)%R with (j + 2)%R in Hmul by ring. exact Hmul.
Qed.

Lemma near_error (k x v : R) :
  (0 <= x)%R -> (0 <= k)%R -> near k x v -> (Rabs (v - x) <= k * pow2 (-53) * x)%R.
Proof. intros Hx Hk [Hlow Hhigh]. apply Rabs_le. lra. Qed.

Lemma normal_range_of_bounds (x : R) :
  (/ 100000000 <= x <= IZR (2 ^ 60))%R -> normal_range x.
Proof.
  intros [Hlow Hhigh]. split.
  - apply Rle_trans with (pow2 (-30)); [apply pow2_le; lia |].
    change (-30) with (- (30)). rewrite pow2_opp, pow2_IZR by lia.
    change (2 ^ 30) with 1073741824.
    apply Rle_trans with (/ 100000000)%R; [apply Rinv_le_contravar; lra | exact Hlow].
  - apply Rle_lt_trans with (pow2 60); [rewrite pow2_IZR by lia; exact Hhigh |].
    apply pow2_lt. lia.
Qed.

End RelativeError.

Section Cost.

Import Double.

Lemma near_bounds (k x v low high : R) :
  (0 <= k <= 10)%R -> (0 <= low <= x)%R -> (x <= high)%R -> near k x v ->
  (low / 2 <= v <= 2 * high)%R.
Proof.
  intros Hk [Hlow0 Hlow] Hhigh [Hvlow Hvhigh]. pose proof unit_roundoff as [Hu0 Hu].
  set (u := pow2 (-53)) in *.
  assert (Hx : (0 <= x)%R) by lra.
  split.
  - apply Rle_trans with (x * (1 - k * u))%R; [| exact Hvlow].
    apply Rle_trans with (x * / 2)%R; [lra |].
    apply Rmult_le_compat_l; [exact Hx | nra].
  - apply Rle_trans with (x * (1 + k * u))%R; [exact Hvhigh |].
    apply Rle_trans with (x * 2)%R; [| lra].
    apply Rmult_le_compat_l; [exact Hx | nra].
Qed.

Lemma million_represents : represents (Prim2SF 1000000%float) 1000000.
Proof.
  change (Prim2SF 1000000) with (S754_finite false 8589934592000000 (-33)).
  cbn [represents]. split; [lia |].
  unfold F2R. change (-33) with (- (33)). rewrite pow2_opp, pow2_IZR by lia.
  change (2 ^ 33) with 8589934592. lra.
Qed.

(** The double the literal [0.14] denotes, and its distance to 14/100. *)
Lemma input_rate :
  exists p, represents (Prim2SF TokenCounter.INPUT_COST_PER_MILLION) p /\ near 1 (14 / 100) p.
Proof.
  exists (F2R 5044031582654956 (-55)).
  change (Prim2SF TokenCounter.INPUT_COST_PER_MILLION)
    with (S754_finite false 5044031582654956 (-55)).
  cbn [represents]. split; [split; [lia | reflexivity] |].
  unfold near, F2R. change (-55) with (- (55)). change (-53) with (- (53)).
  rewrite !pow2_opp, !pow2_IZR by lia.
  change (2 ^ 55) with 36028797018963968. change (2 ^ 53) with 9007199254740992. lra.
Qed.

Lemma output_rate :
  exists p, represents (Prim2SF TokenCounter.OUTPUT_COST_PER_MILLION) p /\ near 1 (28 / 100) p.
Proof.
  exists (F2R 5044031582654956 (-54)).
  change (Prim2SF TokenCounter.OUTPUT_COST_PER_MILLION)
    with (S754_finite false 5044031582654956 (-54)).
  cbn [represents]. split; [split; [lia | reflexivity] |].
  unfold near, F2R. change (-54) with (- (54)). change (-53) with (- (53)).
  rewrite !pow2_opp, !pow2_IZR by lia.
  change (2 ^ 54) with 18014398509481984. change (2 ^ 53) with 9007199254740992. lra.
Qed.

Lemma count_bounds (a : Z) : 0 < a < 2 ^ 53 -> (1 <= IZR a <= IZR (2 ^ 53))%R.
Proof. intros Ha. split; apply IZR_le; lia. Qed.

(** One term of the cost: [tokens / 1000000 * rate] in doubles. *)
Lemma term_represents (x price : float) (a : Z) (rate p : R) :
  represents (Prim2SF x) (IZR a) -> 0 <= a < 2 ^ 53 ->
  represents (Prim2SF price) p -> near 1 rate p -> (/ 10 <= rate <= 1)%R ->
  exists z,
    represents (Prim2SF (x / 1000000 * price)) z /\ near 5 (IZR a / 1000000 * rate) z.
Proof.
  intros Hx Ha Hprice Hp Hrate.
  rewrite mul_spec, div_spec. unfold SF64mul, SF64div.
  assert (Ha0 : (0 <= IZR a)%R) by (apply IZR_le; lia).
  assert (H253 : IZR (2 ^ 53) = 9007199254740992%R) by reflexivity.
  assert (H260 : IZR (2 ^ 60) = 1152921504606846976%R) by reflexivity.
  destruct (SFdiv_rounds _ _ (IZR a) 1000000 Hx million_represents ltac:(lra))
    as (z1 & Hz1 & Hr1).
  { intros Hpos. apply lt_IZR in Hpos. pose proof (count_bounds a ltac:(lia)).
    apply normal_range_of_bounds. lra. }
  assert (Hn1 : near 1 (IZR a / 1000000) z1) by (apply rounds_near; [lra | exact Hr1]).
  assert (Hn3 : near (1 + 1 + 1) (IZR a / 1000000 * rate) (z1 * p))
    by (apply near_mul; [lra | lra | lra | lra | exact Hn1 | exact Hp]).
  destruct (SFmul_rounds _ _ z1 p Hz1 Hprice) as (z2 & Hz2 & Hr2).
  { intros Hpos.
    destruct (Z.eq_dec a 0) as [-> | Hnonzero].
    - rewrite Rdiv_0_l in Hn1. apply near_zero in Hn1. subst z1. lra.
    - pose proof (count_bounds a ltac:(lia)) as Hcount.
      pose proof (near_bounds 1 (IZR a / 1000000) z1 (/ 1000000) (IZR (2 ^ 53))
                    ltac:(lra) ltac:(lra)
                    ltac:(lra) Hn1) as [Hz1low Hz1high].
      pose proof (near_bounds 1 rate p (/ 10) 1 ltac:(lra) ltac:(lra) ltac:(lra) Hp)
        as [Hplow Hphigh].
      apply normal_range_of_bounds. split.
      + apply Rle_trans with (/ 1000000 / 2 * (/ 10 / 2))%R; [lra |].
        apply Rmult_le_compat; lra.
      + apply Rle_trans with (2 * IZR (2 ^ 53) * (2 * 1))%R; [| lra].
        apply Rmult_le_compat; lra. }
  exists z2. split; [exact Hz2 |].
  replace 5%R with (1 + 1 + 1 + 2)%R by ring.
  apply (near_rounds _ _ (z1 * p)); [| lra | exact Hn3 | exact Hr2].
  apply Rmult_le_pos; lra.
Qed.

(** A positive number near the exact cost of two token counts is in the
    range of the normal doubles. *)
Lemma near_cost_range (k : R) (a b : Z) (s : R) :
  (0 <= k <= 10)%R -> 0 <= a < 2 ^ 53 -> 0 <= b < 2 ^ 53 ->
  near k (TokenCounter.calculateCost_exact (IZR a) (IZR b)) s -> (0 < s)%R ->
  normal_range s.
Proof.
  intros Hk Ha Hb Hs Hpos.
  assert (Ha0 : (0 <= IZR a <= IZR (2 ^ 53))%R) by (split; apply IZR_le; lia).
  assert (Hb0 : (0 <= IZR b <= IZR (2 ^ 53))%R) by (split; apply IZR_le; lia).
  assert (H253 : IZR (2 ^ 53) = 9007199254740992%R) by reflexivity.
  assert (H260 : IZR (2 ^ 60) = 1152921504606846976%R) by reflexivity.
  assert (Hcounts : 0 < a \/ 0 < b).
  { destruct (Z.eq_dec a 0) as [-> | Hnonzero]; [| lia].
    destruct (Z.eq_dec b 0) as [-> | Hnonzero]; [| lia].
    unfold TokenCounter.calculateCost_exact in Hs.
    rewrite !Rdiv_0_l, !Rmult_0_l, Rplus_0_l in Hs. apply near_zero in Hs. lra. }
  assert (Hbounds : (/ 10000000 <= TokenCounter.calculateCost_exact (IZR a) (IZR b)
                     <= IZR (2 ^ 53))%R).
  { unfold TokenCounter.calculateCost_exact. split; [| lra].
    destruct Hcounts as [Hpos' | Hpos']; apply Zlt_le_succ, (IZR_le 1) in Hpos'; lra. }
  pose proof (near_bounds k (TokenCounter.calculateCost_exact (IZR a) (IZR b)) s
                (/ 10000000) (IZR (2 ^ 53)) Hk ltac:(lra) ltac:(lra) Hs).
  apply normal_range_of_bounds. lra.
Qed.

(** [calculateCost] on the doubles of two token counts: the result is
    a number, within seven units of rounding of the exact cost. *)
Lemma calculateCost_near (x y : float) (a b : Z) :
  represents (Prim2SF x) (IZR a) -> represents (Prim2SF y) (IZR b) ->
  0 <= a < 2 ^ 53 -> 0 <= b < 2 ^ 53 ->
  exists z,
    represents (Prim2SF (TokenCounter.calculateCost x y)) z
    /\ near 7 (TokenCounter.calculateCost_exact (IZR a) (IZR b)) z.
Proof.
  intros Hx Hy Ha Hb.
  destruct input_rate as (pin & Hpin & Hnin). destruct output_rate as (pout & Hpout & Hnout).
  destruct (term_represents x _ a (14 / 100) pin Hx Ha Hpin Hnin ltac:(lra))
    as (zin & Hzin & Hin).
  destruct (term_represents y _ b (28 / 100) pout Hy Hb Hpout Hnout ltac:(lra))
    as (zout & Hzout & Hout).
  unfold TokenCounter.calculateCost. cbn zeta. rewrite add_spec. unfold SF64add.
  assert (Ha0 : (0 <= IZR a)%R) by (apply IZR_le; lia).
  assert (Hb0 : (0 <= IZR b)%R) by (apply IZR_le; lia).
  assert (H253 : IZR (2 ^ 53) = 9007199254740992%R) by reflexivity.
  assert (H260 : IZR (2 ^ 60) = 1152921504606846976%R) by reflexivity.
  assert (Hsum : near 5 (TokenCounter.calculateCost_exact (IZR a) (IZR b)) (zin + zout))
    by (apply near_add; assumption).
  assert (Hexact0 : (0 <= TokenCounter.calculateCost_exact (IZR a) (IZR b))%R)
    by (unfold TokenCounter.calculateCost_exact; lra).
  destruct (SFadd_rounds _ _ zin zout Hzin Hzout) as (z & Hz & Hr);
    [apply (near_cost_range 5 a b); [lra | lia | lia | exact Hsum] |].
  exists z. split; [exact Hz |].
  replace 7%R with (5 + 2)%R by ring.
  apply (near_rounds _ _ (zin + zout)); [exact Hexact0 | lra | exact Hsum | exact Hr].
Qed.

(** The sum of two token counts is computed exactly. *)
Lemma count_sum_represents (a c : Z) :
  0 <= a -> 0 <= c -> a + c < 2 ^ 53 ->
  represents (Prim2SF (JsNumber.of_Z a + JsNumber.of_Z c)) (IZR (a + c)).
Proof.
  intros Ha Hc Hsum. rewrite add_spec. unfold SF64add.
  destruct (SFadd_rounds _ _ (IZR a) (IZR c)
              (of_Z_represents a ltac:(lia)) (of_Z_represents c ltac:(lia)))
    as (z & Hz & _ & Hexact).
  - rewrite <- plus_IZR. intros Hpos. apply lt_IZR in Hpos.
    pose proof (count_bounds (a + c) ltac:(lia)).
    assert (H260 : IZR (2 ^ 60) = 1152921504606846976%R) by reflexivity.
    assert (H253 : IZR (2 ^ 53) = 9007199254740992%R) by reflexivity.
    apply normal_range_of_bounds. lra.
  - rewrite <- plus_IZR in Hexact.
    rewrite (Hexact (a + c) 0) in Hz; [exact Hz | unfold F2R; rewrite pow2_0; lra |].
    change (0 + 53) with 53. rewrite pow2_IZR by lia. apply IZR_lt. lia.
Qed.

End Cost.

(** ** The cost estimator *)

(** C9, as stated, fails on doubles: the cost of [0] input and [1 + 2]
    output tokens is not the sum of the costs of [(0, 1)] and [(0, 2)]
    ([8.4000000000000011e-07] against [8.4e-07]). *)
Lemma calculateCost_not_additive_on_doubles :
  (TokenCounter.calculateCost (0 + 0) (1 + 2)
   =? TokenCounter.calculateCost 0 1 + TokenCounter.calculateCost 0 2)%float = false
  /\ TokenCounter.calculateCost (0 + 0) (1 + 2)
     <> (TokenCounter.calculateCost 0 1 + TokenCounter.calculateCost 0 2)%float.
Proof.
  split; [vm_compute; reflexivity |].
  intros Heq.
  assert (Hbits : Prim2SF (TokenCounter.calculateCost (0 + 0) (1 + 2))
                  = Prim2SF (TokenCounter.calculateCost 0 1 + TokenCounter.calculateCost 0 2))
    by (rewrite Heq; reflexivity).
  vm_compute in Hbits. discriminate Hbits.
Qed.

Section CostAdditivity.

Import Double.

(** C9, amended.  [calculateCost(0, 0)] is [0], and [calculateCost] is
    additive up to rounding: for all token counts [a], [b], [c], [d]
    whose sums are below [2^53], [calculateCost(a+c, b+d)] and
    [calculateCost(a, b) + calculateCost(c, d)] are numbers that differ
    by at most [2^-48] times the former, which is itself within a
    relative error of [2^-50] of the exact cost. *)
Theorem calculateCost_zero_and_additive_up_to_rounding :
  TokenCounter.calculateCost 0 0 = 0%float
  /\ forall a b c d : Z,
       0 <= a -> 0 <= b -> 0 <= c -> 0 <= d -> a + c < 2 ^ 53 -> b + d < 2 ^ 53 ->
       let whole :=
         TokenCounter.calculateCost (JsNumber.of_Z a + JsNumber.of_Z c)
                                    (JsNumber.of_Z b + JsNumber.of_Z d) in
       let parts :=
         (TokenCounter.calculateCost (JsNumber.of_Z a) (JsNumber.of_Z b)
          + TokenCounter.calculateCost (JsNumber.of_Z c) (JsNumber.of_Z d))%float in
       let exact := TokenCounter.calculateCost_exact (IZR (a + c)) (IZR (b + d)) in
       Double.finite whole = true /\ Double.finite parts = true
       /\ (Rabs (Double.value whole - Double.value parts)
           <= Double.pow2 (-48) * Double.value whole)%R
       /\ (Rabs (Double.value whole - exact) <= Double.pow2 (-50) * exact)%R.
Proof.
  split; [reflexivity |].
  intros a b c d Ha Hb Hc Hd Hac Hbd whole parts exact.
  pose proof unit_roundoff as [Hu0 Hu].
  (* the cost of the sums *)
  destruct (calculateCost_near _ _ (a + c) (b + d)
              (count_sum_represents a c Ha Hc Hac) (count_sum_represents b d Hb Hd Hbd)
              ltac:(lia) ltac:(lia)) as (w & Hw & Hnw).
  fold whole exact in Hw, Hnw.
  apply value_of_represents in Hw as [-> Hwfinite].
  (* the sum of the costs *)
  destruct (calculateCost_near _ _ a b
              (of_Z_represents a ltac:(lia)) (of_Z_represents b ltac:(lia))
              ltac:(lia) ltac:(lia)) as (v1 & Hv1 & Hn1).
  destruct (calculateCost_near _ _ c d
              (of_Z_represents c ltac:(lia)) (of_Z_represents d ltac:(lia))
              ltac:(lia) ltac:(lia)) as (v2 & Hv2 & Hn2).
  assert (Hexact : (TokenCounter.calculateCost_exact (IZR a) (IZR b)
                    + TokenCounter.calculateCost_exact (IZR c) (IZR d))%R = exact).
  { unfold exact, TokenCounter.calculateCost_exact. rewrite !plus_IZR. lra. }
  pose proof (near_add _ _ _ _ _ Hn1 Hn2) as Hsum. rewrite Hexact in Hsum.
  assert (Hexact0 : (0 <= exact)%R).
  { unfold exact, TokenCounter.calculateCost_exact.
    assert (0 <= IZR (a + c))%R by (apply IZR_le; lia).
    assert (0 <= IZR (b + d))%R by (apply IZR_le; lia). lra. }
  destruct (SFadd_rounds _ _ v1 v2 Hv1 Hv2) as (p & Hp & Hrp);
    [apply (near_cost_range 7 (a + c) (b + d)); [lra | lia | lia | exact Hsum] |].
  assert (Hnp : near (7 + 2) exact p)
    by (apply (near_rounds _ _ (v1 + v2)); [exact Hexact0 | lra | exact Hsum | exact Hrp]).
  assert (Hparts : Prim2SF parts
                   = SFadd prec emax
                       (Prim2SF (TokenCounter.calculateCost (JsNumber.of_Z a) (JsNumber.of_Z b)))
                       (Prim2SF (TokenCounter.calculateCost (JsNumber.of_Z c) (JsNumber.of_Z d))))
    by apply add_spec.
  rewrite <- Hparts in Hp. apply value_of_represents in Hp as [-> Hpfinite].
  split; [exact Hwfinite |]. split; [exact Hpfinite |].
  pose proof (near_error 7 exact w Hexact0 ltac:(lra) Hnw) as Hwerror.
  pose proof (near_error (7 + 2) exact p Hexact0 ltac:(lra) Hnp) as Hperror.
  pose proof (near_bounds 7 exact w exact exact ltac:(lra) ltac:(lra) ltac:(lra) Hnw)
    as [Hwlow _].
  assert (H48 : Double.pow2 (-48) = (32 * Double.pow2 (-53))%R).
  { change (-48) with (5 + -53). rewrite pow2_add, (pow2_IZR 5) by lia. reflexivity. }
  assert (H50 : Double.pow2 (-50) = (8 * Double.pow2 (-53))%R).
  { change (-50) with (3 + -53). rewrite pow2_add, (pow2_IZR 3) by lia. reflexivity. }
  rewrite H48, H50. set (u := Double.pow2 (-53)) in *.
  assert (Hue : (0 <= u * exact)%R) by (apply Rmult_le_pos; lra).
  split.
  - replace (w - p)%R with ((w - exact) + - (p - exact))%R by ring.
    eapply Rle_trans; [apply Rabs_triang |]. rewrite Rabs_Ropp.
    assert (u * exact <= u * (2 * w))%R by (apply Rmult_le_compat_l; lra). lra.
  - lra.
Qed.

(** The token counts at which the plain equality fails. *)
Lemma calculateCost_zero_and_additive_up_to_rounding_sample :
  let whole :=
    TokenCounter.calculateCost (JsNumber.of_Z 0 + JsNumber.of_Z 0)
                               (JsNumber.of_Z 1 + JsNumber.of_Z 2) in
  let parts :=
    (TokenCounter.calculateCost (JsNumber.of_Z 0) (JsNumber.of_Z 1)
     + TokenCounter.calculateCost (JsNumber.of_Z 0) (JsNumber.of_Z 2))%float in
  (whole =? parts)%float = false
  /\ (Rabs (Double.value whole - Double.value parts)
      <= Double.pow2 (-48) * Double.value whole)%R.
Proof.
  split; [vm_compute; reflexivity |].
  apply (proj2 calculateCost_zero_and_additive_up_to_rounding 0 1 0 2); lia.
Defined.

End CostAdditivity.

(** ** The analysis engine's parser *)

Section ParserFacts.

Variable env : Environment.

Lemma parseIssuesFromResponse_unparseable (timestamp : Z) (response : string) :
  JSON_parse env (DeepseekService.jsonStr response) = None ->
  DeepseekService.parseIssuesFromResponse env timestamp response = [].
Proof.
  intros Hparse. unfold DeepseekService.parseIssuesFromResponse. now rewrite Hparse.
Qed.

Lemma parseIssuesFromResponse_no_array (timestamp : Z) (response : string) (parsed : json) :
  JSON_parse env (DeepseekService.jsonStr response) = Some parsed ->
  (forall items, top_level_issues parsed <> Some (JArray items)) ->
  DeepseekService.parseIssuesFromResponse env timestamp response = [].
Proof.
  intros Hparse Hshape. unfold DeepseekService.parseIssuesFromResponse. rewrite Hparse.
  destruct parsed as [| b | x | s | items | fields]; try reflexivity.
  cbn in *. destruct (Js.lookup_field "issues" fields) as [[| b | x | s | items | fs]|];
    try reflexivity.
  now destruct (Hshape items).
Qed.

End ParserFacts.

(** C10. When the response parses as JSON but the top-level value has no
    [issues] field, or its [issues] field is not an array,
    [parseIssuesFromResponse] returns the empty list. *)
Theorem parseIssuesFromResponse_wrong_shape
    (env : Environment) (timestamp : Z) (response : string) (parsed : json) :
  JSON_parse env (DeepseekService.jsonStr response) = Some parsed ->
  (top_level_issues parsed = None
   \/ exists v, top_level_issues parsed = Some v /\ is_array v = false) ->
  DeepseekService.parseIssuesFromResponse env timestamp response = [].
Proof.
  intros Hparse Hshape. apply (parseIssuesFromResponse_no_array env _ _ parsed Hparse).
  intros items Harray. destruct Hshape as [Hnone | [v [Hsome Hnot]]].
  - congruence.
  - rewrite Hsome in Harray. injection Harray as ->. discriminate Hnot.
Qed.

(** ** Reasoning about computations *)

Lemma bind_returned {A B} (m : M A) (k : A -> M B) (w w1 : World) (a : A) :
  m w = (Returned a, w1) -> bind m k w = k a w1.
Proof. intros Hm. unfold bind. now rewrite Hm. Qed.

Lemma bind_thrown {A B} (m : M A) (k : A -> M B) (w w1 : World) (e : JsError) :
  m w = (Thrown e, w1) -> bind m k w = (Thrown e, w1).
Proof. intros Hm. unfold bind. now rewrite Hm. Qed.

Lemma bind_inv {A B} (m : M A) (k : A -> M B) (w w' : World) (r : outcome B) :
  bind m k w = (r, w') ->
  (exists a w1, m w = (Returned a, w1) /\ k a w1 = (r, w'))
  \/ (exists e, m w = (Thrown e, w') /\ r = Thrown e).
Proof.
  unfold bind. destruct (m w) as [[a | e] w1]; intros H.
  - left. eauto.
  - right. injection H as <- <-. eauto.
Qed.

Lemma try_catch_inv {A} (m : M A) (h : JsError -> M A) (w w' : World) (r : outcome A) :
  try_catch m h w = (r, w') ->
  (exists a, m w = (Returned a, w') /\ r = Returned a)
  \/ (exists e w1, m w = (Thrown e, w1) /\ h e w1 = (r, w')).
Proof.
  unfold try_catch. destruct (m w) as [[a | e] w1]; intros H.
  - left. injection H as <- <-. eauto.
  - right. eauto.
Qed.

(** A [try] block started in [w] that runs as [m'] does from [w']. *)
Lemma try_catch_from {A} (m m' : M A) (h : JsError -> M A) (w w' : World) :
  m w = m' w' -> try_catch m h w = try_catch m' h w'.
Proof. intros H. unfold try_catch. now rewrite H. Qed.

Lemma try_finally_from {A} (m m' : M A) (f : M unit) (w w' : World) :
  m w = m' w' -> try_finally m f w = try_finally m' f w'.
Proof. intros H. unfold try_finally. now rewrite H. Qed.

Section Keeping.

Variable R : World -> World -> Prop.
Hypothesis R_refl : forall w, R w w.
Hypothesis R_trans : forall w1 w2 w3, R w1 w2 -> R w2 w3 -> R w1 w3.

Lemma keeps_ret {A} (a : A) : keeps R (ret a).
Proof. intros w r w' H. injection H as _ <-. apply R_refl. Qed.

Lemma keeps_throw {A} (e : JsError) : keeps R (throw (A := A) e).
Proof. intros w r w' H. injection H as _ <-. apply R_refl. Qed.

Lemma keeps_bind {A B} (m : M A) (k : A -> M B) :
  keeps R m -> (forall a, keeps R (k a)) -> keeps R (bind m k).
Proof.
  intros Hm Hk w r w' H. apply bind_inv in H as [(a & w1 & H1 & H2) | (e & H1 & _)].
  - eapply R_trans; [eapply Hm | eapply Hk]; eassumption.
  - eapply Hm; eassumption.
Qed.

Lemma keeps_try_catch {A} (m : M A) (h : JsError -> M A) :
  keeps R m -> (forall e, keeps R (h e)) -> keeps R (try_catch m h).
Proof.
  intros Hm Hh w r w' H. apply try_catch_inv in H as [(a & H1 & _) | (e & w1 & H1 & H2)].
  - eapply Hm; eassumption.
  - eapply R_trans; [eapply Hm | eapply Hh]; eassumption.
Qed.

Lemma keeps_for_each {A} (l : list A) (body : A -> M unit) :
  (forall x, keeps R (body x)) -> keeps R (for_each l body).
Proof.
  intros Hbody. induction l as [| x l IH]; cbn.
  - apply keeps_ret.
  - apply keeps_bind; [apply Hbody | intros _; exact IH].
Qed.

Lemma keeps_for_each_with {A S} (l : list A) (body : S -> A -> M S) (s : S) :
  (forall s x, keeps R (body s x)) -> keeps R (for_each_with l body s).
Proof.
  intros Hbody. revert s. induction l as [| x l IH]; intros s; cbn.
  - apply keeps_ret.
  - apply keeps_bind; [apply Hbody | intros s'; apply IH].
Qed.

Lemma keeps_map_all {A B} (f : A -> M B) (l : list A) :
  (forall x, keeps R (f x)) -> keeps R (map_all f l).
Proof.
  intros Hf. induction l as [| x l IH]; cbn.
  - apply keeps_ret.
  - apply keeps_bind; [apply Hf | intros y].
    apply keeps_bind; [exact IH | intros ys; apply keeps_ret].
Qed.

End Keeping.

Lemma advances_refl okCall okEvent (w : World) : advances okCall okEvent w w.
Proof.
  repeat split; try (exists []; split; [now rewrite app_nil_r | reflexivity]).
Qed.

Lemma advances_trans okCall okEvent (w1 w2 w3 : World) :
  advances okCall okEvent w1 w2 -> advances okCall okEvent w2 w3 ->
  advances okCall okEvent w1 w3.
Proof.
  intros ((cs1 & Hc1 & Hk1) & (es1 & He1 & Hv1) & Hend1)
         ((cs2 & Hc2 & Hk2) & (es2 & He2 & Hv2) & Hend2).
  repeat split.
  - exists (cs1 ++ cs2)%list. rewrite Hc2, Hc1, <- app_assoc, forallb_app, Hk1, Hk2. auto.
  - exists (es1 ++ es2)%list. rewrite He2, He1, <- app_assoc, forallb_app, Hv1, Hv2. auto.
  - congruence.
Qed.

Lemma advances_weaken (okCall okCall' : NetCall -> bool) (okEvent okEvent' : SSEEvent -> bool)
    (w w' : World) :
  (forall c, okCall c = true -> okCall' c = true) ->
  (forall e, okEvent e = true -> okEvent' e = true) ->
  advances okCall okEvent w w' -> advances okCall' okEvent' w w'.
Proof.
  intros Hcall Hevent ((cs & Hc & Hk) & (es & He & Hv) & Hend).
  repeat split; [exists cs | exists es | assumption]; (split; [assumption |]).
  - rewrite forallb_forall in *. auto.
  - rewrite forallb_forall in *. auto.
Qed.

(** *** What the steps of a run may add to the world *)

Section Frames.

Variable okCall : NetCall -> bool.
Variable okEvent : SSEEvent -> bool.

Lemma frame_ret {A} (a : A) : keeps (advances okCall okEvent) (ret a).
Proof. apply keeps_ret, advances_refl. Qed.

Lemma frame_throw {A} (e : JsError) : keeps (advances okCall okEvent) (throw (A := A) e).
Proof. apply keeps_throw, advances_refl. Qed.

Lemma frame_bind {A B} (m : M A) (k : A -> M B) :
  keeps (advances okCall okEvent) m -> (forall a, keeps (advances okCall okEvent) (k a)) ->
  keeps (advances okCall okEvent) (bind m k).
Proof. apply keeps_bind, advances_trans. Qed.

Lemma frame_try_catch {A} (m : M A) (h : JsError -> M A) :
  keeps (advances okCall okEvent) m -> (forall e, keeps (advances okCall okEvent) (h e)) ->
  keeps (advances okCall okEvent) (try_catch m h).
Proof. apply keeps_try_catch, advances_trans. Qed.

Lemma frame_for_each {A} (l : list A) (body : A -> M unit) :
  (forall x, keeps (advances okCall okEvent) (body x)) ->
  keeps (advances okCall okEvent) (for_each l body).
Proof. apply keeps_for_each; [apply advances_refl | apply advances_trans]. Qed.

Lemma frame_map_all {A B} (f : A -> M B) (l : list A) :
  (forall x, keeps (advances okCall okEvent) (f x)) ->
  keeps (advances okCall okEvent) (map_all f l).
Proof. apply keeps_map_all; [apply advances_refl | apply advances_trans]. Qed.

(** Steps that neither issue a request nor write an event. *)
Lemma frame_silent {A} (m : M A) :
  (forall w r w', m w = (r, w') ->
     calls w' = calls w /\ written w' = written w /\ writableEnded w' = writableEnded w) ->
  keeps (advances okCall okEvent) m.
Proof.
  intros Hm w r w' H. destruct (Hm _ _ _ H) as (Hc & Hw & He).
  repeat split; try (exists []; rewrite app_nil_r; auto). assumption.
Qed.

Lemma frame_Date_now : keeps (advances okCall okEvent) Date_now.
Proof. apply frame_silent. intros w r w' H. injection H as _ <-. auto. Qed.

Lemma frame_sleep (ms : Z) : keeps (advances okCall okEvent) (sleep ms).
Proof. apply frame_silent. intros w r w' H. injection H as _ <-. auto. Qed.

Lemma frame_cache_get (key : string) : keeps (advances okCall okEvent) (cache_get key).
Proof. apply frame_silent. intros w r w' H. injection H as _ <-. auto. Qed.

Lemma frame_cache_set (key : string) (data : list FileEntry) (timestamp : Z) :
  keeps (advances okCall okEvent) (cache_set key data timestamp).
Proof. apply frame_silent. intros w r w' H. injection H as _ <-. auto. Qed.

Lemma advances_after_request (c : NetCall) (dt : N) (w : World) :
  okCall c = true -> advances okCall okEvent w (after_request c dt w).
Proof.
  intros Hc. repeat split; cbn.
  - exists [c]. cbn. now rewrite Hc.
  - exists []. now rewrite app_nil_r.
Qed.

Lemma frame_sendSSE (event : SSEEvent) :
  okEvent event = true -> keeps (advances okCall okEvent) (AnalysisService.sendSSE event).
Proof.
  intros Hev w r w' H. unfold AnalysisService.sendSSE, bind, res_writableEnded in H.
  destruct (writableEnded w) eqn:Hended.
  - injection H as _ <-. apply advances_refl.
  - injection H as _ <-. repeat split; cbn.
    + exists []. now rewrite app_nil_r.
    + exists [event]. cbn. now rewrite Hev.
Qed.

End Frames.

Ltac frame_step :=
  first
    [ apply frame_ret | apply frame_throw | apply frame_Date_now | apply frame_sleep
    | apply frame_cache_get | apply frame_cache_set
    | apply frame_bind; [| intros ? ]
    | apply frame_try_catch; [| intros ? ]
    | apply frame_for_each; intros ?
    | apply frame_map_all; intros ?
    | match goal with
      | |- keeps _ (match ?x with _ => _ end) => destruct x
      end ].

Section GatewayFrames.

Variable env : Environment.
Variable okEvent : SSEEvent -> bool.

Lemma frame_octokit_request {R} (c : NetCall) (answer : list NetCall -> JsError + R) :
  is_ai_call c = false ->
  keeps (advances not_ai_call okEvent) (GithubService.octokit_request env c answer).
Proof.
  intros Hc w r w' H. unfold GithubService.octokit_request in H.
  assert (w' = after_request c (elapsed env (calls w) c) w) as ->
    by (destruct (answer (calls w)); now injection H as _ <-).
  apply advances_after_request. unfold not_ai_call. now rewrite Hc.
Qed.

Lemma frame_validateRepo (owner repo : string) (token : option string) :
  keeps (advances not_ai_call okEvent) (GithubService.validateRepo env owner repo token).
Proof.
  unfold GithubService.validateRepo, GithubService.octokit_repos_get.
  repeat ((apply frame_octokit_request; reflexivity) || frame_step).
Qed.

Lemma frame_getFileTree (owner repo : string) (branch token : option string) :
  keeps (advances not_ai_call okEvent) (GithubService.getFileTree env owner repo branch token).
Proof.
  unfold GithubService.getFileTree, GithubService.fetchFileTree,
    GithubService.octokit_git_getTree.
  repeat (apply frame_validateRepo || (apply frame_octokit_request; reflexivity)
          || frame_step).
Qed.

Lemma frame_getFileContent (owner repo path : string) (token : option string) :
  keeps (advances not_ai_call okEvent) (GithubService.getFileContent env owner repo path token).
Proof.
  unfold GithubService.getFileContent, GithubService.octokit_repos_getContent.
  repeat ((apply frame_octokit_request; reflexivity) || frame_step).
Qed.

Lemma frame_fetch_one (owner repo : string) (token : option string) (path : string) :
  keeps (advances not_ai_call okEvent) (GithubService.fetch_one env owner repo token path).
Proof.
  unfold GithubService.fetch_one.
  repeat (apply frame_getFileContent || frame_step).
Qed.

Lemma frame_process_results (results : list GithubService.BatchResult) (total : Z)
    (onProgress : option GithubService.ProgressCallback)
    (contents : list FileContent) (processedCount : Z) :
  callback_keeps okEvent onProgress ->
  keeps (advances not_ai_call okEvent)
        (GithubService.process_results results total onProgress contents processedCount).
Proof.
  intros Hcb. revert contents processedCount.
  induction results as [| result results IH]; intros contents processedCount; cbn.
  - apply frame_ret.
  - apply frame_bind; [| intros _; apply IH].
    destruct onProgress as [callback |]; [now apply Hcb | apply frame_ret].
Qed.

Lemma frame_batch_loop (fuel : nat) (owner repo : string) (token : option string) (total : Z)
    (onProgress : option GithubService.ProgressCallback)
    (rest : list string) (contents : list FileContent) (processedCount : Z) :
  callback_keeps okEvent onProgress ->
  keeps (advances not_ai_call okEvent)
        (GithubService.batch_loop env fuel owner repo token total onProgress
           rest contents processedCount).
Proof.
  intros Hcb. revert rest contents processedCount.
  induction fuel as [| fuel IH]; intros rest contents processedCount; cbn.
  - destruct rest; apply frame_ret.
  - destruct rest as [| path rest]; [apply frame_ret |].
    apply frame_bind; [apply frame_map_all; intros ?; apply frame_fetch_one | intros results].
    apply frame_bind; [now apply frame_process_results | intros [contents' processed']].
    apply frame_bind; [| intros _; apply IH].
    destruct (drop _ _); [apply frame_ret | apply frame_sleep].
Qed.

Lemma frame_getFilesContents (owner repo : string) (paths : list string) (maxFiles : Z)
    (onProgress : option GithubService.ProgressCallback) (token : option string) :
  callback_keeps okEvent onProgress ->
  keeps (advances not_ai_call okEvent)
        (GithubService.getFilesContents env owner repo paths maxFiles onProgress token).
Proof. intros Hcb. unfold GithubService.getFilesContents. now apply frame_batch_loop. Qed.

Lemma frame_getFilesForPriority (owner repo : string) (priority : PriorityLevel)
    (maxFiles : Z) (onProgress : option GithubService.ProgressCallback)
    (token : option string) :
  callback_keeps okEvent onProgress ->
  keeps (advances not_ai_call okEvent)
        (GithubService.getFilesForPriority env owner repo priority maxFiles onProgress token).
Proof.
  intros Hcb. unfold GithubService.getFilesForPriority.
  apply frame_bind; [apply frame_getFileTree | intros allFiles].
  apply frame_bind; [now apply frame_getFilesContents | intros files; apply frame_ret].
Qed.

End GatewayFrames.

Lemma callback_keeps_none (okEvent : SSEEvent -> bool) : callback_keeps okEvent None.
Proof. intros callback H. discriminate H. Qed.

Lemma callback_keeps_report_progress (priority : PriorityLevel) :
  callback_keeps fetch_phase_event (Some (AnalysisService.report_progress priority)).
Proof.
  intros callback H current total path. injection H as <-.
  unfold AnalysisService.report_progress, AnalysisService.sendStatus,
    AnalysisService.sendFileEvent.
  apply frame_bind; [| intros _]; apply frame_sendSSE; reflexivity.
Qed.

(** ** Fetching file contents *)

Section ContentFetch.

Variable env : Environment.
Variables owner repo : string.
Variable token : option string.

Let auth : option string := GithubService.createOctokit env token.

(** The element of [batchResults] for a path and the outcome of its fetch. *)
Let batch_result (path : string) (outcome : option FileContent) : GithubService.BatchResult :=
  {| GithubService.success := negb (failed outcome);
     GithubService.br_content := outcome;
     GithubService.br_path := path |}.

Lemma fetch_one_delivers (path : string) (w : World) :
  GithubService.fetch_one env owner repo token path w =
    (Returned (batch_result path (delivered env auth owner repo (calls w) path)),
     after_request (ReposGetContent auth owner repo path)
       (elapsed env (calls w) (ReposGetContent auth owner repo path)) w).
Proof.
  unfold GithubService.fetch_one, GithubService.getFileContent,
    GithubService.octokit_repos_getContent, GithubService.octokit_request,
    delivered, try_catch, bind, throw, ret. fold auth.
  destruct (repos_getContent env (calls w) auth owner repo path) as [e | [| | content size]];
    cbn; try reflexivity.
  destruct (bool_decide (status e = Some 404)); reflexivity.
Qed.

Lemma fetch_outcomes_app (history : list NetCall) (l1 l2 : list string) :
  fetch_outcomes env auth owner repo history (l1 ++ l2) =
    (fetch_outcomes env auth owner repo history l1
     ++ fetch_outcomes env auth owner repo
          (history ++ map (ReposGetContent auth owner repo) l1) l2)%list.
Proof.
  revert history. induction l1 as [| path l1 IH]; intros history; cbn.
  - now rewrite app_nil_r.
  - rewrite IH, <- app_assoc. reflexivity.
Qed.

Lemma fetch_outcomes_length (history : list NetCall) (paths : list string) :
  length (fetch_outcomes env auth owner repo history paths) = length paths.
Proof. revert history. induction paths; intros; cbn; auto. Qed.

Section Counting.

Variable Inv : World -> Prop.
Variable observe : World -> nat.
Variable callback : GithubService.ProgressCallback.
Hypothesis counted : counted_callback Inv observe callback.

Lemma map_all_fetch_one (batch : list string) (w : World) :
  Inv w ->
  exists w',
    map_all (GithubService.fetch_one env owner repo token) batch w =
      (Returned (zip_with batch_result batch
                   (fetch_outcomes env auth owner repo (calls w) batch)), w')
    /\ Inv w'
    /\ calls w' = (calls w ++ map (ReposGetContent auth owner repo) batch)%list
    /\ observe w' = observe w.
Proof.
  revert w. induction batch as [| path batch IH]; intros w HInv; cbn.
  - exists w. rewrite app_nil_r. auto.
  - unfold bind at 1. rewrite fetch_one_delivers.
    set (w1 := after_request _ _ w).
    destruct (request_uncounted _ _ _ counted (ReposGetContent auth owner repo path)
                (elapsed env (calls w) (ReposGetContent auth owner repo path)) w HInv)
      as [HInv1 Hobs1]. fold w1 in HInv1, Hobs1.
    destruct (IH w1 HInv1) as (w' & Hrun & HInv' & Hcalls & Hobs).
    exists w'. unfold bind. rewrite Hrun. cbn.
    repeat split; auto.
    + rewrite Hcalls. cbn. now rewrite <- app_assoc.
    + congruence.
Qed.

Lemma process_results_counts (batch : list string) (outcomes : list (option FileContent))
    (total : Z) (contents : list FileContent) (processedCount : Z) (w : World) :
  Inv w -> length outcomes = length batch ->
  exists w',
    GithubService.process_results (zip_with batch_result batch outcomes) total
      (Some callback) contents processedCount w =
      (Returned ((contents ++ omap id outcomes)%list,
                 processedCount + Z.of_nat (length batch)), w')
    /\ Inv w' /\ calls w' = calls w
    /\ observe w' = (observe w + length batch)%nat.
Proof.
  revert outcomes contents processedCount w.
  induction batch as [| path batch IH]; intros outcomes contents processedCount w HInv Hlen.
  - destruct outcomes; [| discriminate Hlen]. cbn. exists w.
    rewrite app_nil_r, Z.add_0_r, Nat.add_0_r. auto.
  - destruct outcomes as [| outcome outcomes]; [discriminate Hlen |].
    injection Hlen as Hlen. cbn [zip_with GithubService.process_results].
    destruct (callback_counted _ _ _ counted (processedCount + 1) total path w HInv)
      as (w1 & Hcb & HInv1 & Hcalls1 & Hobs1).
    unfold bind at 1. cbn [GithubService.br_path batch_result]. rewrite Hcb.
    destruct (IH outcomes
                (match GithubService.success (batch_result path outcome),
                       GithubService.br_content (batch_result path outcome) with
                 | true, Some content => (contents ++ [content])%list
                 | _, _ => contents
                 end) (processedCount + 1) w1 HInv1 Hlen)
      as (w' & Hrun & HInv' & Hcalls & Hobs).
    exists w'. rewrite Hrun. repeat split; auto; try congruence.
    + do 3 f_equal.
      * destruct outcome as [content |]; cbn; [now rewrite <- app_assoc | reflexivity].
      * cbn [length]. lia.
    + rewrite Hobs, Hobs1. cbn [length]. lia.
Qed.

Lemma batch_loop_counts (fuel : nat) (total : Z) (rest : list string)
    (contents : list FileContent) (processedCount : Z) (w : World) :
  Inv w -> (length rest <= fuel)%nat ->
  exists w',
    GithubService.batch_loop env fuel owner repo token total (Some callback)
      rest contents processedCount w =
      (Returned (contents ++ omap id (fetch_outcomes env auth owner repo (calls w) rest))%list,
       w')
    /\ Inv w'
    /\ observe w' = (observe w + length rest)%nat.
Proof.
  revert rest contents processedCount w.
  induction fuel as [| fuel IH]; intros rest contents processedCount w HInv Hfuel.
  - destruct rest; [| cbn in Hfuel; lia]. cbn. exists w.
    rewrite app_nil_r, Nat.add_0_r. auto.
  - destruct rest as [| path rest'].
    { cbn. exists w. rewrite app_nil_r, Nat.add_0_r. auto. }
    cbn [GithubService.batch_loop].
    assert (Hpos : (length (path :: rest') <= S fuel)%nat /\ (1 <= length (path :: rest'))%nat)
      by (cbn in *; lia).
    clear Hfuel. revert Hpos. generalize (path :: rest'). clear path rest'.
    intros rest [Hfuel Hpos].
    set (batch := take GithubService.BATCH_SIZE rest).
    set (later := drop GithubService.BATCH_SIZE rest).
    assert (Hsplit : rest = (batch ++ later)%list) by (symmetry; apply take_drop).
    destruct (map_all_fetch_one batch w HInv) as (w1 & Hfetch & HInv1 & Hcalls1 & Hobs1).
    unfold bind at 1. rewrite Hfetch.
    destruct (process_results_counts batch
                (fetch_outcomes env auth owner repo (calls w) batch) total contents
                processedCount w1 HInv1 (fetch_outcomes_length _ _))
      as (w2 & Hproc & HInv2 & Hcalls2 & Hobs2).
    unfold bind at 1. rewrite Hproc.
    assert (Hpause : exists w3,
               (match later with _ :: _ => sleep 200 | [] => ret tt end) w2
               = (Returned tt, w3)
               /\ Inv w3 /\ calls w3 = calls w2 /\ observe w3 = observe w2).
    { destruct later.
      - exists w2. auto.
      - exists (snd (sleep 200 w2)).
        destruct (pause_uncounted _ _ _ counted 200 w2 HInv2) as [HInv3 Hobs3]. auto. }
    destruct Hpause as (w3 & Hpause & HInv3 & Hcalls3 & Hobs3).
    unfold bind at 1. rewrite Hpause.
    assert (Hlater : (length later <= fuel)%nat).
    { subst later. rewrite length_drop. unfold GithubService.BATCH_SIZE. lia. }
    destruct (IH later (contents ++ omap id (fetch_outcomes env auth owner repo (calls w) batch))%list
                (processedCount + Z.of_nat (length batch)) w3 HInv3 Hlater)
      as (w' & Hloop & HInv' & Hobs').
    assert (Hout : fetch_outcomes env auth owner repo (calls w) rest =
                   (fetch_outcomes env auth owner repo (calls w) batch
                    ++ fetch_outcomes env auth owner repo (calls w3) later)%list).
    { transitivity (fetch_outcomes env auth owner repo (calls w) (batch ++ later)%list).
      - f_equal. exact Hsplit.
      - rewrite fetch_outcomes_app. do 2 f_equal. congruence. }
    assert (Hlen : length rest = (length batch + length later)%nat).
    { rewrite <- length_app. f_equal. exact Hsplit. }
    exists w'. rewrite Hloop. repeat split; auto.
    + f_equal. f_equal. rewrite Hout, omap_app, <- app_assoc. reflexivity.
    + rewrite Hobs', Hobs3, Hobs2, Hobs1, Hlen. lia.
Qed.

End Counting.

End ContentFetch.

Lemma slice_to_all {A} (maxFiles : Z) (paths : list A) :
  Z.of_nat (length paths) <= maxFiles -> GithubService.slice_to maxFiles paths = paths.
Proof.
  intros Hmax. unfold GithubService.slice_to.
  rewrite bool_decide_eq_true_2 by lia. apply take_ge. lia.
Qed.

Lemma length_omap_outcomes (outcomes : list (option FileContent)) :
  (length (omap id outcomes) + count_failed outcomes)%nat = length outcomes.
Proof.
  unfold count_failed. induction outcomes as [| outcome outcomes IH]; [reflexivity |].
  rewrite filter_cons. destruct outcome as [content |]; cbn [failed omap id length].
  - destruct (decide (false = true)) as [Hfalse | _]; [discriminate Hfalse |].
    cbn. f_equal. exact IH.
  - destruct (decide (true = true)) as [_ | Hfalse]; [| now destruct Hfalse].
    cbn. rewrite Nat.add_succ_r. f_equal. exact IH.
Qed.

(** The orchestrator's callback is counted by the [scanning] file events
    it writes, as long as the response is open. *)
Lemma report_progress_counted (priority : PriorityLevel) :
  counted_callback response_open scanning_events (AnalysisService.report_progress priority).
Proof.
  split.
  - intros current total path w Hopen. unfold response_open in Hopen.
    eexists. unfold AnalysisService.report_progress, AnalysisService.sendStatus,
      AnalysisService.sendFileEvent, AnalysisService.sendSSE, bind, res_writableEnded,
      res_write.
    rewrite Hopen. cbn. rewrite Hopen. repeat split; try assumption.
    unfold scanning_events. cbn [written]. rewrite !filter_app, !length_app.
    rewrite filter_cons_False by discriminate. rewrite filter_cons_True by reflexivity.
    cbn. lia.
  - intros c dt w Hopen. split; [exact Hopen | reflexivity].
  - intros ms w Hopen. split; [exact Hopen | reflexivity].
Qed.

(** C5. For [N] paths, [N] at most [maxFiles], of which exactly one
    fetch fails: [getFilesContents] returns (it does not throw) the [N-1]
    files that were fetched, and the progress callback has been invoked
    exactly [N] times. *)
Theorem getFilesContents_tolerates_one_failure
    (env : Environment) (owner repo : string) (paths : list string) (maxFiles : Z)
    (callback : GithubService.ProgressCallback) (token : option string)
    (Inv : World -> Prop) (observe : World -> nat) (w : World) :
  Z.of_nat (length paths) <= maxFiles ->
  count_failed (fetch_outcomes env (GithubService.createOctokit env token) owner repo
                  (calls w) paths) = 1%nat ->
  counted_callback Inv observe callback ->
  Inv w ->
  exists contents w',
    GithubService.getFilesContents env owner repo paths maxFiles (Some callback) token w
      = (Returned contents, w')
    /\ contents = omap id (fetch_outcomes env (GithubService.createOctokit env token)
                             owner repo (calls w) paths)
    /\ Z.of_nat (length contents) = Z.of_nat (length paths) - 1
    /\ observe w' = (observe w + length paths)%nat.
Proof.
  intros Hmax Hone Hcounted HInv. unfold GithubService.getFilesContents.
  rewrite (slice_to_all _ _ Hmax).
  destruct (batch_loop_counts env owner repo token Inv observe callback Hcounted
              (length paths) (Z.of_nat (length paths)) paths [] 0 w HInv (le_n _))
    as (w' & Hrun & _ & Hobs).
  eexists. exists w'. split; [exact Hrun |]. cbn [app]. repeat split; [| exact Hobs].
  pose proof (length_omap_outcomes
                (fetch_outcomes env (GithubService.createOctokit env token) owner repo
                   (calls w) paths)) as Hlen.
  rewrite Hone, fetch_outcomes_length in Hlen. lia.
Qed.

(** Three paths, the second of which is missing, fetched with the
    orchestrator's callback: two files, three invocations. *)
Lemma getFilesContents_tolerates_one_failure_sample :
  exists contents w',
    GithubService.getFilesContents Samples.shop "acme" "shop"
      [".env"; "missing.key"; "src/auth/login.ts"] 20
      (Some (AnalysisService.report_progress P1)) None Samples.fresh
      = (Returned contents, w')
    /\ contents = omap id (fetch_outcomes Samples.shop
                             (GithubService.createOctokit Samples.shop None)
                             "acme" "shop" (calls Samples.fresh)
                             [".env"; "missing.key"; "src/auth/login.ts"])
    /\ Z.of_nat (length contents) = Z.of_nat 3 - 1
    /\ scanning_events w' = (scanning_events Samples.fresh + 3)%nat.
Proof.
  apply (getFilesContents_tolerates_one_failure Samples.shop "acme" "shop"
           [".env"; "missing.key"; "src/auth/login.ts"] 20
           (AnalysisService.report_progress P1) None response_open scanning_events
           Samples.fresh).
  - cbn. lia.
  - vm_compute. reflexivity.
  - apply report_progress_counted.
  - reflexivity.
Defined.

(** ** The orchestrator *)

Section Orchestrator.

Variable env : Environment.

Lemma sendSSE_open (event : SSEEvent) (w : World) :
  response_open w -> AnalysisService.sendSSE event w = (Returned tt, emit event w).
Proof.
  intros Hopen. unfold AnalysisService.sendSSE, bind, res_writableEnded. now rewrite Hopen.
Qed.

Lemma sendSSE_ended (event : SSEEvent) (w : World) :
  writableEnded w = true -> AnalysisService.sendSSE event w = (Returned tt, w).
Proof.
  intros Hended. unfold AnalysisService.sendSSE, bind, res_writableEnded. now rewrite Hended.
Qed.

Lemma advances_emit okCall (okEvent : SSEEvent -> bool) (event : SSEEvent) (w : World) :
  okEvent event = true -> advances okCall okEvent w (emit event w).
Proof.
  intros Hev. repeat split; cbn.
  - exists []. now rewrite app_nil_r.
  - exists [event]. cbn. now rewrite Hev.
Qed.

(** The fetch phase issues no AI request, writes status and file events
    only and leaves the response open. *)
Lemma fetch_phase_advances (repoUrl : string) (priority : PriorityLevel)
    (githubToken : option string) (w0 : World) (owner repo : string)
    (files : list FileContent) (w2 : World) :
  fetch_phase_yields env repoUrl priority githubToken w0 owner repo files w2 ->
  advances not_ai_call fetch_phase_event w0 w2.
Proof.
  intros (_ & repoInfo & w1 & totalMatching & Hvalidate & _ & Hfetch).
  pose proof (frame_validateRepo env fetch_phase_event _ _ _ _ _ _ Hvalidate) as Hstep1.
  pose proof (frame_getFilesForPriority env fetch_phase_event _ _ _ _ _ _
                (callback_keeps_report_progress priority) _ _ _ Hfetch) as Hstep2.
  eapply advances_trans; [| eapply advances_trans; [exact Hstep1 |]].
  - apply advances_emit. reflexivity.
  - eapply advances_trans; [| exact Hstep2]. apply advances_emit. reflexivity.
Qed.

(** What is left of the run after the fetch phase. *)
Lemma analyzeRepository_fetched (repoUrl apiKey : string) (priority : PriorityLevel)
    (githubToken : option string) (w0 : World) (owner repo : string)
    (files : list FileContent) (w2 : World) :
  response_open w0 ->
  fetch_phase_yields env repoUrl priority githubToken w0 owner repo files w2 ->
  AnalysisService.analyzeRepository env repoUrl apiKey priority githubToken w0 =
    try_finally
      (try_catch
         (match files with
          | [] =>
              AnalysisService.sendStatus
                ("No files found for Priority " +:+ JsString.of_Z (priority_number priority))
                0 0 None ;;
              AnalysisService.sendComplete (AnalysisService.nothing_scanned priority) ;;
              res_end
          | _ :: _ =>
              AnalysisService.analyze_files env owner repo apiKey priority githubToken files
          end)
         AnalysisService.report_failure)
      res_end w2.
Proof.
  intros Hopen (Hurl & repoInfo & w1 & totalMatching & Hvalidate & Hprivate & Hfetch).
  assert (Hopen1 : response_open w1).
  { unfold response_open.
    destruct (frame_validateRepo env no_event owner repo githubToken _ _ _ Hvalidate)
      as (_ & _ & Hended). rewrite Hended. exact Hopen. }
  unfold AnalysisService.analyzeRepository.
  apply try_finally_from, try_catch_from. unfold AnalysisService.try_block. rewrite Hurl.
  erewrite bind_returned by (apply sendSSE_open; exact Hopen).
  erewrite bind_returned.
  2:{ unfold try_catch. erewrite bind_returned by exact Hvalidate. reflexivity. }
  cbn iota. rewrite Hprivate.
  erewrite bind_returned by (apply sendSSE_open; exact Hopen1).
  erewrite bind_returned by exact Hfetch.
  reflexivity.
Qed.

End Orchestrator.

(** C4. When the fetch phase of a tier yields no file, the run writes a
    [complete] event with [filesScanned], [issuesFound], [tokensUsed] and
    [cost] all zero, and sends nothing to the AI service. *)
Theorem zero_files_complete_without_ai_call
    (env : Environment) (repoUrl apiKey : string) (priority : PriorityLevel)
    (githubToken : option string) (w0 : World) (owner repo : string) (w2 : World) :
  response_open w0 ->
  fetch_phase_yields env repoUrl priority githubToken w0 owner repo [] w2 ->
  exists w',
    AnalysisService.analyzeRepository env repoUrl apiKey priority githubToken w0
      = (Returned tt, w')
    /\ written w' =
         (written w2
          ++ [ StatusEvent ("No files found for Priority "
                            +:+ JsString.of_Z (priority_number priority)) 0 0 None;
               CompleteEvent {| ce_priority := priority;
                                filesScanned := 0;
                                issuesFound := 0;
                                tokensUsed := 0;
                                cost := 0%float;
                                nextPriorityEstimate := None |} ])%list
    /\ forallb fetch_phase_event (events_since w0 w2) = true
    /\ exists requests, calls w' = (calls w0 ++ requests)%list
                        /\ forallb not_ai_call requests = true.
Proof.
  intros Hopen Hfetch.
  destruct (fetch_phase_advances env _ _ _ _ _ _ _ _ Hfetch)
    as ((requests & Hcalls & Hnot_ai) & (events & Hwritten & Hevents) & Hended).
  assert (Hopen2 : response_open w2) by (unfold response_open; congruence).
  rewrite (analyzeRepository_fetched env _ apiKey _ _ _ _ _ _ _ Hopen Hfetch).
  unfold try_finally, try_catch, AnalysisService.sendStatus, AnalysisService.sendComplete.
  unfold bind at 1. rewrite (sendSSE_open _ _ Hopen2).
  unfold bind at 1. rewrite (sendSSE_open _ _ (Hopen2 : response_open (emit _ w2))).
  cbn. eexists. split; [reflexivity |]. cbn. split; [now rewrite <- app_assoc |].
  split.
  - unfold events_since. rewrite Hwritten, drop_app_length. exact Hevents.
  - exists requests. auto.
Qed.

Lemma images_only_fetch_phase :
  fetch_phase_yields Samples.images_only Samples.shop_url P1 None Samples.fresh
    "acme" "shop" [] (SampleRuns.fetched Samples.images_only P1).
Proof.
  split; [vm_compute; reflexivity |].
  exists SampleRuns.shop_info,
         (SampleRuns.validated Samples.images_only), 0.
  split; [vm_compute; reflexivity |].
  split; [vm_compute; reflexivity |].
  vm_compute. reflexivity.
Qed.

(** A repository of three images, all ignored: the tier-1 run ends with
    the zero [complete] event and has asked the AI service nothing. *)
Lemma zero_files_complete_without_ai_call_sample :
  exists w',
    AnalysisService.analyzeRepository Samples.images_only Samples.shop_url "sk-sample" P1 None
      Samples.fresh = (Returned tt, w')
    /\ written w' =
         (written (SampleRuns.fetched Samples.images_only P1)
          ++ [ StatusEvent ("No files found for Priority "
                            +:+ JsString.of_Z (priority_number P1)) 0 0 None;
               CompleteEvent {| ce_priority := P1;
                                filesScanned := 0;
                                issuesFound := 0;
                                tokensUsed := 0;
                                cost := 0%float;
                                nextPriorityEstimate := None |} ])%list
    /\ forallb fetch_phase_event
         (events_since Samples.fresh (SampleRuns.fetched Samples.images_only P1)) = true
    /\ exists requests, calls w' = (calls Samples.fresh ++ requests)%list
                        /\ forallb not_ai_call requests = true.
Proof.
  apply (zero_files_complete_without_ai_call Samples.images_only Samples.shop_url "sk-sample"
           P1 None Samples.fresh "acme" "shop" (SampleRuns.fetched Samples.images_only P1)).
  - reflexivity.
  - exact images_only_fetch_phase.
Defined.

(** A reply that is a JSON object without [issues], and one whose
    [issues] is a string: no findings. *)
Lemma parseIssuesFromResponse_wrong_shape_sample :
  DeepseekService.parseIssuesFromResponse Samples.shop 0 Samples.summary_only_json = []
  /\ DeepseekService.parseIssuesFromResponse Samples.shop 0 Samples.issues_not_array_json = [].
Proof.
  split.
  - apply (parseIssuesFromResponse_wrong_shape Samples.shop 0 Samples.summary_only_json
             (JObject [("summary", JString "all good")])).
    + vm_compute. reflexivity.
    + left. reflexivity.
  - apply (parseIssuesFromResponse_wrong_shape Samples.shop 0 Samples.issues_not_array_json
             (JObject [("issues", JString "none")])).
    + vm_compute. reflexivity.
    + right. exists (JString "none"). split; reflexivity.
Defined.

(** ** The analysis of fetched files *)

Section Analysis.

Variable env : Environment.

(** The stream of a response that arrives whole. *)
Lemma streamAnalysis_of_body (files : list FileContent) (apiKey : string)
    (priority : PriorityLevel) (chunks : list string) (w : World) :
  chat_completions env (calls w) apiKey (getPromptForPriority env priority)
    (DeepseekService.userMessageFor files) true = AiBody chunks None ->
  let w1 := after_request (analysis_request env files apiKey priority)
              (elapsed env (calls w) (analysis_request env files apiKey priority)) w in
  let inputTokens :=
    TokenCounter.estimateTokens (getPromptForPriority env priority)
    + TokenCounter.estimateTokens (DeepseekService.userMessageFor files) in
  let outputTokens := TokenCounter.estimateTokens (accumulated env chunks) in
  DeepseekService.streamAnalysis env files apiKey priority w =
    ((chunk_events env chunks
      ++ [StreamComplete
            (DeepseekService.parseIssuesFromResponse env (now w1) (accumulated env chunks))
            inputTokens outputTokens
            (TokenCounter.calculateCost (JsNumber.of_Z inputTokens)
                                        (JsNumber.of_Z outputTokens))])%list,
     None, w1).
Proof.
  intros Hbody. cbn zeta.
  unfold DeepseekService.streamAnalysis, DeepseekService.fetch_chat.
  rewrite Hbody. reflexivity.
Qed.

Lemma for_each_with_chunks (deltas : list (json * string)) (rest : list StreamEvent)
    (state : Z * Z * list AnalysisIssue) (w : World) :
  for_each_with (map (fun delta => ChunkEvent (fst delta)) deltas ++ rest)%list
    AnalysisService.on_stream_event state w
  = for_each_with rest AnalysisService.on_stream_event state w.
Proof. induction deltas as [| delta deltas IH]; [reflexivity | exact IH]. Qed.

Lemma for_each_emit_all {A} (l : list A) (event : A -> SSEEvent) (w : World) :
  response_open w ->
  for_each l (fun x => AnalysisService.sendSSE (event x)) w
  = (Returned tt, emit_all (map event l) w).
Proof.
  revert w. induction l as [| x l IH]; intros w Hopen; cbn.
  - unfold ret, emit_all. rewrite app_nil_r. now destruct w.
  - erewrite bind_returned by (apply sendSSE_open; exact Hopen).
    rewrite IH by exact Hopen. unfold emit_all, emit. cbn. now rewrite <- app_assoc.
Qed.

(** With an unparseable reply the analysis step returns no finding and
    has written the marks of the fetched files and the status only. *)
Lemma analyze_with_ai_unparseable (files : list FileContent) (apiKey : string)
    (priority : PriorityLevel) (chunks : list string) (w : World) :
  response_open w ->
  chat_completions env (calls w) apiKey (getPromptForPriority env priority)
    (DeepseekService.userMessageFor files) true = AiBody chunks None ->
  JSON_parse env (DeepseekService.jsonStr (accumulated env chunks)) = None ->
  exists inputTokens outputTokens w',
    AnalysisService.analyze_with_ai env apiKey priority files w
      = (Returned (inputTokens, outputTokens, []), w')
    /\ written w' = (written w ++ fetched_marks priority files ++ [analysing_status files])%list
    /\ response_open w'.
Proof.
  intros Hopen Hbody Hparse. unfold AnalysisService.analyze_with_ai.
  unfold AnalysisService.sendFileEvent.
  erewrite bind_returned
    by (apply (for_each_emit_all files
                 (fun file => FileEvent (fc_path file) priority complete)); exact Hopen).
  unfold AnalysisService.sendStatus.
  erewrite bind_returned by (apply sendSSE_open; exact Hopen).
  unfold for_await.
  rewrite streamAnalysis_of_body with (chunks := chunks) by exact Hbody.
  unfold chunk_events. rewrite for_each_with_chunks. cbn [for_each_with].
  rewrite parseIssuesFromResponse_unparseable by exact Hparse.
  cbn. do 3 eexists. split; [reflexivity |]. cbn. split; [| exact Hopen].
  now rewrite <- app_assoc.
Qed.

Lemma frame_estimate_next (owner repo : string) (priority : PriorityLevel)
    (githubToken : option string) (count totalInputTokens : Z) :
  keeps (advances not_ai_call no_event)
        (AnalysisService.estimate_next env owner repo priority githubToken
           count totalInputTokens).
Proof.
  unfold AnalysisService.estimate_next. destruct (AnalysisService.next_priority priority).
  - apply frame_bind; [apply frame_getFilesForPriority, callback_keeps_none |].
    intros [nextFiles nextTotalMatching]. apply frame_ret.
  - apply frame_ret.
Qed.

Lemma no_event_nil (events : list SSEEvent) : forallb no_event events = true -> events = [].
Proof. destruct events; [reflexivity | discriminate]. Qed.

End Analysis.

(** C7, as stated, fails when the step after the analysis fails: the
    tier-1 run on [acme/shop] with a tree cached for nearly five minutes
    gets a reply that is cut short, finds nothing in it, and then fails
    to list the files of tier 2 for the estimate (the cached tree has
    expired and the provider rejects the lookup): it writes an [error]
    event and no [complete] event. *)
Lemma unparseable_reply_then_failed_estimate_reports_error :
  JSON_parse Samples.flaky_lookup
    (DeepseekService.jsonStr
       (accumulated Samples.flaky_lookup (Samples.chunks_of Samples.truncated_json))) = None
  /\ written (snd (AnalysisService.analyzeRepository Samples.flaky_lookup Samples.shop_url
                     "sk-sample" P1 None Samples.warm))
     = [ StatusEvent "Validating repository..." 0 0 None;
         StatusEvent "Scanning Security & Secrets files..." 0 0 None;
         StatusEvent "Fetching files... (1/1)" 1 1 (Some ".env");
         FileEvent ".env" P1 scanning;
         FileEvent ".env" P1 complete;
         StatusEvent "Analyzing 1 files with AI..." 1 1 None;
         ErrorEvent ("Failed to get file tree: GitHub API rate limit exceeded. "
                     +:+ "Try again later or add a GITHUB_TOKEN.")
                    "RATE_LIMITED" true ].
Proof. split; vm_compute; reflexivity. Qed.

(** C7, amended. When the text accumulated from the AI service's stream
    does not parse as JSON, the engine's stream ends with a [complete]
    event that carries no finding (it does not throw), and the run,
    unless the next-tier estimate that follows the analysis fails, writes
    a [complete] event with [issuesFound = 0] and no [error] event. *)
Theorem unparseable_reply_completes_with_no_findings
    (env : Environment) (repoUrl apiKey : string) (priority : PriorityLevel)
    (githubToken : option string) (w0 : World) (owner repo : string)
    (files : list FileContent) (w2 : World) (chunks : list string) :
  response_open w0 ->
  fetch_phase_yields env repoUrl priority githubToken w0 owner repo files w2 ->
  files <> [] ->
  chat_completions env (calls w2) apiKey (getPromptForPriority env priority)
    (DeepseekService.userMessageFor files) true = AiBody chunks None ->
  JSON_parse env (DeepseekService.jsonStr (accumulated env chunks)) = None ->
  (forall state w3,
     AnalysisService.analyze_with_ai env apiKey priority files w2 = (Returned state, w3) ->
     exists estimate w4,
       AnalysisService.estimate_next env owner repo priority githubToken
         (Z.of_nat (length files)) (fst (fst state)) w3 = (Returned estimate, w4)) ->
  (forall w, calls w = calls w2 ->
     exists inputTokens outputTokens cost w',
       DeepseekService.streamAnalysis env files apiKey priority w =
         ((chunk_events env chunks
           ++ [StreamComplete [] inputTokens outputTokens cost])%list, None, w'))
  /\ exists data w',
       AnalysisService.analyzeRepository env repoUrl apiKey priority githubToken w0
         = (Returned tt, w')
       /\ written w' = (written w2 ++ fetched_marks priority files
                        ++ [analysing_status files; CompleteEvent data])%list
       /\ issuesFound data = 0
       /\ forallb not_error (events_since w0 w') = true.
Proof.
  intros Hopen Hfetch Hfiles Hbody Hparse Hestimate. split.
  - intros w Hcalls. do 4 eexists.
    rewrite streamAnalysis_of_body with (chunks := chunks) by (rewrite Hcalls; exact Hbody).
    rewrite parseIssuesFromResponse_unparseable by exact Hparse. reflexivity.
  - destruct (fetch_phase_advances env _ _ _ _ _ _ _ _ Hfetch)
      as (_ & (events & Hwritten & Hevents) & Hended).
    assert (Hopen2 : response_open w2) by (unfold response_open; congruence).
    destruct (analyze_with_ai_unparseable env files apiKey priority chunks w2
                Hopen2 Hbody Hparse)
      as (inputTokens & outputTokens & w3 & Hanalysis & Hwritten3 & Hopen3).
    destruct (Hestimate _ _ Hanalysis) as (estimate & w4 & Hnext).
    destruct (frame_estimate_next env _ _ _ _ _ _ _ _ _ Hnext)
      as (_ & (silent & Hwritten4 & Hsilent) & Hended4).
    apply no_event_nil in Hsilent. subst silent. rewrite app_nil_r in Hwritten4.
    assert (Hopen4 : response_open w4) by (unfold response_open in *; congruence).
    rewrite (analyzeRepository_fetched env _ apiKey _ _ _ _ _ _ _ Hopen Hfetch).
    destruct files as [| file files']; [now destruct Hfiles |].
    unfold try_finally, try_catch, AnalysisService.analyze_files.
    erewrite bind_returned by exact Hanalysis. cbn beta iota zeta.
    erewrite bind_returned by exact Hnext.
    unfold AnalysisService.sendComplete. rewrite (sendSSE_open _ _ Hopen4).
    cbn. do 2 eexists. split; [reflexivity |]. cbn [written issuesFound length].
    rewrite Hwritten4, Hwritten3. repeat split.
    + rewrite <- !app_assoc. reflexivity.
    + reflexivity.
    + unfold events_since. rewrite Hwritten, <- !app_assoc. cbn [written].
      rewrite drop_app_length, !forallb_app.
      assert (Hpre : forallb not_error events = true).
      { clear -Hevents. induction events as [| e events IH]; [reflexivity |].
        cbn in *. apply andb_prop in Hevents as [He Hrest]. rewrite (IH Hrest).
        destruct e; try discriminate He; reflexivity. }
      assert (Hmarks : forall l, forallb not_error (fetched_marks priority l) = true)
        by (intros l; induction l; [reflexivity | exact IHl]).
      rewrite Hpre, Hmarks. reflexivity.
Qed.

Lemma shop_truncated_fetch_phase :
  fetch_phase_yields Samples.shop_truncated Samples.shop_url P1 None Samples.fresh
    "acme" "shop" SampleRuns.tier1_files (SampleRuns.fetched Samples.shop_truncated P1).
Proof.
  split; [vm_compute; reflexivity |].
  exists SampleRuns.shop_info, (SampleRuns.validated Samples.shop_truncated), 1.
  split; [vm_compute; reflexivity |].
  split; [vm_compute; reflexivity |].
  vm_compute. reflexivity.
Qed.

(** The tier-1 run on [acme/shop] when the AI service's reply is cut
    short in the middle of a string. *)
Lemma unparseable_reply_completes_with_no_findings_sample :
  (forall w, calls w = calls (SampleRuns.fetched Samples.shop_truncated P1) ->
     exists inputTokens outputTokens cost w',
       DeepseekService.streamAnalysis Samples.shop_truncated SampleRuns.tier1_files
         "sk-sample" P1 w =
         ((chunk_events Samples.shop_truncated (Samples.chunks_of Samples.truncated_json)
           ++ [StreamComplete [] inputTokens outputTokens cost])%list, None, w'))
  /\ exists data w',
       AnalysisService.analyzeRepository Samples.shop_truncated Samples.shop_url
         "sk-sample" P1 None Samples.fresh = (Returned tt, w')
       /\ written w' = (written (SampleRuns.fetched Samples.shop_truncated P1)
                        ++ fetched_marks P1 SampleRuns.tier1_files
                        ++ [analysing_status SampleRuns.tier1_files; CompleteEvent data])%list
       /\ issuesFound data = 0
       /\ forallb not_error (events_since Samples.fresh w') = true.
Proof.
  apply (unparseable_reply_completes_with_no_findings Samples.shop_truncated
           Samples.shop_url "sk-sample" P1 None Samples.fresh "acme" "shop"
           SampleRuns.tier1_files (SampleRuns.fetched Samples.shop_truncated P1)
           (Samples.chunks_of Samples.truncated_json)).
  - reflexivity.
  - exact shop_truncated_fetch_phase.
  - discriminate.
  - reflexivity.
  - vm_compute. reflexivity.
  - intros state w3 Hrun. vm_compute in Hrun. injection Hrun as <- <-.
    do 2 eexists. vm_compute. reflexivity.
Defined.

(** A [content] that is not a string is appended as the string it
    converts to: here the pieces add up to a reply with one finding. *)
Example number_content_is_appended :
  accumulated Samples.shop Samples.number_chunks
  = "{" +:+ Samples.quote +:+ "issues" +:+ Samples.quote +:+ ":[{" +:+ Samples.quote
    +:+ "line" +:+ Samples.quote +:+ ":12}]}"
  /\ length (DeepseekService.parseIssuesFromResponse Samples.shop 1700000000000
               (accumulated Samples.shop Samples.number_chunks)) = 1%nat.
Proof. split; vm_compute; reflexivity. Qed.

(** A no-break space around the reply is trimmed as white space. *)
Example no_break_space_is_trimmed :
  DeepseekService.jsonStr (String "160" ("{}" +:+ String "160" "")) = "{}".
Proof. vm_compute. reflexivity. Qed.

(** ** The file-tree cache *)

Section FileTreeCache.

Variable env : Environment.
Variables owner repo : string.
Variables branch token : option string.

Let auth : option string := GithubService.createOctokit env token.
Let key : string := GithubService.cacheKey owner repo branch.

Lemma octokit_request_run {R} (c : NetCall) (answer : list NetCall -> JsError + R)
    (w : World) :
  GithubService.octokit_request env c answer w =
    (match answer (calls w) with
     | inl e => Thrown e
     | inr r => Returned r
     end, after_request c (elapsed env (calls w) c) w).
Proof. unfold GithubService.octokit_request. now destruct (answer (calls w)). Qed.

Lemma validateRepo_world (w : World) (r : outcome RepoInfo) (w' : World) :
  GithubService.validateRepo env owner repo token w = (r, w') ->
  w' = after_request (ReposGet auth owner repo)
         (elapsed env (calls w) (ReposGet auth owner repo)) w.
Proof.
  unfold GithubService.validateRepo, GithubService.octokit_repos_get, try_catch, bind.
  rewrite octokit_request_run. fold auth.
  destruct (repos_get env (calls w) auth owner repo) as [e | data]; cbn.
  - destruct (bool_decide (status e = Some 404)); [now intros [= _ <-] |].
    destruct (bool_decide (status e = Some 403)); now intros [= _ <-].
  - now intros [= _ <-].
Qed.

(** A young entry is served as it is, without any request. *)
Lemma getFileTree_hit (w : World) (data : list FileEntry) (timestamp : Z) :
  fileTreeCache w !! key = Some (data, timestamp) ->
  now w - timestamp < GithubService.CACHE_TTL ->
  GithubService.getFileTree env owner repo branch token w = (Returned data, w).
Proof.
  intros Hentry Hyoung. unfold GithubService.getFileTree, bind, cache_get, Date_now.
  fold key. rewrite Hentry. now rewrite bool_decide_eq_true_2.
Qed.

Lemma getFileTree_stale (w : World) :
  stale key w ->
  GithubService.getFileTree env owner repo branch token w
  = GithubService.fetchFileTree env owner repo branch token w.
Proof.
  unfold stale, GithubService.getFileTree, bind, cache_get, Date_now. fold key.
  destruct (fileTreeCache w !! key) as [[data timestamp] |]; [| reflexivity].
  intros Hold. now rewrite bool_decide_eq_false_2 by lia.
Qed.

(** The listing request once the branch [target] is known, issued from
    [w]: what the miss path makes of its answer. *)
Lemma listing_run (target : string) (w : World) :
  exists r w',
    try_catch
      (let* tree := GithubService.octokit_git_getTree env auth owner repo target in
       let* t := Date_now in
       cache_set key (GithubService.tree_files tree) t ;;
       ret (GithubService.tree_files tree))
      (fun error =>
         if bool_decide (status error = Some 404) then
           throw (Error ("Repository or branch not found: " +:+ owner +:+ "/" +:+ repo))
         else if bool_decide (status error = Some 409) then
           throw (Error "Repository is empty")
         else throw (Error ("Failed to get file tree: " +:+ message error))) w
    = (r, w')
    /\ calls w' = (calls w ++ [GitGetTree auth owner repo target])%list
    /\ match git_getTree env (calls w) auth owner repo target with
       | inr tree =>
           r = Returned (GithubService.tree_files tree)
           /\ fileTreeCache w' !! key = Some (GithubService.tree_files tree, now w')
       | inl _ => exists error, r = Thrown error
       end.
Proof.
  unfold try_catch, bind, GithubService.octokit_git_getTree. rewrite octokit_request_run.
  destruct (git_getTree env (calls w) auth owner repo target) as [e | tree]; cbn.
  - destruct (bool_decide (status e = Some 404)); [do 2 eexists; cbn; eauto |].
    destruct (bool_decide (status e = Some 409)); do 2 eexists; cbn; eauto.
  - do 2 eexists. cbn. repeat split. apply lookup_insert_eq.
Qed.

(** The miss path when the caller names the branch: one request, the
    listing. *)
Lemma fetchFileTree_named_branch (w : World) :
  truthy_string branch = true ->
  exists r w',
    GithubService.fetchFileTree env owner repo branch token w = (r, w')
    /\ calls w' = (calls w ++ [GitGetTree auth owner repo (default "" branch)])%list
    /\ match git_getTree env (calls w) auth owner repo (default "" branch) with
       | inr tree =>
           r = Returned (GithubService.tree_files tree)
           /\ fileTreeCache w' !! key = Some (GithubService.tree_files tree, now w')
       | inl _ => exists error, r = Thrown error
       end.
Proof.
  intros Hnamed. destruct (listing_run (default "" branch) w) as (r & w' & Hrun & Hrest).
  exists r, w'. split; [| exact Hrest].
  rewrite <- Hrun. unfold GithubService.fetchFileTree. rewrite Hnamed.
  unfold try_catch, bind at 1, ret at 1. reflexivity.
Qed.

(** The miss path when the branch is looked up first and the lookup
    succeeds: the lookup, then the listing. *)
Lemma fetchFileTree_default_branch (w : World) (info : RepoInfo) (w1 : World) :
  truthy_string branch = false ->
  GithubService.validateRepo env owner repo token w = (Returned info, w1) ->
  exists r w',
    GithubService.fetchFileTree env owner repo branch token w = (r, w')
    /\ calls w' = (calls w ++ [ReposGet auth owner repo;
                               GitGetTree auth owner repo (defaultBranch info)])%list
    /\ match git_getTree env (calls w ++ [ReposGet auth owner repo]) auth owner repo
               (defaultBranch info) with
       | inr tree =>
           r = Returned (GithubService.tree_files tree)
           /\ fileTreeCache w' !! key = Some (GithubService.tree_files tree, now w')
       | inl _ => exists error, r = Thrown error
       end.
Proof.
  intros Hdefault Hlookup.
  pose proof (validateRepo_world _ _ _ Hlookup) as Hw1.
  assert (Hcalls1 : calls w1 = (calls w ++ [ReposGet auth owner repo])%list)
    by (rewrite Hw1; reflexivity).
  destruct (listing_run (defaultBranch info) w1) as (r & w' & Hrun & Hcalls & Hanswer).
  exists r, w'. rewrite Hcalls1 in Hcalls, Hanswer. rewrite <- app_assoc in Hcalls.
  split; [| split; [exact Hcalls | exact Hanswer]].
  rewrite <- Hrun. unfold GithubService.fetchFileTree. rewrite Hdefault.
  unfold try_catch, bind at 1, bind at 1. rewrite Hlookup. reflexivity.
Qed.

(** The miss path when the lookup of the branch fails: no listing is
    requested, and the call throws. *)
Lemma fetchFileTree_lookup_fails (w : World) (e : JsError) (w1 : World) :
  truthy_string branch = false ->
  GithubService.validateRepo env owner repo token w = (Thrown e, w1) ->
  exists error,
    GithubService.fetchFileTree env owner repo branch token w = (Thrown error, w1)
    /\ calls w1 = (calls w ++ [ReposGet auth owner repo])%list.
Proof.
  intros Hdefault Hlookup.
  pose proof (validateRepo_world _ _ _ Hlookup) as Hw1.
  unfold GithubService.fetchFileTree. rewrite Hdefault.
  unfold try_catch, bind at 1, bind at 1. rewrite Hlookup.
  destruct (bool_decide (status e = Some 404)); [eexists; split; [reflexivity |] |].
  { rewrite Hw1. reflexivity. }
  destruct (bool_decide (status e = Some 409)); eexists; (split; [reflexivity |]);
    rewrite Hw1; reflexivity.
Qed.

Lemma fetchFileTree_caches (w0 : World) (files : list FileEntry) (w1 : World) :
  GithubService.fetchFileTree env owner repo branch token w0 = (Returned files, w1) ->
  exists timestamp, fileTreeCache w1 !! key = Some (files, timestamp).
Proof.
  intros Hrun. destruct (truthy_string branch) eqn:Hbranch.
  - destruct (fetchFileTree_named_branch w0 Hbranch) as (r & w' & Hrun' & _ & Hanswer).
    rewrite Hrun in Hrun'. injection Hrun' as <- <-.
    destruct (git_getTree env _ _ _ _ _) as [e | tree].
    + destruct Hanswer as [error Herror]. discriminate Herror.
    + destruct Hanswer as [[= ->] Hcache]. eauto.
  - destruct (GithubService.validateRepo env owner repo token w0) as [[info | e] w'] eqn:Hlookup.
    + destruct (fetchFileTree_default_branch w0 info w' Hbranch Hlookup)
        as (r & w'' & Hrun' & _ & Hanswer).
      rewrite Hrun in Hrun'. injection Hrun' as <- <-.
      destruct (git_getTree env _ _ _ _ _) as [e | tree].
      * destruct Hanswer as [error Herror]. discriminate Herror.
      * destruct Hanswer as [[= ->] Hcache]. eauto.
    + destruct (fetchFileTree_lookup_fails w0 e w' Hbranch Hlookup) as (error & Hrun' & _).
      rewrite Hrun in Hrun'. discriminate Hrun'.
Qed.

(** A call that returns leaves what it returned in the cache. *)
Lemma getFileTree_caches (w0 : World) (files : list FileEntry) (w1 : World) :
  GithubService.getFileTree env owner repo branch token w0 = (Returned files, w1) ->
  exists timestamp, fileTreeCache w1 !! key = Some (files, timestamp).
Proof.
  intros Hrun.
  destruct (fileTreeCache w0 !! key) as [[data timestamp] |] eqn:Hentry.
  - destruct (Z_lt_ge_dec (now w0 - timestamp) GithubService.CACHE_TTL) as [Hyoung | Hold].
    + rewrite (getFileTree_hit _ _ _ Hentry Hyoung) in Hrun. injection Hrun as <- <-. eauto.
    + rewrite getFileTree_stale in Hrun by (unfold stale; rewrite Hentry; lia).
      now apply fetchFileTree_caches in Hrun.
  - rewrite getFileTree_stale in Hrun by (unfold stale; now rewrite Hentry).
    now apply fetchFileTree_caches in Hrun.
Qed.

End FileTreeCache.

(** C6, as stated, fails when the branch has to be looked up and the
    lookup fails: [acme/shop] is listed once; six minutes later the entry
    has expired, the repository lookup that precedes the listing is
    rejected, and the second call throws without a single tree-listing
    request (it issues one request, the lookup). *)
Lemma expired_entry_failed_lookup_lists_nothing :
  exists files w1 error w2,
    GithubService.getFileTree Samples.flaky_lookup "acme" "shop" None None Samples.fresh
      = (Returned files, w1)
    /\ GithubService.CACHE_TTL <= now (later 360000 w1) - now w1
    /\ GithubService.getFileTree Samples.flaky_lookup "acme" "shop" None None
         (later 360000 w1) = (Thrown error, w2)
    /\ calls w2 = (calls (later 360000 w1) ++ [ReposGet None "acme" "shop"])%list
    /\ tree_listings [ReposGet None "acme" "shop"] = 0%nat.
Proof. do 4 eexists. repeat split; vm_compute; try reflexivity. discriminate. Qed.

(** C6, amended. After a call of [getFileTree] has returned, its result
    is in the cache under the key of (owner, name, branch).  A second
    call with this key while the entry is younger than the TTL (5
    minutes) returns the cached tree and leaves the world as it is: no
    request is issued.  A second call when the entry is older is not
    served from the cache.  Once the branch is known (named by the
    caller, or found by the repository lookup that precedes the listing)
    it issues exactly one tree-listing request, and what it returns is
    what this request answered; when the lookup fails it throws, having
    issued the lookup and no tree-listing request. *)
Theorem getFileTree_cache_ttl
    (env : Environment) (owner repo : string) (branch token : option string)
    (w0 : World) (files : list FileEntry) (w1 : World) :
  GithubService.getFileTree env owner repo branch token w0 = (Returned files, w1) ->
  exists timestamp,
    fileTreeCache w1 !! GithubService.cacheKey owner repo branch = Some (files, timestamp)
    /\ forall w2,
         fileTreeCache w2 !! GithubService.cacheKey owner repo branch
           = Some (files, timestamp) ->
         (now w2 - timestamp < GithubService.CACHE_TTL ->
          GithubService.getFileTree env owner repo branch token w2 = (Returned files, w2))
         /\ (GithubService.CACHE_TTL <= now w2 - timestamp ->
             (truthy_string branch = true
              \/ exists info w', GithubService.validateRepo env owner repo token w2
                                 = (Returned info, w')) ->
             exists r w3 before target,
               GithubService.getFileTree env owner repo branch token w2 = (r, w3)
               /\ calls w3 =
                    (calls w2 ++ before
                     ++ [GitGetTree (GithubService.createOctokit env token)
                                    owner repo target])%list
               /\ tree_listings
                    (before ++ [GitGetTree (GithubService.createOctokit env token)
                                           owner repo target]) = 1%nat
               /\ match git_getTree env (calls w2 ++ before)
                          (GithubService.createOctokit env token) owner repo target with
                  | inr tree =>
                      r = Returned (GithubService.tree_files tree)
                      /\ fileTreeCache w3 !! GithubService.cacheKey owner repo branch
                         = Some (GithubService.tree_files tree, now w3)
                  | inl _ => exists error, r = Thrown error
                  end)
         /\ (GithubService.CACHE_TTL <= now w2 - timestamp ->
             truthy_string branch = false ->
             forall e w',
               GithubService.validateRepo env owner repo token w2 = (Thrown e, w') ->
               exists error,
                 GithubService.getFileTree env owner repo branch token w2 = (Thrown error, w')
                 /\ calls w' = (calls w2 ++ [ReposGet (GithubService.createOctokit env token)
                                                      owner repo])%list).
Proof.
  intros Hfirst.
  destruct (getFileTree_caches env owner repo branch token w0 files w1 Hfirst)
    as [timestamp Hentry].
  exists timestamp. split; [exact Hentry |]. intros w2 Hentry2. split; [| split].
  - intros Hyoung. now apply getFileTree_hit with (timestamp := timestamp).
  - intros Hold Hbranch.
    rewrite getFileTree_stale by (unfold stale; rewrite Hentry2; exact Hold).
    destruct (truthy_string branch) eqn:Hnamed.
    + destruct (fetchFileTree_named_branch env owner repo branch token w2 Hnamed)
        as (r & w3 & Hrun & Hcalls & Hanswer).
      exists r, w3, [], (default "" branch). rewrite app_nil_r.
      repeat split; assumption.
    + destruct Hbranch as [Habsurd | (info & w' & Hlookup)]; [discriminate Habsurd |].
      destruct (fetchFileTree_default_branch env owner repo branch token w2 info w'
                  Hnamed Hlookup)
        as (r & w3 & Hrun & Hcalls & Hanswer).
      exists r, w3, [ReposGet (GithubService.createOctokit env token) owner repo],
        (defaultBranch info).
      repeat split; assumption.
  - intros Hold Hdefault e w' Hlookup.
    rewrite getFileTree_stale by (unfold stale; rewrite Hentry2; exact Hold).
    now apply fetchFileTree_lookup_fails with (e := e).
Qed.

(** [acme/shop] listed once, then again one minute and six minutes
    later: the first of these is served from the cache, the second
    fetches the tree anew with one listing request. *)
Lemma getFileTree_cache_ttl_sample :
  GithubService.getFileTree Samples.shop "acme" "shop" None None
    (later 60000 SampleRuns.listed)
  = (Returned SampleRuns.shop_files, later 60000 SampleRuns.listed)
  /\ exists r w3 before target,
       GithubService.getFileTree Samples.shop "acme" "shop" None None
         (later 360000 SampleRuns.listed) = (r, w3)
       /\ calls w3 = (calls (later 360000 SampleRuns.listed) ++ before
                      ++ [GitGetTree None "acme" "shop" target])%list
       /\ tree_listings (before ++ [GitGetTree None "acme" "shop" target]) = 1%nat
       /\ r = Returned SampleRuns.shop_files.
Proof.
  destruct (getFileTree_cache_ttl Samples.shop "acme" "shop" None None Samples.fresh
              SampleRuns.shop_files SampleRuns.listed)
    as (timestamp & Hentry & Hsecond); [vm_compute; reflexivity |].
  vm_compute in Hentry. injection Hentry as <-.
  split.
  - apply (Hsecond (later 60000 SampleRuns.listed)); vm_compute; reflexivity.
  - destruct (proj1 (proj2 (Hsecond (later 360000 SampleRuns.listed)
                              ltac:(vm_compute; reflexivity))))
      as (r & w3 & before & target & Hrun & Hcalls & Hone & Hanswer).
    + vm_compute. discriminate.
    + right. do 2 eexists. vm_compute. reflexivity.
    + exists r, w3, before, target. repeat split; try assumption.
      change (git_getTree Samples.shop (calls (later 360000 SampleRuns.listed) ++ before)
                (GithubService.createOctokit Samples.shop None) "acme" "shop" target)
        with (@inr JsError _ Samples.shop_tree) in Hanswer.
      destruct Hanswer as [-> _]. vm_compute. reflexivity.
Defined.

(** ** The order of a tier's events *)

Lemma climbs_bounds (lo hi : nat) (events : list SSEEvent) :
  climbs lo hi events = true -> (lo <= hi)%nat.
Proof.
  revert lo. induction events as [| e events IH]; intros lo; cbn.
  - intros H. now apply Nat.leb_le in H.
  - intros H. apply andb_prop in H as [Hlo Hrest]. apply Nat.leb_le in Hlo.
    specialize (IH _ Hrest). lia.
Qed.

Lemma climbs_weaken (lo lo' hi hi' : nat) (events : list SSEEvent) :
  (lo' <= lo)%nat -> (hi <= hi')%nat ->
  climbs lo hi events = true -> climbs lo' hi' events = true.
Proof.
  revert lo lo'. induction events as [| e events IH]; intros lo lo' Hlo Hhi; cbn.
  - intros H. apply Nat.leb_le in H. apply Nat.leb_le. lia.
  - intros H. apply andb_prop in H as [Hfirst Hrest]. apply Nat.leb_le in Hfirst.
    apply andb_true_intro. split; [apply Nat.leb_le; lia |].
    now apply (IH (stage e) (stage e)).
Qed.

Lemma climbs_app (lo mid hi : nat) (events1 events2 : list SSEEvent) :
  climbs lo mid events1 = true -> climbs mid hi events2 = true ->
  climbs lo hi (events1 ++ events2) = true.
Proof.
  revert lo. induction events1 as [| e events1 IH]; intros lo; cbn.
  - intros H1 H2. apply Nat.leb_le in H1. now apply (climbs_weaken mid lo hi hi).
  - intros H1 H2. apply andb_prop in H1 as [Hfirst Hrest].
    rewrite Hfirst. cbn. now apply IH.
Qed.

Lemma climbs_level (s : nat) (okEvent : SSEEvent -> bool) (events : list SSEEvent) :
  (forall e, okEvent e = true -> stage e = s) ->
  forallb okEvent events = true -> climbs s s events = true.
Proof.
  intros Hstage. induction events as [| e events IH]; cbn.
  - intros _. apply Nat.leb_refl.
  - intros H. apply andb_prop in H as [He Hrest]. rewrite (Hstage e He).
    rewrite Nat.leb_refl. cbn. now apply IH.
Qed.

Lemma climbs_lower_bound (lo hi : nat) (events : list SSEEvent) (i : nat) (e : SSEEvent) :
  climbs lo hi events = true -> events !! i = Some e -> (lo <= stage e)%nat.
Proof.
  revert lo i. induction events as [| e' events IH]; intros lo i Hclimbs Hi.
  - discriminate Hi.
  - cbn in Hclimbs. apply andb_prop in Hclimbs as [Hfirst Hrest].
    apply Nat.leb_le in Hfirst. destruct i as [| i]; cbn in Hi.
    + injection Hi as <-. exact Hfirst.
    + specialize (IH _ _ Hrest Hi). lia.
Qed.

(** In a list whose stages climb, an event of a lower stage comes before
    any event of a higher stage. *)
Lemma climbs_ordered (lo hi : nat) (events : list SSEEvent) (i j : nat) (ei ej : SSEEvent) :
  climbs lo hi events = true ->
  events !! i = Some ei -> events !! j = Some ej ->
  (stage ei < stage ej)%nat -> (i < j)%nat.
Proof.
  revert lo i j. induction events as [| e events IH]; intros lo i j Hclimbs Hi Hj Hstage.
  - discriminate Hi.
  - cbn in Hclimbs. apply andb_prop in Hclimbs as [_ Hrest].
    destruct i as [| i], j as [| j]; cbn in Hi, Hj.
    + injection Hi as <-. injection Hj as <-. lia.
    + lia.
    + injection Hj as <-. pose proof (climbs_lower_bound _ _ _ _ _ Hrest Hi). lia.
    + apply -> Nat.succ_lt_mono. now apply (IH (stage e) i j).
Qed.

Lemma reaches_refl (s : nat) (w : World) : reaches s s w w.
Proof. exists []. split; [now rewrite app_nil_r | apply Nat.leb_refl]. Qed.

Lemma reaches_trans (lo mid hi : nat) (w1 w2 w3 : World) :
  reaches lo mid w1 w2 -> reaches mid hi w2 w3 -> reaches lo hi w1 w3.
Proof.
  intros (events1 & Hw1 & Hc1) (events2 & Hw2 & Hc2).
  exists (events1 ++ events2)%list. split.
  - now rewrite Hw2, Hw1, <- app_assoc.
  - now apply climbs_app with (mid := mid).
Qed.

Lemma reaches_weaken (lo lo' hi hi' : nat) (w w' : World) :
  (lo' <= lo)%nat -> (hi <= hi')%nat -> reaches lo hi w w' -> reaches lo' hi' w w'.
Proof.
  intros Hlo Hhi (events & Hw & Hc). exists events. split; [exact Hw |].
  now apply (climbs_weaken lo lo' hi hi').
Qed.

Lemma advances_reaches (s : nat) okCall (okEvent : SSEEvent -> bool) (w w' : World) :
  (forall e, okEvent e = true -> stage e = s) ->
  advances okCall okEvent w w' -> reaches s s w w'.
Proof.
  intros Hstage (_ & (events & Hw & Hok) & _). exists events. split; [exact Hw |].
  now apply climbs_level with (okEvent := okEvent).
Qed.

Lemma fetch_phase_event_stage (e : SSEEvent) : fetch_phase_event e = true -> stage e = 0%nat.
Proof. destruct e; cbn; intros H; try discriminate H; reflexivity. Qed.

Lemma is_issue_stage (e : SSEEvent) : is_issue e = true -> stage e = 1%nat.
Proof. destruct e; cbn; intros H; try discriminate H; reflexivity. Qed.

Lemma no_event_stage (s : nat) (e : SSEEvent) : no_event e = true -> stage e = s.
Proof. intros H. discriminate H. Qed.

Lemma sendSSE_run (event : SSEEvent) (w : World) :
  AnalysisService.sendSSE event w = (Returned tt, send event w).
Proof.
  unfold AnalysisService.sendSSE, send, bind, res_writableEnded.
  now destruct (writableEnded w).
Qed.

Lemma reaches_send (event : SSEEvent) (w : World) :
  reaches (stage event) (stage event) w (send event w).
Proof.
  unfold send. destruct (writableEnded w); [apply reaches_refl |].
  exists [event]. split; [reflexivity |]. cbn. now rewrite !Nat.leb_refl.
Qed.

Lemma reaches_ended (s : nat) (w : World) : reaches s s w (ended w).
Proof. exists []. split; [cbn; now rewrite app_nil_r | apply Nat.leb_refl]. Qed.

Lemma reaches_then_send (lo mid hi : nat) (event : SSEEvent) (w0 w : World) :
  reaches lo mid w0 w -> (mid <= stage event)%nat -> (stage event <= hi)%nat ->
  reaches lo hi w0 (send event w).
Proof.
  intros Hreach Hmid Hhi. apply reaches_trans with (mid := mid) (w2 := w); [exact Hreach |].
  apply (reaches_weaken (stage event) mid (stage event) hi); [exact Hmid | exact Hhi |].
  apply reaches_send.
Qed.

Lemma reaches_then_ended (lo hi : nat) (w0 w : World) :
  reaches lo hi w0 w -> reaches lo hi w0 (ended w).
Proof.
  intros Hreach. apply reaches_trans with (mid := hi) (w2 := w); [exact Hreach |].
  apply reaches_ended.
Qed.

Section TierOrder.

Variable env : Environment.

Lemma keeps_reaches_of_frame {A} (s : nat) okCall (okEvent : SSEEvent -> bool) (m : M A) :
  (forall e, okEvent e = true -> stage e = s) ->
  keeps (advances okCall okEvent) m -> keeps (reaches s s) m.
Proof.
  intros Hstage Hm w r w' Hrun. apply (advances_reaches s okCall okEvent); [exact Hstage |].
  now apply (Hm w r w').
Qed.

Lemma streamAnalysis_written (files : list FileContent) (apiKey : string)
    (priority : PriorityLevel) (w : World) (result : list StreamEvent * option JsError)
    (w1 : World) :
  DeepseekService.streamAnalysis env files apiKey priority w = (result, w1) ->
  written w1 = written w.
Proof.
  unfold DeepseekService.streamAnalysis, DeepseekService.fetch_chat.
  destruct (chat_completions env _ _ _ _ _) as [e | status errorText | | chunks [e |]].
  - now intros [= _ <-].
  - destruct (bool_decide (status = 401)); [now intros [= _ <-] |].
    destruct (bool_decide (status = 429)); now intros [= _ <-].
  - now intros [= _ <-].
  - now intros [= _ <-].
  - now intros [= _ <-].
Qed.

Lemma keeps_sendSSE (event : SSEEvent) :
  keeps (reaches (stage event) (stage event)) (AnalysisService.sendSSE event).
Proof. intros w r w' H. rewrite sendSSE_run in H. injection H as _ <-. apply reaches_send. Qed.

Lemma keeps_on_stream_event (state : Z * Z * list AnalysisIssue) (event : StreamEvent) :
  keeps (reaches 1 1) (AnalysisService.on_stream_event state event).
Proof.
  destruct event as [content | issues inputTokens outputTokens cost]; cbn.
  - apply keeps_ret, reaches_refl.
  - apply keeps_bind; [apply reaches_trans | | intros _; apply keeps_ret, reaches_refl].
    apply keeps_for_each; [apply reaches_refl | apply reaches_trans |].
    intros issue. apply (keeps_sendSSE (IssueEvent issue)).
Qed.

(** The fetched marks, the status and the findings: stages 0 then 1. *)
Lemma analyze_with_ai_reaches (apiKey : string) (priority : PriorityLevel)
    (files : list FileContent) :
  keeps (reaches 0 1) (AnalysisService.analyze_with_ai env apiKey priority files).
Proof.
  intros w r w' H. unfold AnalysisService.analyze_with_ai in H.
  apply bind_inv in H as [(u & wa & Hmarks & H) | (e & Hmarks & _)].
  2:{ apply (reaches_weaken 0 0 0 1); [lia | lia |].
      revert Hmarks. apply keeps_for_each; [apply reaches_refl | apply reaches_trans |].
      intros file. apply (keeps_sendSSE (FileEvent (fc_path file) priority complete)). }
  assert (Hreach_a : reaches 0 0 w wa).
  { revert Hmarks. apply keeps_for_each; [apply reaches_refl | apply reaches_trans |].
    intros file. apply (keeps_sendSSE (FileEvent (fc_path file) priority complete)). }
  unfold AnalysisService.sendStatus in H.
  erewrite bind_returned in H by apply sendSSE_run.
  apply reaches_trans with (mid := 0%nat) (w2 := send (analysing_status files) wa).
  { apply (reaches_then_send 0 0 0); [exact Hreach_a | cbn; lia | cbn; lia]. }
  unfold for_await in H.
  destruct (DeepseekService.streamAnalysis env files apiKey priority _)
    as [[events failure] w1] eqn:Hstream.
  apply streamAnalysis_written in Hstream.
  destruct (for_each_with events AnalysisService.on_stream_event (0, 0, []) w1)
    as [loop w2] eqn:Hloop.
  assert (Hreach_loop : reaches 1 1 w1 w2).
  { revert Hloop. apply keeps_for_each_with; [apply reaches_refl | apply reaches_trans |].
    intros state event. apply keeps_on_stream_event. }
  assert (w' = w2) as -> by (destruct loop, failure; now injection H as _ <-).
  destruct Hreach_loop as (issues & Hwritten & Hclimbs).
  exists issues. split; [now rewrite Hwritten, Hstream |].
  apply (climbs_weaken 1 0 1 1); [lia | lia | exact Hclimbs].
Qed.

(** The run on fetched files: the stages climb from 0 to 2, and stay
    below 2 when it throws. *)
Lemma analyze_files_reaches (owner repo apiKey : string) (priority : PriorityLevel)
    (githubToken : option string) (files : list FileContent)
    (w : World) (r : outcome unit) (w' : World) :
  AnalysisService.analyze_files env owner repo apiKey priority githubToken files w = (r, w') ->
  match r with
  | Returned _ => reaches 0 2 w w'
  | Thrown _ => reaches 0 1 w w'
  end.
Proof.
  intros H. unfold AnalysisService.analyze_files in H.
  apply bind_inv in H as [([[inputTokens outputTokens] issues] & wa & Hanalysis & H)
                         | (e & Hanalysis & ->)].
  2:{ now apply analyze_with_ai_reaches in Hanalysis. }
  apply analyze_with_ai_reaches in Hanalysis.
  apply bind_inv in H as [(estimate & wb & Hnext & H) | (e & Hnext & ->)].
  2:{ apply reaches_trans with (mid := 1%nat) (w2 := wa); [exact Hanalysis |].
      revert Hnext. apply (keeps_reaches_of_frame 1 not_ai_call no_event);
        [apply no_event_stage | apply frame_estimate_next]. }
  assert (Hreach_b : reaches 0 1 w wb).
  { apply reaches_trans with (mid := 1%nat) (w2 := wa); [exact Hanalysis |].
    revert Hnext. apply (keeps_reaches_of_frame 1 not_ai_call no_event);
      [apply no_event_stage | apply frame_estimate_next]. }
  unfold AnalysisService.sendComplete in H. rewrite sendSSE_run in H.
  injection H as <- <-.
  apply (reaches_then_send 0 1 2); [exact Hreach_b | cbn; lia | cbn; lia].
Qed.

Lemma try_block_reaches (repoUrl apiKey : string) (priority : PriorityLevel)
    (githubToken : option string) (w : World) (r : outcome unit) (w' : World) :
  AnalysisService.try_block env repoUrl apiKey priority githubToken w = (r, w') ->
  match r with
  | Returned _ => reaches 0 2 w w'
  | Thrown _ => reaches 0 1 w w'
  end.
Proof.
  intros H. unfold AnalysisService.try_block in H.
  destruct (GithubService.parseGitHubUrl repoUrl) as [[owner repo] |].
  2:{ unfold AnalysisService.sendError in H.
      erewrite bind_returned in H by apply sendSSE_run. injection H as <- <-.
      apply reaches_then_ended, (reaches_then_send 0 0 2);
        [apply reaches_refl | cbn; lia | cbn; lia]. }
  unfold AnalysisService.sendStatus in H at 1.
  erewrite bind_returned in H by apply sendSSE_run.
  set (wa := send (StatusEvent "Validating repository..." 0 0 None) w) in *.
  assert (Hwa : reaches 0 0 w wa)
    by (apply (reaches_then_send 0 0 0); [apply reaches_refl | cbn; lia | cbn; lia]).
  destruct (GithubService.validateRepo env owner repo githubToken wa)
    as [[repoInfo | e] wb] eqn:Hvalidate.
  - (* the repository is validated *)
    assert (Hwb : reaches 0 0 w wb).
    { apply reaches_trans with (mid := 0%nat) (w2 := wa); [exact Hwa |].
      revert Hvalidate. apply (keeps_reaches_of_frame 0 not_ai_call fetch_phase_event);
        [apply fetch_phase_event_stage | apply frame_validateRepo]. }
    erewrite bind_returned in H.
    2:{ unfold try_catch. erewrite bind_returned by exact Hvalidate. reflexivity. }
    cbn iota in H.
    destruct (isPrivate repoInfo && negb (truthy_string githubToken)).
    { unfold AnalysisService.sendError in H.
      erewrite bind_returned in H by apply sendSSE_run. injection H as <- <-.
      apply reaches_then_ended, (reaches_then_send 0 0 2); [exact Hwb | cbn; lia | cbn; lia]. }
    unfold AnalysisService.sendStatus in H at 1.
    erewrite bind_returned in H by apply sendSSE_run.
    match type of H with
    | bind _ _ (send ?ev wb) = _ => set (wc := send ev wb) in *
    end.
    assert (Hwc : reaches 0 0 w wc)
      by (apply (reaches_then_send 0 0 0); [exact Hwb | cbn; lia | cbn; lia]).
    apply bind_inv in H as [([files totalMatching] & wd & Hfetch & H) | (e & Hfetch & ->)].
    2:{ apply (reaches_weaken 0 0 0 1); [lia | lia |].
        apply reaches_trans with (mid := 0%nat) (w2 := wc); [exact Hwc |].
        revert Hfetch. apply (keeps_reaches_of_frame 0 not_ai_call fetch_phase_event);
          [apply fetch_phase_event_stage |].
        apply frame_getFilesForPriority, callback_keeps_report_progress. }
    assert (Hwd : reaches 0 0 w wd).
    { apply reaches_trans with (mid := 0%nat) (w2 := wc); [exact Hwc |].
      revert Hfetch. apply (keeps_reaches_of_frame 0 not_ai_call fetch_phase_event);
        [apply fetch_phase_event_stage |].
      apply frame_getFilesForPriority, callback_keeps_report_progress. }
    destruct files as [| file files].
    + unfold AnalysisService.sendStatus, AnalysisService.sendComplete in H.
      erewrite bind_returned in H by apply sendSSE_run.
      erewrite bind_returned in H by apply sendSSE_run.
      injection H as <- <-.
      apply reaches_then_ended, (reaches_then_send 0 0 2); [| cbn; lia | cbn; lia].
      apply (reaches_then_send 0 0 0); [exact Hwd | cbn; lia | cbn; lia].
    + apply analyze_files_reaches in H.
      destruct r; [apply reaches_trans with (mid := 0%nat) (w2 := wd); assumption |].
      apply reaches_trans with (mid := 0%nat) (w2 := wd); assumption.
  - (* validation fails: the inner catch reports it and the run returns *)
    assert (Hwb : reaches 0 0 w wb).
    { apply reaches_trans with (mid := 0%nat) (w2 := wa); [exact Hwa |].
      revert Hvalidate. apply (keeps_reaches_of_frame 0 not_ai_call fetch_phase_event);
        [apply fetch_phase_event_stage | apply frame_validateRepo]. }
    erewrite bind_returned in H.
    2:{ unfold try_catch. erewrite bind_thrown by exact Hvalidate.
        unfold AnalysisService.sendError. erewrite bind_returned by apply sendSSE_run.
        reflexivity. }
    injection H as <- <-.
    apply reaches_then_ended, (reaches_then_send 0 0 2); [exact Hwb | cbn; lia | cbn; lia].
Qed.

End TierOrder.

Lemma analyzeRepository_reaches (env : Environment) (repoUrl apiKey : string)
    (priority : PriorityLevel) (githubToken : option string)
    (w0 : World) (r : outcome unit) (w' : World) :
  AnalysisService.analyzeRepository env repoUrl apiKey priority githubToken w0 = (r, w') ->
  reaches 0 2 w0 w'.
Proof.
  intros H. unfold AnalysisService.analyzeRepository, try_finally in H.
  destruct (try_catch _ _ w0) as [r1 w1] eqn:Htry. cbn in H. injection H as _ <-.
  apply reaches_then_ended.
  apply try_catch_inv in Htry as [(u & Hblock & _) | (e & wb & Hblock & Hreport)].
  - now apply try_block_reaches in Hblock.
  - apply try_block_reaches in Hblock. cbn in Hblock.
    unfold AnalysisService.report_failure, AnalysisService.sendError in Hreport.
    destruct (JsString.includes (message e) "API key");
      [| destruct (JsString.includes (message e) "rate limit")];
      rewrite sendSSE_run in Hreport; injection Hreport as _ <-;
      apply (reaches_then_send 0 1 2); try exact Hblock; cbn; lia.
Qed.

(** C8. In the events a run of [analyzeRepository] writes, every status
    and file event comes before every issue event, and every issue event
    comes before the complete event. *)
Theorem tier_events_in_order
    (env : Environment) (repoUrl apiKey : string) (priority : PriorityLevel)
    (githubToken : option string) (w0 : World) (r : outcome unit) (w' : World) :
  AnalysisService.analyzeRepository env repoUrl apiKey priority githubToken w0 = (r, w') ->
  exists events,
    written w' = (written w0 ++ events)%list
    /\ forall (i j : nat) (ei ej : SSEEvent),
         events !! i = Some ei -> events !! j = Some ej ->
         (is_status ei || is_file ei = true -> is_issue ej = true -> (i < j)%nat)
         /\ (is_issue ei = true -> is_complete ej = true -> (i < j)%nat).
Proof.
  intros Hrun. destruct (analyzeRepository_reaches _ _ _ _ _ _ _ _ Hrun)
    as (events & Hwritten & Hclimbs).
  exists events. split; [exact Hwritten |].
  intros i j ei ej Hi Hj. split; intros Hei Hej;
    apply (climbs_ordered 0 2 events i j ei ej Hclimbs Hi Hj).
  - rewrite (fetch_phase_event_stage ei Hei), (is_issue_stage ej Hej). lia.
  - rewrite (is_issue_stage ei Hei). destruct ej; try discriminate Hej. cbn. lia.
Qed.

(** The tier-1 run on [acme/shop]: six fetch-phase events, one finding,
    the completion. *)
Lemma tier_events_in_order_sample :
  exists events,
    written (snd (AnalysisService.analyzeRepository Samples.shop Samples.shop_url
                    "sk-sample" P1 None Samples.fresh))
    = (written Samples.fresh ++ events)%list
    /\ map stage events = [0; 0; 0; 0; 0; 0; 1; 2]%nat
    /\ forall (i j : nat) (ei ej : SSEEvent),
         events !! i = Some ei -> events !! j = Some ej ->
         (is_status ei || is_file ei = true -> is_issue ej = true -> (i < j)%nat)
         /\ (is_issue ei = true -> is_complete ej = true -> (i < j)%nat).
Proof.
  destruct (tier_events_in_order Samples.shop Samples.shop_url "sk-sample" P1 None
              Samples.fresh
              (fst (AnalysisService.analyzeRepository Samples.shop Samples.shop_url
                      "sk-sample" P1 None Samples.fresh))
              (snd (AnalysisService.analyzeRepository Samples.shop Samples.shop_url
                      "sk-sample" P1 None Samples.fresh))
              (surjective_pairing _))
    as (events & Hwritten & Hordered).
  exists events. split; [exact Hwritten |]. split; [| exact Hordered].
  cbn [Samples.fresh written app] in Hwritten. rewrite <- Hwritten.
  vm_compute. reflexivity.
Defined.

(** ** The stand-alone estimate *)

Section ListingOnly.

Variable env : Environment.

Lemma listing_request {R} (c : NetCall) (answer : list NetCall -> JsError + R) :
  is_content_request c = false ->
  keeps (advances not_content_request no_event) (GithubService.octokit_request env c answer).
Proof.
  intros Hc w r w' H. rewrite octokit_request_run in H. injection H as _ <-.
  apply advances_after_request. unfold not_content_request. now rewrite Hc.
Qed.

Lemma listing_validateRepo (owner repo : string) (token : option string) :
  keeps (advances not_content_request no_event)
        (GithubService.validateRepo env owner repo token).
Proof.
  unfold GithubService.validateRepo, GithubService.octokit_repos_get.
  repeat ((apply listing_request; reflexivity) || frame_step).
Qed.

Lemma listing_getFileTree (owner repo : string) (branch token : option string) :
  keeps (advances not_content_request no_event)
        (GithubService.getFileTree env owner repo branch token).
Proof.
  unfold GithubService.getFileTree, GithubService.fetchFileTree,
    GithubService.octokit_git_getTree.
  repeat (apply listing_validateRepo || (apply listing_request; reflexivity) || frame_step).
Qed.

(** [getEstimate] computes the estimates of all tiers without a single
    content request and without writing an event. *)
Lemma getEstimate_lists_only (repoUrl : string) (githubToken : option string) :
  keeps (advances not_content_request no_event)
        (AnalysisService.getEstimate env repoUrl githubToken).
Proof.
  unfold AnalysisService.getEstimate, GithubService.getCategorizedFileCounts.
  repeat (apply listing_validateRepo || apply listing_getFileTree || frame_step).
Qed.

End ListingOnly.

(** ** Failures while the repository is validated *)

(** Whatever makes [validateRepo] throw, the rate limit of the hosting
    provider included, is reported by the inner [catch] with code
    [REPO_NOT_FOUND] and [retryable = false]. *)
Lemma validation_failure_report (env : Environment) (repoUrl apiKey : string)
    (priority : PriorityLevel) (githubToken : option string) (w0 : World)
    (owner repo : string) (e : JsError) (w1 : World) :
  response_open w0 ->
  GithubService.parseGitHubUrl repoUrl = Some (owner, repo) ->
  GithubService.validateRepo env owner repo githubToken
    (emit (StatusEvent "Validating repository..." 0 0 None) w0) = (Thrown e, w1) ->
  exists w',
    AnalysisService.analyzeRepository env repoUrl apiKey priority githubToken w0
      = (Returned tt, w')
    /\ written w' = (written w0
                     ++ [ StatusEvent "Validating repository..." 0 0 None;
                          ErrorEvent (message e) "REPO_NOT_FOUND" false ])%list.
Proof.
  intros Hopen Hurl Hvalidate.
  assert (Hopen1 : response_open w1).
  { unfold response_open.
    destruct (frame_validateRepo env no_event owner repo githubToken _ _ _ Hvalidate)
      as (_ & (events & Hwritten & Hnone) & Hended). rewrite Hended. exact Hopen. }
  assert (Hwritten1 : written w1 = (written w0 ++ [StatusEvent "Validating repository..." 0 0 None])%list).
  { destruct (frame_validateRepo env no_event owner repo githubToken _ _ _ Hvalidate)
      as (_ & (events & Hwritten & Hnone) & _).
    apply no_event_nil in Hnone. subst events. now rewrite app_nil_r in Hwritten. }
  unfold AnalysisService.analyzeRepository, try_finally, try_catch at 1.
  unfold AnalysisService.try_block. rewrite Hurl.
  unfold AnalysisService.sendStatus.
  erewrite bind_returned by (apply sendSSE_open; exact Hopen).
  erewrite bind_returned.
  2:{ unfold try_catch. erewrite bind_thrown by exact Hvalidate.
      unfold AnalysisService.sendError.
      erewrite bind_returned by (apply sendSSE_open; exact Hopen1). reflexivity. }
  cbn. eexists. split; [reflexivity |]. cbn. rewrite Hwritten1, <- app_assoc. reflexivity.
Qed.

(** ** Two runs that depart from the specification *)

(** C3 (the code departs from the claim). A run that meets the hosting
    provider's rate limit while it validates the repository reports it
    with code [REPO_NOT_FOUND] and [retryable = false]; the same rate
    limit met one request later, while the file tree is listed, is
    reported with code [RATE_LIMITED] and [retryable = true]. *)
Theorem rate_limit_while_validating_is_not_retryable :
  written (snd (AnalysisService.analyzeRepository Samples.throttled Samples.shop_url
                  "sk-sample" P1 None Samples.fresh))
  = [ StatusEvent "Validating repository..." 0 0 None;
      ErrorEvent "GitHub API rate limit exceeded. Try again later or add a GITHUB_TOKEN."
                 "REPO_NOT_FOUND" false ]
  /\ written (snd (AnalysisService.analyzeRepository Samples.throttled_later Samples.shop_url
                     "sk-sample" P1 None Samples.fresh))
     = [ StatusEvent "Validating repository..." 0 0 None;
         StatusEvent "Scanning Security & Secrets files..." 0 0 None;
         ErrorEvent ("Failed to get file tree: GitHub API rate limit exceeded. "
                     +:+ "Try again later or add a GITHUB_TOKEN.")
                    "RATE_LIMITED" true ].
Proof. split; vm_compute; reflexivity. Qed.

(** C2 (the code departs from the claim). In the tier-1 run on
    [acme/shop] the requests that follow the AI call, issued to compute
    [nextPriorityEstimate], include a content request for the tier-2
    file; the stand-alone estimate of the same repository lists the tree
    and requests no content. *)
Theorem next_tier_estimate_requests_contents :
  calls (snd (AnalysisService.analyzeRepository Samples.shop Samples.shop_url
                "sk-sample" P1 None Samples.fresh))
  = [ ReposGet None "acme" "shop";
      ReposGet None "acme" "shop";
      GitGetTree None "acme" "shop" "main";
      ReposGetContent None "acme" "shop" ".env";
      analysis_request Samples.shop SampleRuns.tier1_files "sk-sample" P1;
      ReposGetContent None "acme" "shop" "src/services/cart.ts" ]
  /\ calls (snd (AnalysisService.getEstimate Samples.shop Samples.shop_url None
                   Samples.fresh))
     = [ ReposGet None "acme" "shop";
         ReposGet None "acme" "shop";
         GitGetTree None "acme" "shop" "main" ].
Proof. split; vm_compute; reflexivity. Qed.

(** * Further properties of the code *)

(** ** The classifier's bulk operations *)

Section CategorizeFacts.

Variable minimatch : string -> string -> bool.

Let tier (file : string) : option PriorityLevel := FileFilter.getFilePriority minimatch file.

(** The loop of [categorizeFiles] started from any [result]: each bucket
    grows by the files of its tier, in the order of [files]. *)
Lemma categorizeFiles_from (files : list string) (result : FileFilter.Categorized) :
  let step := fun (result : FileFilter.Categorized) (file : string) =>
    match FileFilter.getFilePriority minimatch file with
    | Some P1 => {| FileFilter.priority1 := FileFilter.priority1 result ++ [file];
                    FileFilter.priority2 := FileFilter.priority2 result;
                    FileFilter.priority3 := FileFilter.priority3 result;
                    FileFilter.ignored := FileFilter.ignored result |}
    | Some P2 => {| FileFilter.priority1 := FileFilter.priority1 result;
                    FileFilter.priority2 := FileFilter.priority2 result ++ [file];
                    FileFilter.priority3 := FileFilter.priority3 result;
                    FileFilter.ignored := FileFilter.ignored result |}
    | Some P3 => {| FileFilter.priority1 := FileFilter.priority1 result;
                    FileFilter.priority2 := FileFilter.priority2 result;
                    FileFilter.priority3 := FileFilter.priority3 result ++ [file];
                    FileFilter.ignored := FileFilter.ignored result |}
    | None => {| FileFilter.priority1 := FileFilter.priority1 result;
                 FileFilter.priority2 := FileFilter.priority2 result;
                 FileFilter.priority3 := FileFilter.priority3 result;
                 FileFilter.ignored := FileFilter.ignored result ++ [file] |}
    end%list in
  foldl step result files =
    {| FileFilter.priority1 :=
         (FileFilter.priority1 result ++ filter (fun file => tier file = Some P1) files)%list;
       FileFilter.priority2 :=
         (FileFilter.priority2 result ++ filter (fun file => tier file = Some P2) files)%list;
       FileFilter.priority3 :=
         (FileFilter.priority3 result ++ filter (fun file => tier file = Some P3) files)%list;
       FileFilter.ignored :=
         (FileFilter.ignored result ++ filter (fun file => tier file = None) files)%list |}.
Proof.
  cbv zeta. revert result. induction files as [| file files IH]; intros result.
  - cbn. rewrite !app_nil_r. now destruct result.
  - cbn [foldl]. rewrite IH. rewrite !filter_cons. unfold tier.
    destruct (FileFilter.getFilePriority minimatch file) as [[| |] |]; cbn;
      repeat case_decide; try discriminate; try congruence;
      rewrite <- ?app_assoc; reflexivity.
Qed.

Lemma categorizeFiles_filters (files : list string) :
  FileFilter.categorizeFiles minimatch files =
    {| FileFilter.priority1 := filter (fun file => tier file = Some P1) files;
       FileFilter.priority2 := filter (fun file => tier file = Some P2) files;
       FileFilter.priority3 := filter (fun file => tier file = Some P3) files;
       FileFilter.ignored := filter (fun file => tier file = None) files |}.
Proof.
  unfold FileFilter.categorizeFiles.
  exact (categorizeFiles_from files
           {| FileFilter.priority1 := []; FileFilter.priority2 := [];
              FileFilter.priority3 := []; FileFilter.ignored := [] |}).
Qed.

(** The four tiers partition any list of files. *)
Lemma tiers_partition (files : list string) :
  (length (filter (fun file => tier file = Some P1) files)
   + length (filter (fun file => tier file = Some P2) files)
   + length (filter (fun file => tier file = Some P3) files)
   + length (filter (fun file => tier file = None) files))%nat = length files.
Proof.
  induction files as [| file files IH]; [reflexivity |].
  rewrite !filter_cons. destruct (tier file) as [[| |] |];
    repeat case_decide; try discriminate; try congruence; cbn [length]; lia.
Qed.

(** The loop of [categorizeLazy] started from any [result]. *)
Lemma categorizeLazy_from (files : list string) (s1 s2 s3 : bool)
    (result : FileFilter.LazyCategorized) :
  let step := fun (result : FileFilter.LazyCategorized) (file : string) =>
    let priority := FileFilter.getFilePriority minimatch file in
    if bool_decide (priority = Some P1) && s1 then
      {| FileFilter.lazy_priority1 := FileFilter.push file (FileFilter.lazy_priority1 result);
         FileFilter.lazy_priority2 := FileFilter.lazy_priority2 result;
         FileFilter.lazy_priority3 := FileFilter.lazy_priority3 result;
         FileFilter.lazy_ignored := FileFilter.lazy_ignored result |}
    else if bool_decide (priority = Some P2) && s2 then
      {| FileFilter.lazy_priority1 := FileFilter.lazy_priority1 result;
         FileFilter.lazy_priority2 := FileFilter.push file (FileFilter.lazy_priority2 result);
         FileFilter.lazy_priority3 := FileFilter.lazy_priority3 result;
         FileFilter.lazy_ignored := FileFilter.lazy_ignored result |}
    else if bool_decide (priority = Some P3) && s3 then
      {| FileFilter.lazy_priority1 := FileFilter.lazy_priority1 result;
         FileFilter.lazy_priority2 := FileFilter.lazy_priority2 result;
         FileFilter.lazy_priority3 := FileFilter.push file (FileFilter.lazy_priority3 result);
         FileFilter.lazy_ignored := FileFilter.lazy_ignored result |}
    else result in
  let grown (requested : bool) (priority : PriorityLevel) (field : option (list string)) :=
    if requested
    then (fun l => (l ++ filter (fun file => tier file = Some priority) files)%list) <$> field
    else field in
  foldl step result files =
    {| FileFilter.lazy_priority1 := grown s1 P1 (FileFilter.lazy_priority1 result);
       FileFilter.lazy_priority2 := grown s2 P2 (FileFilter.lazy_priority2 result);
       FileFilter.lazy_priority3 := grown s3 P3 (FileFilter.lazy_priority3 result);
       FileFilter.lazy_ignored := FileFilter.lazy_ignored result |}.
Proof.
  cbv zeta. revert result. induction files as [| file files IH]; intros result.
  - cbn. destruct result as [[l1 |] [l2 |] [l3 |] ig], s1, s2, s3; cbn;
      rewrite ?app_nil_r; reflexivity.
  - cbn [foldl]. rewrite IH. rewrite !filter_cons. unfold tier, FileFilter.push.
    destruct (FileFilter.getFilePriority minimatch file) as [[| |] |];
      repeat case_decide; try discriminate; try congruence;
      destruct result as [[l1 |] [l2 |] [l3 |] ig], s1, s2, s3; cbn;
      rewrite <- ?app_assoc; reflexivity.
Qed.

End CategorizeFacts.

(** X1. [categorizeFiles] sorts the files into the four buckets without
    losing, duplicating or reordering any: each tier's bucket is what
    [filterFilesByPriority] returns for that tier, and [ignored] holds
    the files [getFilePriority] gives no tier, all in the order of the
    input. *)
Theorem categorizeFiles_buckets (minimatch : string -> string -> bool) (files : list string) :
  FileFilter.priority1 (FileFilter.categorizeFiles minimatch files)
    = FileFilter.filterFilesByPriority minimatch files P1
  /\ FileFilter.priority2 (FileFilter.categorizeFiles minimatch files)
     = FileFilter.filterFilesByPriority minimatch files P2
  /\ FileFilter.priority3 (FileFilter.categorizeFiles minimatch files)
     = FileFilter.filterFilesByPriority minimatch files P3
  /\ FileFilter.ignored (FileFilter.categorizeFiles minimatch files)
     = filter (fun file => FileFilter.getFilePriority minimatch file = None) files.
Proof.
  rewrite categorizeFiles_filters. unfold FileFilter.filterFilesByPriority. cbn.
  repeat split; reflexivity.
Qed.

(** X2. [categorizeLazy] gives, for every requested tier, the bucket
    [categorizeFiles] builds for it; a tier that was not requested is
    left unset, and the ignored files are never reported. *)
Theorem categorizeLazy_agrees_with_categorizeFiles
    (minimatch : string -> string -> bool) (files : list string)
    (priorities : list PriorityLevel) :
  FileFilter.lazy_priority1 (FileFilter.categorizeLazy minimatch files priorities)
    = (if bool_decide (P1 ∈ priorities)
       then Some (FileFilter.priority1 (FileFilter.categorizeFiles minimatch files))
       else None)
  /\ FileFilter.lazy_priority2 (FileFilter.categorizeLazy minimatch files priorities)
     = (if bool_decide (P2 ∈ priorities)
        then Some (FileFilter.priority2 (FileFilter.categorizeFiles minimatch files))
        else None)
  /\ FileFilter.lazy_priority3 (FileFilter.categorizeLazy minimatch files priorities)
     = (if bool_decide (P3 ∈ priorities)
        then Some (FileFilter.priority3 (FileFilter.categorizeFiles minimatch files))
        else None)
  /\ FileFilter.lazy_ignored (FileFilter.categorizeLazy minimatch files priorities) = None.
Proof.
  rewrite categorizeFiles_filters. unfold FileFilter.categorizeLazy.
  rewrite (categorizeLazy_from minimatch files). cbn.
  repeat split; destruct (bool_decide _); reflexivity.
Qed.

(** X3. The counts [getCategorizedFileCounts] returns add up: every
    file of the tree is counted in exactly one of the three tiers or as
    ignored. *)
Theorem getCategorizedFileCounts_add_up
    (env : Environment) (owner repo : string) (token : option string)
    (w : World) (counts : GithubService.FileCounts) (w' : World) :
  GithubService.getCategorizedFileCounts env owner repo token w = (Returned counts, w') ->
  GithubService.count_priority1 counts + GithubService.count_priority2 counts
  + GithubService.count_priority3 counts + GithubService.count_ignored counts
  = GithubService.count_total counts.
Proof.
  unfold GithubService.getCategorizedFileCounts. intros Hrun.
  apply bind_inv in Hrun as [(allFiles & w1 & _ & Hret) | (e & _ & Hthrown)];
    [| discriminate Hthrown].
  injection Hret as <- _. cbn.
  rewrite categorizeFiles_filters. cbn.
  pose proof (tiers_partition (minimatch env) (map fe_path allFiles)) as Hsum.
  rewrite length_map in Hsum. lia.
Qed.

(** The tree of [acme/shop]: one file in each tier and one image. *)
Lemma getCategorizedFileCounts_add_up_sample :
  GithubService.getCategorizedFileCounts Samples.shop "acme" "shop" None Samples.fresh
    = (Returned {| GithubService.count_priority1 := 1;
                   GithubService.count_priority2 := 1;
                   GithubService.count_priority3 := 1;
                   GithubService.count_ignored := 1;
                   GithubService.count_total := 4 |}, SampleRuns.listed)
  /\ 1 + 1 + 1 + 1 = 4.
Proof.
  assert (Hrun : GithubService.getCategorizedFileCounts Samples.shop "acme" "shop" None
                   Samples.fresh
                 = (Returned {| GithubService.count_priority1 := 1;
                                GithubService.count_priority2 := 1;
                                GithubService.count_priority3 := 1;
                                GithubService.count_ignored := 1;
                                GithubService.count_total := 4 |}, SampleRuns.listed))
    by (vm_compute; reflexivity).
  split; [exact Hrun |].
  exact (getCategorizedFileCounts_add_up Samples.shop "acme" "shop" None Samples.fresh _ _ Hrun).
Defined.

(** ** Token estimates *)

Lemma estimateTokens_ceiling (text : string) :
  TokenCounter.estimateTokens text = (Z.of_nat (String.length text) + 3) / 4.
Proof.
  unfold TokenCounter.estimateTokens, TokenCounter.CHARS_PER_TOKEN.
  case_bool_decide as Hempty; [subst text; reflexivity |].
  f_equal. lia.
Qed.

Lemma estimateTokensForFiles_from (contents : list string) (total : Z) :
  foldl (fun total content => total + TokenCounter.estimateTokens content) total contents
  = total + TokenCounter.estimateTokensForFiles contents.
Proof.
  unfold TokenCounter.estimateTokensForFiles. revert total.
  induction contents as [| content contents IH]; intros total; cbn [foldl].
  - lia.
  - rewrite IH, (IH (0 + _)). lia.
Qed.

Lemma length_append (a b : string) :
  String.length (a +:+ b) = (String.length a + String.length b)%nat.
Proof. induction a as [| c a IH]; simpl; [reflexivity | f_equal; exact IH]. Qed.

(** X4. Estimating file by file never gives less than estimating the
    files' texts joined together, and at most one token more per file:
    each file's length is rounded up to a whole token on its own. *)
Theorem estimateTokensForFiles_bounds (contents : list string) :
  TokenCounter.estimateTokens (String.concat "" contents)
    <= TokenCounter.estimateTokensForFiles contents
  /\ TokenCounter.estimateTokensForFiles contents
     <= TokenCounter.estimateTokens (String.concat "" contents) + Z.of_nat (length contents).
Proof.
  induction contents as [| content contents IH].
  - vm_compute. split; discriminate.
  - unfold TokenCounter.estimateTokensForFiles. cbn [foldl].
    rewrite estimateTokensForFiles_from.
    assert (Hjoin : String.length (String.concat "" (content :: contents))
                    = (String.length content + String.length (String.concat "" contents))%nat).
    { destruct contents as [| next contents]; cbn [String.concat].
      - cbn. lia.
      - rewrite !length_append. cbn. lia. }
    rewrite !estimateTokens_ceiling in *. rewrite Hjoin. cbn [length].
    set (a := Z.of_nat (String.length content)) in *.
    set (b := Z.of_nat (String.length (String.concat "" contents))) in *.
    rewrite Nat2Z.inj_add. fold a b.
    assert (Ha : 0 <= a) by (subst a; lia).
    assert (Hb : 0 <= b) by (subst b; lia).
    pose proof (Z.div_mod (a + 3) 4 ltac:(lia)).
    pose proof (Z.mod_pos_bound (a + 3) 4 ltac:(lia)).
    pose proof (Z.div_mod (b + 3) 4 ltac:(lia)).
    pose proof (Z.mod_pos_bound (b + 3) 4 ltac:(lia)).
    pose proof (Z.div_mod (a + b + 3) 4 ltac:(lia)).
    pose proof (Z.mod_pos_bound (a + b + 3) 4 ltac:(lia)).
    lia.
Qed.

(** ** GitHub URLs *)

Lemma chars_append (a b : string) :
  JsString.chars (a +:+ b) = (JsString.chars a ++ JsString.chars b)%list.
Proof.
  unfold JsString.chars. induction a as [| c a IH]; simpl; [reflexivity | f_equal; exact IH].
Qed.

Lemma of_chars_chars (s : string) : JsString.of_chars (JsString.chars s) = s.
Proof. apply string_of_list_ascii_of_string. Qed.

Lemma chars_of_chars (l : list ascii) : JsString.chars (JsString.of_chars l) = l.
Proof. apply list_ascii_of_string_of_list_ascii. Qed.

Lemma lacks_chars_app (c : ascii) (a b : list ascii) :
  lacks_chars c (a ++ b) = lacks_chars c a && lacks_chars c b.
Proof. apply forallb_app. Qed.

Lemma starts_with_app (p s : list ascii) : JsString.starts_with p (p ++ s) = true.
Proof.
  induction p as [| c p IH]; [reflexivity |]. cbn. now rewrite Ascii.eqb_refl.
Qed.

Lemma starts_with_length (p s : list ascii) :
  JsString.starts_with p s = true -> (length p <= length s)%nat.
Proof.
  revert s. induction p as [| c p IH]; intros [| d s] H; cbn in *; try lia; try discriminate.
  apply andb_prop in H as [_ H]. apply IH in H. lia.
Qed.

Lemma starts_with_lookup (p s : list ascii) (i : nat) (c : ascii) :
  JsString.starts_with p s = true -> p !! i = Some c -> s !! i = Some c.
Proof.
  revert s i. induction p as [| d p IH]; intros [| e s] i H Hi; cbn in *; try discriminate.
  apply andb_prop in H as [Heq H]. apply Ascii.eqb_eq in Heq as <-.
  destruct i as [| i]; [exact Hi | exact (IH s i H Hi)].
Qed.

Section SpanFacts.

Local Open Scope char_scope.

Lemma span_nonslash_app (a b : list ascii) :
  lacks_chars "/" a = true ->
  GithubService.span_nonslash (a ++ b) =
    ((a ++ fst (GithubService.span_nonslash b))%list, snd (GithubService.span_nonslash b)).
Proof.
  induction a as [| c a IH]; intros Ha.
  - cbn. now destruct (GithubService.span_nonslash b).
  - cbn in Ha. apply andb_prop in Ha as [Hc Ha]. apply negb_true_iff in Hc.
    cbn. rewrite Hc, (IH Ha). reflexivity.
Qed.

Lemma span_nonslash_cut (a b : list ascii) :
  lacks_chars "/" a = true ->
  GithubService.span_nonslash (a ++ "/" :: b) = (a, "/" :: b).
Proof.
  intros Ha. rewrite (span_nonslash_app _ _ Ha). cbn. now rewrite app_nil_r.
Qed.

Lemma span_nonslash_whole (a : list ascii) :
  lacks_chars "/" a = true -> GithubService.span_nonslash a = (a, []).
Proof.
  intros Ha. rewrite <- (app_nil_r a) at 1. rewrite (span_nonslash_app _ _ Ha). cbn.
  now rewrite app_nil_r.
Qed.

Lemma span_nonslash_spec (s : list ascii) :
  s = (fst (GithubService.span_nonslash s) ++ snd (GithubService.span_nonslash s))%list
  /\ lacks_chars "/" (fst (GithubService.span_nonslash s)) = true.
Proof.
  induction s as [| c s [IHs IHl]]; [split; reflexivity |].
  cbn. destruct (Ascii.eqb c "/") eqn:Hc; [split; reflexivity |].
  destruct (GithubService.span_nonslash s) as [run rest]. cbn in *.
  rewrite Hc, IHl. split; [now f_equal | reflexivity].
Qed.

Lemma before_char_app (sep : ascii) (r x : list ascii) :
  lacks_chars sep r = true ->
  JsString.before_char sep (r ++ x) = (r ++ JsString.before_char sep x)%list.
Proof.
  induction r as [| c r IH]; intros Hr; [reflexivity |].
  cbn in Hr. apply andb_prop in Hr as [Hc Hr]. apply negb_true_iff in Hc.
  cbn. rewrite Hc, (IH Hr). reflexivity.
Qed.

Lemma before_char_whole (sep : ascii) (r : list ascii) :
  lacks_chars sep r = true -> JsString.before_char sep r = r.
Proof.
  intros Hr. rewrite <- (app_nil_r r) at 1. rewrite (before_char_app _ _ _ Hr). cbn.
  apply app_nil_r.
Qed.

Lemma before_char_cut (sep : ascii) (r q : list ascii) :
  lacks_chars sep r = true -> JsString.before_char sep (r ++ sep :: q) = r.
Proof.
  intros Hr. rewrite (before_char_app _ _ _ Hr). cbn. rewrite Ascii.eqb_refl. apply app_nil_r.
Qed.

Lemma before_char_lacks (sep : ascii) (s : list ascii) :
  lacks_chars sep (JsString.before_char sep s) = true.
Proof.
  unfold lacks_chars. induction s as [| c s IH]; [reflexivity |]. cbn.
  destruct (Ascii.eqb c sep) eqn:Hc; [reflexivity |]. cbn. now rewrite Hc, IH.
Qed.

Lemma before_char_keeps (c sep : ascii) (s : list ascii) :
  lacks_chars c s = true -> lacks_chars c (JsString.before_char sep s) = true.
Proof.
  unfold lacks_chars. induction s as [| d s IH]; intros Hs; [reflexivity |].
  cbn in Hs. apply andb_prop in Hs as [Hd Hs]. cbn.
  destruct (Ascii.eqb d sep); [reflexivity |]. cbn. now rewrite Hd, (IH Hs).
Qed.

Lemma take_keeps (c : ascii) (n : nat) (s : list ascii) :
  lacks_chars c s = true -> lacks_chars c (take n s) = true.
Proof.
  unfold lacks_chars. revert n. induction s as [| d s IH]; intros [| n] Hs; try reflexivity.
  cbn in Hs. apply andb_prop in Hs as [Hd Hs]. cbn. now rewrite Hd, (IH n Hs).
Qed.

(** What is left of the repository segment once the three separators
    have cut it. *)
Lemma cleaned_segment (r q : list ascii) (sep : ascii) :
  lacks_chars "/" r = true -> lacks_chars "?" r = true -> lacks_chars "#" r = true ->
  sep = "/" \/ sep = "?" \/ sep = "#" ->
  JsString.before_char "#" (JsString.before_char "?" (JsString.before_char "/" (r ++ sep :: q)))
  = r.
Proof.
  intros Hslash Hquery Hhash [-> | [-> | ->]].
  - rewrite (before_char_cut _ _ _ Hslash), (before_char_whole _ _ Hquery).
    apply (before_char_whole _ _ Hhash).
  - rewrite (before_char_app _ _ _ Hslash). cbn [JsString.before_char].
    change (Ascii.eqb "?" "/") with false. cbv iota.
    rewrite (before_char_cut _ _ _ Hquery). apply (before_char_whole _ _ Hhash).
  - rewrite (before_char_app _ _ _ Hslash). cbn [JsString.before_char].
    change (Ascii.eqb "#" "/") with false. cbv iota.
    rewrite (before_char_app _ _ _ Hquery). cbn [JsString.before_char].
    change (Ascii.eqb "#" "?") with false. cbv iota.
    apply (before_char_cut _ _ _ Hhash).
Qed.

Lemma cleaned_whole (r : list ascii) :
  lacks_chars "/" r = true -> lacks_chars "?" r = true -> lacks_chars "#" r = true ->
  JsString.before_char "#" (JsString.before_char "?" (JsString.before_char "/" r)) = r.
Proof.
  intros Hslash Hquery Hhash.
  rewrite (before_char_whole _ _ Hslash), (before_char_whole _ _ Hquery).
  apply (before_char_whole _ _ Hhash).
Qed.

(** A [.git] suffix of a segment that holds a [?] or a [#] lies wholly
    behind that character. *)
Lemma git_suffix_behind (r q : list ascii) (sep : ascii) :
  sep = "?" \/ sep = "#" ->
  JsString.ends_with (JsString.chars ".git") (r ++ sep :: q) = true ->
  exists q', take (length (r ++ sep :: q) - 4) (r ++ sep :: q) = (r ++ sep :: q')%list.
Proof.
  intros Hsep Hends. unfold JsString.ends_with in Hends.
  rewrite rev_app_distr in Hends. cbn [rev] in Hends. rewrite <- app_assoc in Hends.
  cbn [app] in Hends.
  assert (Hlong : (4 <= length q)%nat).
  { destruct (le_lt_dec 4 (length q)) as [Hle | Hlt]; [exact Hle | exfalso].
    assert (Hat : (rev q ++ sep :: rev r)%list !! length (rev q) = Some sep).
    { rewrite lookup_app_r by lia. now rewrite Nat.sub_diag. }
    rewrite length_rev in Hat.
    assert (Hpat : exists c, rev (JsString.chars ".git") !! length q = Some c
                             /\ c <> "?" /\ c <> "#").
    { destruct (length q) as [| [| [| [| n]]]]; [| | | | lia];
        eexists; (split; [reflexivity | split; discriminate]). }
    destruct Hpat as (c & Hc & Hquery & Hhash).
    pose proof (starts_with_lookup _ _ _ _ Hends Hc) as Hsame.
    rewrite Hat in Hsame. injection Hsame as ->. destruct Hsep; contradiction. }
  exists (take (length q - 4) q).
  rewrite length_app. cbn [length].
  rewrite take_app_ge by lia. f_equal.
  replace (length r + S (length q) - 4 - length r)%nat with (S (length q - 4)) by lia.
  reflexivity.
Qed.

Lemma match_github_skip (p s : list ascii) :
  lacks_chars "g" p = true ->
  GithubService.match_github (p ++ s) = GithubService.match_github s.
Proof.
  induction p as [| c p IH]; intros Hp; [reflexivity |].
  cbn in Hp. apply andb_prop in Hp as [Hc Hp]. apply negb_true_iff in Hc.
  cbn [app GithubService.match_github].
  assert (Hat : GithubService.match_github_at (c :: p ++ s) = None).
  { unfold GithubService.match_github_at. cbn [JsString.chars list_ascii_of_string
      JsString.starts_with]. rewrite Ascii.eqb_sym, Hc. reflexivity. }
  rewrite Hat. exact (IH Hp).
Qed.

Lemma match_github_here (s : list ascii) (found : list ascii * list ascii) :
  GithubService.match_github_at s = Some found -> GithubService.match_github s = Some found.
Proof. intros Hat. destruct s; cbn [GithubService.match_github]; now rewrite Hat. Qed.

(** The match at the host name: the owner is the run up to the next
    slash, the repository segment the run after it. *)
Lemma match_github_at_host (o rest : list ascii) :
  o <> [] -> lacks_chars "/" o = true ->
  fst (GithubService.span_nonslash rest) <> [] ->
  GithubService.match_github_at (JsString.chars "github.com/" ++ o ++ "/" :: rest)
  = Some (o, fst (GithubService.span_nonslash rest)).
Proof.
  intros Ho Hslash Hseg. unfold GithubService.match_github_at.
  rewrite starts_with_app.
  change (drop 11 (JsString.chars "github.com/" ++ o ++ "/" :: rest)) with (o ++ "/" :: rest)%list.
  rewrite (span_nonslash_cut _ _ Hslash).
  destruct o as [| c o]; [contradiction |].
  destruct (GithubService.span_nonslash rest) as [[| d seg] leftover]; [contradiction |].
  reflexivity.
Qed.

End SpanFacts.

Section UrlFacts.

Local Open Scope char_scope.

(** The characters of a URL made of a prefix, the host name, the owner
    and what follows the owner's slash. *)
Lemma url_chars (prefix owner rest : string) :
  JsString.chars (prefix +:+ "github.com/" +:+ owner +:+ "/" +:+ rest)%string
  = (JsString.chars prefix
     ++ JsString.chars "github.com/" ++ JsString.chars owner ++ "/" :: JsString.chars rest)%list.
Proof. now rewrite !chars_append. Qed.

Lemma chars_nonempty (s : string) : s <> ""%string -> JsString.chars s <> [].
Proof. destruct s; [contradiction | discriminate]. Qed.

(** [parseGitHubUrl] on such a URL, in terms of the repository segment
    the pattern captures. *)
Lemma parseGitHubUrl_segment (prefix owner rest : string) :
  lacks "g" prefix = true -> owner <> ""%string -> lacks "/" owner = true ->
  fst (GithubService.span_nonslash (JsString.chars rest)) <> [] ->
  GithubService.parseGitHubUrl (prefix +:+ "github.com/" +:+ owner +:+ "/" +:+ rest)%string
  = let segment := fst (GithubService.span_nonslash (JsString.chars rest)) in
    let segment :=
      if JsString.ends_with (JsString.chars ".git") segment
      then take (length segment - 4) segment else segment in
    Some (owner,
          JsString.of_chars
            (JsString.before_char "#"
               (JsString.before_char "?" (JsString.before_char "/" segment)))).
Proof.
  intros Hprefix Howner Hslash Hsegment. unfold GithubService.parseGitHubUrl.
  rewrite url_chars, (match_github_skip _ _ Hprefix).
  rewrite (match_github_here _ _
             (match_github_at_host _ _ (chars_nonempty _ Howner) Hslash Hsegment)).
  cbv zeta. now rewrite of_chars_chars.
Qed.

Lemma path_segment (repo tail : string) :
  lacks "/" repo = true -> empty_or_starts_with ["/"] tail = true ->
  fst (GithubService.span_nonslash (JsString.chars (repo +:+ tail)%string))
  = JsString.chars repo.
Proof.
  intros Hslash Htail. rewrite chars_append.
  destruct tail as [| c tail]; cbn in Htail.
  - cbn. rewrite app_nil_r, (span_nonslash_whole _ Hslash). reflexivity.
  - rewrite orb_false_r in Htail. apply Ascii.eqb_eq in Htail as ->.
    change (JsString.chars (String "/" tail)) with ("/" :: JsString.chars tail).
    now rewrite (span_nonslash_cut _ _ Hslash).
Qed.

Lemma query_segment (repo tail : string) (sep : ascii) :
  lacks "/" repo = true -> sep = "?" \/ sep = "#" ->
  exists q, fst (GithubService.span_nonslash (JsString.chars (repo +:+ String sep tail)%string))
            = (JsString.chars repo ++ sep :: q)%list.
Proof.
  intros Hslash Hsep. rewrite chars_append, (span_nonslash_app _ _ Hslash).
  change (JsString.chars (String sep tail)) with (sep :: JsString.chars tail).
  exists (fst (GithubService.span_nonslash (JsString.chars tail))).
  cbn [fst GithubService.span_nonslash].
  assert (Hne : Ascii.eqb sep "/" = false) by (destruct Hsep as [-> | ->]; reflexivity).
  rewrite Hne. now destruct (GithubService.span_nonslash (JsString.chars tail)).
Qed.

End UrlFacts.

(** X5. A URL that names the host [github.com], an owner and a
    repository, possibly followed by further path segments, parses to
    that owner and repository, whatever precedes the host name (a scheme,
    [www.]; anything without the letter g); one [.git] suffix of the
    repository segment is removed. *)
Theorem parseGitHubUrl_owner_and_repo (prefix owner repo tail : string) :
  lacks "g" prefix = true ->
  owner <> "" -> lacks "/" owner = true ->
  lacks "/" repo = true -> lacks "?" repo = true -> lacks "#" repo = true ->
  empty_or_starts_with ["/"%char] tail = true ->
  (repo <> "" ->
   JsString.ends_with (JsString.chars ".git") (JsString.chars repo) = false ->
   GithubService.parseGitHubUrl (prefix +:+ "github.com/" +:+ owner +:+ "/" +:+ repo +:+ tail)
   = Some (owner, repo))
  /\ GithubService.parseGitHubUrl
       (prefix +:+ "github.com/" +:+ owner +:+ "/" +:+ (repo +:+ ".git") +:+ tail)
     = Some (owner, repo).
Proof.
  intros Hprefix Howner Hoslash Hslash Hquery Hhash Htail. split.
  - intros Hrepo Hgit.
    rewrite parseGitHubUrl_segment; try assumption;
      rewrite (path_segment _ _ Hslash Htail); [| now apply chars_nonempty].
    cbv zeta. rewrite Hgit, (cleaned_whole _ Hslash Hquery Hhash), of_chars_chars.
    reflexivity.
  - assert (Hslash' : lacks "/" (repo +:+ ".git") = true).
    { unfold lacks. rewrite chars_append, lacks_chars_app. fold (lacks "/" repo).
      now rewrite Hslash. }
    rewrite parseGitHubUrl_segment; try assumption;
      rewrite (path_segment _ _ Hslash' Htail), chars_append;
      [| now destruct (JsString.chars repo)].
    cbv zeta. unfold JsString.ends_with at 1.
    rewrite rev_app_distr, starts_with_app, length_app.
    change (length (JsString.chars ".git")) with 4%nat.
    rewrite Nat.add_sub, take_app_length, (cleaned_whole _ Hslash Hquery Hhash), of_chars_chars.
    reflexivity.
Qed.

(** A browser URL of a repository and of a directory in it, and a clone
    URL. *)
Lemma parseGitHubUrl_owner_and_repo_sample :
  GithubService.parseGitHubUrl "https://github.com/acme/shop/tree/main/src" = Some ("acme", "shop")
  /\ GithubService.parseGitHubUrl "https://github.com/acme/shop.git" = Some ("acme", "shop").
Proof.
  split.
  - apply (proj1 (parseGitHubUrl_owner_and_repo "https://" "acme" "shop" "/tree/main/src"
                    eq_refl ltac:(discriminate) eq_refl eq_refl eq_refl eq_refl eq_refl));
      [discriminate | reflexivity].
  - exact (proj2 (parseGitHubUrl_owner_and_repo "https://" "acme" "shop" ""
                    eq_refl ltac:(discriminate) eq_refl eq_refl eq_refl eq_refl eq_refl)).
Defined.

(** X6. A query string or a fragment after the repository segment is
    cut off, and the segment before it is taken as it is: a [.git]
    suffix in front of the [?] or [#] is not removed, and a URL with
    nothing between the owner's slash and the [?] or [#] parses to an
    empty repository name instead of being rejected. *)
Theorem parseGitHubUrl_query_or_fragment (prefix owner repo tail : string) (sep : ascii) :
  lacks "g" prefix = true ->
  owner <> "" -> lacks "/" owner = true ->
  lacks "/" repo = true -> lacks "?" repo = true -> lacks "#" repo = true ->
  sep = "?"%char \/ sep = "#"%char ->
  GithubService.parseGitHubUrl
    (prefix +:+ "github.com/" +:+ owner +:+ "/" +:+ repo +:+ String sep tail)
  = Some (owner, repo).
Proof.
  intros Hprefix Howner Hoslash Hslash Hquery Hhash Hsep.
  destruct (query_segment repo tail sep Hslash Hsep) as [q Hsegment].
  rewrite parseGitHubUrl_segment; try assumption; rewrite Hsegment;
    [| now destruct (JsString.chars repo)].
  cbv zeta.
  assert (Hcut : exists q',
             (if JsString.ends_with (JsString.chars ".git") (JsString.chars repo ++ sep :: q)
              then take (length (JsString.chars repo ++ sep :: q) - 4)
                        (JsString.chars repo ++ sep :: q)
              else (JsString.chars repo ++ sep :: q)%list)
             = (JsString.chars repo ++ sep :: q')%list).
  { destruct (JsString.ends_with _ _) eqn:Hends.
    - exact (git_suffix_behind _ _ _ Hsep Hends).
    - now exists q. }
  destruct Hcut as [q' ->].
  rewrite (cleaned_segment _ _ _ Hslash Hquery Hhash (or_intror Hsep)), of_chars_chars.
  reflexivity.
Qed.

(** A clone URL with a fragment keeps its [.git]; a URL without a
    repository name but with a query parses to the empty name. *)
Lemma parseGitHubUrl_query_or_fragment_sample :
  GithubService.parseGitHubUrl "https://github.com/acme/shop.git#readme"
    = Some ("acme", "shop.git")
  /\ GithubService.parseGitHubUrl "https://github.com/acme/?tab=repositories"
     = Some ("acme", "").
Proof.
  split.
  - exact (parseGitHubUrl_query_or_fragment "https://" "acme" "shop.git" "readme" "#"
             eq_refl ltac:(discriminate) eq_refl eq_refl eq_refl eq_refl (or_intror eq_refl)).
  - exact (parseGitHubUrl_query_or_fragment "https://" "acme" "" "tab=repositories" "?"
             eq_refl ltac:(discriminate) eq_refl eq_refl eq_refl eq_refl (or_introl eq_refl)).
Defined.

Section MatchFacts.

Local Open Scope char_scope.

Lemma match_github_at_inv (s o seg : list ascii) :
  GithubService.match_github_at s = Some (o, seg) ->
  JsString.starts_with (JsString.chars "github.com/") s = true
  /\ o <> [] /\ lacks_chars "/" o = true /\ lacks_chars "/" seg = true.
Proof.
  unfold GithubService.match_github_at.
  destruct (JsString.starts_with _ s); [| discriminate].
  pose proof (span_nonslash_spec (drop 11 s)) as [_ Howner].
  destruct (GithubService.span_nonslash (drop 11 s)) as [owner rest]. cbn [fst] in Howner.
  destruct owner as [| c owner]; [discriminate |].
  destruct rest as [| d rest]; [discriminate |].
  pose proof (span_nonslash_spec rest) as [_ Hseg].
  destruct (GithubService.span_nonslash rest) as [repo leftover]. cbn [fst] in Hseg.
  destruct repo as [| e repo]; [discriminate |].
  intros H. injection H as <- <-. repeat split; try assumption. discriminate.
Qed.

Lemma match_github_inv (s o seg : list ascii) :
  GithubService.match_github s = Some (o, seg) ->
  is_Some (JsString.index_of (JsString.chars "github.com/") s)
  /\ o <> [] /\ lacks_chars "/" o = true /\ lacks_chars "/" seg = true.
Proof.
  induction s as [| c s IH]; cbn [GithubService.match_github].
  - destruct (GithubService.match_github_at []) as [found |] eqn:Hat; [| discriminate].
    intros H. injection H as ->. apply match_github_at_inv in Hat as [Hstart _].
    discriminate Hstart.
  - destruct (GithubService.match_github_at (c :: s)) as [found |] eqn:Hat.
    + intros H. injection H as ->. apply match_github_at_inv in Hat as (Hstart & Hrest).
      split; [| exact Hrest].
      unfold JsString.index_of. rewrite Hstart. eauto.
    + intros H. apply IH in H as (Hfound & Hrest). split; [| exact Hrest].
      cbn [JsString.index_of].
      destruct (JsString.starts_with _ (c :: s)); [eauto |].
      destruct Hfound as [i Hi]. rewrite Hi. cbn. eauto.
Qed.

End MatchFacts.

(** X7. Whatever [parseGitHubUrl] accepts holds the text [github.com/]
    somewhere (not necessarily as its host), and the names it returns
    are free of separators: the owner is not empty and has no slash, the
    repository has no slash, no [?] and no [#]. *)
Theorem parseGitHubUrl_names (url owner repo : string) :
  GithubService.parseGitHubUrl url = Some (owner, repo) ->
  JsString.includes url "github.com/" = true
  /\ owner <> ""
  /\ lacks "/" owner = true
  /\ lacks "/" repo = true /\ lacks "?" repo = true /\ lacks "#" repo = true.
Proof.
  unfold GithubService.parseGitHubUrl.
  destruct (GithubService.match_github (JsString.chars url)) as [[o seg] |] eqn:Hmatch;
    [| discriminate].
  apply match_github_inv in Hmatch as (Hfound & Ho & Hoslash & Hslash).
  intros H. injection H as <- <-. unfold lacks. rewrite !chars_of_chars.
  split; [unfold JsString.includes; now apply bool_decide_eq_true_2 |].
  split; [destruct o; [contradiction | discriminate] |].
  split; [exact Hoslash |].
  split; [| split].
  - apply before_char_keeps, before_char_keeps, before_char_lacks.
  - apply before_char_keeps, before_char_lacks.
  - apply before_char_lacks.
Qed.

(** A URL whose path merely mentions the host name is accepted. *)
Lemma parseGitHubUrl_names_sample :
  GithubService.parseGitHubUrl "https://example.org/github.com/acme/shop?tab=readme"
    = Some ("acme", "shop")
  /\ JsString.includes "https://example.org/github.com/acme/shop?tab=readme" "github.com/" = true
  /\ "acme" <> ""
  /\ lacks "/" "acme" = true
  /\ lacks "/" "shop" = true /\ lacks "?" "shop" = true /\ lacks "#" "shop" = true.
Proof.
  split; [reflexivity |].
  exact (parseGitHubUrl_names "https://example.org/github.com/acme/shop?tab=readme"
           "acme" "shop" eq_refl).
Defined.

(** ** The file tree and its cache, continued *)

(** X8. When no branch is named and the repository lookup that precedes
    the listing fails, [getFileTree] throws the lookup's message behind
    its own prefix, after this one request: a repository that does not
    exist is reported as [Failed to get file tree: Repository not
    found: owner/repo], not with the function's own message for status
    404, because the error [validateRepo] throws carries no status. *)
Theorem getFileTree_wraps_lookup_failure
    (env : Environment) (owner repo : string) (token : option string)
    (w : World) (e : JsError) :
  stale (GithubService.cacheKey owner repo None) w ->
  repos_get env (calls w) (GithubService.createOctokit env token) owner repo = inl e ->
  GithubService.getFileTree env owner repo None token w =
    (Thrown (Error ("Failed to get file tree: "
                    +:+ (if bool_decide (status e = Some 404) then
                           "Repository not found: " +:+ owner +:+ "/" +:+ repo
                         else if bool_decide (status e = Some 403) then
                           "GitHub API rate limit exceeded. Try again later or add a GITHUB_TOKEN."
                         else "Failed to fetch repository: " +:+ message e))),
     after_request (ReposGet (GithubService.createOctokit env token) owner repo)
       (elapsed env (calls w) (ReposGet (GithubService.createOctokit env token) owner repo)) w).
Proof.
  intros Hstale Hanswer. rewrite (getFileTree_stale _ _ _ _ _ _ Hstale).
  unfold GithubService.fetchFileTree, GithubService.validateRepo,
    GithubService.octokit_repos_get, GithubService.octokit_request, try_catch, bind, throw.
  cbn [truthy_string]. rewrite Hanswer.
  destruct (bool_decide (status e = Some 404)); [reflexivity |].
  destruct (bool_decide (status e = Some 403)); reflexivity.
Qed.

(** The tree of a repository the provider does not know. *)
Lemma getFileTree_wraps_lookup_failure_sample :
  fst (GithubService.getFileTree Samples.unknown_repository "acme" "shop" None None Samples.fresh)
  = Thrown (Error "Failed to get file tree: Repository not found: acme/shop").
Proof.
  rewrite (getFileTree_wraps_lookup_failure Samples.unknown_repository "acme" "shop" None
             Samples.fresh Samples.not_found I eq_refl).
  reflexivity.
Defined.

(** X9. The cache key holds neither the token nor the default branch's
    name: once a call without a branch has returned the tree of
    [owner/repo], a call for the branch that is literally named
    [default], with whatever token, is served that tree from the cache
    without a request while the entry is younger than the TTL. *)
Theorem getFileTree_key_ignores_token_and_default
    (env : Environment) (owner repo : string) (token : option string)
    (w0 : World) (files : list FileEntry) (w1 : World) :
  GithubService.getFileTree env owner repo None token w0 = (Returned files, w1) ->
  exists timestamp,
    fileTreeCache w1 !! GithubService.cacheKey owner repo None = Some (files, timestamp)
    /\ forall (token' : option string) (w2 : World),
         fileTreeCache w2 !! GithubService.cacheKey owner repo None = Some (files, timestamp) ->
         now w2 - timestamp < GithubService.CACHE_TTL ->
         GithubService.getFileTree env owner repo (Some "default") token' w2
         = (Returned files, w2).
Proof.
  intros Hrun.
  destruct (getFileTree_caches _ _ _ _ _ _ _ _ Hrun) as [timestamp Hcached].
  exists timestamp. split; [exact Hcached |].
  intros token' w2 Hentry Hyoung.
  exact (getFileTree_hit env owner repo (Some "default") token' w2 files timestamp Hentry Hyoung).
Qed.

(** [acme/shop] listed without a branch and without a token, then asked
    for its branch [default] with a token one minute later. *)
Lemma getFileTree_key_ignores_token_and_default_sample :
  GithubService.getFileTree Samples.shop "acme" "shop" (Some "default") (Some "ghp_sample")
    (later 60000 SampleRuns.listed)
  = (Returned SampleRuns.shop_files, later 60000 SampleRuns.listed).
Proof.
  destruct (getFileTree_key_ignores_token_and_default Samples.shop "acme" "shop" None
              Samples.fresh SampleRuns.shop_files SampleRuns.listed)
    as (timestamp & Hcached & Hserved).
  { vm_compute. reflexivity. }
  apply Hserved.
  - exact Hcached.
  - assert (Htime : timestamp = now SampleRuns.listed).
    { assert (Hentry : fileTreeCache SampleRuns.listed
                         !! GithubService.cacheKey "acme" "shop" None
                       = Some (SampleRuns.shop_files, now SampleRuns.listed))
        by (vm_compute; reflexivity).
      rewrite Hentry in Hcached. now injection Hcached. }
    rewrite Htime. vm_compute. reflexivity.
Defined.

(** X10. After [clearFileTreeCache] nothing is served from the cache:
    the next [getFileTree], whatever it is asked, issues at least one
    request. *)
Theorem clearFileTreeCache_forces_request
    (env : Environment) (owner repo : string) (branch token : option string) (w : World) :
  exists r w' request requests,
    (GithubService.clearFileTreeCache ;;
     GithubService.getFileTree env owner repo branch token) w = (r, w')
    /\ calls w' = (calls w ++ request :: requests)%list.
Proof.
  unfold bind, GithubService.clearFileTreeCache.
  set (w0 := {| calls := calls w; now := now w; fileTreeCache := ∅;
                written := written w; writableEnded := writableEnded w |}).
  assert (Hstale : stale (GithubService.cacheKey owner repo branch) w0).
  { unfold stale. subst w0. cbn [fileTreeCache]. now rewrite lookup_empty. }
  rewrite (getFileTree_stale _ _ _ _ _ _ Hstale).
  destruct (truthy_string branch) eqn:Hbranch.
  - destruct (fetchFileTree_named_branch env owner repo branch token w0 Hbranch)
      as (r & w' & Hrun & Hcalls & _).
    exists r, w'. eexists. exists []. split; [exact Hrun | exact Hcalls].
  - destruct (GithubService.validateRepo env owner repo token w0) as [[info | e] w1] eqn:Hlookup.
    + destruct (fetchFileTree_default_branch env owner repo branch token w0 info w1
                  Hbranch Hlookup) as (r & w' & Hrun & Hcalls & _).
      exists r, w'. eexists. eexists. split; [exact Hrun | exact Hcalls].
    + destruct (fetchFileTree_lookup_fails env owner repo branch token w0 e w1
                  Hbranch Hlookup) as (error & Hrun & Hcalls).
      exists (Thrown error), w1. eexists. exists []. split; [exact Hrun | exact Hcalls].
Qed.

(** ** Reading one file *)

(** X11. [getFileContent] issues one request and either returns the
    file or throws an error without status: a path the provider does not
    know is [File not found], and every other failure, the function's
    own complaints about a directory or a non-file included, is wrapped
    as [Failed to get file content: ...]. *)
Theorem getFileContent_outcomes
    (env : Environment) (owner repo path : string) (token : option string) (w : World) :
  GithubService.getFileContent env owner repo path token w =
    (match repos_getContent env (calls w) (GithubService.createOctokit env token)
             owner repo path with
     | inr (ContentOfFile content size) =>
         Returned {| fc_path := path; fc_content := content; fc_size := size |}
     | inr ContentDirectory =>
         Thrown (Error ("Failed to get file content: Path is a directory: " +:+ path))
     | inr ContentNotFile =>
         Thrown (Error ("Failed to get file content: Not a file: " +:+ path))
     | inl e =>
         Thrown (Error (if bool_decide (status e = Some 404)
                        then "File not found: " +:+ path
                        else "Failed to get file content: " +:+ message e))
     end,
     after_request (ReposGetContent (GithubService.createOctokit env token) owner repo path)
       (elapsed env (calls w)
          (ReposGetContent (GithubService.createOctokit env token) owner repo path)) w).
Proof.
  unfold GithubService.getFileContent, GithubService.octokit_repos_getContent,
    GithubService.octokit_request, try_catch, bind, throw, ret.
  destruct (repos_getContent env (calls w) _ owner repo path) as [e | [| | content size]];
    cbn; try reflexivity.
  destruct (bool_decide (status e = Some 404)); reflexivity.
Qed.

(** ** Fetching file contents, continued *)

Section ContentRequests.

Variable env : Environment.
Variables owner repo : string.
Variable token : option string.

Let batch_result (path : string) (outcome : option FileContent) : GithubService.BatchResult :=
  {| GithubService.success := negb (failed outcome);
     GithubService.br_content := outcome;
     GithubService.br_path := path |}.

(** A batch of fetches: one request per path, in order, and nothing
    else. *)
Lemma map_all_fetch_one_run (batch : list string) (w : World) :
  exists w',
    map_all (GithubService.fetch_one env owner repo token) batch w =
      (Returned
         (zip_with batch_result batch
            (fetch_outcomes env (GithubService.createOctokit env token) owner repo
               (calls w) batch)), w')
    /\ calls w'
       = (calls w
          ++ map (ReposGetContent (GithubService.createOctokit env token) owner repo)
               batch)%list
    /\ written w' = written w
    /\ writableEnded w' = writableEnded w.
Proof.
  revert w. induction batch as [| path batch IH]; intros w; cbn.
  - exists w. rewrite app_nil_r. auto.
  - unfold bind at 1. rewrite fetch_one_delivers.
    set (w1 := after_request _ _ w).
    destruct (IH w1) as (w' & Hrun & Hcalls & Hwritten & Hended).
    exists w'. unfold bind. rewrite Hrun. cbn.
    repeat split; [| exact Hwritten | exact Hended].
    rewrite Hcalls. cbn. now rewrite <- app_assoc.
Qed.

(** The loop over the results of a batch, for any callback: if it
    returns, the successful results were appended. *)
Lemma process_results_appends (batch : list string) (outcomes : list (option FileContent))
    (total : Z) (onProgress : option GithubService.ProgressCallback)
    (contents : list FileContent) (processedCount : Z) (w : World)
    (contents' : list FileContent) (processedCount' : Z) (w' : World) :
  length outcomes = length batch ->
  GithubService.process_results (zip_with batch_result batch outcomes) total onProgress
    contents processedCount w = (Returned (contents', processedCount'), w') ->
  contents' = (contents ++ omap id outcomes)%list.
Proof.
  revert outcomes contents processedCount w.
  induction batch as [| path batch IH]; intros outcomes contents processedCount w Hlen Hrun.
  - destruct outcomes; [| discriminate Hlen]. cbn in Hrun. injection Hrun as <- _ _.
    now rewrite app_nil_r.
  - destruct outcomes as [| outcome outcomes]; [discriminate Hlen |].
    injection Hlen as Hlen. cbn [zip_with GithubService.process_results] in Hrun.
    apply bind_inv in Hrun as [(u & w1 & _ & Hrest) | (e & _ & Hthrown)];
      [| discriminate Hthrown].
    apply (IH _ _ _ _ Hlen) in Hrest. rewrite Hrest.
    destruct outcome as [content |]; cbn; [now rewrite <- app_assoc | reflexivity].
Qed.

Lemma process_results_silent (batch : list string) (outcomes : list (option FileContent))
    (total : Z) (contents : list FileContent) (processedCount : Z) (w : World) :
  length outcomes = length batch ->
  GithubService.process_results (zip_with batch_result batch outcomes) total None
    contents processedCount w
  = (Returned ((contents ++ omap id outcomes)%list, processedCount + Z.of_nat (length batch)), w).
Proof.
  revert outcomes contents processedCount.
  induction batch as [| path batch IH]; intros outcomes contents processedCount Hlen.
  - destruct outcomes; [| discriminate Hlen]. cbn. now rewrite app_nil_r, Z.add_0_r.
  - destruct outcomes as [| outcome outcomes]; [discriminate Hlen |].
    injection Hlen as Hlen. cbn [zip_with GithubService.process_results].
    unfold bind at 1. cbn [ret]. rewrite (IH _ _ _ Hlen). do 3 f_equal.
    + destruct outcome as [content |]; cbn; [now rewrite <- app_assoc | reflexivity].
    + cbn [length]. lia.
Qed.

(** The files a fetch delivers are among the paths asked for, in their
    order. *)
Lemma delivered_paths (history : list NetCall) (paths : list string) :
  map fc_path
    (omap id (fetch_outcomes env (GithubService.createOctokit env token) owner repo
                history paths))
  `sublist_of` paths.
Proof.
  revert history. induction paths as [| path paths IH]; intros history; [constructor |].
  cbn [fetch_outcomes omap]. unfold delivered at 1.
  destruct (repos_getContent env history (GithubService.createOctokit env token)
              owner repo path) as [e | [| | content size]];
    cbn; try (apply sublist_cons, IH).
  apply sublist_skip, IH.
Qed.

(** The batch loop, for any callback: if it returns, what it appended
    was fetched from the paths left, in their order. *)
Lemma batch_loop_appends (fuel : nat) (total : Z)
    (onProgress : option GithubService.ProgressCallback) (rest : list string)
    (contents : list FileContent) (processedCount : Z) (w : World)
    (contents' : list FileContent) (w' : World) :
  GithubService.batch_loop env fuel owner repo token total onProgress rest contents
    processedCount w = (Returned contents', w') ->
  exists added, contents' = (contents ++ added)%list /\ map fc_path added `sublist_of` rest.
Proof.
  revert rest contents processedCount w.
  induction fuel as [| fuel IH]; intros rest contents processedCount w Hrun.
  - exists []. rewrite app_nil_r. split; [| apply sublist_nil_l].
    destruct rest; cbn in Hrun; now injection Hrun as <- _.
  - destruct rest as [| path rest'].
    { exists []. rewrite app_nil_r. split; [| constructor]. cbn in Hrun.
      now injection Hrun as <- _. }
    cbn [GithubService.batch_loop] in Hrun. revert Hrun. generalize (path :: rest').
    clear path rest'. intros rest Hrun.
    destruct (map_all_fetch_one_run (take GithubService.BATCH_SIZE rest) w)
      as (w1 & Hfetch & _).
    unfold bind at 1 in Hrun. rewrite Hfetch in Hrun.
    apply bind_inv in Hrun as [([contents1 count1] & w2 & Hproc & Hrun) | (e & _ & Hthrown)];
      [| discriminate Hthrown].
    apply process_results_appends in Hproc; [| apply fetch_outcomes_length].
    apply bind_inv in Hrun as [(u & w3 & _ & Hrun) | (e & _ & Hthrown)];
      [| discriminate Hthrown].
    apply IH in Hrun as (added & Heq & Hadded). subst contents1.
    exists (omap id (fetch_outcomes env (GithubService.createOctokit env token) owner repo (calls w)
                       (take GithubService.BATCH_SIZE rest)) ++ added)%list.
    split; [now rewrite Heq, app_assoc |].
    rewrite map_app.
    assert (Hboth : (map fc_path
                       (omap id (fetch_outcomes env
                                   (GithubService.createOctokit env token) owner repo
                                   (calls w) (take GithubService.BATCH_SIZE rest)))
                     ++ map fc_path added)%list
                    `sublist_of` (take GithubService.BATCH_SIZE rest
                                  ++ drop GithubService.BATCH_SIZE rest)%list)
      by (apply sublist_app; [apply delivered_paths | exact Hadded]).
    now rewrite take_drop in Hboth.
Qed.

(** The batch loop without a callback. *)
Lemma batch_loop_silent (fuel : nat) (total : Z) (rest : list string)
    (contents : list FileContent) (processedCount : Z) (w : World) :
  (length rest <= fuel)%nat ->
  exists w',
    GithubService.batch_loop env fuel owner repo token total None rest contents
      processedCount w
    = (Returned
         (contents
          ++ omap id (fetch_outcomes env (GithubService.createOctokit env token) owner
                        repo (calls w) rest))%list,
       w')
    /\ calls w'
       = (calls w
          ++ map (ReposGetContent (GithubService.createOctokit env token) owner repo)
               rest)%list
    /\ written w' = written w.
Proof.
  revert rest contents processedCount w.
  induction fuel as [| fuel IH]; intros rest contents processedCount w Hfuel.
  - destruct rest; [| cbn in Hfuel; lia]. cbn. exists w. rewrite !app_nil_r. auto.
  - destruct rest as [| path rest'].
    { cbn. exists w. rewrite !app_nil_r. auto. }
    cbn [GithubService.batch_loop].
    assert (Hpos : (length (path :: rest') <= S fuel)%nat /\ (1 <= length (path :: rest'))%nat)
      by (cbn in *; lia).
    clear Hfuel. revert Hpos. generalize (path :: rest'). clear path rest'.
    intros rest [Hfuel Hpos].
    set (batch := take GithubService.BATCH_SIZE rest).
    set (later := drop GithubService.BATCH_SIZE rest).
    assert (Hsplit : rest = (batch ++ later)%list) by (symmetry; apply take_drop).
    destruct (map_all_fetch_one_run batch w) as (w1 & Hfetch & Hcalls1 & Hwritten1 & _).
    unfold bind at 1. rewrite Hfetch.
    unfold bind at 1.
    rewrite (process_results_silent batch
               (fetch_outcomes env (GithubService.createOctokit env token) owner repo
                  (calls w) batch)
               total contents processedCount w1
               (fetch_outcomes_length env owner repo token (calls w) batch)).
    assert (Hpause : exists w3,
               (match later with _ :: _ => sleep 200 | [] => ret tt end) w1
               = (Returned tt, w3)
               /\ calls w3 = calls w1 /\ written w3 = written w1).
    { destruct later; [exists w1 | exists (snd (sleep 200 w1))]; auto. }
    destruct Hpause as (w3 & Hpause & Hcalls3 & Hwritten3).
    unfold bind at 1. rewrite Hpause.
    assert (Hlater : (length later <= fuel)%nat).
    { subst later. rewrite length_drop. unfold GithubService.BATCH_SIZE. lia. }
    destruct (IH later
                (contents
                 ++ omap id (fetch_outcomes env (GithubService.createOctokit env token)
                               owner repo (calls w) batch))%list
                (processedCount + Z.of_nat (length batch)) w3 Hlater)
      as (w' & Hloop & Hcalls' & Hwritten').
    assert (Hout :
              fetch_outcomes env (GithubService.createOctokit env token) owner repo
                (calls w) rest
              = (fetch_outcomes env (GithubService.createOctokit env token) owner repo
                   (calls w) batch
                 ++ fetch_outcomes env (GithubService.createOctokit env token) owner repo
                      (calls w3) later)%list).
    { transitivity (fetch_outcomes env (GithubService.createOctokit env token) owner repo
                      (calls w) (batch ++ later)%list).
      - f_equal. exact Hsplit.
      - rewrite fetch_outcomes_app. do 2 f_equal. congruence. }
    exists w'. rewrite Hloop. split; [| split].
    + f_equal. f_equal. rewrite Hout, omap_app, <- app_assoc. reflexivity.
    + rewrite Hcalls', Hcalls3, Hcalls1, <- app_assoc, <- map_app. do 2 f_equal.
      symmetry. exact Hsplit.
    + congruence.
Qed.

Lemma progress_events_app (priority : PriorityLevel) (total done : Z) (a b : list string) :
  progress_events priority total done (a ++ b)
  = (progress_events priority total done a
     ++ progress_events priority total (done + Z.of_nat (length a)) b)%list.
Proof.
  revert done. induction a as [| path a IH]; intros done.
  - cbn. now rewrite Z.add_0_r.
  - cbn [app progress_events length]. rewrite IH. cbn [app]. do 3 f_equal. f_equal. lia.
Qed.

(** The loop over the results of a batch with the orchestrator's
    callback, on an open response. *)
Lemma process_results_progress (priority : PriorityLevel) (batch : list string)
    (outcomes : list (option FileContent)) (total : Z) (contents : list FileContent)
    (processedCount : Z) (w : World) :
  response_open w -> length outcomes = length batch ->
  GithubService.process_results (zip_with batch_result batch outcomes) total
    (Some (AnalysisService.report_progress priority)) contents processedCount w
  = (Returned ((contents ++ omap id outcomes)%list, processedCount + Z.of_nat (length batch)),
     emit_all (progress_events priority total processedCount batch) w).
Proof.
  revert outcomes contents processedCount w.
  induction batch as [| path batch IH]; intros outcomes contents processedCount w Hopen Hlen.
  - destruct outcomes; [| discriminate Hlen]. cbn. unfold ret, emit_all.
    rewrite !app_nil_r, Z.add_0_r. now destruct w.
  - destruct outcomes as [| outcome outcomes]; [discriminate Hlen |].
    injection Hlen as Hlen. cbn [zip_with GithubService.process_results].
    cbn [GithubService.br_path batch_result].
    erewrite bind_returned.
    2:{ unfold AnalysisService.report_progress, AnalysisService.sendStatus,
          AnalysisService.sendFileEvent.
        erewrite bind_returned by (apply sendSSE_open; exact Hopen).
        apply sendSSE_open. exact Hopen. }
    rewrite IH by (exact Hopen || exact Hlen).
    apply (f_equal2 pair); [apply f_equal, (f_equal2 pair) |].
    + destruct outcome as [content |]; cbn; [| reflexivity].
      rewrite <- (app_assoc contents [content]). reflexivity.
    + cbn [length]. lia.
    + unfold emit_all, emit. cbn. now rewrite <- !app_assoc.
Qed.

Lemma batch_loop_progress (priority : PriorityLevel) (fuel : nat) (total : Z)
    (rest : list string) (contents : list FileContent) (processedCount : Z) (w : World) :
  response_open w -> (length rest <= fuel)%nat ->
  exists contents' w',
    GithubService.batch_loop env fuel owner repo token total
      (Some (AnalysisService.report_progress priority)) rest contents processedCount w
    = (Returned contents', w')
    /\ written w' = (written w ++ progress_events priority total processedCount rest)%list
    /\ response_open w'.
Proof.
  revert rest contents processedCount w.
  induction fuel as [| fuel IH]; intros rest contents processedCount w Hopen Hfuel.
  - destruct rest; [| cbn in Hfuel; lia]. cbn. exists contents, w. rewrite app_nil_r. auto.
  - destruct rest as [| path rest'].
    { cbn. exists contents, w. rewrite app_nil_r. auto. }
    cbn [GithubService.batch_loop].
    assert (Hpos : (length (path :: rest') <= S fuel)%nat /\ (1 <= length (path :: rest'))%nat)
      by (cbn in *; lia).
    clear Hfuel. revert Hpos. generalize (path :: rest'). clear path rest'.
    intros rest [Hfuel Hpos].
    set (batch := take GithubService.BATCH_SIZE rest).
    set (later := drop GithubService.BATCH_SIZE rest).
    assert (Hsplit : rest = (batch ++ later)%list) by (symmetry; apply take_drop).
    destruct (map_all_fetch_one_run batch w) as (w1 & Hfetch & _ & Hwritten1 & Hended1).
    assert (Hopen1 : response_open w1) by (unfold response_open in *; congruence).
    unfold bind at 1. rewrite Hfetch.
    unfold bind at 1.
    rewrite (process_results_progress priority batch
               (fetch_outcomes env (GithubService.createOctokit env token) owner repo
                  (calls w) batch)
               total contents processedCount w1 Hopen1
               (fetch_outcomes_length env owner repo token (calls w) batch)).
    set (w2 := emit_all (progress_events priority total processedCount batch) w1).
    assert (Hpause : exists w3,
               (match later with _ :: _ => sleep 200 | [] => ret tt end) w2
               = (Returned tt, w3)
               /\ written w3 = written w2 /\ response_open w3).
    { destruct later; [exists w2 | exists (snd (sleep 200 w2))]; auto. }
    destruct Hpause as (w3 & Hpause & Hwritten3 & Hopen3).
    unfold bind at 1. rewrite Hpause.
    assert (Hlater : (length later <= fuel)%nat).
    { subst later. rewrite length_drop. unfold GithubService.BATCH_SIZE. lia. }
    destruct (IH later (contents ++ omap id (fetch_outcomes env
                                               (GithubService.createOctokit env token)
                                               owner repo (calls w) batch))%list
                (processedCount + Z.of_nat (length batch)) w3 Hopen3 Hlater)
      as (contents' & w' & Hloop & Hwritten' & Hopen').
    exists contents', w'. rewrite Hloop. split; [reflexivity |]. split; [| exact Hopen'].
    rewrite Hwritten', Hwritten3. subst w2. cbn [written emit_all].
    rewrite Hwritten1, <- app_assoc. f_equal.
    rewrite <- progress_events_app. f_equal. symmetry. exact Hsplit.
Qed.

End ContentRequests.

(** X12. Without a progress callback [getFilesContents] does not throw:
    it asks for each of the first [maxFiles] paths once, in order, and
    returns the files it got, in that order, leaving out the failures;
    it writes nothing to the response. *)
Theorem getFilesContents_one_request_per_path
    (env : Environment) (owner repo : string) (paths : list string) (maxFiles : Z)
    (token : option string) (w : World) :
  0 <= maxFiles ->
  exists w',
    GithubService.getFilesContents env owner repo paths maxFiles None token w
    = (Returned (omap id (fetch_outcomes env (GithubService.createOctokit env token) owner repo
                            (calls w) (take (Z.to_nat maxFiles) paths))), w')
    /\ calls w' = (calls w
                   ++ map (ReposGetContent (GithubService.createOctokit env token) owner repo)
                          (take (Z.to_nat maxFiles) paths))%list
    /\ written w' = written w.
Proof.
  intros Hmax. unfold GithubService.getFilesContents, GithubService.slice_to.
  rewrite bool_decide_eq_true_2 by exact Hmax.
  destruct (batch_loop_silent env owner repo token
              (length (take (Z.to_nat maxFiles) paths))
              (Z.of_nat (length (take (Z.to_nat maxFiles) paths)))
              (take (Z.to_nat maxFiles) paths) [] 0 w (le_n _))
    as (w' & Hrun & Hcalls & Hwritten).
  exists w'. auto.
Qed.

(** Three paths, the second of which is missing, with a limit of two:
    two requests, one file. *)
Lemma getFilesContents_one_request_per_path_sample :
  exists w',
    GithubService.getFilesContents Samples.shop "acme" "shop"
      [".env"; "missing.key"; "src/auth/login.ts"] 2 None None Samples.fresh
    = (Returned [ {| fc_path := ".env"; fc_content := "content of .env"; fc_size := 64 |} ], w')
    /\ calls w' = [ ReposGetContent None "acme" "shop" ".env";
                    ReposGetContent None "acme" "shop" "missing.key" ]
    /\ written w' = [].
Proof.
  exact (getFilesContents_one_request_per_path Samples.shop "acme" "shop"
           [".env"; "missing.key"; "src/auth/login.ts"] 2 None Samples.fresh ltac:(lia)).
Defined.

Lemma getFilesContents_paths
    (env : Environment) (owner repo : string) (paths : list string) (maxFiles : Z)
    (onProgress : option GithubService.ProgressCallback) (token : option string)
    (w : World) (contents : list FileContent) (w' : World) :
  GithubService.getFilesContents env owner repo paths maxFiles onProgress token w
    = (Returned contents, w') ->
  map fc_path contents `sublist_of` GithubService.slice_to maxFiles paths.
Proof.
  unfold GithubService.getFilesContents. intros Hrun.
  apply batch_loop_appends in Hrun as (added & -> & Hadded). exact Hadded.
Qed.

Lemma slice_to_sublist {A} (maxFiles : Z) (paths : list A) :
  GithubService.slice_to maxFiles paths `sublist_of` paths.
Proof. unfold GithubService.slice_to. case_bool_decide; apply sublist_take. Qed.

Lemma slice_to_length {A} (maxFiles : Z) (paths : list A) :
  0 <= maxFiles -> Z.of_nat (length (GithubService.slice_to maxFiles paths)) <= maxFiles.
Proof.
  intros Hmax. unfold GithubService.slice_to. rewrite bool_decide_eq_true_2 by exact Hmax.
  rewrite length_take. lia.
Qed.

(** X13. Whatever the progress callback does, the files
    [getFilesForPriority] returns are files of the requested tier; there
    are no more of them than [totalMatching], and no more than
    [maxFiles]. *)
Theorem getFilesForPriority_within_tier
    (env : Environment) (owner repo : string) (priority : PriorityLevel) (maxFiles : Z)
    (onProgress : option GithubService.ProgressCallback) (token : option string)
    (w : World) (files : list FileContent) (totalMatching : Z) (w' : World) :
  GithubService.getFilesForPriority env owner repo priority maxFiles onProgress token w
    = (Returned (files, totalMatching), w') ->
  Forall (fun file => FileFilter.getFilePriority (minimatch env) (fc_path file) = Some priority)
         files
  /\ Z.of_nat (length files) <= totalMatching
  /\ (0 <= maxFiles -> Z.of_nat (length files) <= maxFiles).
Proof.
  unfold GithubService.getFilesForPriority. intros Hrun.
  apply bind_inv in Hrun as [(allFiles & w1 & _ & Hrun) | (e & _ & Hthrown)];
    [| discriminate Hthrown].
  apply bind_inv in Hrun as [(contents & w2 & Hfetch & Hret) | (e & _ & Hthrown)];
    [| discriminate Hthrown].
  injection Hret as <- <- _.
  apply getFilesContents_paths in Hfetch.
  set (matching := FileFilter.filterFilesByPriority (minimatch env) (map fe_path allFiles)
                     priority) in *.
  assert (Hall : map fc_path contents `sublist_of` matching).
  { etransitivity; [exact Hfetch | apply slice_to_sublist]. }
  split; [| split].
  - apply Forall_forall. intros file Hfile.
    assert (Hin : fc_path file ∈ matching).
    { apply (elem_of_sublist _ _ _ (list_elem_of_fmap_2 fc_path _ _ Hfile) Hall). }
    subst matching. unfold FileFilter.filterFilesByPriority in Hin.
    apply list_elem_of_filter in Hin as [Htier _]. exact Htier.
  - apply sublist_length in Hall. rewrite length_map in Hall. lia.
  - intros Hmax. apply sublist_length in Hfetch. rewrite length_map in Hfetch.
    pose proof (slice_to_length maxFiles matching Hmax). lia.
Qed.

(** The tier-1 files of [acme/shop]. *)
Lemma getFilesForPriority_within_tier_sample :
  fst (GithubService.getFilesForPriority Samples.shop "acme" "shop" P1 20 None None
         Samples.fresh) = Returned (SampleRuns.tier1_files, 1)
  /\ Forall (fun file => FileFilter.getFilePriority (minimatch Samples.shop) (fc_path file)
                         = Some P1) SampleRuns.tier1_files
  /\ Z.of_nat (length SampleRuns.tier1_files) <= 1
  /\ (0 <= 20 -> Z.of_nat (length SampleRuns.tier1_files) <= 20).
Proof.
  destruct (GithubService.getFilesForPriority Samples.shop "acme" "shop" P1 20 None None
              Samples.fresh) as [r w'] eqn:Hrun.
  assert (Hr : r = Returned (SampleRuns.tier1_files, 1)).
  { apply (f_equal fst) in Hrun. vm_compute in Hrun. now subst r. }
  subst r. split; [reflexivity |].
  exact (getFilesForPriority_within_tier Samples.shop "acme" "shop" P1 20 None None
           Samples.fresh SampleRuns.tier1_files 1 w' Hrun).
Defined.

(** X27. With the orchestrator's callback on an open response,
    [getFilesContents] announces each of the first [maxFiles] paths, in
    order, by a status event that counts it ([current] runs from 1 to
    the number of paths) and a [scanning] file event, whether its fetch
    succeeds or fails, and writes nothing else. *)
Theorem getFilesContents_progress_events
    (env : Environment) (owner repo : string) (paths : list string) (maxFiles : Z)
    (priority : PriorityLevel) (token : option string) (w : World) :
  response_open w -> 0 <= maxFiles ->
  exists contents w',
    GithubService.getFilesContents env owner repo paths maxFiles
      (Some (AnalysisService.report_progress priority)) token w = (Returned contents, w')
    /\ written w' =
         (written w
          ++ progress_events priority (Z.of_nat (length (take (Z.to_nat maxFiles) paths))) 0
               (take (Z.to_nat maxFiles) paths))%list.
Proof.
  intros Hopen Hmax. unfold GithubService.getFilesContents, GithubService.slice_to.
  rewrite bool_decide_eq_true_2 by exact Hmax.
  destruct (batch_loop_progress env owner repo token priority
              (length (take (Z.to_nat maxFiles) paths))
              (Z.of_nat (length (take (Z.to_nat maxFiles) paths)))
              (take (Z.to_nat maxFiles) paths) [] 0 w Hopen (le_n _))
    as (contents & w' & Hrun & Hwritten & _).
  exists contents, w'. auto.
Qed.

(** Two paths, the second of which is missing. *)
Lemma getFilesContents_progress_events_sample :
  exists contents w',
    GithubService.getFilesContents Samples.shop "acme" "shop" [".env"; "missing.key"] 20
      (Some (AnalysisService.report_progress P1)) None Samples.fresh = (Returned contents, w')
    /\ written w' = [ StatusEvent "Fetching files... (1/2)" 1 2 (Some ".env");
                      FileEvent ".env" P1 scanning;
                      StatusEvent "Fetching files... (2/2)" 2 2 (Some "missing.key");
                      FileEvent "missing.key" P1 scanning ].
Proof.
  exact (getFilesContents_progress_events Samples.shop "acme" "shop" [".env"; "missing.key"] 20
           P1 None Samples.fresh eq_refl ltac:(lia)).
Defined.

(** ** The AI service's reply *)

Section ReplyFacts.

Variable env : Environment.

Lemma parseIssuesFromResponse_array (timestamp : Z) (response : string) (parsed : json)
    (items : list json) :
  JSON_parse env (DeepseekService.jsonStr response) = Some parsed ->
  top_level_issues parsed = Some (JArray items) ->
  DeepseekService.parseIssuesFromResponse env timestamp response =
    match mapM (M := option) id (imap (DeepseekService.normalizeIssue timestamp) items) with
    | Some normalized => normalized
    | None => []
    end.
Proof.
  intros Hparse Hissues. unfold DeepseekService.parseIssuesFromResponse. rewrite Hparse.
  destruct parsed as [| b | x | s | elements | fields]; try discriminate Hissues.
  cbn in *. now rewrite Hissues.
Qed.

Lemma normalizeIssue_null (timestamp : Z) (index : nat) (entry : json) :
  DeepseekService.normalizeIssue timestamp index entry = None <-> entry = JNull.
Proof. destruct entry; cbn; split; intros H; try discriminate H; reflexivity. Qed.

Lemma normalizeIssue_id (timestamp : Z) (index : nat) (entry : json) (finding : AnalysisIssue) :
  DeepseekService.normalizeIssue timestamp index entry = Some finding ->
  id_ finding = "issue-" +:+ JsString.of_Z timestamp +:+ "-" +:+ JsString.of_Z (Z.of_nat index).
Proof. destruct entry; cbn; intros H; try discriminate H; now injection H as <-. Qed.

End ReplyFacts.



Section FenceFacts.

Local Open Scope char_scope.

Lemma backticks_chars : DeepseekService.backticks = ["`"; "`"; "`"].
Proof. reflexivity. Qed.

(** The first fence of a text that starts without a backtick. *)
Lemma index_of_fence (before rest : list ascii) :
  lacks_chars "`" before = true ->
  JsString.index_of DeepseekService.backticks (before ++ DeepseekService.backticks ++ rest)
  = Some (length before).
Proof.
  induction before as [| c before IH]; intros Hlacks.
  - cbn [app]. unfold JsString.index_of. destruct (DeepseekService.backticks ++ rest)%list eqn:Hl;
      [discriminate Hl |]. rewrite <- Hl, starts_with_app. reflexivity.
  - cbn in Hlacks. apply andb_prop in Hlacks as [Hc Hlacks]. apply negb_true_iff in Hc.
    cbn [app JsString.index_of]. rewrite backticks_chars at 1.
    cbn [JsString.starts_with]. rewrite Ascii.eqb_sym, Hc. cbn [andb].
    rewrite (IH Hlacks). reflexivity.
Qed.

Lemma index_of_no_fence (text : list ascii) :
  lacks_chars "`" text = true -> JsString.index_of DeepseekService.backticks text = None.
Proof.
  induction text as [| c text IH]; intros Hlacks; [reflexivity |].
  cbn in Hlacks. apply andb_prop in Hlacks as [Hc Hlacks]. apply negb_true_iff in Hc.
  cbn [JsString.index_of]. rewrite backticks_chars at 1.
  cbn [JsString.starts_with]. rewrite Ascii.eqb_sym, Hc. cbn [andb].
  rewrite (IH Hlacks). reflexivity.
Qed.

Lemma skip_space_stops (s : list ascii) (c : ascii) (rest : list ascii) :
  JsString.is_space c = false ->
  JsString.skip_space (s ++ c :: rest) = (JsString.skip_space s ++ c :: rest)%list.
Proof.
  intros Hc. induction s as [| d s IH]; cbn [app JsString.skip_space].
  - now rewrite Hc.
  - destruct (JsString.is_space d); [exact IH | reflexivity].
Qed.

Lemma skip_space_idempotent (s : list ascii) :
  JsString.skip_space (JsString.skip_space s) = JsString.skip_space s.
Proof.
  induction s as [| c s IH]; [reflexivity |]. cbn [JsString.skip_space].
  destruct (JsString.is_space c) eqn:Hc; [exact IH |].
  cbn [JsString.skip_space]. now rewrite Hc.
Qed.

Lemma skip_space_lacks (c : ascii) (s : list ascii) :
  lacks_chars c s = true -> lacks_chars c (JsString.skip_space s) = true.
Proof.
  unfold lacks_chars. induction s as [| d s IH]; intros Hs; [reflexivity |].
  cbn [JsString.skip_space]. destruct (JsString.is_space d); [| exact Hs].
  cbn in Hs. apply andb_prop in Hs as [_ Hs]. exact (IH Hs).
Qed.

(** Leading white space, and one more white-space character at the end,
    do not change what [trim] leaves. *)
Lemma trim_chars_skipped (s : list ascii) :
  JsString.trim_chars (JsString.skip_space s) = JsString.trim_chars s.
Proof. unfold JsString.trim_chars. now rewrite skip_space_idempotent. Qed.

Lemma skip_space_snoc (s : list ascii) (c : ascii) :
  JsString.is_space c = true ->
  JsString.skip_space (s ++ [c]) =
    match JsString.skip_space s with
    | [] => []
    | d :: rest => (d :: rest ++ [c])%list
    end.
Proof.
  intros Hc. induction s as [| d s IH]; cbn [app JsString.skip_space].
  - now rewrite Hc.
  - destruct (JsString.is_space d); [exact IH | reflexivity].
Qed.

Lemma trim_chars_snoc (s : list ascii) (c : ascii) :
  JsString.is_space c = true -> JsString.trim_chars (s ++ [c]) = JsString.trim_chars s.
Proof.
  intros Hc. unfold JsString.trim_chars. rewrite (skip_space_snoc _ _ Hc).
  destruct (JsString.skip_space s) as [| d rest]; [reflexivity |].
  rewrite app_comm_cons, rev_app_distr. cbn [rev app JsString.skip_space].
  now rewrite Hc.
Qed.

(** The block between a fence, with or without its [json] tag, and the
    fence that closes it. *)
Lemma fenced_block_body (before body after : list ascii) (tagged : bool) :
  lacks_chars "`" before = true -> lacks_chars "`" body = true ->
  JsString.trim_chars <$>
    DeepseekService.fenced_block
      (before ++ DeepseekService.backticks
       ++ (if tagged then JsString.chars "json" else [])
       ++ "010" :: body ++ "010" :: DeepseekService.backticks ++ after)
  = Some (JsString.trim_chars body).
Proof.
  intros Hbefore Hbody. unfold DeepseekService.fenced_block.
  rewrite (index_of_fence _ _ Hbefore).
  rewrite drop_app_ge by lia.
  replace (length before + 3 - length before)%nat with 3%nat by lia.
  assert (Hdrop : forall x : list ascii, drop 3 (DeepseekService.backticks ++ x) = x)
    by reflexivity.
  rewrite !Hdrop. clear Hdrop.
  assert (Htag : (if JsString.starts_with (JsString.chars "json")
                       ((if tagged then JsString.chars "json" else [])
                        ++ "010" :: body ++ "010" :: DeepseekService.backticks ++ after)
                  then drop 4 ((if tagged then JsString.chars "json" else [])
                               ++ "010" :: body ++ "010" :: DeepseekService.backticks ++ after)
                  else ((if tagged then JsString.chars "json" else [])
                        ++ "010" :: body ++ "010" :: DeepseekService.backticks ++ after)%list)
                 = ("010" :: body ++ "010" :: DeepseekService.backticks ++ after)%list)
    by (destruct tagged; reflexivity).
  rewrite Htag. clear Htag.
  change (JsString.skip_space ("010" :: body ++ "010" :: DeepseekService.backticks ++ after))
    with (JsString.skip_space (body ++ "010" :: DeepseekService.backticks ++ after)).
  replace (body ++ "010" :: DeepseekService.backticks ++ after)%list
    with ((body ++ ["010"]) ++ "`" :: ("`" :: "`" :: after))%list
    by (rewrite <- app_assoc; reflexivity).
  rewrite skip_space_stops by reflexivity.
  change ("`" :: "`" :: "`" :: after) with (DeepseekService.backticks ++ after)%list.
  assert (Hlacks : lacks_chars "`" (JsString.skip_space (body ++ ["010"])) = true).
  { apply skip_space_lacks. rewrite lacks_chars_app, Hbody. reflexivity. }
  rewrite (index_of_fence _ _ Hlacks), take_app_length. cbn [fmap option_fmap option_map].
  f_equal. rewrite trim_chars_skipped. now apply trim_chars_snoc.
Qed.

End FenceFacts.

(** X15. A reply wrapped in a Markdown code fence, with or without the
    [json] tag and whatever text surrounds the fence, gives the findings
    of the fenced text alone (for texts before and inside the fence that
    hold no backtick). *)
Theorem parseIssuesFromResponse_fenced
    (env : Environment) (timestamp : Z) (before body after : string) (tagged : bool) :
  lacks "`" before = true -> lacks "`" body = true ->
  DeepseekService.parseIssuesFromResponse env timestamp
    (before +:+ "```" +:+ (if tagged then "json" else "") +:+ nl
     +:+ body +:+ nl +:+ "```" +:+ after)
  = DeepseekService.parseIssuesFromResponse env timestamp body.
Proof.
  intros Hbefore Hbody.
  assert (Hsame : DeepseekService.jsonStr
                    (before +:+ "```" +:+ (if tagged then "json" else "") +:+ nl
                     +:+ body +:+ nl +:+ "```" +:+ after)
                  = DeepseekService.jsonStr body).
  { unfold DeepseekService.jsonStr, DeepseekService.fenced_block at 2.
    rewrite (index_of_no_fence _ Hbody). rewrite !chars_append.
    pose proof (fenced_block_body (JsString.chars before) (JsString.chars body)
                  (JsString.chars after) tagged Hbefore Hbody) as Hblock.
    replace (JsString.chars (if tagged then "json" else ""))
      with (if tagged then JsString.chars "json" else []) by (now destruct tagged).
    change (JsString.chars "```") with DeepseekService.backticks.
    change (JsString.chars nl) with ["010"%char].
    cbn [app] in *.
    destruct (DeepseekService.fenced_block _) as [block |]; [| discriminate Hblock].
    cbn in Hblock. injection Hblock as ->. reflexivity. }
  unfold DeepseekService.parseIssuesFromResponse. now rewrite Hsame.
Qed.

(** The reply with one finding, announced and fenced. *)
Lemma parseIssuesFromResponse_fenced_sample :
  DeepseekService.parseIssuesFromResponse Samples.shop 1700000000000
    ("Here is the audit:" +:+ nl +:+ "```json" +:+ nl +:+ Samples.finding_json +:+ nl
     +:+ "```" +:+ nl +:+ "Let me know if you need more.")
  = DeepseekService.parseIssuesFromResponse Samples.shop 1700000000000 Samples.finding_json.
Proof.
  exact (parseIssuesFromResponse_fenced Samples.shop 1700000000000
           ("Here is the audit:" +:+ nl) Samples.finding_json
           (nl +:+ "Let me know if you need more.") true eq_refl eq_refl).
Defined.

(** ** The AI service's stream *)

Section StreamFacts.

Variable env : Environment.

Lemma split_on_nonempty (sep : ascii) (s : list ascii) : JsString.split_on sep s <> [].
Proof.
  destruct s as [| c s]; [discriminate |]. cbn.
  destruct (Ascii.eqb c sep); [discriminate |].
  destruct (JsString.split_on sep s); discriminate.
Qed.

(** Splitting at a separator splits the list of lines. *)
Lemma split_on_app (sep : ascii) (a b : list ascii) :
  JsString.split_on sep (a ++ sep :: b)
  = (JsString.split_on sep a ++ JsString.split_on sep b)%list.
Proof.
  induction a as [| c a IH]; cbn [app JsString.split_on].
  - now rewrite Ascii.eqb_refl.
  - rewrite IH. destruct (Ascii.eqb c sep); [reflexivity |].
    pose proof (split_on_nonempty sep a) as Hne.
    destruct (JsString.split_on sep a) as [| l ls]; [contradiction | reflexivity].
Qed.

Lemma decode_chunk_lines (lines : list (list ascii)) (chunk : string) :
  JsString.split_on "010" (JsString.chars chunk) = lines ->
  DeepseekService.decode_chunk env chunk =
    omap (DeepseekService.decode_line env)
      (filter (fun line => JsString.starts_with (JsString.chars "data:")
                             (JsString.trim_chars line) = true) lines).
Proof. intros <-. reflexivity. Qed.

(** A chunk boundary right after a line feed is not seen. *)
Lemma decode_chunk_app (first second : string) :
  DeepseekService.decode_chunk env (first +:+ nl +:+ second)
  = (DeepseekService.decode_chunk env first ++ DeepseekService.decode_chunk env second)%list.
Proof.
  unfold DeepseekService.decode_chunk. rewrite !chars_append.
  change (JsString.chars nl ++ JsString.chars second)%list
    with ("010"%char :: JsString.chars second).
  now rewrite split_on_app, filter_app, omap_app.
Qed.

Lemma decode_chunk_empty : DeepseekService.decode_chunk env "" = [].
Proof. reflexivity. Qed.

Lemma ends_with_line_feed (chunk : string) :
  JsString.ends_with (JsString.chars nl) (JsString.chars chunk) = true ->
  exists line, chunk = line +:+ nl.
Proof.
  unfold JsString.ends_with. intros Hends.
  destruct (rev (JsString.chars chunk)) as [| c reversed] eqn:Hrev; [discriminate Hends |].
  cbn in Hends. rewrite andb_true_r in Hends. apply Ascii.eqb_eq in Hends as <-.
  exists (JsString.of_chars (rev reversed)).
  rewrite <- (of_chars_chars chunk), <- (rev_involutive (JsString.chars chunk)), Hrev.
  cbn [rev]. rewrite <- (of_chars_chars (_ +:+ nl)), chars_append, chars_of_chars.
  reflexivity.
Qed.

Lemma append_empty (s : string) : s +:+ "" = s.
Proof.
  induction s as [| c s IH]; [reflexivity |].
  change (String c (s +:+ "") = String c s). now rewrite IH.
Qed.

Lemma append_assoc (a b c : string) : (a +:+ b) +:+ c = a +:+ b +:+ c.
Proof.
  induction a as [| d a IH]; [reflexivity |].
  change (String d ((a +:+ b) +:+ c) = String d (a +:+ b +:+ c)). now rewrite IH.
Qed.

Lemma concat_cons (chunk : string) (chunks : list string) :
  String.concat "" (chunk :: chunks) = chunk +:+ String.concat "" chunks.
Proof. destruct chunks; cbn [String.concat]; [now rewrite append_empty | reflexivity]. Qed.

End StreamFacts.

(** X16. The engine decodes the AI service's stream chunk by chunk,
    without carrying an unfinished line over; when every chunk ends with
    a line feed this loses nothing: the pieces of text it extracts, and
    so the text it accumulates, are those of the stream taken as one
    chunk. *)
Theorem decode_chunk_by_lines (env : Environment) (chunks : list string) :
  Forall (fun chunk => JsString.ends_with (JsString.chars nl) (JsString.chars chunk) = true)
         chunks ->
  concat (map (DeepseekService.decode_chunk env) chunks)
    = DeepseekService.decode_chunk env (String.concat "" chunks)
  /\ accumulated env chunks = accumulated env [String.concat "" chunks].
Proof.
  intros Hlines.
  assert (Hsame : concat (map (DeepseekService.decode_chunk env) chunks)
                  = DeepseekService.decode_chunk env (String.concat "" chunks)).
  { induction Hlines as [| chunk chunks Hchunk _ IH]; [now rewrite decode_chunk_empty |].
    rewrite concat_cons. cbn [map concat]. rewrite IH.
    destruct (ends_with_line_feed _ Hchunk) as [line ->].
    rewrite append_assoc, decode_chunk_app.
    rewrite <- (append_empty (line +:+ nl)), append_assoc, decode_chunk_app,
      decode_chunk_empty, app_nil_r.
    reflexivity. }
  split; [exact Hsame |].
  unfold accumulated. cbn [map concat]. now rewrite Hsame, app_nil_r.
Qed.

(** The sample reply streamed in two chunks of whole lines. *)
Lemma decode_chunk_by_lines_sample :
  concat (map (DeepseekService.decode_chunk Samples.shop)
              (Samples.chunks_of Samples.finding_json))
    = DeepseekService.decode_chunk Samples.shop
        (String.concat "" (Samples.chunks_of Samples.finding_json))
  /\ accumulated Samples.shop (Samples.chunks_of Samples.finding_json)
     = accumulated Samples.shop [String.concat "" (Samples.chunks_of Samples.finding_json)].
Proof.
  apply (decode_chunk_by_lines Samples.shop (Samples.chunks_of Samples.finding_json)).
  repeat constructor.
Defined.

(** ** Runs that end early *)

(** X17. A URL that [parseGitHubUrl] rejects ends the run at once: one
    [error] event with code [INVALID_URL], not retryable, the response
    ended, and not a single request. *)
Theorem analyzeRepository_invalid_url
    (env : Environment) (repoUrl apiKey : string) (priority : PriorityLevel)
    (githubToken : option string) (w0 : World) :
  response_open w0 ->
  GithubService.parseGitHubUrl repoUrl = None ->
  AnalysisService.analyzeRepository env repoUrl apiKey priority githubToken w0
  = (Returned tt, ended (emit (ErrorEvent "Invalid GitHub URL format" "INVALID_URL" false) w0)).
Proof.
  intros Hopen Hurl.
  unfold AnalysisService.analyzeRepository, try_finally, try_catch, AnalysisService.try_block.
  rewrite Hurl. unfold AnalysisService.sendError.
  erewrite bind_returned by (apply sendSSE_open; exact Hopen).
  reflexivity.
Qed.

(** An SSH clone URL has a colon where the pattern wants a slash. *)
Lemma analyzeRepository_invalid_url_sample :
  AnalysisService.analyzeRepository Samples.shop "git@github.com:acme/shop.git" "sk-sample" P1
    None Samples.fresh
  = (Returned tt,
     ended (emit (ErrorEvent "Invalid GitHub URL format" "INVALID_URL" false) Samples.fresh)).
Proof.
  exact (analyzeRepository_invalid_url Samples.shop "git@github.com:acme/shop.git" "sk-sample"
           P1 None Samples.fresh eq_refl eq_refl).
Defined.

(** What [validateRepo] makes of the provider's answer. *)
Lemma validateRepo_run (env : Environment) (owner repo : string) (token : option string)
    (w : World) :
  GithubService.validateRepo env owner repo token w =
    (match repos_get env (calls w) (GithubService.createOctokit env token) owner repo with
     | inr data =>
         Returned {| ri_owner := owner;
                     ri_name := repo;
                     fullName := full_name data;
                     ri_description := rd_description data;
                     stars := stargazers_count data;
                     ri_language := rd_language data;
                     lastUpdate := updated_at data;
                     defaultBranch := default_branch data;
                     isPrivate := private data |}
     | inl e =>
         Thrown (Error (if bool_decide (status e = Some 404) then
                          "Repository not found: " +:+ owner +:+ "/" +:+ repo
                        else if bool_decide (status e = Some 403) then
                          "GitHub API rate limit exceeded. Try again later or add a GITHUB_TOKEN."
                        else "Failed to fetch repository: " +:+ message e))
     end,
     after_request (ReposGet (GithubService.createOctokit env token) owner repo)
       (elapsed env (calls w) (ReposGet (GithubService.createOctokit env token) owner repo)) w).
Proof.
  unfold GithubService.validateRepo, GithubService.octokit_repos_get,
    GithubService.octokit_request, try_catch, bind, throw, ret.
  destruct (repos_get env (calls w) _ owner repo) as [e | data]; [| reflexivity].
  destruct (bool_decide (status e = Some 404)); [reflexivity |].
  destruct (bool_decide (status e = Some 403)); reflexivity.
Qed.

Lemma createOctokit_fallback (env : Environment) (token : option string) :
  truthy_string token = false -> GithubService.createOctokit env token = GITHUB_TOKEN env.
Proof. intros Htoken. unfold GithubService.createOctokit. now rewrite Htoken. Qed.

(** X18. A private repository is not read for a caller without a token
    of their own, even where the server's token lets the lookup see it:
    the run issues the lookup and nothing else, and ends with one
    [error] event with code [PRIVATE_REPO]. *)
Theorem analyzeRepository_private_repository
    (env : Environment) (repoUrl apiKey : string) (priority : PriorityLevel)
    (githubToken : option string) (w0 : World) (owner repo : string) (data : RepoData) :
  response_open w0 ->
  GithubService.parseGitHubUrl repoUrl = Some (owner, repo) ->
  truthy_string githubToken = false ->
  repos_get env (calls w0) (GITHUB_TOKEN env) owner repo = inr data ->
  private data = true ->
  exists w',
    AnalysisService.analyzeRepository env repoUrl apiKey priority githubToken w0
      = (Returned tt, w')
    /\ calls w' = (calls w0 ++ [ReposGet (GITHUB_TOKEN env) owner repo])%list
    /\ written w' = (written w0
                     ++ [ StatusEvent "Validating repository..." 0 0 None;
                          ErrorEvent "Private repositories require login" "PRIVATE_REPO"
                                     false ])%list
    /\ writableEnded w' = true.
Proof.
  intros Hopen Hurl Htoken Hlookup Hprivate.
  unfold AnalysisService.analyzeRepository, try_finally, try_catch, AnalysisService.try_block.
  rewrite Hurl. unfold AnalysisService.sendStatus at 1.
  erewrite bind_returned by (apply sendSSE_open; exact Hopen).
  erewrite bind_returned.
  2:{ unfold try_catch. erewrite bind_returned; [reflexivity |].
      rewrite validateRepo_run, (createOctokit_fallback _ _ Htoken). cbn [calls emit].
      rewrite Hlookup. reflexivity. }
  cbn iota. cbn [isPrivate]. rewrite Hprivate, Htoken. cbn [andb negb].
  unfold AnalysisService.sendError.
  erewrite bind_returned by (apply sendSSE_open; exact Hopen).
  cbn. eexists. split; [reflexivity |]. cbn. rewrite <- app_assoc. auto.
Qed.

(** A private [acme/vault], visible to the server's token, asked for
    anonymously. *)
Lemma analyzeRepository_private_repository_sample :
  exists w',
    AnalysisService.analyzeRepository Samples.vault "https://github.com/acme/vault" "sk-sample"
      P1 None Samples.fresh = (Returned tt, w')
    /\ calls w' = [ReposGet (Some "ghp_server") "acme" "vault"]
    /\ written w' = [ StatusEvent "Validating repository..." 0 0 None;
                      ErrorEvent "Private repositories require login" "PRIVATE_REPO" false ]
    /\ writableEnded w' = true.
Proof.
  exact (analyzeRepository_private_repository Samples.vault "https://github.com/acme/vault"
           "sk-sample" P1 None Samples.fresh "acme" "vault" Samples.vault_data
           eq_refl eq_refl eq_refl eq_refl eq_refl).
Defined.

(** ** The analysis step, continued *)

Section AnalysisOutcomes.

Variable env : Environment.

(** The analysis step when the AI service streams its whole reply: the
    marks, the status, then one [issue] event per finding. *)
Lemma analyze_with_ai_findings (files : list FileContent) (apiKey : string)
    (priority : PriorityLevel) (chunks : list string) (w : World) :
  response_open w ->
  chat_completions env (calls w) apiKey (getPromptForPriority env priority)
    (DeepseekService.userMessageFor files) true = AiBody chunks None ->
  exists timestamp w',
    AnalysisService.analyze_with_ai env apiKey priority files w
      = (Returned (TokenCounter.estimateTokens (getPromptForPriority env priority)
                   + TokenCounter.estimateTokens (DeepseekService.userMessageFor files),
                   TokenCounter.estimateTokens (accumulated env chunks),
                   DeepseekService.parseIssuesFromResponse env timestamp
                     (accumulated env chunks)), w')
    /\ written w' =
         (written w ++ fetched_marks priority files ++ [analysing_status files]
          ++ map IssueEvent
               (DeepseekService.parseIssuesFromResponse env timestamp
                  (accumulated env chunks)))%list
    /\ calls w' = (calls w ++ [analysis_request env files apiKey priority])%list
    /\ response_open w'.
Proof.
  intros Hopen Hbody. unfold AnalysisService.analyze_with_ai.
  unfold AnalysisService.sendFileEvent.
  erewrite bind_returned
    by (apply (for_each_emit_all files
                 (fun file => FileEvent (fc_path file) priority complete)); exact Hopen).
  unfold AnalysisService.sendStatus.
  erewrite bind_returned by (apply sendSSE_open; exact Hopen).
  unfold for_await.
  rewrite streamAnalysis_of_body with (chunks := chunks) by exact Hbody.
  unfold chunk_events. rewrite for_each_with_chunks.
  cbn [for_each_with AnalysisService.on_stream_event].
  unfold AnalysisService.sendIssue.
  erewrite bind_returned.
  2:{ erewrite bind_returned; [reflexivity |].
      apply (for_each_emit_all _ IssueEvent). exact Hopen. }
  cbn [ret]. do 2 eexists. split; [reflexivity |]. cbn.
  split; [now rewrite <- !app_assoc |]. split; [reflexivity | exact Hopen].
Qed.

(** The analysis step when the AI service rejects the request. *)
Lemma analyze_with_ai_rejected (files : list FileContent) (apiKey : string)
    (priority : PriorityLevel) (status : Z) (errorText : string) (w : World) :
  response_open w ->
  chat_completions env (calls w) apiKey (getPromptForPriority env priority)
    (DeepseekService.userMessageFor files) true = AiNotOk status errorText ->
  exists error w',
    AnalysisService.analyze_with_ai env apiKey priority files w = (Thrown error, w')
    /\ AnalysisService.report_failure error w'
       = (Returned tt, emit (rejection_report status errorText) w')
    /\ written w' = (written w ++ fetched_marks priority files ++ [analysing_status files])%list
    /\ calls w' = (calls w ++ [analysis_request env files apiKey priority])%list.
Proof.
  intros Hopen Hanswer. unfold AnalysisService.analyze_with_ai.
  unfold AnalysisService.sendFileEvent.
  erewrite bind_returned
    by (apply (for_each_emit_all files
                 (fun file => FileEvent (fc_path file) priority complete)); exact Hopen).
  unfold AnalysisService.sendStatus.
  erewrite bind_returned by (apply sendSSE_open; exact Hopen).
  unfold for_await, DeepseekService.streamAnalysis, DeepseekService.fetch_chat.
  cbn [calls emit emit_all]. rewrite Hanswer.
  unfold rejection_report.
  destruct (bool_decide (status = 401)).
  { do 2 eexists. split; [reflexivity |]. split; [| split].
    - unfold AnalysisService.report_failure, AnalysisService.sendError, Error. cbn [message].
      change (JsString.includes "Invalid DeepSeek API key" "API key") with true. cbv iota.
      apply sendSSE_open. exact Hopen.
    - cbn. now rewrite <- app_assoc.
    - reflexivity. }
  destruct (bool_decide (status = 429)).
  { do 2 eexists. split; [reflexivity |]. split; [| split].
    - unfold AnalysisService.report_failure, AnalysisService.sendError, Error. cbn [message].
      change (JsString.includes "DeepSeek rate limit exceeded. Please wait and try again."
                "API key") with false.
      change (JsString.includes "DeepSeek rate limit exceeded. Please wait and try again."
                "rate limit") with true.
      cbv iota. apply sendSSE_open. exact Hopen.
    - cbn. now rewrite <- app_assoc.
    - reflexivity. }
  do 2 eexists. split; [reflexivity |]. split; [| split].
  - unfold AnalysisService.report_failure, AnalysisService.sendError, Error. cbn [message].
    cbv zeta.
    destruct (JsString.includes _ "API key");
      [| destruct (JsString.includes _ "rate limit")];
      apply sendSSE_open; exact Hopen.
  - cbn. now rewrite <- app_assoc.
  - reflexivity.
Qed.

End AnalysisOutcomes.

(** X19. When the AI service rejects the analysis request, the run ends
    with one [error] event after the marks of the fetched files and the
    status, writes no [issue] and no [complete] event, and issues no
    request after the rejected one.  Status 401 is reported with code
    [INVALID_API_KEY], status 429 with [RATE_LIMITED] and
    [retryable = true]; any other status with [ANALYSIS_ERROR], unless
    the text the service sent along holds [API key] or [rate limit]. *)
Theorem ai_rejection_is_reported
    (env : Environment) (repoUrl apiKey : string) (priority : PriorityLevel)
    (githubToken : option string) (w0 : World) (owner repo : string)
    (files : list FileContent) (w2 : World) (status : Z) (errorText : string) :
  response_open w0 ->
  fetch_phase_yields env repoUrl priority githubToken w0 owner repo files w2 ->
  files <> [] ->
  chat_completions env (calls w2) apiKey (getPromptForPriority env priority)
    (DeepseekService.userMessageFor files) true = AiNotOk status errorText ->
  exists w',
    AnalysisService.analyzeRepository env repoUrl apiKey priority githubToken w0
      = (Returned tt, w')
    /\ written w' = (written w2 ++ fetched_marks priority files
                     ++ [analysing_status files; rejection_report status errorText])%list
    /\ calls w' = (calls w2 ++ [analysis_request env files apiKey priority])%list
    /\ writableEnded w' = true.
Proof.
  intros Hopen Hfetch Hfiles Hanswer.
  destruct (fetch_phase_advances env _ _ _ _ _ _ _ _ Hfetch) as (_ & _ & Hended).
  assert (Hopen2 : response_open w2) by (unfold response_open; congruence).
  destruct (analyze_with_ai_rejected env files apiKey priority status errorText w2
              Hopen2 Hanswer) as (error & w3 & Hanalysis & Hreport & Hwritten & Hcalls).
  rewrite (analyzeRepository_fetched env _ apiKey _ _ _ _ _ _ _ Hopen Hfetch).
  destruct files as [| file files']; [now destruct Hfiles |].
  unfold try_finally, try_catch, AnalysisService.analyze_files.
  erewrite bind_thrown by exact Hanalysis. rewrite Hreport.
  cbn. eexists. split; [reflexivity |]. cbn. rewrite Hwritten, Hcalls, <- !app_assoc. auto.
Qed.

(** The tier-1 run on [acme/shop] with a key the AI service does not
    accept. *)
Lemma ai_rejection_is_reported_sample :
  exists w',
    AnalysisService.analyzeRepository Samples.bad_key Samples.shop_url "sk-wrong" P1 None
      Samples.fresh = (Returned tt, w')
    /\ written w' = (written (SampleRuns.fetched Samples.bad_key P1)
                     ++ fetched_marks P1 SampleRuns.tier1_files
                     ++ [ analysing_status SampleRuns.tier1_files;
                          ErrorEvent "Invalid DeepSeek API key" "INVALID_API_KEY" false ])%list
    /\ calls w' = (calls (SampleRuns.fetched Samples.bad_key P1)
                   ++ [analysis_request Samples.bad_key SampleRuns.tier1_files "sk-wrong" P1])%list
    /\ writableEnded w' = true.
Proof.
  apply (ai_rejection_is_reported Samples.bad_key Samples.shop_url "sk-wrong" P1 None
           Samples.fresh "acme" "shop" SampleRuns.tier1_files
           (SampleRuns.fetched Samples.bad_key P1) 401 "Authentication Fails").
  - reflexivity.
  - split; [reflexivity |].
    exists SampleRuns.shop_info, (SampleRuns.validated Samples.bad_key), 1.
    repeat split; vm_compute; reflexivity.
  - discriminate.
  - reflexivity.
Defined.

(** ** How a run ends *)

Section Closing.

Variable env : Environment.

Lemma fetch_phase_event_running (e : SSEEvent) :
  fetch_phase_event e = true -> running_event e = true.
Proof. destruct e; cbn; intros H; try discriminate H; reflexivity. Qed.

Lemma quiet_of_fetch (w w' : World) :
  advances not_ai_call fetch_phase_event w w' -> advances any_call running_event w w'.
Proof. apply advances_weaken; [reflexivity | apply fetch_phase_event_running]. Qed.

Lemma quiet_of_silent (w w' : World) :
  advances not_ai_call no_event w w' -> advances any_call running_event w w'.
Proof. apply advances_weaken; [reflexivity | discriminate]. Qed.

Lemma streamAnalysis_advances (files : list FileContent) (apiKey : string)
    (priority : PriorityLevel) (w : World) (result : list StreamEvent * option JsError)
    (w1 : World) :
  DeepseekService.streamAnalysis env files apiKey priority w = (result, w1) ->
  advances any_call running_event w w1.
Proof.
  unfold DeepseekService.streamAnalysis, DeepseekService.fetch_chat. intros Hrun.
  assert (w1 = after_request (analysis_request env files apiKey priority)
                 (elapsed env (calls w) (analysis_request env files apiKey priority)) w) as ->.
  { unfold analysis_request.
    destruct (chat_completions env _ _ _ _ _) as [e | status errorText | | chunks [e |]];
      try (now injection Hrun as _ <-).
    destruct (bool_decide (status = 401)); [now injection Hrun as _ <- |].
    destruct (bool_decide (status = 429)); now injection Hrun as _ <-. }
  now apply advances_after_request.
Qed.

Lemma quiet_on_stream_event (state : Z * Z * list AnalysisIssue) (event : StreamEvent) :
  keeps (advances any_call running_event) (AnalysisService.on_stream_event state event).
Proof.
  destruct event as [content | issues inputTokens outputTokens cost]; cbn.
  - apply frame_ret.
  - apply frame_bind; [| intros _; apply frame_ret].
    apply frame_for_each. intros issue. now apply frame_sendSSE.
Qed.

Lemma quiet_analyze_with_ai (apiKey : string) (priority : PriorityLevel)
    (files : list FileContent) :
  keeps (advances any_call running_event)
        (AnalysisService.analyze_with_ai env apiKey priority files).
Proof.
  unfold AnalysisService.analyze_with_ai.
  apply frame_bind; [apply frame_for_each; intros file; now apply frame_sendSSE | intros _].
  apply frame_bind; [now apply frame_sendSSE | intros _].
  intros w r w' Hrun. unfold for_await in Hrun.
  destruct (DeepseekService.streamAnalysis env files apiKey priority w)
    as [[events failure] w1] eqn:Hstream.
  apply streamAnalysis_advances in Hstream.
  destruct (for_each_with events AnalysisService.on_stream_event (0, 0, []) w1)
    as [loop w2] eqn:Hloop.
  assert (Hbody : advances any_call running_event w1 w2).
  { revert Hloop. apply keeps_for_each_with;
      [apply advances_refl | apply advances_trans | intros; apply quiet_on_stream_event]. }
  assert (w' = w2) as -> by (destruct loop, failure; now injection Hrun as _ <-).
  exact (advances_trans _ _ _ _ _ Hstream Hbody).
Qed.

Lemma analyze_files_closes (owner repo apiKey : string) (priority : PriorityLevel)
    (githubToken : option string) (files : list FileContent)
    (w : World) (r : outcome unit) (w' : World) :
  AnalysisService.analyze_files env owner repo apiKey priority githubToken files w = (r, w') ->
  match r with
  | Returned _ =>
      exists w1 data, advances any_call running_event w w1
                      /\ w' = send (CompleteEvent data) w1
  | Thrown _ => advances any_call running_event w w'
  end.
Proof.
  intros H. unfold AnalysisService.analyze_files in H.
  apply bind_inv in H as [([[inputTokens outputTokens] issues] & wa & Hanalysis & H)
                         | (e & Hanalysis & ->)].
  2:{ now apply quiet_analyze_with_ai in Hanalysis. }
  apply quiet_analyze_with_ai in Hanalysis.
  apply bind_inv in H as [(estimate & wb & Hnext & H) | (e & Hnext & ->)].
  2:{ apply frame_estimate_next, quiet_of_silent in Hnext.
      exact (advances_trans _ _ _ _ _ Hanalysis Hnext). }
  apply frame_estimate_next, quiet_of_silent in Hnext.
  unfold AnalysisService.sendComplete in H. rewrite sendSSE_run in H.
  injection H as <- <-. do 2 eexists.
  split; [exact (advances_trans _ _ _ _ _ Hanalysis Hnext) | reflexivity].
Qed.

(** The [try] block either throws before any closing event, or returns
    right after the one closing event it wrote (having ended the
    response or not). *)
Lemma try_block_closes (repoUrl apiKey : string) (priority : PriorityLevel)
    (githubToken : option string) (w : World) (r : outcome unit) (w' : World) :
  AnalysisService.try_block env repoUrl apiKey priority githubToken w = (r, w') ->
  match r with
  | Returned _ =>
      exists w1 closing, advances any_call running_event w w1
                         /\ closing_event closing = true
                         /\ (w' = send closing w1 \/ w' = ended (send closing w1))
  | Thrown _ => advances any_call running_event w w'
  end.
Proof.
  intros H. unfold AnalysisService.try_block in H.
  destruct (GithubService.parseGitHubUrl repoUrl) as [[owner repo] |].
  2:{ unfold AnalysisService.sendError in H.
      erewrite bind_returned in H by apply sendSSE_run. injection H as <- <-.
      do 2 eexists. split; [apply advances_refl |]. split; [| right; reflexivity].
      reflexivity. }
  apply bind_inv in H as [(u & wa & Hstatus & H) | (e & Hstatus & ->)].
  2:{ revert Hstatus. now apply frame_sendSSE. }
  assert (Hwa : advances any_call running_event w wa)
    by (revert Hstatus; now apply frame_sendSSE).
  destruct (GithubService.validateRepo env owner repo githubToken wa)
    as [[repoInfo | e] wb] eqn:Hvalidate.
  - assert (Hwb : advances any_call running_event w wb).
    { apply (advances_trans _ _ _ _ _ Hwa).
      apply (frame_validateRepo env fetch_phase_event), quiet_of_fetch in Hvalidate.
      exact Hvalidate. }
    erewrite bind_returned in H.
    2:{ unfold try_catch. erewrite bind_returned by exact Hvalidate. reflexivity. }
    cbn iota in H.
    destruct (isPrivate repoInfo && negb (truthy_string githubToken)).
    { unfold AnalysisService.sendError in H.
      erewrite bind_returned in H by apply sendSSE_run. injection H as <- <-.
      do 2 eexists. split; [exact Hwb |]. split; [| right; reflexivity]. reflexivity. }
    apply bind_inv in H as [(u' & wc & Hscan & H) | (e & Hscan & ->)].
    2:{ apply (advances_trans _ _ _ _ _ Hwb). revert Hscan. now apply frame_sendSSE. }
    assert (Hwc : advances any_call running_event w wc).
    { apply (advances_trans _ _ _ _ _ Hwb). revert Hscan. now apply frame_sendSSE. }
    apply bind_inv in H as [([files totalMatching] & wd & Hfetch & H) | (e & Hfetch & ->)].
    2:{ apply (advances_trans _ _ _ _ _ Hwc), quiet_of_fetch.
        revert Hfetch. apply frame_getFilesForPriority, callback_keeps_report_progress. }
    assert (Hwd : advances any_call running_event w wd).
    { apply (advances_trans _ _ _ _ _ Hwc), quiet_of_fetch.
      revert Hfetch. apply frame_getFilesForPriority, callback_keeps_report_progress. }
    destruct files as [| file files].
    + apply bind_inv in H as [(u'' & we & Hnone & H) | (e & Hnone & ->)].
      2:{ apply (advances_trans _ _ _ _ _ Hwd). revert Hnone. now apply frame_sendSSE. }
      assert (Hwe : advances any_call running_event w we).
      { apply (advances_trans _ _ _ _ _ Hwd). revert Hnone. now apply frame_sendSSE. }
      unfold AnalysisService.sendComplete in H.
      erewrite bind_returned in H by apply sendSSE_run. injection H as <- <-.
      do 2 eexists. split; [exact Hwe |]. split; [| right; reflexivity]. reflexivity.
    + apply analyze_files_closes in H. destruct r as [u'' | e].
      * destruct H as (w1 & data & Hw1 & ->). exists w1, (CompleteEvent data).
        split; [exact (advances_trans _ _ _ _ _ Hwd Hw1) |]. split; [reflexivity | now left].
      * exact (advances_trans _ _ _ _ _ Hwd H).
  - assert (Hwb : advances any_call running_event w wb).
    { apply (advances_trans _ _ _ _ _ Hwa).
      apply (frame_validateRepo env fetch_phase_event), quiet_of_fetch in Hvalidate.
      exact Hvalidate. }
    erewrite bind_returned in H.
    2:{ unfold try_catch. erewrite bind_thrown by exact Hvalidate.
        unfold AnalysisService.sendError. erewrite bind_returned by apply sendSSE_run.
        reflexivity. }
    injection H as <- <-.
    do 2 eexists. split; [exact Hwb |]. split; [| right; reflexivity]. reflexivity.
Qed.

End Closing.

(** X20. Every run on an open response returns (it never throws), ends
    the response, and writes exactly one closing event, a [complete] or
    an [error], as the last of its events: whatever the repository, the
    provider and the AI service answer. *)
Theorem analyzeRepository_closes_once
    (env : Environment) (repoUrl apiKey : string) (priority : PriorityLevel)
    (githubToken : option string) (w0 : World) :
  response_open w0 ->
  exists w' events closing,
    AnalysisService.analyzeRepository env repoUrl apiKey priority githubToken w0
      = (Returned tt, w')
    /\ written w' = (written w0 ++ events ++ [closing])%list
    /\ forallb running_event events = true
    /\ closing_event closing = true
    /\ writableEnded w' = true.
Proof.
  intros Hopen. unfold AnalysisService.analyzeRepository, try_finally, try_catch.
  destruct (AnalysisService.try_block env repoUrl apiKey priority githubToken w0)
    as [[[] | e] w1] eqn:Hblock; apply try_block_closes in Hblock.
  - destruct Hblock as (wq & closing & (_ & (events & Hwritten & Hevents) & Hended)
                        & Hclosing & Hw1).
    assert (Hsend : send closing wq = emit closing wq).
    { unfold send. unfold response_open in Hopen. now rewrite Hended, Hopen. }
    rewrite Hsend in Hw1.
    exists (ended (emit closing wq)), events, closing.
    split; [destruct Hw1 as [-> | ->]; reflexivity |].
    cbn. rewrite Hwritten, <- app_assoc. auto.
  - destruct Hblock as (_ & (events & Hwritten & Hevents) & Hended).
    assert (Hopen1 : response_open w1) by (unfold response_open in *; congruence).
    unfold AnalysisService.report_failure, AnalysisService.sendError.
    destruct (JsString.includes (message e) "API key");
      [| destruct (JsString.includes (message e) "rate limit")];
      rewrite (sendSSE_open _ _ Hopen1); cbn;
      do 3 eexists; (split; [reflexivity |]); cbn; rewrite Hwritten, <- app_assoc; auto.
Qed.

(** A tier-2 run on [acme/shop] that meets the provider's rate limit
    while it lists the tree. *)
Lemma analyzeRepository_closes_once_sample :
  exists w' events closing,
    AnalysisService.analyzeRepository Samples.throttled_later Samples.shop_url "sk-sample" P2
      None Samples.fresh = (Returned tt, w')
    /\ written w' = (written Samples.fresh ++ events ++ [closing])%list
    /\ forallb running_event events = true
    /\ closing_event closing = true
    /\ writableEnded w' = true.
Proof.
  exact (analyzeRepository_closes_once Samples.throttled_later Samples.shop_url "sk-sample" P2
           None Samples.fresh eq_refl).
Defined.


Lemma shop_fetch_phase :
  fetch_phase_yields Samples.shop Samples.shop_url P3 None Samples.fresh
    "acme" "shop" SampleRuns.tier3_files (SampleRuns.fetched Samples.shop P3).
Proof.
  split; [reflexivity |].
  exists SampleRuns.shop_info, (SampleRuns.validated Samples.shop), 1.
  repeat split; vm_compute; reflexivity.
Qed.


(** ** The stand-alone estimate, continued *)

(** X22. An estimate that goes through has issued either one request,
    the repository lookup (the tree was served from the cache), or
    three: the lookup, the same lookup again for the default branch, and
    the tree listing.  It never counts more than
    [MAX_FILES_PER_PRIORITY] files per tier, and takes 500 tokens for
    each file it counts. *)
Theorem getEstimate_requests_and_figures
    (env : Environment) (repoUrl : string) (githubToken : option string)
    (w : World) (estimate : AnalysisEstimate) (w' : World) :
  AnalysisService.getEstimate env repoUrl githubToken w = (Returned estimate, w') ->
  exists owner repo,
    GithubService.parseGitHubUrl repoUrl = Some (owner, repo)
    /\ (calls w' = (calls w ++ [ReposGet (GithubService.createOctokit env githubToken)
                                         owner repo])%list
        \/ exists branch,
             calls w' =
               (calls w ++ [ ReposGet (GithubService.createOctokit env githubToken) owner repo;
                             ReposGet (GithubService.createOctokit env githubToken) owner repo;
                             GitGetTree (GithubService.createOctokit env githubToken)
                                        owner repo branch ])%list)
    /\ pe_files (ae_priority1 estimate) <= MAX_FILES_PER_PRIORITY env
    /\ pe_files (ae_priority2 estimate) <= MAX_FILES_PER_PRIORITY env
    /\ pe_files (ae_priority3 estimate) <= MAX_FILES_PER_PRIORITY env
    /\ totalFiles estimate = pe_files (ae_priority1 estimate) + pe_files (ae_priority2 estimate)
                             + pe_files (ae_priority3 estimate)
    /\ totalEstimatedTokens estimate = 500 * totalFiles estimate.
Proof.
  unfold AnalysisService.getEstimate. intros Hrun.
  destruct (GithubService.parseGitHubUrl repoUrl) as [[owner repo] |]; [| discriminate Hrun].
  exists owner, repo. split; [reflexivity |].
  apply bind_inv in Hrun as [(repoInfo & w1 & Hvalidate & Hrun) | (e & _ & Hthrown)];
    [| discriminate Hthrown].
  pose proof (validateRepo_world env owner repo githubToken _ _ _ Hvalidate) as Hw1.
  destruct (isPrivate repoInfo && negb (truthy_string githubToken)); [discriminate Hrun |].
  apply bind_inv in Hrun as [(counts & w2 & Hcounts & Hret) | (e & _ & Hthrown)];
    [| discriminate Hthrown].
  injection Hret as <- <-. cbn.
  split; [| repeat split; lia].
  unfold GithubService.getCategorizedFileCounts in Hcounts.
  apply bind_inv in Hcounts as [(allFiles & w3 & Htree & Hret) | (e & _ & Hthrown)];
    [| discriminate Hthrown].
  injection Hret as _ <-.
  assert (Hcalls1 : calls w1 = (calls w ++ [ReposGet (GithubService.createOctokit env githubToken)
                                                     owner repo])%list)
    by (rewrite Hw1; reflexivity).
  destruct (fileTreeCache w1 !! GithubService.cacheKey owner repo None)
    as [[data timestamp] |] eqn:Hcached.
  - destruct (decide (now w1 - timestamp < GithubService.CACHE_TTL)) as [Hyoung | Hold].
    + rewrite (getFileTree_hit env owner repo None githubToken w1 data timestamp Hcached Hyoung)
        in Htree.
      injection Htree as _ <-. now left.
    + right. rewrite getFileTree_stale in Htree
        by (unfold stale; rewrite Hcached; lia).
      destruct (GithubService.validateRepo env owner repo githubToken w1)
        as [[info | e] wv] eqn:Hlookup.
      * destruct (fetchFileTree_default_branch env owner repo None githubToken w1 info wv
                    eq_refl Hlookup) as (r & w4 & Hfetch & Hcalls & _).
        rewrite Hfetch in Htree. injection Htree as _ <-.
        exists (defaultBranch info). rewrite Hcalls, Hcalls1, <- app_assoc. reflexivity.
      * destruct (fetchFileTree_lookup_fails env owner repo None githubToken w1 e wv
                    eq_refl Hlookup) as (error & Hfetch & _).
        rewrite Hfetch in Htree. discriminate Htree.
  - right. rewrite getFileTree_stale in Htree by (unfold stale; now rewrite Hcached).
    destruct (GithubService.validateRepo env owner repo githubToken w1)
      as [[info | e] wv] eqn:Hlookup.
    + destruct (fetchFileTree_default_branch env owner repo None githubToken w1 info wv
                  eq_refl Hlookup) as (r & w4 & Hfetch & Hcalls & _).
      rewrite Hfetch in Htree. injection Htree as _ <-.
      exists (defaultBranch info). rewrite Hcalls, Hcalls1, <- app_assoc. reflexivity.
    + destruct (fetchFileTree_lookup_fails env owner repo None githubToken w1 e wv
                  eq_refl Hlookup) as (error & Hfetch & _).
      rewrite Hfetch in Htree. discriminate Htree.
Qed.

(** The estimate of [acme/shop] on an empty cache: three requests. *)
Lemma getEstimate_requests_and_figures_sample :
  exists estimate w',
    AnalysisService.getEstimate Samples.shop Samples.shop_url None Samples.fresh
      = (Returned estimate, w')
    /\ calls w' = [ ReposGet None "acme" "shop"; ReposGet None "acme" "shop";
                    GitGetTree None "acme" "shop" "main" ]
    /\ totalFiles estimate = 3
    /\ totalEstimatedTokens estimate = 500 * totalFiles estimate.
Proof.
  destruct (AnalysisService.getEstimate Samples.shop Samples.shop_url None Samples.fresh)
    as [[estimate | e] w'] eqn:Hrun; [| vm_compute in Hrun; discriminate Hrun].
  exists estimate, w'. split; [reflexivity |].
  destruct (getEstimate_requests_and_figures Samples.shop Samples.shop_url None Samples.fresh
              estimate w' Hrun) as (owner & repo & _ & _ & _ & _ & _ & _ & Htokens).
  split; [| split; [| exact Htokens]];
    vm_compute in Hrun; injection Hrun as <- <-; reflexivity.
Defined.

(** ** The request handlers *)

Lemma starts_with_extended (p a b : list ascii) :
  JsString.starts_with p a = true -> JsString.starts_with p (a ++ b) = true.
Proof.
  revert a. induction p as [| c p IH]; intros [| d a] H; cbn in *; try discriminate H;
    [reflexivity | reflexivity |].
  apply andb_prop in H as [Hc H]. now rewrite Hc, (IH a H).
Qed.

Lemma index_of_extended (p a b : list ascii) :
  is_Some (JsString.index_of p a) -> is_Some (JsString.index_of p (a ++ b)).
Proof.
  induction a as [| c a IH]; cbn [JsString.index_of app].
  - destruct (JsString.starts_with p []) eqn:Hstart; [| intros [i Hi]; discriminate Hi].
    intros _. destruct p; [| discriminate Hstart].
    unfold JsString.index_of. destruct b; cbn; eauto.
  - destruct (JsString.starts_with p (c :: a)) eqn:Hstart.
    + intros _. change (c :: a ++ b)%list with ((c :: a) ++ b)%list.
      rewrite (starts_with_extended _ _ b Hstart). eauto.
    + intros Hfound. destruct (JsString.starts_with p (c :: a ++ b)); [eauto |].
      destruct (JsString.index_of p a) as [i |]; [| destruct Hfound as [i Hi]; discriminate Hi].
      destruct (IH ltac:(eauto)) as [j Hj]. rewrite Hj. cbn. eauto.
Qed.

(** A message that starts with a text holding [part] holds [part]. *)
Lemma includes_prefix (text rest part : string) :
  JsString.includes text part = true -> JsString.includes (text +:+ rest) part = true.
Proof.
  unfold JsString.includes. intros H. apply bool_decide_eq_true_1 in H.
  apply bool_decide_eq_true_2. rewrite chars_append. now apply index_of_extended.
Qed.

Section Handlers.

Variable env : Environment.

Lemma getEstimate_lookup_fails (url : string) (githubToken : option string) (w : World)
    (owner repo : string) (e : JsError) :
  GithubService.parseGitHubUrl url = Some (owner, repo) ->
  repos_get env (calls w) (GithubService.createOctokit env githubToken) owner repo = inl e ->
  fst (AnalysisService.getEstimate env url githubToken w) =
    Thrown (Error (if bool_decide (status e = Some 404) then
                     "Repository not found: " +:+ owner +:+ "/" +:+ repo
                   else if bool_decide (status e = Some 403) then
                     "GitHub API rate limit exceeded. Try again later or add a GITHUB_TOKEN."
                   else "Failed to fetch repository: " +:+ message e)).
Proof.
  intros Hurl Hanswer. unfold AnalysisService.getEstimate. rewrite Hurl.
  unfold bind. rewrite validateRepo_run, Hanswer. reflexivity.
Qed.

Lemma getEstimate_private (url : string) (githubToken : option string) (w : World)
    (owner repo : string) (data : RepoData) :
  GithubService.parseGitHubUrl url = Some (owner, repo) ->
  truthy_string githubToken = false ->
  repos_get env (calls w) (GITHUB_TOKEN env) owner repo = inr data ->
  private data = true ->
  AnalysisService.getEstimate env url githubToken w =
    (Thrown (Error "Private repositories require login"),
     after_request (ReposGet (GITHUB_TOKEN env) owner repo)
       (elapsed env (calls w) (ReposGet (GITHUB_TOKEN env) owner repo)) w).
Proof.
  intros Hurl Htoken Hanswer Hprivate. unfold AnalysisService.getEstimate. rewrite Hurl.
  unfold bind. rewrite validateRepo_run, (createOctokit_fallback _ _ Htoken), Hanswer.
  cbn [isPrivate]. rewrite Hprivate, Htoken. reflexivity.
Qed.

End Handlers.

(** X23. What [GET /api/estimate] answers when no estimate is made.  A
    missing [repoUrl] and a URL that does not parse are answered with
    status 400 without any request; a repository the provider does not
    know with 404 and the message naming it; the provider's rate limit,
    and a private repository asked for without login, with status 500
    and the same fixed message, which hides the reason. *)
Theorem estimate_error_replies
    (env : Environment) (repoUrl githubToken : option string) (w : World) :
  (truthy_string repoUrl = false ->
   AnalysisController.estimate env repoUrl githubToken w
   = (Returned {| http_status := 400;
                  body := ErrorBody "repoUrl query parameter is required" |}, w))
  /\ (forall url, repoUrl = Some url -> url <> "" ->
      (GithubService.parseGitHubUrl url = None ->
       AnalysisController.estimate env repoUrl githubToken w
       = (Returned {| http_status := 400; body := ErrorBody "Invalid GitHub URL format" |}, w))
      /\ (forall owner repo, GithubService.parseGitHubUrl url = Some (owner, repo) ->
          (forall e,
             repos_get env (calls w) (GithubService.createOctokit env githubToken) owner repo
               = inl e ->
             (status e = Some 404 ->
              fst (AnalysisController.estimate env repoUrl githubToken w)
              = Returned {| http_status := 404;
                            body := ErrorBody ("Repository not found: " +:+ owner +:+ "/"
                                               +:+ repo) |})
             /\ (status e = Some 403 ->
                 fst (AnalysisController.estimate env repoUrl githubToken w)
                 = Returned {| http_status := 500;
                               body := ErrorBody "Failed to estimate analysis" |}))
          /\ (forall data,
                truthy_string githubToken = false ->
                repos_get env (calls w) (GITHUB_TOKEN env) owner repo = inr data ->
                private data = true ->
                fst (AnalysisController.estimate env repoUrl githubToken w)
                = Returned {| http_status := 500;
                              body := ErrorBody "Failed to estimate analysis" |}))).
Proof.
  split.
  { intros Hmissing. unfold AnalysisController.estimate. now rewrite Hmissing. }
  intros url -> Hurl.
  assert (Htruthy : truthy_string (Some url) = true).
  { cbn. now rewrite bool_decide_eq_false_2. }
  unfold AnalysisController.estimate. rewrite Htruthy. cbn [negb].
  change (default "" (Some url)) with url.
  split.
  { intros Hparse. unfold try_catch, bind, AnalysisService.getEstimate. now rewrite Hparse. }
  intros owner repo Hparse. split.
  - intros e Hanswer.
    pose proof (getEstimate_lookup_fails env url githubToken w owner repo e Hparse Hanswer)
      as Hthrown.
    unfold try_catch, bind.
    destruct (AnalysisService.getEstimate env url githubToken w) as [r w1].
    cbn [fst] in Hthrown. subst r. split; intros Hstatus.
    + rewrite bool_decide_eq_true_2 by exact Hstatus. unfold Error. cbn [message].
      rewrite (includes_prefix "Repository not found: " (owner +:+ "/" +:+ repo) "not found")
        by reflexivity.
      reflexivity.
    + rewrite bool_decide_eq_false_2 by (rewrite Hstatus; discriminate).
      rewrite bool_decide_eq_true_2 by exact Hstatus. reflexivity.
  - intros data Htoken Hanswer Hprivate. unfold try_catch, bind.
    rewrite (getEstimate_private env url githubToken w owner repo data
               Hparse Htoken Hanswer Hprivate).
    reflexivity.
Qed.

(** The estimate of [acme/shop] asked from a provider that does not know
    it, from one that is rate limited, and of the private [acme/vault]
    without login. *)
Lemma estimate_error_replies_sample :
  fst (AnalysisController.estimate Samples.unknown_repository (Some Samples.shop_url) None
         Samples.fresh)
  = Returned {| http_status := 404; body := ErrorBody "Repository not found: acme/shop" |}
  /\ fst (AnalysisController.estimate Samples.throttled (Some Samples.shop_url) None
            Samples.fresh)
     = Returned {| http_status := 500; body := ErrorBody "Failed to estimate analysis" |}
  /\ fst (AnalysisController.estimate Samples.vault (Some "https://github.com/acme/vault") None
            Samples.fresh)
     = Returned {| http_status := 500; body := ErrorBody "Failed to estimate analysis" |}.
Proof.
  split; [| split].
  - apply (proj1 (proj1 (proj2 (proj2 (estimate_error_replies Samples.unknown_repository
                                         (Some Samples.shop_url) None Samples.fresh)
                                  Samples.shop_url eq_refl ltac:(discriminate))
                           "acme" "shop" eq_refl) Samples.not_found eq_refl)).
    reflexivity.
  - apply (proj2 (proj1 (proj2 (proj2 (estimate_error_replies Samples.throttled
                                         (Some Samples.shop_url) None Samples.fresh)
                                  Samples.shop_url eq_refl ltac:(discriminate))
                           "acme" "shop" eq_refl) Samples.rate_limited eq_refl)).
    reflexivity.
  - apply (proj2 (proj2 (proj2 (estimate_error_replies Samples.vault
                                  (Some "https://github.com/acme/vault") None Samples.fresh)
                           "https://github.com/acme/vault" eq_refl ltac:(discriminate))
                    "acme" "vault" eq_refl) Samples.vault_data eq_refl eq_refl eq_refl).
Defined.

(** X24. What [POST /api/validate-repo] answers.  A [repoUrl] that is
    missing, empty or not a string, and a URL that does not parse, are
    answered with status 400 without any request; a repository the
    provider shows, private or not, with status 200; one it does not
    know with 404; the provider's rate limit with 400. *)
Theorem validateRepo_replies
    (env : Environment) (repoUrl : jsval) (githubToken : option string) (w : World) :
  ((forall url, repoUrl = Some (JString url) -> url = "") ->
   AnalysisController.validateRepo env repoUrl githubToken w
   = (Returned {| http_status := 400; body := InvalidRepoBody "repoUrl is required" |}, w))
  /\ (forall url, repoUrl = Some (JString url) -> url <> "" ->
      (GithubService.parseGitHubUrl url = None ->
       AnalysisController.validateRepo env repoUrl githubToken w
       = (Returned {| http_status := 400;
                      body := InvalidRepoBody "Invalid GitHub URL format" |}, w))
      /\ (forall owner repo, GithubService.parseGitHubUrl url = Some (owner, repo) ->
          match repos_get env (calls w) (GithubService.createOctokit env githubToken)
                  owner repo with
          | inr data =>
              exists info,
                fst (AnalysisController.validateRepo env repoUrl githubToken w)
                = Returned {| http_status := 200; body := ValidRepoBody info |}
                /\ isPrivate info = private data
          | inl e =>
              (status e = Some 404 ->
               fst (AnalysisController.validateRepo env repoUrl githubToken w)
               = Returned {| http_status := 404;
                             body := InvalidRepoBody ("Repository not found: " +:+ owner
                                                      +:+ "/" +:+ repo) |})
              /\ (status e = Some 403 ->
                  fst (AnalysisController.validateRepo env repoUrl githubToken w)
                  = Returned {| http_status := 400;
                                body := InvalidRepoBody
                                          ("GitHub API rate limit exceeded. "
                                           +:+ "Try again later or add a GITHUB_TOKEN.") |})
          end)).
Proof.
  split.
  { intros Hnone. unfold AnalysisController.validateRepo.
    destruct repoUrl as [[| b | x | url | items | fields] |]; try reflexivity.
    rewrite (Hnone url eq_refl). reflexivity. }
  intros url -> Hurl. unfold AnalysisController.validateRepo.
  rewrite bool_decide_eq_false_2 by exact Hurl.
  unfold AnalysisService.validateRepository. split.
  { intros Hparse. rewrite Hparse. reflexivity. }
  intros owner repo Hparse. rewrite Hparse.
  unfold try_catch, bind. rewrite validateRepo_run.
  destruct (repos_get env (calls w) _ owner repo) as [e | data].
  - split; intros Hstatus.
    + rewrite bool_decide_eq_true_2 by exact Hstatus. unfold Error. cbn [message fst ret].
      rewrite (includes_prefix "Repository not found: " (owner +:+ "/" +:+ repo) "not found")
        by reflexivity.
      reflexivity.
    + rewrite bool_decide_eq_false_2 by (rewrite Hstatus; discriminate).
      rewrite bool_decide_eq_true_2 by exact Hstatus. reflexivity.
  - eexists. split; reflexivity.
Qed.

(** The private [acme/vault] validated without login, and [acme/shop]
    validated while the provider is rate limited. *)
Lemma validateRepo_replies_sample :
  (exists info,
     fst (AnalysisController.validateRepo Samples.vault
            (Some (JString "https://github.com/acme/vault")) None Samples.fresh)
     = Returned {| http_status := 200; body := ValidRepoBody info |}
     /\ isPrivate info = true)
  /\ fst (AnalysisController.validateRepo Samples.throttled
            (Some (JString Samples.shop_url)) None Samples.fresh)
     = Returned {| http_status := 400;
                   body := InvalidRepoBody
                             ("GitHub API rate limit exceeded. "
                              +:+ "Try again later or add a GITHUB_TOKEN.") |}.
Proof.
  split.
  - exact (proj2 (proj2 (validateRepo_replies Samples.vault
                           (Some (JString "https://github.com/acme/vault")) None Samples.fresh)
                    "https://github.com/acme/vault" eq_refl ltac:(discriminate))
             "acme" "vault" eq_refl).
  - apply (proj2 (proj2 (proj2 (validateRepo_replies Samples.throttled
                                  (Some (JString Samples.shop_url)) None Samples.fresh)
                           Samples.shop_url eq_refl ltac:(discriminate))
                    "acme" "shop" eq_refl)).
    reflexivity.
Defined.

(** ** The browser's reading of the event stream *)

Section LineBuffer.

Local Open Scope char_scope.

Lemma removelast_nonempty {A} (x : A) (l : list A) :
  l <> [] -> removelast (x :: l) = x :: removelast l.
Proof. destruct l; [contradiction | reflexivity]. Qed.

Lemma last_cons_nonempty {A} (x : A) (l : list A) : l <> [] -> last (x :: l) = last l.
Proof. destruct l; [contradiction | reflexivity]. Qed.

(** The lines of a text in two pieces: the whole lines of the first
    piece, then the lines of what its unfinished line and the second
    piece make together. *)
Lemma split_on_resume (sep : ascii) (a b : list ascii) :
  JsString.split_on sep (a ++ b)
  = (removelast (JsString.split_on sep a)
     ++ JsString.split_on sep (default [] (last (JsString.split_on sep a)) ++ b))%list.
Proof.
  induction a as [| c a IH]; [reflexivity |].
  cbn [app JsString.split_on]. rewrite IH.
  pose proof (split_on_nonempty sep a) as Hne.
  destruct (Ascii.eqb c sep) eqn:Hc.
  - rewrite (removelast_nonempty _ _ Hne), (last_cons_nonempty _ _ Hne). reflexivity.
  - destruct (JsString.split_on sep a) as [| l [| l' ls]]; [contradiction | |].
    + cbn [removelast last default from_option id app JsString.split_on]. rewrite Hc.
      reflexivity.
    + rewrite !removelast_nonempty by discriminate.
      rewrite !last_cons_nonempty by discriminate. reflexivity.
Qed.

Lemma split_on_lacks (sep : ascii) (s line : list ascii) :
  line ∈ JsString.split_on sep s -> lacks_chars sep line = true.
Proof.
  revert line. induction s as [| c s IH]; intros line Hin; cbn [JsString.split_on] in Hin.
  - apply list_elem_of_singleton in Hin as ->. reflexivity.
  - destruct (Ascii.eqb c sep) eqn:Hc.
    + apply elem_of_cons in Hin as [-> | Hin]; [reflexivity | exact (IH _ Hin)].
    + pose proof (split_on_nonempty sep s) as Hne.
      destruct (JsString.split_on sep s) as [| l ls]; [contradiction |].
      apply elem_of_cons in Hin as [-> | Hin].
      * cbn. rewrite Hc. apply IH. now left.
      * apply IH. now right.
Qed.

Lemma split_on_single (sep : ascii) (s : list ascii) :
  lacks_chars sep s = true -> JsString.split_on sep s = [s].
Proof.
  induction s as [| c s IH]; intros Hs; [reflexivity |].
  cbn in Hs. apply andb_prop in Hs as [Hc Hs]. apply negb_true_iff in Hc.
  cbn [JsString.split_on]. now rewrite Hc, (IH Hs).
Qed.

Lemma last_split_on_lacks (sep : ascii) (s : list ascii) :
  lacks_chars sep (default [] (last (JsString.split_on sep s))) = true.
Proof.
  destruct (last (JsString.split_on sep s)) as [line |] eqn:Hlast; [| reflexivity].
  apply (split_on_lacks sep s). apply last_Some_elem_of. exact Hlast.
Qed.

End LineBuffer.

(** X25. The browser client's reading of the event stream does not
    depend on how the network cuts the stream into chunks: the
    callbacks it invokes are those of the lines of the whole text, in
    order (an event may arrive in any number of pieces).  The text after
    the last line feed is never dispatched. *)
Theorem read_stream_by_lines (JSON_parse : string -> option json) (chunks : list string) :
  ApiClient.read_stream JSON_parse chunks []
  = omap (ApiClient.dispatch_line JSON_parse)
         (removelast (JsString.split_on "010" (JsString.chars (String.concat "" chunks)))).
Proof.
  assert (Hgeneral : forall buffer,
             lacks_chars "010" buffer = true ->
             ApiClient.read_stream JSON_parse chunks buffer
             = omap (ApiClient.dispatch_line JSON_parse)
                    (removelast (JsString.split_on "010"
                                   (buffer ++ JsString.chars (String.concat "" chunks))))).
  { induction chunks as [| chunk chunks IH]; intros buffer Hbuffer.
    - cbn [ApiClient.read_stream String.concat JsString.chars list_ascii_of_string].
      rewrite app_nil_r, (split_on_single _ _ Hbuffer). reflexivity.
    - cbn [ApiClient.read_stream]. rewrite (IH _ (last_split_on_lacks _ _)).
      rewrite concat_cons, chars_append, app_assoc.
      rewrite (split_on_resume "010" (buffer ++ JsString.chars chunk)).
      rewrite removelast_app by apply split_on_nonempty.
      now rewrite omap_app. }
  exact (Hgeneral [] eq_refl).
Qed.

(** ** What a call leaves in the cache *)

(** X26. [getFileTree] writes to the cache only when it returns a tree
    it has just fetched, and then only under the key of its arguments;
    a call that throws leaves the cache as it was (a failure is not
    remembered), and no call removes an entry, an expired one
    included. *)
Theorem getFileTree_cache_update
    (env : Environment) (owner repo : string) (branch token : option string)
    (w : World) (r : outcome (list FileEntry)) (w' : World) :
  GithubService.getFileTree env owner repo branch token w = (r, w') ->
  match r with
  | Thrown _ => fileTreeCache w' = fileTreeCache w
  | Returned files =>
      fileTreeCache w' = fileTreeCache w
      \/ fileTreeCache w'
         = <[GithubService.cacheKey owner repo branch := (files, now w')]> (fileTreeCache w)
  end.
Proof.
  assert (Hmiss : forall w r w',
             GithubService.fetchFileTree env owner repo branch token w = (r, w') ->
             match r with
             | Thrown _ => fileTreeCache w' = fileTreeCache w
             | Returned files =>
                 fileTreeCache w'
                 = <[GithubService.cacheKey owner repo branch := (files, now w')]>
                     (fileTreeCache w)
             end).
  { clear w r w'. intros w r w' Hrun. unfold GithubService.fetchFileTree in Hrun.
    assert (Hbranch : forall target wb rb,
               (if truthy_string branch then ret (default "" branch)
                else let* info := GithubService.validateRepo env owner repo token in
                     ret (defaultBranch info)) w = (rb, wb) ->
               rb = Returned target ->
               fileTreeCache wb = fileTreeCache w).
    { intros target wb rb Hb _. destruct (truthy_string branch).
      - now injection Hb as _ <-.
      - unfold bind in Hb. rewrite validateRepo_run in Hb.
        destruct (repos_get env _ _ _ _); now injection Hb as _ <-. }
    apply try_catch_inv in Hrun as [(files & Hbody & ->) | (e & w1 & Hbody & Hcatch)].
    - apply bind_inv in Hbody as [(target & wb & Hb & Hbody) | (e & _ & Hthrown)];
        [| discriminate Hthrown].
      apply (Hbranch target) in Hb; [| reflexivity].
      unfold bind, GithubService.octokit_git_getTree in Hbody.
      rewrite octokit_request_run in Hbody.
      destruct (git_getTree env _ _ _ _ _) as [e | tree]; [discriminate Hbody |].
      cbn in Hbody. injection Hbody as <- <-. cbn. now rewrite Hb.
    - assert (Hcache : fileTreeCache w1 = fileTreeCache w).
      { apply bind_inv in Hbody as [(target & wb & Hb & Hbody) | (e' & Hb & _)].
        - apply (Hbranch target) in Hb; [| reflexivity].
          unfold bind, GithubService.octokit_git_getTree in Hbody.
          rewrite octokit_request_run in Hbody.
          destruct (git_getTree env _ _ _ _ _) as [e' | tree].
          + injection Hbody as _ <-. exact Hb.
          + discriminate Hbody.
        - destruct (truthy_string branch); [discriminate Hb |].
          unfold bind in Hb. rewrite validateRepo_run in Hb.
          destruct (repos_get env _ _ _ _); [| discriminate Hb].
          now injection Hb as _ <-. }
      destruct (bool_decide (status e = Some 404));
        [| destruct (bool_decide (status e = Some 409))];
        injection Hcatch as <- <-; exact Hcache. }
  unfold GithubService.getFileTree, bind, cache_get. intros Hrun.
  destruct (fileTreeCache w !! GithubService.cacheKey owner repo branch)
    as [[data timestamp] |].
  - cbn in Hrun. destruct (bool_decide (now w - timestamp < GithubService.CACHE_TTL)).
    + injection Hrun as <- <-. now left.
    + apply Hmiss in Hrun. destruct r; [now right | exact Hrun].
  - apply Hmiss in Hrun. destruct r; [now right | exact Hrun].
Qed.

(** The tree of [acme/shop] asked from a provider that is rate limited,
    with the tree in the cache for six minutes: the call throws and the
    expired entry stays. *)
Lemma getFileTree_cache_update_sample :
  exists error w',
    GithubService.getFileTree Samples.throttled "acme" "shop" None None
      (later 360000 SampleRuns.listed) = (Thrown error, w')
    /\ fileTreeCache w' = fileTreeCache SampleRuns.listed.
Proof.
  destruct (GithubService.getFileTree Samples.throttled "acme" "shop" None None
              (later 360000 SampleRuns.listed)) as [[files | error] w'] eqn:Hrun;
    [apply (f_equal fst) in Hrun; vm_compute in Hrun; discriminate Hrun |].
  exists error, w'. split; [reflexivity |].
  exact (getFileTree_cache_update Samples.throttled "acme" "shop" None None
           (later 360000 SampleRuns.listed) (Thrown error) w' Hrun).
Defined.

(** ** The requests of a run *)

Section RunRequests.

Variable env : Environment.
Variables owner repo apiKey : string.
Variable token : option string.

Let okCall : NetCall -> bool :=
  run_request (GithubService.createOctokit env token) owner repo apiKey.

Let ok (w w' : World) : Prop := advances okCall any_event w w'.

Lemma provider_request_ok (c : NetCall) :
  (c = ReposGet (GithubService.createOctokit env token) owner repo
   \/ (exists sha, c = GitGetTree (GithubService.createOctokit env token) owner repo sha)
   \/ (exists path, c = ReposGetContent (GithubService.createOctokit env token) owner repo path)) ->
  okCall c = true.
Proof.
  intros [-> | [[sha ->] | [path ->]]]; unfold okCall; cbn;
    now rewrite !bool_decide_eq_true_2 by reflexivity.
Qed.

Lemma requests_octokit {R} (c : NetCall) (answer : list NetCall -> JsError + R) :
  okCall c = true -> keeps ok (GithubService.octokit_request env c answer).
Proof.
  intros Hc w r w' H. rewrite octokit_request_run in H. injection H as _ <-.
  now apply advances_after_request.
Qed.

Lemma requests_validateRepo : keeps ok (GithubService.validateRepo env owner repo token).
Proof.
  unfold GithubService.validateRepo, GithubService.octokit_repos_get.
  repeat ((apply requests_octokit, provider_request_ok; eauto) || frame_step).
Qed.

Lemma requests_getFileTree (branch : option string) :
  keeps ok (GithubService.getFileTree env owner repo branch token).
Proof.
  unfold GithubService.getFileTree, GithubService.fetchFileTree,
    GithubService.octokit_git_getTree.
  repeat (apply requests_validateRepo
          || (apply requests_octokit, provider_request_ok; eauto) || frame_step).
Qed.

Lemma requests_getFileContent (path : string) :
  keeps ok (GithubService.getFileContent env owner repo path token).
Proof.
  unfold GithubService.getFileContent, GithubService.octokit_repos_getContent.
  repeat ((apply requests_octokit, provider_request_ok; eauto) || frame_step).
Qed.

Lemma requests_fetch_one (path : string) :
  keeps ok (GithubService.fetch_one env owner repo token path).
Proof.
  unfold GithubService.fetch_one. repeat (apply requests_getFileContent || frame_step).
Qed.

Lemma requests_callback (onProgress : option GithubService.ProgressCallback)
    (priority : PriorityLevel) :
  onProgress = None \/ onProgress = Some (AnalysisService.report_progress priority) ->
  forall callback, onProgress = Some callback ->
  forall current total path, keeps ok (callback current total path).
Proof.
  intros [-> | ->] callback H; [discriminate H |]. injection H as <-.
  intros current total path.
  unfold AnalysisService.report_progress, AnalysisService.sendStatus,
    AnalysisService.sendFileEvent.
  apply frame_bind; [| intros _]; now apply frame_sendSSE.
Qed.

Lemma requests_process_results (results : list GithubService.BatchResult) (total : Z)
    (onProgress : option GithubService.ProgressCallback) (priority : PriorityLevel)
    (contents : list FileContent) (processedCount : Z) :
  onProgress = None \/ onProgress = Some (AnalysisService.report_progress priority) ->
  keeps ok (GithubService.process_results results total onProgress contents processedCount).
Proof.
  intros Hcb. revert contents processedCount.
  induction results as [| result results IH]; intros contents processedCount; cbn.
  - apply frame_ret.
  - apply frame_bind; [| intros _; apply IH].
    destruct onProgress as [callback |] eqn:Hon; [| apply frame_ret].
    now apply (requests_callback (Some callback) priority Hcb).
Qed.

Lemma requests_batch_loop (fuel : nat) (total : Z)
    (onProgress : option GithubService.ProgressCallback) (priority : PriorityLevel)
    (rest : list string) (contents : list FileContent) (processedCount : Z) :
  onProgress = None \/ onProgress = Some (AnalysisService.report_progress priority) ->
  keeps ok (GithubService.batch_loop env fuel owner repo token total onProgress
              rest contents processedCount).
Proof.
  intros Hcb. revert rest contents processedCount.
  induction fuel as [| fuel IH]; intros rest contents processedCount; cbn.
  - destruct rest; apply frame_ret.
  - destruct rest as [| path rest]; [apply frame_ret |].
    apply frame_bind; [apply frame_map_all; intros ?; apply requests_fetch_one | intros results].
    apply frame_bind; [now apply (requests_process_results _ _ _ priority)
                      | intros [contents' processed']].
    apply frame_bind; [| intros _; apply IH].
    destruct (drop _ _); [apply frame_ret | apply frame_sleep].
Qed.

Lemma requests_getFilesForPriority (tier : PriorityLevel) (maxFiles : Z)
    (onProgress : option GithubService.ProgressCallback) (priority : PriorityLevel) :
  onProgress = None \/ onProgress = Some (AnalysisService.report_progress priority) ->
  keeps ok (GithubService.getFilesForPriority env owner repo tier maxFiles onProgress token).
Proof.
  intros Hcb. unfold GithubService.getFilesForPriority.
  apply frame_bind; [apply requests_getFileTree | intros allFiles].
  apply frame_bind; [| intros files; apply frame_ret].
  unfold GithubService.getFilesContents. now apply (requests_batch_loop _ _ _ priority).
Qed.

Lemma requests_analyze_with_ai (priority : PriorityLevel) (files : list FileContent) :
  keeps ok (AnalysisService.analyze_with_ai env apiKey priority files).
Proof.
  unfold AnalysisService.analyze_with_ai.
  apply frame_bind; [apply frame_for_each; intros file; now apply frame_sendSSE | intros _].
  apply frame_bind; [now apply frame_sendSSE | intros _].
  intros w r w' Hrun. unfold for_await in Hrun.
  destruct (DeepseekService.streamAnalysis env files apiKey priority w)
    as [[events failure] w1] eqn:Hstream.
  assert (Hcall : ok w w1).
  { unfold DeepseekService.streamAnalysis, DeepseekService.fetch_chat in Hstream.
    assert (w1 = after_request (analysis_request env files apiKey priority)
                   (elapsed env (calls w) (analysis_request env files apiKey priority)) w) as ->.
    { unfold analysis_request.
      destruct (chat_completions env _ _ _ _ _) as [e | status errorText | | chunks [e |]];
        try (now injection Hstream as _ <-).
      destruct (bool_decide (status = 401)); [now injection Hstream as _ <- |].
      destruct (bool_decide (status = 429)); now injection Hstream as _ <-. }
    apply advances_after_request. unfold okCall. cbn.
    now rewrite bool_decide_eq_true_2 by reflexivity. }
  destruct (for_each_with events AnalysisService.on_stream_event (0, 0, []) w1)
    as [loop w2] eqn:Hloop.
  assert (Hbody : ok w1 w2).
  { revert Hloop. apply keeps_for_each_with; [apply advances_refl | apply advances_trans |].
    intros state [content | issues inputTokens outputTokens cost]; cbn.
    - apply frame_ret.
    - apply frame_bind; [| intros _; apply frame_ret].
      apply frame_for_each. intros issue. now apply frame_sendSSE. }
  assert (w' = w2) as -> by (destruct loop, failure; now injection Hrun as _ <-).
  exact (advances_trans _ _ _ _ _ Hcall Hbody).
Qed.

Lemma requests_analyze_files (priority : PriorityLevel) (files : list FileContent) :
  keeps ok (AnalysisService.analyze_files env owner repo apiKey priority token files).
Proof.
  unfold AnalysisService.analyze_files.
  apply frame_bind; [apply requests_analyze_with_ai | intros [[inputTokens outputTokens] issues]].
  apply frame_bind; [| intros estimate; now apply frame_sendSSE].
  unfold AnalysisService.estimate_next.
  destruct (AnalysisService.next_priority priority) as [nextPriority |]; [| apply frame_ret].
  apply frame_bind; [| intros [nextFiles nextTotal]; apply frame_ret].
  apply (requests_getFilesForPriority _ _ None priority). now left.
Qed.

(** The requests added between two worlds are requests of the run. *)
Let rq (w w' : World) : Prop :=
  exists requests, calls w' = (calls w ++ requests)%list /\ forallb okCall requests = true.

Lemma rq_refl (w : World) : rq w w.
Proof. exists []. now rewrite app_nil_r. Qed.

Lemma rq_trans (w1 w2 w3 : World) : rq w1 w2 -> rq w2 w3 -> rq w1 w3.
Proof.
  intros (cs1 & Hc1 & Hk1) (cs2 & Hc2 & Hk2). exists (cs1 ++ cs2)%list.
  now rewrite Hc2, Hc1, <- app_assoc, forallb_app, Hk1, Hk2.
Qed.

Lemma keeps_rq_of_ok {A} (m : M A) : keeps ok m -> keeps rq m.
Proof. intros Hm w r w' H. now destruct (Hm w r w' H) as (Hcalls & _). Qed.

Lemma keeps_rq_res_end : keeps rq res_end.
Proof.
  intros w r w' H. injection H as _ <-. exists []. cbn. now rewrite app_nil_r.
Qed.

Lemma keeps_rq_send (event : SSEEvent) : keeps rq (AnalysisService.sendSSE event).
Proof. now apply keeps_rq_of_ok, frame_sendSSE. Qed.

Lemma requests_try_block (repoUrl : string) (priority : PriorityLevel) :
  GithubService.parseGitHubUrl repoUrl = Some (owner, repo) ->
  keeps rq (AnalysisService.try_block env repoUrl apiKey priority token).
Proof.
  intros Hurl. unfold AnalysisService.try_block. rewrite Hurl.
  apply (keeps_bind _ rq_trans); [apply keeps_rq_send | intros _].
  apply (keeps_bind _ rq_trans).
  { apply (keeps_try_catch _ rq_trans).
    - apply (keeps_bind _ rq_trans);
        [apply keeps_rq_of_ok, requests_validateRepo | intros info; apply (keeps_ret _ rq_refl)].
    - intros error.
      apply (keeps_bind _ rq_trans); [apply keeps_rq_send | intros _].
      apply (keeps_bind _ rq_trans);
        [apply keeps_rq_res_end | intros _; apply (keeps_ret _ rq_refl)]. }
  intros [repoInfo |]; [| apply (keeps_ret _ rq_refl)].
  destruct (isPrivate repoInfo && negb (truthy_string token)).
  { apply (keeps_bind _ rq_trans); [apply keeps_rq_send | intros _; apply keeps_rq_res_end]. }
  apply (keeps_bind _ rq_trans); [apply keeps_rq_send | intros _].
  apply (keeps_bind _ rq_trans).
  { apply keeps_rq_of_ok, (requests_getFilesForPriority _ _ _ priority). now right. }
  intros [[| file files] totalMatching].
  - apply (keeps_bind _ rq_trans); [apply keeps_rq_send | intros _].
    apply (keeps_bind _ rq_trans); [apply keeps_rq_send | intros _; apply keeps_rq_res_end].
  - apply keeps_rq_of_ok, requests_analyze_files.
Qed.

Lemma requests_analyzeRepository (repoUrl : string) (priority : PriorityLevel) :
  GithubService.parseGitHubUrl repoUrl = Some (owner, repo) ->
  keeps rq (AnalysisService.analyzeRepository env repoUrl apiKey priority token).
Proof.
  intros Hurl w r w' Hrun. unfold AnalysisService.analyzeRepository, try_finally in Hrun.
  destruct (try_catch _ _ w) as [r1 w1] eqn:Htry. cbn in Hrun. injection Hrun as _ <-.
  assert (Hw1 : rq w w1).
  { revert Htry. apply (keeps_try_catch _ rq_trans); [now apply requests_try_block |].
    intros error. unfold AnalysisService.report_failure, AnalysisService.sendError.
    destruct (JsString.includes (message error) "API key");
      [| destruct (JsString.includes (message error) "rate limit")];
      apply keeps_rq_send. }
  exact Hw1.
Qed.

End RunRequests.

(** X28. A run talks to the hosting provider about the repository its
    URL names and no other, always with the same credential (the
    caller's token, or the server's when the caller has none), and sends
    the caller's AI key to the AI service only, in streamed requests:
    every request it issues is of one of these two kinds. *)
Theorem analyzeRepository_requests
    (env : Environment) (repoUrl apiKey : string) (priority : PriorityLevel)
    (githubToken : option string) (w0 : World) (owner repo : string)
    (r : outcome unit) (w' : World) :
  GithubService.parseGitHubUrl repoUrl = Some (owner, repo) ->
  AnalysisService.analyzeRepository env repoUrl apiKey priority githubToken w0 = (r, w') ->
  exists requests,
    calls w' = (calls w0 ++ requests)%list
    /\ forallb (run_request (GithubService.createOctokit env githubToken) owner repo apiKey)
               requests = true.
Proof.
  intros Hurl Hrun.
  exact (requests_analyzeRepository env owner repo apiKey githubToken repoUrl priority Hurl
           w0 r w' Hrun).
Qed.

(** The tier-1 run on [acme/shop]: six requests. *)
Lemma analyzeRepository_requests_sample :
  exists requests,
    calls (snd (AnalysisService.analyzeRepository Samples.shop Samples.shop_url "sk-sample" P1
                  None Samples.fresh))
    = (calls Samples.fresh ++ requests)%list
    /\ length requests = 6%nat
    /\ forallb (run_request None "acme" "shop" "sk-sample") requests = true.
Proof.
  destruct (analyzeRepository_requests Samples.shop Samples.shop_url "sk-sample" P1 None
              Samples.fresh "acme" "shop" _ _ eq_refl
              (surjective_pairing
                 (AnalysisService.analyzeRepository Samples.shop Samples.shop_url "sk-sample"
                    P1 None Samples.fresh)))
    as (requests & Hcalls & Hkind).
  exists requests. split; [exact Hcalls |]. split; [| exact Hkind].
  apply (f_equal (@length NetCall)) in Hcalls. rewrite length_app in Hcalls.
  assert (Hlen : length (calls (snd (AnalysisService.analyzeRepository Samples.shop
                                       Samples.shop_url "sk-sample" P1 None Samples.fresh)))
                 = 6%nat) by (vm_compute; reflexivity).
  rewrite Hlen in Hcalls. change (length (calls Samples.fresh)) with 0%nat in Hcalls. lia.
Defined.
